(* ===== verification/_CoqProject ===== *)
-Q . S2P
Prelude.v
Cpp.v
Double.v
Log.v
OS.v
OpenSSL.v
Sim.v
Connection.v
TCPConnection.v
SSLConnection.v
TransportSpec.v
Session.v
LineSession.v
LineSessionSpec.v
LineCuts.v
Threads.v
ThreadsSpec.v
Worker.v
WorkerSpec.v
Poller.v
SimPoll.v
PollerSpec.v
Server.v
ServerSpec.v
TCPServer.v
TCPServerSpec.v
Network.v
PollerNet.v
Delivery.v
Conversation.v
Idle.v
SimNet.v
Client.v
ClientSpec.v
Apps.v
EchoServers.v
Init.v
Getopt.v
GetoptSpec.v
GetoptRef.v
GetoptSim.v
GetoptRun.v
GetoptSpell.v
LoadTest.v
LoadTestSpec.v
LoadTestArgs.v
LoadMain.v
LoadMainSpec.v
ClientLife.v
EndToEnd.v
Scenarios.v
LoadScenarios.v
DeliveryScenarios.v
LineScenarios.v
