(* ===== verification/Prelude.v ===== *)
(** * A verified model of neblina2

    neblina2 is a C++ library for text servers over TCP and TLS: a [Server]
    polls its listener and its clients, hands each client to a [ThreadManager]
    that owns its [Session], and the session turns received bytes into calls of
    a [Protocol]'s [process].  This development is a shallow embedding of the
    library, its clients and its programs, with the theorems that say what they
    guarantee and where they do not.

    ** How the model is built

    A C++ call is a computation [M S A], a function from a state to an outcome
    and a state (this file): a value, an exception in flight, undefined
    behaviour, or the end of the fuel of a modelled loop.  The state outlives an
    exception, as C++ objects do, and [unwinding] runs the destructor of the
    completed base class when a constructor's body throws.  Virtual classes are
    type classes of operations ([ConnectionOps], [SessionOps], [PollerOps],
    [ServerOps], [ClientOps]), a client is modelled and proved against the
    class, and a second class ([ConnectionSpec], [SessionSpec], [PollerSpec],
    [ServerSpec], [ClientSpec]) states what it promises; each implementation
    gives an instance of both.

    The operating system and OpenSSL are parameters ([OS.Kernel],
    [OpenSSL.OpenSSL], the epoll, kqueue and WSAPoll classes of [Poller]).  The
    laws the theorems rely on are documented behaviour, stated over a [view] of
    the kernel: the open descriptors, the application bytes received and sent on
    every connection, and what each polling instance watches.  [Sim] and
    [SimPoll] are a scripted environment that satisfies every law; the theorems
    with hypotheses are applied to it.

    ** The files

    - [Cpp], [Log]: what the sources use of the C++ library (find, erase,
      substr, to_string, format, the integer casts); util/log.
    - [OS], [OpenSSL], [Sim], [SimPoll]: the environment.
    - [Connection], [TCPConnection], [SSLConnection]: server/connection.hh and
      its two implementations.  [TransportSpec]: what [send] puts on the wire
      under partial writes, when it ends, and every result of [recv].
    - [Session], [LineSession]: protocol/.  [LineSession.extract] is the cutting
      of the buffer without the protocol; [LineSessionSpec] refines the loop to
      it: no input byte is lost, a whole conversation is answered in order, and
      exactly which buffers are cut completely.  [LineCuts]: the lines of a whole
      conversation, however its bytes were divided into iterations.
    - [Threads]: thread/ with every method as one critical section, and
      [ThreadsSpec]: the vector of threads behaves as one map of sessions with
      a queue per worker.  [ThreadManager.destroy] is the destruction of the
      threads, over what their workers do until they are joined ([ending]).
      [Worker]: a step machine of the worker's loop against a caller, lock by
      lock, with the destructor; a destroyed member in use is undefined
      behaviour, and ends a run.  [WorkerSpec]: mutual exclusion, linearization
      to the critical sections of [Threads], FIFO service, the bounds after a
      stop, and the race of the destructor.
    - [Poller]: the three pollers of server/poller/.  [PollerSpec]: the
      contract, its proof for epoll and kqueue through the loop they share, the
      events of a wait, what WSAPoll violates.
    - [Server]: server/server.hh and .cc; [Server.Machine] is the server's thread
      as a step relation, interleaved with the workers and with [stop].
      [ServerSpec]: the invariant of descriptors, watched set and sessions in
      every interleaving; no event without a session; [run] is a run of the
      machine; the destructor closes everything, short of the race of a worker or
      an exception in one; what an exception does.
    - [TCPServer] (with SSLServer): server/tcp/tcpserver.cc,
      server/ssl/sslserver.cc and util/socket.cc.  [TCPServerSpec]: who owns the
      descriptor when each constructor returns or throws.
    - [Network]: the bytes that have arrived and are not received, and the edges
      of an epoll instance, with what the parts of the server do to them.
      [PollerNet]: what the epoll and the kqueue poller report of what arrives.
      [Delivery]: the machine of [Server] with arrivals between its steps; at
      rest nothing is unread, and what an edge-triggered poller leaves unread.
      [Conversation]: a contract of a session with its own connection holds of
      every session of a server; with [Delivery], all that has arrived is part
      of it at rest.  For line sessions it is the conversation: the lines,
      answered in order.  [Idle]: an edge-triggered poller reports no more events
      than arrivals and acceptances.  [EchoServers]: the load test's server sends every
      request back.
    - [Client], [ClientSpec]: client/.  [Apps]: main.cc, demo/,
      loadtest/server.cc and the protocol of tests/.  [Init]: init.cc.
    - [Getopt]: loadtest/ya_getopt.c, function by function over its globals,
      its static variables and the array [argv].  [GetoptSpec]: the rotation of
      [argv] and the safety of every call.  [GetoptRef]: a reference parser that
      reads the words once, for each of the three functions and in the GNU, the
      POSIX and the in-order mode, with its laws.  [GetoptSim]: the loop of a
      caller simulates it.
      [GetoptRun]: the theorems for a caller: safety of any calls, equivalence
      with the reference, [ya_optarg] as it is after every call, well-typed
      results.  [GetoptSpell]: command lines are
      printed and parsed back.
    - [Double]: the division and the [%0.2f] of the report, with the bound of
      their roundings.
    - [LoadTest]: loadtest/loadtest.cc up to one attempt and the report;
      [LoadTestSpec] its theorems, [LoadTestArgs] those of [parse_args], with the
      round trip of a configuration.  [LoadMain]: the server process and [main]
      as a step relation of its threads, lock by lock; [LoadMainSpec]: the number
      of results, the exit status, termination, no data race, what an exception
      does.  [ClientLife]: who closes a client's descriptor, from both
      constructors to the end of the loop body.  [EndToEnd]: an attempt against the
      whole running server, joined by a network.
    - [Scenarios], [LoadScenarios], [DeliveryScenarios], [LineScenarios]: runs of
      whole programs by evaluation, and the theorems applied to them; [SimNet] is
      a network with an epoll that satisfies the laws of [Network].

    ** Fuel and bounds

    Three kinds of C++ loop have no structural argument.  The send loops take a
    fuel of passes: [TransportSpec.tcp_send_terminates] shows that one per byte
    and one more are enough when every successful write makes progress, and
    [ssl_send_zero_stuck] that nothing is enough otherwise.  The line loop takes
    a fuel above the length of the buffer, which [LineSessionSpec] shows enough
    for a non-empty separator.  [recv_spinlock] takes one pass per nanosecond of
    its timeout, times the period of the ticks of its clock in readings
    ([ClientSpec.recv_spinlock_terminates]; [ClientSpec.ClockTicks] is what
    steady_clock promises).  [Server.run] is driven
    by a list that says for each pass whether [stop] is called during it, so its
    length is the number of passes.  Counts returned by the system and the [int]
    passed to SSL_write are integers with their casts written out ([Cpp.to_int]);
    buffers have the 16 KiB of the sources, and lengths in memory are [nat].  The
    loops of ya_getopt are structural; the loop of its caller takes one unit of
    fuel a call, and one per byte of the command line (the nulls counted) and one
    more are enough ([GetoptRun.getopt_loop_parses]).

    ** What is not modelled

    The C++ memory model below a critical section: fields are accessed
    sequentially under the lock that the sources take, and [running_] is atomic.
    In [Worker] the one caller is the server's thread, the only one that calls
    the thread manager; [notify_one] only marks the waiting worker, and a wait
    can end at any time.  A run that is undefined in C++ ends there, and nothing
    is said of what may follow.  The thread behind [recv_future] is its result.  In
    [LoadMain] an attempt runs in a world the steps do not fix, which stands for
    what the other threads and the server do meanwhile; the client is destroyed
    in a step of its own, behind the critical section.  An exception of a thread
    is [std::terminate], and whether it unwinds is not said.  A failure to create
    a thread is not modelled.  The reference of ya_getopt describes a loop over one of
    its three functions with one declaration; for any other sequence of calls
    there is their safety.  The laws of [Network] are those of plain sockets: a
    TLS connection reads records, and bytes wait inside OpenSSL, so [Delivery] and
    [Conversation] are for the TCP server.  The
    cryptography of OpenSSL and the contents of keys and certificates are
    parameters.  Formatting is that of the strings the sources pass ([Cpp.format]
    replaces braces).  The vendored doctest and the test cases themselves are left
    out. *)

From Stdlib Require Export ZArith Lia Ascii String.
From stdpp Require Export base tactics option list list_numbers gmap strings relations.

#[export] Set Default Goal Selector "!".
#[export] Set Warnings "-clear-no-such-hyp".

Declare Scope neblina_scope.
Delimit Scope neblina_scope with neb.
#[global] Open Scope neblina_scope.

(** ** Bytes

    [std::string] is modelled as the list of its characters. *)

Abbreviation bytes := (list ascii) (only parsing).

(** A C++ string literal. *)
Definition lit (s : string) : bytes := String.list_ascii_of_string s.
Arguments lit _ : simpl never.

Abbreviation CR := (Ascii.ascii_of_nat 13) (only parsing).
Abbreviation LF := (Ascii.ascii_of_nat 10) (only parsing).
Abbreviation NUL := (Ascii.ascii_of_nat 0) (only parsing).
Abbreviation ESC := (Ascii.ascii_of_nat 27) (only parsing).

Definition crlf : bytes := [CR; LF].

(** ** Outcomes

    The three ways a C++ call can end, and the one way a fuelled loop of the
    model can stop early: a value, an exception in flight, undefined behaviour,
    or no fuel left. *)

Inductive exn : Type :=
  | NonRecoverableException (what : bytes)
  | runtime_error (what : bytes)
  | out_of_range.

Inductive outcome (A : Type) : Type :=
  | Ret (a : A)
  | Throw (e : exn)
  | UB
  | NoFuel.
Arguments Ret {A} a.
Arguments Throw {A} e.
Arguments UB {A}.
Arguments NoFuel {A}.

#[export] Instance exn_eq_dec : EqDecision exn.
Proof. solve_decision. Defined.

#[export] Instance outcome_eq_dec {A} `{EqDecision A} : EqDecision (outcome A).
Proof. solve_decision. Defined.

#[export] Instance outcome_fmap : FMap outcome := λ A B f o,
  match o with
  | Ret a => Ret (f a)
  | Throw e => Throw e
  | UB => UB
  | NoFuel => NoFuel
  end.

(** The call came back to its caller with a value. *)
Definition is_ret {A} (o : outcome A) : bool :=
  match o with Ret _ => true | _ => false end.

(** ** The state and exception monad

    The state survives an exception, as the objects of a C++ program do. *)

Definition M (S A : Type) : Type := S → outcome A * S.

#[export] Instance M_ret {S} : MRet (M S) := λ A a s, (Ret a, s).

#[export] Instance M_bind {S} : MBind (M S) := λ A B f m s,
  match m s with
  | (Ret a, s') => f a s'
  | (Throw e, s') => (Throw e, s')
  | (UB, s') => (UB, s')
  | (NoFuel, s') => (NoFuel, s')
  end.

#[export] Typeclasses Opaque M.

Section M_ops.
Context {S : Type}.

Definition raise {A} (e : exn) : M S A := λ s, (Throw e, s).
Definition undefined {A} : M S A := λ s, (UB, s).
Definition out_of_fuel {A} : M S A := λ s, (NoFuel, s).
Definition get : M S S := λ s, (Ret s, s).
Definition gets {A} (f : S → A) : M S A := λ s, (Ret (f s), s).
Definition modify (f : S → S) : M S unit := λ s, (Ret (), f s).
Definition when (b : bool) (m : M S unit) : M S unit :=
  if b then m else mret ().

(** Stack unwinding: an exception that leaves [m] runs the destructor [d] of
    a complete subobject on its way. *)
Definition unwinding {A} (m : M S A) (d : M S unit) : M S A := λ s,
  match m s with
  | (Throw e, s') => (d ;; raise e) s'
  | r => r
  end.

(** A range-based [for] loop without early exit. *)
Fixpoint for_each {A} (l : list A) (body : A → M S unit) : M S unit :=
  match l with
  | [] => mret ()
  | x :: l => body x ;; for_each l body
  end.
End M_ops.

(** Running a computation on one component of a larger state. *)
Definition zoom {S T A} (read : T → S) (write : S → T → T) (m : M S A) : M T A :=
  λ t, let '(o, s) := m (read t) in (o, write s t).

Definition on_fst {S T A} : M S A → M (S * T) A :=
  zoom fst (λ s p, (s, p.2)).
Definition on_snd {S T A} : M T A → M (S * T) A :=
  zoom snd (λ t p, (p.1, t)).

(** ** Laws of the monad *)

Definition M_equiv {S A} (m1 m2 : M S A) : Prop := ∀ s, m1 s = m2 s.
Infix "≈" := M_equiv (at level 70, no associativity) : neblina_scope.

#[export] Instance M_equiv_equivalence {S A} : Equivalence (@M_equiv S A).
Proof.
  split; [done| |].
  - intros m1 m2 H s. done.
  - intros m1 m2 m3 H1 H2 s. by rewrite H1.
Qed.

#[export] Instance M_bind_proper {S A B} :
  Proper (pointwise_relation A M_equiv ==> M_equiv ==> M_equiv)
    (@mbind (M S) M_bind A B).
Proof.
  intros f1 f2 Hf m1 m2 Hm s. unfold mbind, M_bind. rewrite Hm.
  destruct (m2 s) as [[]]; [apply Hf|done..].
Qed.

Section M_laws.
Context {S : Type}.

Lemma M_ret_bind {A B} (a : A) (f : A → M S B) : (mret a ≫= f) ≈ f a.
Proof. done. Qed.

Lemma M_bind_ret {A} (m : M S A) : (m ≫= mret) ≈ m.
Proof. intros s. unfold mbind, M_bind. by destruct (m s) as [[]]. Qed.

Lemma M_bind_assoc {A B C} (m : M S A) (f : A → M S B) (g : B → M S C) :
  ((m ≫= f) ≫= g) ≈ (m ≫= λ a, f a ≫= g).
Proof. intros s. unfold mbind, M_bind. by destruct (m s) as [[]]. Qed.

(** How a bind runs, by the outcome of its first part. *)
Lemma run_bind {A B} (m : M S A) (f : A → M S B) s :
  (m ≫= f) s =
  match m s with
  | (Ret a, s') => f a s'
  | (Throw e, s') => (Throw e, s')
  | (UB, s') => (UB, s')
  | (NoFuel, s') => (NoFuel, s')
  end.
Proof. done. Qed.

Lemma run_bind_ret {A B} (m : M S A) (f : A → M S B) s a s' :
  m s = (Ret a, s') → (m ≫= f) s = f a s'.
Proof. intros H. by rewrite run_bind, H. Qed.

Lemma bind_ret_inv {A B} (m : M S A) (f : A → M S B) s b s'' :
  (m ≫= f) s = (Ret b, s'') →
  ∃ a s', m s = (Ret a, s') ∧ f a s' = (Ret b, s'').
Proof. rewrite run_bind. destruct (m s) as [[]]; naive_solver. Qed.

Lemma unwinding_ret {A} (m : M S A) d s a s' :
  m s = (Ret a, s') → unwinding m d s = (Ret a, s').
Proof. intros H. unfold unwinding. by rewrite H. Qed.

Lemma unwinding_inv {A} (m : M S A) d s a s' :
  unwinding m d s = (Ret a, s') → m s = (Ret a, s').
Proof.
  unfold unwinding. destruct (m s) as [[| | |] s1]; try done.
  rewrite run_bind. by destruct (d s1) as [[]].
Qed.

Lemma for_each_app {A} (l1 l2 : list A) (f : A → M S unit) :
  for_each (l1 ++ l2) f ≈ (for_each l1 f ;; for_each l2 f).
Proof.
  induction l1 as [|x l1 IH]; [done|]. intros s. simpl.
  rewrite !run_bind. destruct (f x s) as [[] s']; [|done..]. apply IH.
Qed.
End M_laws.

Lemma on_snd_inv {S T A} (m : M T A) (s : S) t o x :
  on_snd m (s, t) = (o, x) → ∃ t', m t = (o, t') ∧ x = (s, t').
Proof. unfold on_snd, zoom. cbn. destruct (m t) as [o1 t1]. intros [= <- <-]. eauto. Qed.

(** ** Relations kept by a computation

    [preserves R m]: whatever its outcome, [m] moves the state along [R].  The
    rules below compose for a preorder [R]; they are hints of [preserves]. *)

Definition preserves {S A} (R : relation S) (m : M S A) : Prop :=
  ∀ s, R s (m s).2.

Create HintDb preserves discriminated.
Create HintDb view discriminated.

Section preserves.
Context {S : Type} (R : relation S) `{!PreOrder R}.

Lemma preserves_ret {A} (a : A) : preserves R (mret a).
Proof. intros s. reflexivity. Qed.
Lemma preserves_raise {A} e : preserves R (raise (A:=A) e).
Proof. intros s. reflexivity. Qed.
Lemma preserves_undefined {A} : preserves R (undefined (A:=A)).
Proof. intros s. reflexivity. Qed.
Lemma preserves_out_of_fuel {A} : preserves R (out_of_fuel (A:=A)).
Proof. intros s. reflexivity. Qed.
Lemma preserves_gets {A} (f : S → A) : preserves R (gets f).
Proof. intros s. reflexivity. Qed.
Lemma preserves_get : preserves R get.
Proof. intros s. reflexivity. Qed.
Lemma preserves_bind {A B} (m : M S A) (f : A → M S B) :
  preserves R m → (∀ a, preserves R (f a)) → preserves R (m ≫= f).
Proof.
  intros Hm Hf s. rewrite run_bind. specialize (Hm s).
  destruct (m s) as [[a| | |] s']; [|done..]. etrans; [done|apply Hf].
Qed.
Lemma preserves_when b (m : M S unit) :
  preserves R m → preserves R (when b m).
Proof. destruct b; [done|]. intros _. apply preserves_ret. Qed.
Lemma preserves_unwinding {A} (m : M S A) d :
  preserves R m → preserves R d → preserves R (unwinding m d).
Proof.
  intros Hm Hd s. unfold unwinding. specialize (Hm s).
  destruct (m s) as [[| | |] s']; simpl in *; try done.
  etrans; [exact Hm|]. apply (preserves_bind d (λ _, raise e)); [done|].
  intros. apply preserves_raise.
Qed.
Lemma preserves_for_each {A} (l : list A) (f : A → M S unit) :
  (∀ x, preserves R (f x)) → preserves R (for_each l f).
Proof.
  intros Hf. induction l as [|x l IH]; [apply preserves_ret|].
  apply preserves_bind; [apply Hf|done].
Qed.
End preserves.

#[export] Hint Resolve preserves_ret preserves_raise preserves_undefined
  preserves_out_of_fuel preserves_gets preserves_get preserves_bind
  preserves_when preserves_unwinding preserves_for_each : preserves.

(** ** Weakest preconditions

    [wp m Q s]: from [s], [m] returns a value and a state of [Q]. *)

Definition wp {S A} (m : M S A) (Q : A → S → Prop) (s : S) : Prop :=
  match m s with (Ret a, s') => Q a s' | _ => False end.

Section wp.
Context {S : Type}.

Lemma wp_ret {A} (a : A) (Q : A → S → Prop) s : Q a s → wp (mret a) Q s.
Proof. done. Qed.
Lemma wp_get (Q : S → S → Prop) s : Q s s → wp get Q s.
Proof. done. Qed.
Lemma wp_modify f (Q : unit → S → Prop) s : Q () (f s) → wp (modify f) Q s.
Proof. done. Qed.
Lemma wp_bind {A B} (m : M S A) (f : A → M S B) Q s :
  wp m (λ a, wp (f a) Q) s → wp (m ≫= f) Q s.
Proof. unfold wp. rewrite run_bind. by destruct (m s) as [[]]. Qed.
Lemma wp_bind_ret {A B} (m : M S A) (f : A → M S B) Q s a s' :
  m s = (Ret a, s') → wp (f a) Q s' → wp (m ≫= f) Q s.
Proof. intros H HQ. apply wp_bind. unfold wp at 1. by rewrite H. Qed.
Lemma wp_when (b : bool) (m : M S unit) (Q : unit → S → Prop) s :
  (if b then wp m Q s else Q () s) → wp (when b m) Q s.
Proof. by destruct b. Qed.
Lemma wp_mono {A} (m : M S A) (Q1 Q2 : A → S → Prop) s :
  wp m Q1 s → (∀ a s', Q1 a s' → Q2 a s') → wp m Q2 s.
Proof. unfold wp. destruct (m s) as [[] ?]; naive_solver. Qed.
Lemma wp_run {A} (m : M S A) Q s : wp m Q s ↔ ∃ a s', m s = (Ret a, s') ∧ Q a s'.
Proof. unfold wp. destruct (m s) as [[] ?]; naive_solver. Qed.
End wp.

(** Walk down a computation to the next call that is not an access to the state. *)
Ltac wp_step :=
  lazymatch goal with
  | |- wp (_ ≫= _) _ _ => refine (wp_bind _ _ _ _ _)
  | |- wp (mret _) _ _ => refine (wp_ret _ _ _ _)
  | |- wp get _ _ => refine (wp_get _ _ _)
  | |- wp (modify _) _ _ => refine (wp_modify _ _ _ _)
  | |- wp (when _ _) _ _ => refine (wp_when _ _ _ _ _)
  | _ => progress cbv beta zeta
  end.
Ltac wp_steps := repeat wp_step.

(** ** Computations that come back

    [ends m]: [m] returns or throws, from every state. *)

Definition ends {S A} (m : M S A) : Prop := ∀ s,
  match (m s).1 with Ret _ | Throw _ => True | UB | NoFuel => False end.

Create HintDb ends discriminated.

Section ends.
Context {S : Type}.

Lemma ends_ret {A} (a : A) : ends (S:=S) (mret a).
Proof. done. Qed.
Lemma ends_raise {A} e : ends (S:=S) (raise (A:=A) e).
Proof. done. Qed.
Lemma ends_gets {A} (f : S → A) : ends (gets f).
Proof. done. Qed.
Lemma ends_bind {A B} (m : M S A) (f : A → M S B) :
  ends m → (∀ a, ends (f a)) → ends (m ≫= f).
Proof.
  intros Hm Hf s. rewrite run_bind. specialize (Hm s).
  destruct (m s) as [[a| | |] s']; [apply Hf|done..].
Qed.
Lemma ends_when b (m : M S unit) : ends m → ends (when b m).
Proof. by destruct b. Qed.
End ends.

#[export] Hint Resolve ends_ret ends_raise ends_gets ends_bind ends_when : ends.

(** ** Lists *)

Definition option_list {A} (o : option A) : list A :=
  match o with Some x => [x] | None => [] end.

(** A prefix that fits in the first part does not depend on the rest. *)
Lemma prefix_within {A} (a b c d : list A) :
  a `prefix_of` b ++ c → length a ≤ length b → a `prefix_of` b ++ d.
Proof.
  intros [x Hx] Hl. apply (f_equal (take (length a))) in Hx.
  rewrite take_app_le, take_app_length in Hx by done.
  rewrite <-(take_drop (length a) b), Hx, <-app_assoc. by apply prefix_app_r.
Qed.

(** ** Tactics *)

Create HintDb lia.
#[export] Hint Extern 10 => lia : lia.

(** Invert an equation between a bind and a returned value. *)
Ltac inv_ret H :=
  let a := fresh "v" in let s := fresh "s" in let E := fresh "E" in
  apply bind_ret_inv in H as (a & s & E & H).

(** Walk down a computation with the rules of [preserves], leaving the calls. *)
Ltac preserves_walk :=
  repeat match goal with
  | |- preserves _ (_ ≫= _) => refine (preserves_bind _ _ _ _ _); [|intros]
  | |- preserves _ (mret _) => apply preserves_ret; apply _
  | |- preserves _ (raise _) => apply preserves_raise; apply _
  | |- preserves _ undefined => apply preserves_undefined; apply _
  | |- preserves _ out_of_fuel => apply preserves_out_of_fuel; apply _
  | |- preserves _ get => apply preserves_get; apply _
  | |- preserves _ (gets _) => apply preserves_gets; apply _
  | |- preserves _ (when _ _) => refine (preserves_when _ _ _ _)
  | |- preserves _ (unwinding _ _) => refine (preserves_unwinding _ _ _ _ _)
  | |- preserves _ (for_each _ _) => refine (preserves_for_each _ _ _ _); intros
  | |- preserves _ (match ?x with _ => _ end) => destruct x eqn:?
  end; try solve [eauto with preserves].

(** Split every [match] in sight, remembering the equations. *)
Ltac split_matches :=
  repeat (case_match; simplify_eq/=; try done).

(** Decide the goal by evaluating it. *)
Ltac by_evaluation := vm_compute; repeat split; reflexivity.
