(* ===== verification/Cpp.v ===== *)
(** * The parts of C++ and its standard library the sources use

    Machine integers with their conversions, the [std::string] operations, the
    [{}] holes of [std::format] and [snprintf]'s decimal printing.  This file
    models the language and its library, not the program. *)

From stdpp Require Import pretty.
From S2P Require Import Prelude.

(** ** Machine integers

    An integer is a [Z] in the range of its type; the conversions wrap. *)

Definition to_size_t (z : Z) : Z := z `mod` 2 ^ 64.
Definition to_int (z : Z) : Z := (z + 2 ^ 31) `mod` 2 ^ 32 - 2 ^ 31.

Definition int_range (z : Z) : Prop := (- 2 ^ 31 ≤ z < 2 ^ 31)%Z.
Definition uint16_range (z : Z) : Prop := (0 ≤ z < 2 ^ 16)%Z.

Lemma to_int_range z : int_range (to_int z).
Proof. unfold int_range, to_int. pose proof (Z.mod_pos_bound (z + 2 ^ 31) (2 ^ 32)). lia. Qed.

Lemma to_int_id z : int_range z → to_int z = z.
Proof. unfold int_range, to_int. intros. rewrite Z.mod_small; lia. Qed.

Lemma to_size_t_id z : (0 ≤ z < 2 ^ 64)%Z → to_size_t z = z.
Proof. intros. unfold to_size_t. by rewrite Z.mod_small. Qed.

Lemma to_size_t_nonneg z : (0 ≤ to_size_t z < 2 ^ 64)%Z.
Proof. unfold to_size_t. apply Z.mod_pos_bound. lia. Qed.

(** ** [std::string] *)

(** [s] starts with [p]. *)
Fixpoint starts_with (p s : bytes) : bool :=
  match p, s with
  | [], _ => true
  | a :: p, b :: s => Ascii.eqb a b && starts_with p s
  | _ :: _, [] => false
  end.

(** The first offset of [needle] in [s]. *)
Fixpoint find_first (needle s : bytes) : option nat :=
  if starts_with needle s then Some 0
  else match s with
       | [] => None
       | _ :: s => S <$> find_first needle s
       end.

(** [s.find(needle, pos)]; [npos] is [None]. *)
Definition string_find (s needle : bytes) (pos : nat) : option nat :=
  if decide (length s < pos) then None
  else (λ j, pos + j) <$> find_first needle (drop pos s).

(** [s.substr(0, n)] and [s.erase(0, n)]: both clamp [n] to the size. *)
Definition string_substr (s : bytes) (n : nat) : bytes := take n s.
Definition string_erase (s : bytes) (n : nat) : bytes := drop n s.

(** [s.resize(n)]. *)
Definition string_resize (s : bytes) (n : nat) : bytes :=
  take n s ++ replicate (n - length s) NUL.

(** A fresh buffer [std::string(n, 0)] whose beginning a system call overwrites. *)
Definition string_buffer (n : nat) : bytes := replicate n NUL.
Definition overwrite (buf data : bytes) : bytes := data ++ drop (length data) buf.

(** [s.c_str()] as C reads it: up to the first NUL. *)
Fixpoint c_str (s : bytes) : bytes :=
  match s with
  | [] => []
  | c :: s => if Ascii.eqb c NUL then [] else c :: c_str s
  end.

(** [std::to_string] and the [%d] of [snprintf]. *)
Definition to_string (z : Z) : bytes := lit (pretty z).

(** [snprintf(buf, size, "%d", z)] followed by a read of [buf] as a C string. *)
Definition snprintf_d (size : nat) (z : Z) : bytes := take (size - 1) (to_string z).

(** [std::format] of a string with [{}] holes, over formatted arguments. *)
Fixpoint format (fmt : bytes) (args : list bytes) : bytes :=
  match fmt with
  | [] => []
  | c :: rest =>
      match rest, args with
      | d :: rest', a :: args' =>
          if Ascii.eqb c "{" && Ascii.eqb d "}" then a ++ format rest' args'
          else c :: format rest args
      | _, _ => c :: format rest args
      end
  end.

(** The [{:13}] of a string argument: padded on the right to 13 columns. *)
Definition pad13 (s : bytes) : bytes := s ++ replicate (13 - length s) " "%char.

(** *** Searching *)

Lemma starts_with_spec p s : starts_with p s = true ↔ p `prefix_of` s.
Proof.
  revert s. induction p as [|a p IH]; intros [|b s]; simpl.
  - split; [intros _; apply prefix_nil|done].
  - split; [intros _; apply prefix_nil|done].
  - split; [done|]. intros H. by apply prefix_nil_not in H.
  - rewrite andb_true_iff, Ascii.eqb_eq, IH. split.
    + intros [-> H]. by apply prefix_cons.
    + intros H. split; [by eapply prefix_cons_inv_1|by eapply prefix_cons_inv_2].
Qed.

Lemma starts_with_app p s : starts_with p (p ++ s) = true.
Proof. apply starts_with_spec. by apply prefix_app_r. Qed.

Lemma find_first_Some needle s j :
  find_first needle s = Some j ↔
  j ≤ length s ∧ needle `prefix_of` drop j s ∧
  ∀ k, k < j → ¬ needle `prefix_of` drop k s.
Proof.
  revert j. induction s as [|c s IH]; intros j; cbn [find_first]; case_match eqn:E.
  - apply starts_with_spec in E. split.
    + intros [= <-]. repeat split; [lia|done|lia].
    + simpl. intros (? & _ & _). f_equal. lia.
  - split; [done|]. intros (_ & H & _). rewrite drop_nil in H.
    apply starts_with_spec in H. congruence.
  - apply starts_with_spec in E. split.
    + intros [= <-]. repeat split; [lia|done|lia].
    + intros (_ & _ & H). destruct j; [done|]. by destruct (H 0); [lia|].
  - apply not_true_iff_false in E. rewrite starts_with_spec in E.
    rewrite fmap_Some. setoid_rewrite IH. split.
    + intros (i & (? & ? & Hi) & ->). repeat split; [simpl; lia|done|].
      intros [|k] ?; [done|]. apply Hi. lia.
    + intros (Hl & Hp & Hk). destruct j as [|j]; [done|]. exists j.
      simpl in Hl. repeat split; [lia|done|]. intros k ?. apply (Hk (S k)). lia.
Qed.

Lemma find_first_None needle s :
  find_first needle s = None ↔ ∀ k, ¬ needle `prefix_of` drop k s.
Proof.
  induction s as [|c s IH]; cbn [find_first]; case_match eqn:E.
  - apply starts_with_spec in E. split; [done|]. intros H. by destruct (H 0).
  - apply not_true_iff_false in E. rewrite starts_with_spec in E.
    split; [|done]. intros _ k. by rewrite drop_nil.
  - apply starts_with_spec in E. split; [done|]. intros H. by destruct (H 0).
  - apply not_true_iff_false in E. rewrite starts_with_spec in E.
    rewrite fmap_None, IH. split.
    + intros H [|k]; [done|apply H].
    + intros H k. apply (H (S k)).
Qed.

Lemma string_find_Some s needle pos j :
  string_find s needle pos = Some j ↔
  pos ≤ j ≤ length s ∧ needle `prefix_of` drop j s ∧
  ∀ k, pos ≤ k < j → ¬ needle `prefix_of` drop k s.
Proof.
  unfold string_find. case_decide as Hl.
  { split; [done|]. intros (? & _). lia. }
  rewrite fmap_Some. setoid_rewrite find_first_Some. split.
  - intros (i & (Hi & Hp & Hk) & ->). rewrite length_drop in Hi.
    rewrite drop_drop in Hp. repeat split; [lia|lia|done|].
    intros k ?. specialize (Hk (k - pos)). rewrite drop_drop in Hk.
    replace (pos + (k - pos)) with k in Hk by lia. apply Hk. lia.
  - intros (? & Hp & Hk). exists (j - pos). rewrite length_drop, drop_drop.
    replace (pos + (j - pos)) with j by lia. repeat split; [lia|done|].
    intros k ?. rewrite drop_drop. apply Hk. lia.
Qed.

Lemma string_find_None s needle pos :
  needle ≠ [] →
  string_find s needle pos = None ↔ ∀ k, pos ≤ k → ¬ needle `prefix_of` drop k s.
Proof.
  intros Hne. unfold string_find. case_decide as Hl.
  - split; [|done]. intros _ k ? Hp. rewrite drop_ge in Hp by lia.
    destruct needle; [done|]. by apply prefix_nil_not in Hp.
  - rewrite fmap_None, find_first_None. setoid_rewrite drop_drop. split.
    + intros H k ?. specialize (H (k - pos)).
      by replace (pos + (k - pos)) with k in H by lia.
    + intros H k. apply H. lia.
Qed.

(** *** Buffers *)

Lemma resize_overwrite n data :
  length data ≤ n →
  string_resize (overwrite (string_buffer n) data) (length data) = data.
Proof.
  intros H. unfold string_resize, overwrite, string_buffer.
  rewrite take_app_length, drop_replicate, length_app, length_replicate.
  replace (length data - (length data + (n - length data))) with 0 by lia.
  apply app_nil_r.
Qed.
