(* ===== verification/Double.v ===== *)
(** * Doubles, as the report of the load generator prints them

    An integer is converted to a double, divided by one, and printed by [%0.2f].
    The values have neither a fraction below the least double nor one beyond the
    greatest, so a double is an integer times a power of two with a mantissa of
    53 bits, and every operation rounds to nearest, ties to even. *)

From S2P Require Import Prelude Cpp.

#[local] Open Scope Z_scope.

(** ** Rounding *)

(** The integer nearest to [a / b]. *)
Definition nearest (a b : Z) : Z :=
  let q := a `div` b in
  let r := a `mod` b in
  if 2 * r <? b then q
  else if b <? 2 * r then q + 1
  else if Z.even q then q else q + 1.

(** [m * 2 ^ e], for any [e], rounded to the nearest integer. *)
Definition scaled (m e : Z) : Z :=
  if 0 <=? e then m * 2 ^ e else nearest m (2 ^ (- e)).

(** The quotient of two positive integers to the 53 bits of a double: the
    mantissa and the exponent. *)
Definition exponent (a b : Z) : Z :=
  let k := Z.log2 a - Z.log2 b - 52 in
  if b * 2 ^ (52 + Z.max 0 k) <=? a * 2 ^ Z.max 0 (- k) then k else k - 1.
Definition quotient (a b : Z) : Z * Z :=
  let e := exponent a b in
  (nearest (a * 2 ^ Z.max 0 (- e)) (b * 2 ^ Z.max 0 e), e).

(** The conversion of an integer that is not negative. *)
Definition as_double (n : Z) : Z :=
  if n <? 2 ^ 53 then n
  else let '(m, e) := quotient n 1 in m * 2 ^ e.

(** ** [printf("%0.2f", n / 1000.0)] *)

(** The hundredths that are printed: those nearest to the double. *)
Definition hundredths (n : Z) : Z :=
  if n =? 0 then 0
  else let '(m, e) := quotient (as_double n) 1000 in scaled (100 * m) e.

Definition two_digits (h : Z) : bytes := drop 1 (to_string (100 + h `mod` 100)).

Definition thousandths (n : Z) : bytes :=
  let h := hundredths (Z.abs n) in
  (if n <? 0 then lit "-" else []) ++ to_string (h `div` 100) ++ lit "." ++ two_digits h.

Example thousandths_examples :
  thousandths <$> [0; 1; 5; 15; 25; 1005; 1015; 1025; 12345; 60000000; -1; 2 ^ 53 + 1] =
  lit <$> ["0.00"; "0.00"; "0.01"; "0.01"; "0.03"; "1.00"; "1.01"; "1.02"; "12.35"; "60000.00"; "-0.00"; "9007199254740.99"]%string.
Proof. vm_compute. reflexivity. Qed.

(** ** Laws *)

Lemma nearest_spec a b : 0 < b → Z.abs (2 * (b * nearest a b - a)) ≤ b.
Proof.
  intros Hb. pose proof (Z.div_mod a b ltac:(lia)) as Ha.
  pose proof (Z.mod_pos_bound a b Hb) as Hr. unfold nearest.
  destruct (Z.ltb_spec (2 * (a `mod` b)) b); [lia|].
  destruct (Z.ltb_spec b (2 * (a `mod` b))); [lia|]. destruct (Z.even _); lia.
Qed.

(** Both sides of a quotient scaled by its exponent. *)
Definition scale_num (a e : Z) : Z := a * 2 ^ Z.max 0 (- e).
Definition scale_den (b e : Z) : Z := b * 2 ^ Z.max 0 e.

(** One exponent less doubles the quotient. *)
Lemma scale_pred a b e :
  scale_num a (e - 1) = 2 * scale_num a e ∧ scale_den b (e - 1) = scale_den b e ∨
  scale_num a (e - 1) = scale_num a e ∧ 2 * scale_den b (e - 1) = scale_den b e.
Proof.
  unfold scale_num, scale_den. destruct (Z.leb_spec e 0); [left|right].
  - replace (Z.max 0 (- (e - 1))) with (Z.max 0 (- e) + 1) by lia.
    replace (Z.max 0 (e - 1)) with (Z.max 0 e) by lia. rewrite Z.pow_add_r by lia. lia.
  - replace (Z.max 0 e) with (Z.max 0 (e - 1) + 1) by lia.
    replace (Z.max 0 (- e)) with (Z.max 0 (- (e - 1))) by lia. rewrite Z.pow_add_r by lia. lia.
Qed.

(** The exponent guessed from the lengths of the numbers is at most one too high. *)
Lemma exponent_guess a b : 0 < a → 0 < b →
  let k := Z.log2 a - Z.log2 b - 52 in
  2 ^ 51 * scale_den b k < scale_num a k < 2 ^ 53 * scale_den b k.
Proof.
  intros Ha Hb k. pose proof (Z.log2_spec a Ha) as [Ha1 Ha2]. pose proof (Z.log2_spec b Hb) as [Hb1 Hb2].
  pose proof (Z.log2_nonneg a). pose proof (Z.log2_nonneg b). unfold scale_num, scale_den.
  assert (2 ^ Z.log2 a * 2 ^ Z.max 0 (- k) = 2 ^ 52 * (2 ^ Z.log2 b * 2 ^ Z.max 0 k)) as Heq.
  { rewrite <-!Z.pow_add_r by lia. f_equal. unfold k. lia. }
  rewrite Z.pow_succ_r in Ha2, Hb2 by done.
  assert (0 < 2 ^ Z.max 0 (- k)) as Hx by (apply Z.pow_pos_nonneg; lia).
  assert (0 < 2 ^ Z.max 0 k) as Hy by (apply Z.pow_pos_nonneg; lia).
  change (2 ^ 53) with (2 * 2 ^ 52). change (2 ^ 52) with (2 * 2 ^ 51) in *.
  set (X := 2 ^ Z.max 0 (- k)) in *. set (Y := 2 ^ Z.max 0 k) in *. set (P := 2 ^ 51) in *.
  assert (0 < P) by done. split; nia.
Qed.

Lemma exponent_spec a b : 0 < a → 0 < b →
  let e := exponent a b in
  2 ^ 52 * scale_den b e ≤ scale_num a e < 2 ^ 53 * scale_den b e.
Proof.
  intros Ha Hb. pose proof (exponent_guess a b Ha Hb) as Hk. cbn zeta in *.
  set (k := Z.log2 a - Z.log2 b - 52) in *.
  assert (exponent a b = if 2 ^ 52 * scale_den b k <=? scale_num a k then k else k - 1) as ->.
  { unfold exponent, scale_den, scale_num. fold k. rewrite Z.pow_add_r by lia.
    by replace (b * (2 ^ 52 * 2 ^ Z.max 0 k)) with (2 ^ 52 * (b * 2 ^ Z.max 0 k)) by lia. }
  destruct (Z.leb_spec (2 ^ 52 * scale_den b k) (scale_num a k)); [lia|].
  destruct (scale_pred a b k) as [[-> ->]|[-> Hd]]; lia.
Qed.

(** A quotient is a double, and the one nearest to the fraction. *)
Lemma quotient_spec a b : 0 < a → 0 < b →
  let '(m, e) := quotient a b in
  2 ^ 52 ≤ m ≤ 2 ^ 53 ∧
  Z.abs (2 * (scale_den b e * m - scale_num a e)) ≤ scale_den b e.
Proof.
  intros Ha Hb. unfold quotient. pose proof (exponent_spec a b Ha Hb) as He. cbn zeta in He.
  set (e := exponent a b) in *. fold (scale_num a e) (scale_den b e).
  assert (0 < scale_den b e) by (apply Z.mul_pos_pos; [done|apply Z.pow_pos_nonneg; lia]).
  pose proof (nearest_spec (scale_num a e) (scale_den b e)) as Hn. split; [|by apply Hn].
  specialize (Hn ltac:(done)). nia.
Qed.

(** What is printed of a number of thousandths is the number rounded to
    hundredths, in spite of the two roundings. *)
Lemma hundredths_near n : 0 ≤ n < 2 ^ 53 → Z.abs (10 * hundredths n - n) ≤ 5.
Proof.
  intros Hn. unfold hundredths. destruct (Z.eqb_spec n 0) as [->|Hne]; [done|].
  unfold as_double. destruct (Z.ltb_spec n (2 ^ 53)); [|lia].
  pose proof (quotient_spec n 1000 ltac:(lia) ltac:(lia)) as Hq.
  assert (exponent n 1000 ≤ -9) as He.
  { assert (Z.log2 n ≤ 52) by (apply Z.lt_succ_r, Z.log2_lt_pow2; lia).
    unfold exponent. cbn zeta. change (Z.log2 1000) with 9. destruct (_ <=? _); lia. }
  unfold quotient in *. set (e := exponent n 1000) in *. destruct Hq as [_ Hq].
  set (m := nearest _ _) in *. unfold scale_num, scale_den in Hq.
  replace (Z.max 0 e) with 0 in Hq by lia. replace (Z.max 0 (- e)) with (- e) in Hq by lia.
  unfold scaled. rewrite (proj2 (Z.leb_gt 0 e)) by lia.
  assert (2 ^ 9 ≤ 2 ^ (- e)) as Hp by (apply Z.pow_le_mono_r; lia).
  assert (0 < 2 ^ (- e)) as Hpos by (apply Z.pow_pos_nonneg; lia).
  pose proof (nearest_spec (100 * m) (2 ^ (- e)) Hpos) as Hh.
  set (h := nearest (100 * m) (2 ^ (- e))) in *. set (E := 2 ^ (- e)) in *.
  change (2 ^ 9) with 512 in Hp. change (2 ^ 0) with 1 in Hq.
  assert (Z.abs (2 * E * (10 * h - n)) ≤ 10 * E + 1000) by lia. nia.
Qed.
