(* ===== verification/Log.v ===== *)
(** * util/log: the process-wide logger

    The four globals of [util/log.cc] with what has been written to the two C
    streams, and the three templates of [util/log.hh].  A template runs under
    the mutex of its translation unit, so it is one atomic step here. *)

From S2P Require Import Prelude Cpp.

Inductive FILE := stdout | stderr.

#[export] Instance FILE_eq_dec : EqDecision FILE.
Proof. solve_decision. Defined.

Record LogState := MkLog {
  logging_color : bytes;
  service_name : bytes;
  logging_verbose : bool;
  logging_dest : FILE;
  (** what [fprintf] has written so far, oldest first *)
  written : list (FILE * bytes) }.

Definition fprintf_s (f : FILE) (s : bytes) : M LogState unit :=
  modify (λ l, MkLog (logging_color l) (service_name l) (logging_verbose l)
                 (logging_dest l) (written l ++ [(f, c_str s)])).

(** The coloured line DBG and LOG build. *)
Definition log_line (l : LogState) (msg : bytes) : bytes :=
  [ESC] ++ lit "[" ++ logging_color l ++ lit "m" ++ pad13 (service_name l) ++
  lit ": " ++ msg ++ [ESC] ++ lit "[0m" ++ [LF].

Definition LOG (fmt : string) (args : list bytes) : M LogState unit :=
  l ← get;
  fprintf_s (logging_dest l) (log_line l (format (lit fmt) args)).

Definition DBG (fmt : string) (args : list bytes) : M LogState unit :=
  l ← get;
  if negb (logging_verbose l) then mret ()
  else fprintf_s (logging_dest l) (log_line l (format (lit fmt) args)).

(** The service name reaches [fprintf] as its own [%s] argument. *)
Definition ERR (fmt : string) (args : list bytes) : M LogState unit :=
  l ← get;
  fprintf_s stderr (c_str (service_name l) ++ lit ": " ++
                    c_str (format (lit fmt) args) ++ [LF]).
