(* ===== verification/OS.v ===== *)
(** * The code outside the repository: the operating system

    The system calls the sources make are parameters of the model: a class of
    operations over an abstract kernel state [K].  Return values are those of
    C, [-1] with [errno] set on failure.  A second class states the documented
    behaviour the theorems rely on, through an abstract [view] of the kernel:
    which descriptors are open, which bytes the program has received and sent
    on each connection, which descriptors each epoll instance watches. *)

From S2P Require Import Prelude Cpp Log.

(** [typedef int SOCKET], with the POSIX values of the macros of
    [util/socket.hh]. *)
Abbreviation SOCKET := Z (only parsing).
Definition INVALID_SOCKET : SOCKET := (-1)%Z.
Definition SOCKET_ERROR : Z := (-1)%Z.

(** Constants of the Linux and Winsock headers. *)
Definition EINTR : Z := 4%Z.
Definition EAGAIN : Z := 11%Z.
Definition WSAEWOULDBLOCK : Z := 10035%Z.
Definition O_NONBLOCK : Z := 2048%Z.
Definition AF_UNSPEC : Z := 0%Z.
Definition AF_INET : Z := 2%Z.
Definition SOCK_STREAM : Z := 1%Z.
Definition AI_PASSIVE : Z := 1%Z.
Definition SOMAXCONN : Z := 4096%Z.

(** [struct addrinfo]; [ai_addr] is the opaque [sockaddr]. *)
Record addrinfo := AddrInfo {
  ai_flags : Z; ai_family : Z; ai_socktype : Z; ai_protocol : Z; ai_addr : bytes }.

(** [addrinfo hints {}] *)
Definition no_hints : addrinfo := AddrInfo 0 0 0 0 [].

(** ** Sockets *)

Class Kernel (K : Type) := {
  errno : K → Z;
  WSAGetLastError : K → Z;
  strerror : Z → bytes;
  gai_strerror : Z → bytes;
  sys_recv : SOCKET → nat → K → (Z * bytes) * K;
  sys_send : SOCKET → bytes → K → Z * K;
  sys_close : SOCKET → K → Z * K;
  sys_socket : Z → Z → Z → K → SOCKET * K;
  sys_setsockopt_reuseaddr : SOCKET → K → Z * K;
  sys_bind : SOCKET → bytes → K → Z * K;
  sys_listen : SOCKET → Z → K → Z * K;
  sys_accept : SOCKET → K → (SOCKET * bytes) * K;
  sys_connect : SOCKET → bytes → K → Z * K;
  sys_getnameinfo : bytes → K → (Z * (bytes * bytes)) * K;
  sys_inet_ntop : Z → bytes → K → bytes * K;
  sys_getaddrinfo : option bytes → bytes → addrinfo → K → (Z * list addrinfo) * K;
  sys_freeaddrinfo : K → () * K;
  sys_fcntl_getfl : SOCKET → K → Z * K;
  sys_fcntl_setfl : SOCKET → Z → K → Z * K;
  (** Winsock's [ioctlsocket(fd, FIONBIO, &mode)] *)
  sys_ioctlsocket_fionbio : SOCKET → Z → K → Z * K;
}.

(** ** What the theorems observe of the kernel

    A connection end is a plain socket [inl fd] or a TLS object [inr ssl]; its
    streams are the application bytes that crossed the interface. *)

Abbreviation endpoint := (Z + Z)%type (only parsing).

Record view := View {
  v_open : gset Z;
  v_in : gmap endpoint bytes;
  v_out : gmap endpoint bytes;
  v_interest : gset (Z * Z) }.

Definition v_received (e : endpoint) (v : view) : bytes := v_in v !!! e.
Definition v_sent (e : endpoint) (v : view) : bytes := v_out v !!! e.

Definition push_in (e : endpoint) (d : bytes) (v : view) : view :=
  View (v_open v) (<[e := v_received e v ++ d]> (v_in v)) (v_out v) (v_interest v).
Definition push_out (e : endpoint) (d : bytes) (v : view) : view :=
  View (v_open v) (v_in v) (<[e := v_sent e v ++ d]> (v_out v)) (v_interest v).

(** A fresh descriptor starts with empty streams; closing one also takes it out
    of every epoll instance, and closing an epoll instance forgets its set. *)
Definition open_fd (fd : Z) (v : view) : view :=
  View ({[fd]} ∪ v_open v) (delete (inl fd) (v_in v)) (delete (inl fd) (v_out v))
    (v_interest v).
(** A fresh epoll or kqueue instance watches nothing. *)
Definition open_poll (fd : Z) (v : view) : view :=
  View ({[fd]} ∪ v_open v) (delete (inl fd) (v_in v)) (delete (inl fd) (v_out v))
    (filter (λ p, p.1 ≠ fd) (v_interest v)).
Definition close_fd (fd : Z) (v : view) : view :=
  View (v_open v ∖ {[fd]}) (v_in v) (v_out v)
    (filter (λ p, p.1 ≠ fd ∧ p.2 ≠ fd) (v_interest v)).
Definition watch (ep fd : Z) (v : view) : view :=
  View (v_open v) (v_in v) (v_out v) ({[(ep, fd)]} ∪ v_interest v).
Definition unwatch (ep fd : Z) (v : view) : view :=
  View (v_open v) (v_in v) (v_out v) (v_interest v ∖ {[(ep, fd)]}).

(** The descriptors an epoll instance watches. *)
Definition watched (ep : Z) (v : view) : gset Z :=
  set_map snd (filter (λ p, p.1 = ep) (v_interest v)).

Class KernelLaws (K : Type) `{Kernel K} := {
  kview : K → view;
  recv_law fd n k r data k' :
    sys_recv fd n k = ((r, data), k') →
    (r = (-1)%Z ∧ kview k' = kview k) ∨
    ((0 ≤ r ≤ Z.of_nat n)%Z ∧ length data = Z.to_nat r ∧
     kview k' = push_in (inl fd) data (kview k));
  send_law fd d k r k' :
    sys_send fd d k = (r, k') →
    (r = (-1)%Z ∧ kview k' = kview k) ∨
    ((0 ≤ r ≤ Z.of_nat (length d))%Z ∧
     kview k' = push_out (inl fd) (take (Z.to_nat r) d) (kview k));
  close_law fd k : kview (sys_close fd k).2 = close_fd fd (kview k);
  socket_law f t p k r k' :
    sys_socket f t p k = (r, k') →
    (r = (-1)%Z ∧ kview k' = kview k) ∨
    ((0 ≤ r < 2 ^ 31)%Z ∧ (r ∉ v_open (kview k)) ∧ kview k' = open_fd r (kview k));
  accept_law fd k r a k' :
    sys_accept fd k = ((r, a), k') →
    (r = (-1)%Z ∧ kview k' = kview k) ∨
    ((0 ≤ r < 2 ^ 31)%Z ∧ (r ∉ v_open (kview k)) ∧ kview k' = open_fd r (kview k));
  setsockopt_law fd k : kview (sys_setsockopt_reuseaddr fd k).2 = kview k;
  bind_law fd a k : kview (sys_bind fd a k).2 = kview k;
  listen_law fd n k : kview (sys_listen fd n k).2 = kview k;
  connect_law fd a k : kview (sys_connect fd a k).2 = kview k;
  getnameinfo_law a k : kview (sys_getnameinfo a k).2 = kview k;
  inet_ntop_law f a k : kview (sys_inet_ntop f a k).2 = kview k;
  getaddrinfo_law h s i k : kview (sys_getaddrinfo h s i k).2 = kview k;
  freeaddrinfo_law k : kview (sys_freeaddrinfo k).2 = kview k;
  getfl_law fd k : kview (sys_fcntl_getfl fd k).2 = kview k;
  setfl_law fd fl k : kview (sys_fcntl_setfl fd fl k).2 = kview k;
  ioctlsocket_law fd m k : kview (sys_ioctlsocket_fionbio fd m k).2 = kview k;
}.

(** A kernel whose sockets take a buffer whole or not at all: [send(2)] on a
    socket whose send buffer never fills up. *)
Class WholeKernel (K : Type) `{Kernel K} := {
  send_whole fd d k r k' :
    sys_send fd d k = (r, k') → (r < 0)%Z ∨ r = Z.of_nat (length d);
}.

(** ** Facts on views *)

Lemma v_received_push_in e e' d v :
  v_received e' (push_in e d v) =
  if decide (e = e') then v_received e v ++ d else v_received e' v.
Proof.
  unfold v_received, push_in; simpl. case_decide; subst.
  - by rewrite lookup_total_insert_eq.
  - by rewrite lookup_total_insert_ne.
Qed.

Lemma v_received_push_in_eq e d v :
  v_received e (push_in e d v) = v_received e v ++ d.
Proof. rewrite v_received_push_in. case_decide; [done|congruence]. Qed.

Lemma v_sent_push_out e e' d v :
  v_sent e' (push_out e d v) =
  if decide (e = e') then v_sent e v ++ d else v_sent e' v.
Proof.
  unfold v_sent, push_out; simpl. case_decide; subst.
  - by rewrite lookup_total_insert_eq.
  - by rewrite lookup_total_insert_ne.
Qed.

Lemma v_sent_push_out_eq e d v : v_sent e (push_out e d v) = v_sent e v ++ d.
Proof. rewrite v_sent_push_out. case_decide; [done|congruence]. Qed.

Lemma elem_of_watched ep fd v : fd ∈ watched ep v ↔ (ep, fd) ∈ v_interest v.
Proof.
  unfold watched. rewrite elem_of_map. setoid_rewrite elem_of_filter. split.
  - intros ([? ?] & -> & <- & ?). done.
  - intros ?. by exists (ep, fd).
Qed.

Lemma watched_watch ep fd v : watched ep (watch ep fd v) = {[fd]} ∪ watched ep v.
Proof.
  apply set_eq. intros x. rewrite elem_of_union, !elem_of_watched. simpl. set_solver.
Qed.

Lemma watched_unwatch ep fd v : watched ep (unwatch ep fd v) = watched ep v ∖ {[fd]}.
Proof.
  apply set_eq. intros x. rewrite elem_of_difference, !elem_of_watched. simpl. set_solver.
Qed.

Lemma watched_open_poll ep v : watched ep (open_poll ep v) = ∅.
Proof.
  apply set_eq. intros x. rewrite elem_of_watched. simpl. rewrite elem_of_filter. set_solver.
Qed.

Lemma watched_close ep fd v :
  ep ≠ fd → watched ep (close_fd fd v) = watched ep v ∖ {[fd]}.
Proof.
  intros Hne. apply set_eq. intros x.
  rewrite elem_of_difference, !elem_of_watched. simpl.
  rewrite elem_of_filter, elem_of_singleton. simpl. tauto.
Qed.

Create Rewrite HintDb view.
#[export] Hint Rewrite v_received_push_in_eq v_sent_push_out_eq watched_watch
  watched_unwatch : view.

(** ** The world of a run

    What every thread of the process shares: the kernel and the logger. *)

Record world (K : Type) := World { kern : K; logs : LogState }.
Arguments World {K} kern logs.
Arguments kern {K} w : rename.
Arguments logs {K} w : rename.

Section world.
Context {K : Type}.

(** A system call, and a call of the logger. *)
Definition sys {A} (f : K → A * K) : M (world K) A := λ w,
  let '(a, k) := f (kern w) in (Ret a, World k (logs w)).
Definition logging {A} (m : M LogState A) : M (world K) A :=
  zoom logs (λ l w, World (kern w) l) m.

Definition get_errno `{Kernel K} : M (world K) Z := gets (λ w, errno (kern w)).

(** [#define close_socket close] *)
Definition close_socket `{Kernel K} (fd : SOCKET) : M (world K) unit :=
  sys (sys_close fd) ;; mret ().

(** [throw E("what: "s + strerror(errno))] *)
Definition throw_errno {A} `{Kernel K} (e : bytes → exn) (what : string) : M (world K) A :=
  n ← get_errno; raise (e (lit what ++ strerror n)).

Lemma run_throw_errno {A} `{Kernel K} e what w :
  throw_errno (A:=A) e what w = (Throw (e (lit what ++ strerror (errno (kern w)))), w).
Proof. done. Qed.

Lemma run_sys {A} (f : K → A * K) w :
  sys f w = (Ret (f (kern w)).1, World (f (kern w)).2 (logs w)).
Proof. unfold sys. by destruct (f (kern w)). Qed.

Lemma run_sys_inv {A} (f : K → A * K) w o w' :
  sys f w = (o, w') →
  ∃ a k, f (kern w) = (a, k) ∧ o = Ret a ∧ w' = World k (logs w).
Proof. unfold sys. destruct (f (kern w)) as [a k]. intros [= <- <-]. eauto. Qed.

(** The logger's templates always return, and touch nothing but the log. *)
Lemma run_logging_LOG fmt args w :
  ∃ l, logging (LOG fmt args) w = (Ret (), World (kern w) l).
Proof. eexists. reflexivity. Qed.
Lemma run_logging_ERR fmt args w :
  ∃ l, logging (ERR fmt args) w = (Ret (), World (kern w) l).
Proof. eexists. reflexivity. Qed.
Lemma run_logging_DBG fmt args w :
  ∃ l, logging (DBG fmt args) w = (Ret (), World (kern w) l).
Proof.
  destruct w as [k l]. unfold logging, zoom, DBG. cbn.
  rewrite run_bind. cbn. destruct (logging_verbose l); eexists; reflexivity.
Qed.

Lemma ends_sys {A} (f : K → A * K) : ends (sys f).
Proof. intros w. by rewrite run_sys. Qed.
Lemma ends_logging_ERR fmt args : ends (logging (ERR fmt args)).
Proof. intros w. by destruct (run_logging_ERR fmt args w) as [l ->]. Qed.

Context `{KernelLaws K}.

Definition wview (w : world K) : view := kview (kern w).

(** Two worlds look the same. *)
Definition same_view (w w' : world K) : Prop := wview w = wview w'.

#[export] Instance same_view_equivalence : Equivalence same_view.
Proof. split; unfold same_view; repeat intro; congruence. Qed.

Lemma preserves_view_sys {A} (f : K → A * K) :
  (∀ k, kview (f k).2 = kview k) → preserves same_view (sys f).
Proof. intros Hf w. rewrite run_sys. unfold same_view, wview. simpl. by rewrite Hf. Qed.

Lemma preserves_view_logging {A} (m : M LogState A) : preserves same_view (logging m).
Proof.
  intros w. unfold logging, zoom, same_view, wview. by destruct (m (logs w)).
Qed.

Lemma preserves_view_throw_errno {A} e what :
  preserves same_view (throw_errno (A:=A) e what).
Proof. intros w. reflexivity. Qed.
End world.

#[export] Hint Resolve ends_sys ends_logging_ERR : ends.
#[export] Hint Resolve preserves_view_logging preserves_view_throw_errno : preserves.
#[export] Hint Extern 1 (preserves _ (sys _)) => apply preserves_view_sys; intros : preserves.
#[export] Hint Resolve setsockopt_law bind_law listen_law connect_law getnameinfo_law
  inet_ntop_law getaddrinfo_law freeaddrinfo_law getfl_law setfl_law ioctlsocket_law : preserves.

(** Run the system call at the head of a computation, all of them, or the
    raise at its end. *)
Ltac run_call := rewrite run_bind, run_sys; cbn [fst snd kern logs].
Ltac run_raise := cbv iota; rewrite run_throw_errno.
Ltac run_calls :=
  repeat first [rewrite run_bind | rewrite run_sys | progress cbn [fst snd kern logs]].
