(* ===== verification/OpenSSL.v ===== *)
(** * The code outside the repository: OpenSSL

    The library calls of the SSL components, as a class of operations over the
    same abstract state as the kernel; pointers are integers, null is [0].  The
    laws state what the OpenSSL manual says of the application bytes. *)

From S2P Require Import Prelude Cpp Log OS.

Definition SSL_ERROR_WANT_READ : Z := 2%Z.

Inductive SSL_METHOD := TLS_server_method | TLS_client_method.

Class OpenSSL (K : Type) := {
  SSL_CTX_new : SSL_METHOD → K → Z * K;
  SSL_CTX_free : Z → K → () * K;
  SSL_CTX_use_certificate : Z → Z → K → Z * K;
  SSL_CTX_use_PrivateKey : Z → Z → K → Z * K;
  SSL_CTX_check_private_key : Z → K → Z * K;
  SSL_CTX_set_default_verify_paths : Z → K → Z * K;
  BIO_new_mem_buf : bytes → K → Z * K;
  BIO_free : Z → K → Z * K;
  PEM_read_bio_X509 : Z → K → Z * K;
  X509_free : Z → K → () * K;
  PEM_read_bio_PrivateKey : Z → K → Z * K;
  EVP_PKEY_free : Z → K → () * K;
  SSL_new : Z → K → Z * K;
  SSL_free : Z → K → () * K;
  SSL_set_fd : Z → SOCKET → K → Z * K;
  SSL_set_tlsext_host_name : Z → bytes → K → Z * K;
  SSL_accept : Z → K → Z * K;
  SSL_connect : Z → K → Z * K;
  SSL_shutdown : Z → K → Z * K;
  SSL_get_error : Z → Z → K → Z * K;
  SSL_read : Z → nat → K → (Z * bytes) * K;
  (** the buffer, and the [int] count passed with it *)
  SSL_write : Z → bytes → Z → K → Z * K;
  (** take the oldest entry of the error queue, already formatted *)
  ERR_take_error : K → option bytes * K;
}.

(** A new TLS object has empty streams. *)
Definition open_tls (ssl : Z) (v : view) : view :=
  View (v_open v) (delete (inr ssl) (v_in v)) (delete (inr ssl) (v_out v)) (v_interest v).

Class OpenSSLLaws (K : Type) `{KernelLaws K} `{!OpenSSL K} := {
  SSL_read_law ssl n k r data k' :
    SSL_read ssl n k = ((r, data), k') →
    ((r ≤ 0)%Z ∧ data = [] ∧ kview k' = kview k) ∨
    ((0 < r ≤ Z.of_nat n)%Z ∧ length data = Z.to_nat r ∧
     kview k' = push_in (inr ssl) data (kview k));
  SSL_write_law ssl d n k r k' :
    SSL_write ssl d n k = (r, k') →
    ((r ≤ 0)%Z ∧ kview k' = kview k) ∨
    ((0 < r ≤ n)%Z ∧ (n ≤ Z.of_nat (length d))%Z ∧
     kview k' = push_out (inr ssl) (take (Z.to_nat r) d) (kview k));
  SSL_new_law ctx k : ∃ ssl, (SSL_new ctx k).1 = ssl ∧
    (ssl = 0%Z ∧ kview (SSL_new ctx k).2 = kview k ∨
     ssl ≠ 0%Z ∧ kview (SSL_new ctx k).2 = open_tls ssl (kview k));
  SSL_free_law ssl k : kview (SSL_free ssl k).2 = kview k;
  SSL_set_fd_law ssl fd k : kview (SSL_set_fd ssl fd k).2 = kview k;
  SSL_set_host_law ssl h k : kview (SSL_set_tlsext_host_name ssl h k).2 = kview k;
  SSL_accept_law ssl k : kview (SSL_accept ssl k).2 = kview k;
  SSL_connect_law ssl k : kview (SSL_connect ssl k).2 = kview k;
  SSL_shutdown_law ssl k : kview (SSL_shutdown ssl k).2 = kview k;
  ERR_take_error_law k : kview (ERR_take_error k).2 = kview k;
  SSL_CTX_new_law m k : kview (SSL_CTX_new m k).2 = kview k;
  SSL_get_error_law ssl r k : kview (SSL_get_error ssl r k).2 = kview k;
  verify_paths_law ctx k : kview (SSL_CTX_set_default_verify_paths ctx k).2 = kview k;
  SSL_CTX_free_law ctx k : kview (SSL_CTX_free ctx k).2 = kview k;
  use_certificate_law ctx c k : kview (SSL_CTX_use_certificate ctx c k).2 = kview k;
  use_PrivateKey_law ctx p k : kview (SSL_CTX_use_PrivateKey ctx p k).2 = kview k;
  check_private_key_law ctx k : kview (SSL_CTX_check_private_key ctx k).2 = kview k;
  BIO_new_law d k : kview (BIO_new_mem_buf d k).2 = kview k;
  BIO_free_law b k : kview (BIO_free b k).2 = kview k;
  read_X509_law b k : kview (PEM_read_bio_X509 b k).2 = kview k;
  X509_free_law c k : kview (X509_free c k).2 = kview k;
  read_PrivateKey_law b k : kview (PEM_read_bio_PrivateKey b k).2 = kview k;
  EVP_PKEY_free_law p k : kview (EVP_PKEY_free p k).2 = kview k;
}.

#[export] Hint Resolve SSL_free_law SSL_set_fd_law SSL_set_host_law SSL_accept_law
  SSL_connect_law SSL_shutdown_law ERR_take_error_law SSL_CTX_new_law SSL_CTX_free_law
  SSL_get_error_law verify_paths_law
  use_certificate_law use_PrivateKey_law check_private_key_law BIO_new_law BIO_free_law
  read_X509_law X509_free_law read_PrivateKey_law EVP_PKEY_free_law : preserves.

(** [ERR_print_errors_cb(cb, nullptr)] with a callback that always throws: the
    oldest error of the queue reaches the callback, an empty queue none. *)
Definition ERR_print_errors_cb {K} `{OpenSSL K} (cb : bytes → M (world K) unit) :
    M (world K) unit :=
  e ← sys ERR_take_error;
  match e with
  | Some str => cb str
  | None => mret ()
  end.
