(* ===== verification/Sim.v ===== *)
(** * A concrete environment for the witnesses

    A scripted kernel and OpenSSL that satisfy the laws: the theorems whose
    hypotheses speak of the environment are applied to it.  It models nothing of
    the repository. *)

From S2P Require Import Prelude Cpp Log OS OpenSSL.

Record sim := Sim {
  s_errno : Z;
  s_view : view;
  (** what the peers will send on each connection, chunk by chunk *)
  s_chunks : gmap endpoint (list bytes);
  (** what the next sends return: [n] accepts at most [n] bytes, [-e] fails with
      [errno = e]; sends beyond the script are accepted whole *)
  s_caps : list Z;
  (** connections waiting on the listener *)
  s_backlog : nat;
  s_addrs : list addrinfo;
  (** results of the next [bind] or [connect] calls, [0] beyond the script *)
  s_binds : list Z;
  s_flags : gmap Z Z;
  (** the OpenSSL error queue *)
  s_errors : list bytes;
  s_next_ssl : Z;
  (** what the next polls report, and the steady clock in nanoseconds *)
  s_ready : list (list (SOCKET * Z));
  s_clock : Z }.

Definition sim_view (v : view) (k : sim) : sim :=
  Sim (s_errno k) v (s_chunks k) (s_caps k) (s_backlog k) (s_addrs k) (s_binds k)
    (s_flags k) (s_errors k) (s_next_ssl k)
    (s_ready k) (s_clock k).
Definition sim_fail (e : Z) (k : sim) : sim :=
  Sim e (s_view k) (s_chunks k) (s_caps k) (s_backlog k) (s_addrs k) (s_binds k)
    (s_flags k) (s_errors k) (s_next_ssl k)
    (s_ready k) (s_clock k).
Definition sim_chunks (c : gmap endpoint (list bytes)) (k : sim) : sim :=
  Sim (s_errno k) (s_view k) c (s_caps k) (s_backlog k) (s_addrs k) (s_binds k)
    (s_flags k) (s_errors k) (s_next_ssl k)
    (s_ready k) (s_clock k).
Definition sim_caps (c : list Z) (k : sim) : sim :=
  Sim (s_errno k) (s_view k) (s_chunks k) c (s_backlog k) (s_addrs k) (s_binds k)
    (s_flags k) (s_errors k) (s_next_ssl k)
    (s_ready k) (s_clock k).
Definition sim_binds (b : list Z) (k : sim) : sim :=
  Sim (s_errno k) (s_view k) (s_chunks k) (s_caps k) (s_backlog k) (s_addrs k) b
    (s_flags k) (s_errors k) (s_next_ssl k)
    (s_ready k) (s_clock k).
Definition sim_flags (f : gmap Z Z) (k : sim) : sim :=
  Sim (s_errno k) (s_view k) (s_chunks k) (s_caps k) (s_backlog k) (s_addrs k) (s_binds k)
    f (s_errors k) (s_next_ssl k)
    (s_ready k) (s_clock k).
Definition sim_errors (q : list bytes) (k : sim) : sim :=
  Sim (s_errno k) (s_view k) (s_chunks k) (s_caps k) (s_backlog k) (s_addrs k) (s_binds k)
    (s_flags k) q (s_next_ssl k)
    (s_ready k) (s_clock k).
Definition sim_next_ssl (n : Z) (k : sim) : sim :=
  Sim (s_errno k) (s_view k) (s_chunks k) (s_caps k) (s_backlog k) (s_addrs k) (s_binds k)
    (s_flags k) (s_errors k) n (s_ready k) (s_clock k).
Definition sim_backlog (n : nat) (k : sim) : sim :=
  Sim (s_errno k) (s_view k) (s_chunks k) (s_caps k) n (s_addrs k) (s_binds k)
    (s_flags k) (s_errors k) (s_next_ssl k)
    (s_ready k) (s_clock k).

Definition sim_ready (r : list (list (SOCKET * Z))) (k : sim) : sim :=
  Sim (s_errno k) (s_view k) (s_chunks k) (s_caps k) (s_backlog k) (s_addrs k) (s_binds k)
    (s_flags k) (s_errors k) (s_next_ssl k) r (s_clock k).
Definition sim_clock (n : Z) (k : sim) : sim :=
  Sim (s_errno k) (s_view k) (s_chunks k) (s_caps k) (s_backlog k) (s_addrs k) (s_binds k)
    (s_flags k) (s_errors k) (s_next_ssl k) (s_ready k) n.

(** One descriptor above every open one, if it is a valid number. *)
Definition sim_fresh (k : sim) : option Z :=
  let fd := (1 + set_fold Z.max 2 (v_open (s_view k)))%Z in
  if decide ((0 ≤ fd < 2 ^ 31)%Z ∧ fd ∉ v_open (s_view k)) then Some fd else None.

Definition sim_open (k : sim) : Z * sim :=
  match sim_fresh k with
  | Some fd => (fd, sim_view (open_fd fd (s_view k)) k)
  | None => ((-1)%Z, sim_fail 24 k)
  end.

Definition sim_read (e : endpoint) (n : nat) (k : sim) : (Z * bytes) * sim :=
  match s_chunks k !! e with
  | Some (c :: cs) =>
      let d := take n c in
      let cs := if decide (length c ≤ n) then cs else drop n c :: cs in
      ((Z.of_nat (length d), d),
       sim_view (push_in e d (s_view k)) (sim_chunks (<[e := cs]> (s_chunks k)) k))
  | _ => (((-1)%Z, []), sim_fail EAGAIN k)
  end.

(** A write of the first [n] bytes of [d]. *)
Definition sim_write (e : endpoint) (d : bytes) (n : nat) (k : sim) : Z * sim :=
  let '(cap, k) := match s_caps k with
                   | [] => (Z.of_nat n, k)
                   | c :: cs => (c, sim_caps cs k)
                   end in
  if (cap <? 0)%Z then ((-1)%Z, sim_fail (- cap) k)
  else let m := Nat.min (Z.to_nat cap) n in
       (Z.of_nat m, sim_view (push_out e (take m d) (s_view k)) k).

(** The scripted result of a [bind] or a [connect]. *)
Definition sim_result (k : sim) : Z * sim :=
  match s_binds k with
  | [] => (0%Z, k)
  | b :: bs => (b, sim_fail 98 (sim_binds bs k))
  end.

(** [whole] makes every send take its buffer whole, whatever the script. *)
Definition sim_kernel_of (whole : bool) : Kernel sim := {|
  errno := s_errno;
  WSAGetLastError := s_errno;
  strerror e := lit "error " ++ to_string e;
  gai_strerror e := lit "address error " ++ to_string e;
  sys_recv fd := sim_read (inl fd);
  sys_send fd d k :=
    sim_write (inl fd) d (length d) (if whole then sim_caps [] k else k);
  sys_close fd k := (0%Z, sim_view (close_fd fd (s_view k)) k);
  sys_socket _ _ _ := sim_open;
  sys_setsockopt_reuseaddr _ k := (0%Z, k);
  sys_bind _ _ := sim_result;
  sys_listen _ _ k := (0%Z, k);
  sys_accept _ k :=
    match s_backlog k with
    | 0 => (((-1)%Z, []), sim_fail EAGAIN k)
    | S n => let '(fd, k') := sim_open (sim_backlog n k) in ((fd, lit "peer"), k')
    end;
  sys_connect _ _ := sim_result;
  sys_getnameinfo a k := ((0%Z, (a, lit "0")), k);
  sys_inet_ntop _ a k := (a, k);
  sys_getaddrinfo _ _ _ k := ((0%Z, s_addrs k), k);
  sys_freeaddrinfo k := ((), k);
  sys_fcntl_getfl fd k := (default 0%Z (s_flags k !! fd), k);
  sys_fcntl_setfl fd fl k := (0%Z, sim_flags (<[fd := fl]> (s_flags k)) k);
  sys_ioctlsocket_fionbio _ _ k := (0%Z, k);
|}.

#[export] Instance sim_kernel : Kernel sim := sim_kernel_of false.

#[export] Instance sim_openssl : OpenSSL sim := {|
  SSL_CTX_new _ k := (1%Z, k);
  SSL_CTX_free _ k := ((), k);
  SSL_CTX_use_certificate _ _ k := (1%Z, k);
  SSL_CTX_use_PrivateKey _ _ k := (1%Z, k);
  SSL_CTX_check_private_key _ k := ((match s_errors k with [] => 1 | _ => 0 end)%Z, k);
  SSL_CTX_set_default_verify_paths _ k := (1%Z, k);
  BIO_new_mem_buf _ k := (1%Z, k);
  BIO_free _ k := (1%Z, k);
  PEM_read_bio_X509 _ k := (1%Z, k);
  X509_free _ k := ((), k);
  PEM_read_bio_PrivateKey _ k := (1%Z, k);
  EVP_PKEY_free _ k := ((), k);
  SSL_new _ k :=
    let p := Z.max 1 (s_next_ssl k) in
    (p, sim_view (open_tls p (s_view k)) (sim_next_ssl (p + 1) k));
  SSL_free _ k := ((), k);
  SSL_set_fd _ _ k := (1%Z, k);
  SSL_set_tlsext_host_name _ _ k := (1%Z, k);
  SSL_accept _ k := ((match s_errors k with [] => 1 | _ => -1 end)%Z, k);
  SSL_connect _ k := (1%Z, k);
  SSL_shutdown _ k := (1%Z, k);
  SSL_get_error _ _ k := (SSL_ERROR_WANT_READ, k);
  SSL_read ssl n k :=
    match sim_read (inr ssl) n k with
    | ((0%Z, _), _) => ((0%Z, []), k)
    | r => r
    end;
  SSL_write ssl d n k :=
    if ((n <? 0) || (Z.of_nat (length d) <? n))%Z then ((-1)%Z, k)
    else match sim_write (inr ssl) d (Z.to_nat n) k with
         | (0%Z, k') => (0%Z, sim_view (s_view k) k')
         | r => r
         end;
  ERR_take_error k :=
    match s_errors k with
    | [] => (None, k)
    | e :: q => (Some e, sim_errors q k)
    end;
|}.

Lemma sim_open_view k r k' :
  sim_open k = (r, k') →
  (r = (-1)%Z ∧ s_view k' = s_view k) ∨
  ((0 ≤ r < 2 ^ 31)%Z ∧ (r ∉ v_open (s_view k)) ∧ s_view k' = open_fd r (s_view k)).
Proof.
  unfold sim_open, sim_fresh. case_decide as Hd; intros [= <- <-]; [right|by left].
  destruct Hd. done.
Qed.

Lemma sim_read_view e n k r d k' :
  sim_read e n k = ((r, d), k') →
  (r = (-1)%Z ∧ d = [] ∧ s_view k' = s_view k) ∨
  ((0 ≤ r ≤ Z.of_nat n)%Z ∧ length d = Z.to_nat r ∧ s_view k' = push_in e d (s_view k)).
Proof.
  unfold sim_read. repeat case_match; intros [= <- <- <-]; try by left.
  all: right; rewrite length_take; repeat split; lia.
Qed.

Lemma sim_write_view e d n k r k' :
  n ≤ length d → sim_write e d n k = (r, k') →
  (r = (-1)%Z ∧ s_view k' = s_view k) ∨
  ((0 ≤ r ≤ Z.of_nat n)%Z ∧ s_view k' = push_out e (take (Z.to_nat r) d) (s_view k)).
Proof.
  unfold sim_write. intros Hn.
  destruct (s_caps k) as [|c cs]; case_match; intros [= <- <-]; try by left.
  all: right; simpl; rewrite ?Nat2Z.id; split; [lia|done].
Qed.

Lemma sim_result_view k : s_view (sim_result k).2 = s_view k.
Proof. unfold sim_result. by destruct (s_binds k). Qed.

Lemma sim_kernel_of_laws whole : @KernelLaws sim (sim_kernel_of whole).
Proof.
  refine {| kview := s_view |}; try done.
  - intros fd n k r d k' [(-> & _ & ?)|?]%sim_read_view; [by left|by right].
  - intros fd d k r k' [[-> ?]|?]%sim_write_view; [left|right|done]; by destruct whole.
  - intros f t p k r k'. apply sim_open_view.
  - intros fd k r a k'. simpl. destruct (s_backlog k).
    + intros [= <- <- <-]. by left.
    + destruct (sim_open _) as [fd' k''] eqn:Ho. intros [= <- <- <-].
      by apply sim_open_view in Ho.
  - intros fd a k. apply sim_result_view.
  - intros fd a k. apply sim_result_view.
Defined.

#[export] Instance sim_kernel_laws : KernelLaws sim := sim_kernel_of_laws false.

(** The same environment with whole sends. *)
Definition whole_sim : Type := sim.
#[export] Typeclasses Opaque whole_sim.
#[export] Instance whole_kernel : Kernel whole_sim := sim_kernel_of true.
#[export] Instance whole_laws : KernelLaws whole_sim := sim_kernel_of_laws true.
#[export] Instance whole_whole : WholeKernel whole_sim.
Proof.
  split. intros fd d k r k'. simpl. unfold sim_write. simpl.
  rewrite (proj2 (Z.ltb_ge _ _)) by lia. intros [= <- _]. right. lia.
Qed.

#[export] Instance sim_openssl_laws : OpenSSLLaws sim.
Proof.
  split; try done.
  - intros ssl n k r d k'. simpl.
    destruct (sim_read (inr ssl) n k) as [[r' d'] k1] eqn:Hr.
    intros Heq. apply sim_read_view in Hr.
    destruct r'; injection Heq as <- <- <-; naive_solver lia.
  - intros ssl d n k r k'. simpl. case_match eqn:Hb; [intros [= <- <-]; by left|].
    apply orb_false_iff in Hb as [Hb1%Z.ltb_ge Hb2%Z.ltb_ge].
    destruct (sim_write _ _ _ k) as [r' k1] eqn:Hw. intros Heq.
    apply sim_write_view in Hw; [|lia].
    destruct r'; injection Heq as <- <-; [by left|right|left].
    + destruct Hw as [[? _]|[? ->]]; [done|]. rewrite Z2Nat.id in *; [|lia..].
      split; [lia|]. split; [lia|done].
    + destruct Hw as [[? ->]|[? _]]; [done|lia].
  - intros ctx k. simpl. exists (Z.max 1 (s_next_ssl k)). split; [done|]. right. split; [lia|done].
  - intros k. simpl. by destruct (s_errors k).
Qed.

(** A fresh environment in which the descriptors [fds] are connected. *)
Definition sim_start (fds : list Z) (chunks : list (endpoint * list bytes)) (caps : list Z) : sim :=
  Sim 0 (View (list_to_set fds) ∅ ∅ ∅) (list_to_map chunks) caps 0 [] [] ∅ [] 1 [] 0.

Definition sim_log : LogState := MkLog (lit "0") (lit "test") false stdout [].

Definition sim_world (k : sim) : world sim := World k sim_log.
Definition whole_world (k : sim) : world whole_sim := World k sim_log.

(** The witnesses run on POSIX. *)
Definition posix : bool := false.
