(* ===== verification/Connection.v ===== *)
(** * server/connection.hh: the abstract Connection, and what it promises

    [ConnectionOps] is the virtual interface of class Connection; the sessions
    are written against it.  [ConnectionSpec] is its contract over the kernel's
    view; [TCPConnection] and [SSLConnection] implement both.  The tail of
    [recv] that the two connections and the two clients repeat is here too. *)

From S2P Require Import Prelude Cpp Log OS.

Class ConnectionOps (C W : Type) := {
  conn_fd : C → SOCKET;
  conn_recv : C → M W bytes;
  conn_send : C → bytes → M W unit;
  (** the virtual destructor *)
  conn_destroy : C → M W unit;
}.

(** Whether the file is compiled under [_WIN32]. *)
Class Platform := is_win32 : bool.

Definition RECV_BUF_SZ : nat := 16 * 1024.
#[global] Opaque RECV_BUF_SZ.

(** ** Streams moved by a call *)

(** Between [v] and [v'] the program received [din] and sent [dout] on [e], and
    nothing else changed. *)
Record stream_step (e : endpoint) (din dout : bytes) (v v' : view) : Prop := {
  ss_open : v_open v' = v_open v;
  ss_interest : v_interest v' = v_interest v;
  ss_received : v_received e v' = v_received e v ++ din;
  ss_sent : v_sent e v' = v_sent e v ++ dout;
  ss_other e' : e' ≠ e → v_received e' v' = v_received e' v ∧ v_sent e' v' = v_sent e' v;
}.

Lemma stream_step_refl e v : stream_step e [] [] v v.
Proof. split; rewrite ?app_nil_r; auto. Qed.

Lemma stream_step_trans e i1 o1 i2 o2 v1 v2 v3 :
  stream_step e i1 o1 v1 v2 → stream_step e i2 o2 v2 v3 →
  stream_step e (i1 ++ i2) (o1 ++ o2) v1 v3.
Proof.
  intros [] []. split; [congruence|congruence| | |].
  - by rewrite app_assoc; congruence.
  - by rewrite app_assoc; congruence.
  - intros e' He'. destruct (ss_other0 e' He'), (ss_other1 e' He'). split; congruence.
Qed.

Lemma stream_step_push_in e d v : stream_step e d [] v (push_in e d v).
Proof.
  split; [done|done| | |].
  - by rewrite v_received_push_in_eq.
  - by rewrite app_nil_r.
  - intros e' ?. rewrite v_received_push_in, decide_False by done. done.
Qed.

Lemma stream_step_push_out e d v : stream_step e [] d v (push_out e d v).
Proof.
  split; [done|done| | |].
  - by rewrite app_nil_r.
  - by rewrite v_sent_push_out_eq.
  - intros e' ?. rewrite v_sent_push_out, decide_False by done. done.
Qed.

#[export] Hint Resolve stream_step_refl stream_step_push_in stream_step_push_out : view.

(** ** Descriptors across a call *)

(** The call opened, closed and watched nothing. *)
Definition io_only (v v' : view) : Prop :=
  v_open v' = v_open v ∧ v_interest v' = v_interest v.

#[export] Instance io_only_preorder : PreOrder io_only.
Proof. unfold io_only. split; [by intros v|intros v1 v2 v3 [] []; split; congruence]. Qed.

Lemma stream_step_io_only e i o v v' : stream_step e i o v v' → io_only v v'.
Proof. intros []. by split. Qed.

(** The call closed [fd] and nothing else. *)
Definition closes (fd : SOCKET) (v v' : view) : Prop :=
  v_open v' = v_open v ∖ {[fd]} ∧
  v_interest v' = filter (λ p, p.1 ≠ fd ∧ p.2 ≠ fd) (v_interest v).

Lemma close_fd_closes fd v : closes fd v (close_fd fd v).
Proof. done. Qed.

(** ** What a send loop puts on the wire

    Each pass of the loop offers the whole of [d] again, so the wire gets one
    prefix of [d] per pass, of the lengths [ns] the transport accepted. *)

Definition prefixes (d : bytes) (ns : list nat) : bytes :=
  concat ((λ n, take n d) <$> ns).

(** The passes of a loop that ran to its end: accepted lengths add up to the
    size, and no pass ran after they did. *)
Definition complete_passes (d : bytes) (ns : list nat) : Prop :=
  length d ≤ sum_list ns ∧
  ∀ ns1 n ns2, ns = ns1 ++ n :: ns2 → sum_list ns1 < length d.

Lemma prefixes_cons d n ns : prefixes d (n :: ns) = take n d ++ prefixes d ns.
Proof. done. Qed.

Lemma prefixes_whole d : prefixes d [length d] = d.
Proof. unfold prefixes. simpl. by rewrite take_ge, app_nil_r. Qed.

(** ** The contract *)

Class ConnectionSpec (C K : Type) `{KernelLaws K} `{!ConnectionOps C (world K)} := {
  conn_end : C → endpoint;
  conn_recv_spec c w o w' :
    conn_recv c w = (o, w') →
    stream_step (conn_end c) (match o with Ret d => d | _ => [] end) []
      (wview w) (wview w');
  conn_recv_bound c w d w' : conn_recv c w = (Ret d, w') → length d ≤ RECV_BUF_SZ;
  conn_send_spec c d w o w' :
    conn_send c d w = (o, w') →
    ∃ ns, Forall (λ n, n ≤ length d) ns ∧
      stream_step (conn_end c) [] (prefixes d ns) (wview w) (wview w') ∧
      (o = Ret () → complete_passes d ns);
}.

(** The destructor closes the descriptor of the connection and no other. *)
Class ConnectionCloses (C K : Type) `{KernelLaws K} `{!ConnectionOps C (world K)} := {
  conn_destroy_spec c w o w' :
    conn_destroy c w = (o, w') → o = Ret () ∧ closes (conn_fd c) (wview w) (wview w');
}.

(** The transport accepts all of a buffer or fails: then a send that returns
    puts exactly its argument on the wire. *)
Class ConnectionWhole (C K : Type) `{ConnectionSpec C K} := {
  conn_send_whole c d w w' :
    conn_send c d w = (Ret (), w') →
    stream_step (conn_end c) [] d (wview w) (wview w');
}.

(** Whenever every pass is accepted whole, the loop makes exactly one. *)
Lemma complete_passes_whole d ns :
  Forall (λ n, n = length d) ns → complete_passes d ns → prefixes d ns = d.
Proof.
  intros Hns [Hsum Hlast]. destruct ns as [|n ns].
  - simpl in Hsum. by destruct d; [|simpl in Hsum; lia].
  - inversion_clear Hns as [|? ? -> Htl]. destruct ns as [|m ns].
    + apply prefixes_whole.
    + exfalso. specialize (Hlast [length d] m ns eq_refl). simpl in Hlast. lia.
Qed.

(** ** The common tail of recv *)

Section recv_tail.
Context {K : Type} `{Kernel K} `{Platform}.

(** From [#ifdef _WIN32] to the end of [recv]: what the return value [r] and
    the filled buffer become. *)
Definition recv_tail (r : Z) (buf : bytes) : M (world K) bytes :=
  if is_win32 && (r =? SOCKET_ERROR)%Z then
    err ← gets (λ w, WSAGetLastError (kern w));
    if (err =? WSAEWOULDBLOCK)%Z then mret []
    else raise (runtime_error (lit "recv error: " ++ to_string err))
  else if (r <? 0)%Z then
    err ← get_errno;
    if (err =? EAGAIN)%Z then mret []
    else throw_errno runtime_error "recv error: "
  else if (r =? 0)%Z then mret []
  else mret (string_resize buf (Z.to_nat r)).

(** A successful read is handed over byte for byte. *)
Lemma recv_tail_ok r data n w :
  (0 ≤ r ≤ Z.of_nat n)%Z → length data = Z.to_nat r →
  recv_tail r (overwrite (string_buffer n) data) w = (Ret data, w).
Proof.
  intros Hr Hlen. unfold recv_tail, SOCKET_ERROR.
  rewrite (proj2 (Z.eqb_neq r (-1))), andb_false_r by lia.
  rewrite (proj2 (Z.ltb_ge r 0)) by lia.
  destruct (Z.eqb_spec r 0) as [->|].
  - by destruct data.
  - rewrite <-Hlen, resize_overwrite by lia. done.
Qed.

(** A failed read is no data when the call would block, and an exception
    with the system's message otherwise. *)
Definition recv_failure (r : Z) (w : world K) : outcome bytes :=
  if is_win32 && (r =? SOCKET_ERROR)%Z then
    if (WSAGetLastError (kern w) =? WSAEWOULDBLOCK)%Z then Ret []
    else Throw (runtime_error (lit "recv error: " ++ to_string (WSAGetLastError (kern w))))
  else
    if (errno (kern w) =? EAGAIN)%Z then Ret []
    else Throw (runtime_error (lit "recv error: " ++ strerror (errno (kern w)))).

Lemma recv_tail_failed r buf w :
  (r < 0)%Z → recv_tail r buf w = (recv_failure r w, w).
Proof.
  intros Hr. unfold recv_tail, recv_failure. rewrite (proj2 (Z.ltb_lt r 0)) by lia.
  case_match; rewrite run_bind; cbn; by case_match.
Qed.

(** A failure delivers no byte. *)
Lemma recv_failure_empty r w : match recv_failure r w with Ret d => d = [] | _ => True end.
Proof. unfold recv_failure. repeat case_match; simplify_eq; done. Qed.
End recv_tail.

(** ** The common send loop *)

Section send_loop.
Context {K : Type} `{Kernel K}.

(** One pass: [::send(fd_, data.data(), data.size(), 0)] or [SSL_write]. *)
Variable call : K → Z * K.
Variable data : bytes.

(** [while (pos < data.size()) { r = call; if (r < 0) throw; pos += r; }] *)
Fixpoint send_loop (fuel pos : nat) : M (world K) unit :=
  match fuel with
  | 0 => out_of_fuel
  | S fuel =>
      if decide (pos < length data) then
        r ← sys call;
        if (r <? 0)%Z then throw_errno runtime_error "send error: "
        else send_loop fuel (pos + Z.to_nat r)
      else mret ()
  end.

(** A pass that would be taken, split by the sign of the return value. *)
Lemma send_loop_pass fuel pos w r k :
  pos < length data → call (kern w) = (r, k) →
  send_loop (S fuel) pos w =
  if (r <? 0)%Z then
    (Throw (runtime_error (lit "send error: " ++ strerror (errno k))), World k (logs w))
  else send_loop fuel (pos + Z.to_nat r) (World k (logs w)).
Proof.
  intros Hpos Hc. cbn [send_loop]. rewrite decide_True by done.
  rewrite run_bind, run_sys, Hc. cbn. by case_match.
Qed.

Lemma send_loop_done fuel pos w :
  length data ≤ pos → send_loop (S fuel) pos w = (Ret (), w).
Proof. intros. cbn [send_loop]. by rewrite decide_False by lia. Qed.

(** A transport that never reports success without taking a byte. *)
Definition progressing : Prop :=
  ∀ k r k', call k = (r, k') → data ≠ [] → r ≠ 0%Z.

Lemma send_loop_terminates fuel pos w :
  progressing → length data - pos < fuel → (send_loop fuel pos w).1 ≠ NoFuel.
Proof.
  intros Hp. revert pos w. induction fuel as [|fuel IH]; intros pos w Hf; [lia|].
  destruct (decide (pos < length data)).
  - destruct (call (kern w)) as [r k] eqn:Hc. rewrite (send_loop_pass _ _ _ r k) by done.
    destruct (Z.ltb_spec r 0); [done|]. apply IH.
    assert (r ≠ 0%Z) by (eapply Hp; [done|by intros ->; simpl in *; lia]). lia.
  - by rewrite send_loop_done by lia.
Qed.

(** A transport stuck at zero keeps the loop going for ever. *)
Lemma send_loop_stuck fuel pos w :
  (∀ k, (call k).1 = 0%Z) → pos < length data → (send_loop fuel pos w).1 = NoFuel.
Proof.
  intros Hz. revert w. induction fuel as [|fuel IH]; intros w Hpos; [done|].
  destruct (call (kern w)) as [r k] eqn:Hc. rewrite (send_loop_pass _ _ _ r k) by done.
  specialize (Hz (kern w)). rewrite Hc in Hz. simpl in Hz. subst r. simpl.
  rewrite Nat.add_0_r. by apply IH.
Qed.

(** Fuel that was enough stays enough. *)
Lemma send_loop_fuel fuel fuel' pos w :
  (send_loop fuel pos w).1 ≠ NoFuel → fuel ≤ fuel' →
  send_loop fuel' pos w = send_loop fuel pos w.
Proof.
  revert fuel' pos w. induction fuel as [|fuel IH]; intros fuel' pos w Hn Hle; [done|].
  destruct fuel' as [|fuel']; [lia|]. destruct (decide (pos < length data)).
  - destruct (call (kern w)) as [r k] eqn:Hc.
    rewrite !(send_loop_pass _ _ _ r k) in * by done.
    destruct (r <? 0)%Z; [done|]. apply IH; [done|lia].
  - by rewrite !send_loop_done by lia.
Qed.

Context `{!KernelLaws K}.
Variable e : endpoint.

(** A call that takes everything or fails: the loop makes one pass. *)
Lemma send_loop_whole fuel w w' :
  (∀ k r k', call k = (r, k') → (r < 0)%Z ∨
     (r = Z.of_nat (length data) ∧ stream_step e [] data (kview k) (kview k'))) →
  send_loop fuel 0 w = (Ret (), w') → stream_step e [] data (wview w) (wview w').
Proof.
  intros Hcall. destruct fuel as [|fuel]; [done|].
  destruct (decide (0 < length data)).
  - destruct (call (kern w)) as [r k] eqn:Hc. rewrite (send_loop_pass _ _ _ r k) by done.
    destruct (Hcall _ _ _ Hc) as [Hr|[-> Hv]].
    + by rewrite (proj2 (Z.ltb_lt r 0)) by lia.
    + rewrite (proj2 (Z.ltb_ge _ 0)), Nat2Z.id by lia. simpl.
      destruct fuel as [|fuel]; [done|]. rewrite send_loop_done by lia. by intros [= <-].
  - rewrite send_loop_done by lia. intros [= <-].
    destruct data; [auto with view|simpl in *; lia].
Qed.

(** What one pass does to the view: a prefix of the buffer is sent. *)
Definition sending_call : Prop := ∀ k r k', call k = (r, k') →
  (r ≤ Z.of_nat (length data))%Z ∧
  stream_step e [] (take (Z.to_nat r) data) (kview k) (kview k').

Lemma send_loop_spec fuel pos w o w' :
  sending_call → send_loop fuel pos w = (o, w') →
  ∃ ns, Forall (λ n, n ≤ length data) ns ∧
    stream_step e [] (prefixes data ns) (wview w) (wview w') ∧
    (o = Ret () → length data ≤ pos + sum_list ns ∧
       ∀ ns1 n ns2, ns = ns1 ++ n :: ns2 → pos + sum_list ns1 < length data).
Proof.
  intros Hcall. revert pos w. induction fuel as [|fuel IH]; intros pos w Hs.
  { injection Hs as <- <-. exists []. split; [done|]. split; [auto with view|done]. }
  destruct (decide (pos < length data)) as [Hpos|Hpos].
  2: { rewrite send_loop_done in Hs by lia. injection Hs as <- <-. exists [].
       split; [done|]. split; [auto with view|]. intros _. split; [simpl; lia|].
       intros ns1 n ns2 Hnil. by destruct ns1. }
  destruct (call (kern w)) as [r k] eqn:Hc. rewrite (send_loop_pass _ _ _ r k) in Hs by done.
  destruct (Hcall _ _ _ Hc) as [Hr Hv]. destruct (Z.ltb_spec r 0).
  - injection Hs as <- <-. exists []. split; [done|]. split; [|done].
    replace (Z.to_nat r) with 0 in Hv by lia. exact Hv.
  - apply IH in Hs as (ns & Hns & Hstep & Hret). exists (Z.to_nat r :: ns).
    split; [constructor; [lia|done]|]. split.
    + rewrite prefixes_cons. by apply (stream_step_trans _ [] _ [] _ _ (kview k)).
    + intros Ho. destruct (Hret Ho) as [Hsum Hlast]. split; [simpl; lia|].
      intros [|n1 ns1] n ns2 [= <- Hns']; simpl; [lia|].
      specialize (Hlast _ _ _ Hns'). lia.
Qed.
End send_loop.
