(* ===== verification/TCPConnection.v ===== *)
(** * server/tcp/tcpconnection.cc: a Connection over a plain socket *)

From S2P Require Import Prelude Cpp Log OS Connection.

Module TCPConnection.
Record t := Make { fd_ : SOCKET }.

Section ops.
Context {K : Type} `{Kernel K} `{Platform}.
Variable fuel : nat.

Definition recv (c : t) : M (world K) bytes :=
  '(r, data) ← sys (sys_recv (fd_ c) RECV_BUF_SZ);
  recv_tail r (overwrite (string_buffer RECV_BUF_SZ) data).

Definition send (c : t) (data : bytes) : M (world K) unit :=
  send_loop (sys_send (fd_ c) data) data fuel 0.

(** [~Connection]; the result of [close] is dropped. *)
Definition destroy (c : t) : M (world K) unit :=
  sys (sys_close (fd_ c)) ;; mret ().

#[export] Instance ops : ConnectionOps t (world K) := {|
  conn_fd := fd_;
  conn_recv := recv;
  conn_send := send;
  conn_destroy := destroy;
|}.
End ops.

Section spec.
Context {K : Type} `{KernelLaws K} `{Platform}.

Lemma send_call fd data : sending_call (sys_send fd data) data (inl fd).
Proof.
  intros k r k' Hs. apply send_law in Hs as [[-> ->]|[? ->]]; split; auto with view lia.
Qed.

(** The outcome of [recv], from what the system call returned. *)
Lemma tcp_recv_run c w r data k' :
  sys_recv (fd_ c) RECV_BUF_SZ (kern w) = ((r, data), k') →
  recv c w =
  (if (r <? 0)%Z then recv_failure r (World k' (logs w)) else Ret data,
   World k' (logs w)).
Proof.
  intros Hr. unfold recv. rewrite run_bind, run_sys, Hr. cbn [fst snd].
  destruct (recv_law _ _ _ _ _ _ Hr) as [[-> _]|(Hb & Hl & _)].
  - by rewrite recv_tail_failed.
  - rewrite recv_tail_ok by done. by rewrite (proj2 (Z.ltb_ge r 0)) by lia.
Qed.

Lemma tcp_recv_spec c w o w' :
  recv c w = (o, w') →
  stream_step (inl (fd_ c)) (match o with Ret d => d | _ => [] end) []
    (wview w) (wview w') ∧
  (match o with Ret d => length d ≤ RECV_BUF_SZ | _ => True end).
Proof.
  destruct (sys_recv (fd_ c) RECV_BUF_SZ (kern w)) as [[r data] k'] eqn:Hr.
  rewrite (tcp_recv_run _ _ _ _ _ Hr). intros [= <- <-]. unfold wview. simpl.
  destruct (recv_law _ _ _ _ _ _ Hr) as [[-> Hv]|(Hb & Hl & Hv)]; rewrite Hv.
  - cbn. pose proof (recv_failure_empty (-1) (World k' (logs w))).
    destruct (recv_failure _ _) as [d| | |]; subst; simpl; auto with view lia.
  - rewrite (proj2 (Z.ltb_ge r 0)) by lia. auto with view lia.
Qed.

#[export] Instance connection fuel : @ConnectionSpec t K _ _ (ops fuel).
Proof.
  refine {| conn_end c := inl (fd_ c) |}.
  - intros c w o w' Hr. by apply tcp_recv_spec in Hr as [? _].
  - intros c w d w' Hr. by apply tcp_recv_spec in Hr as [_ ?].
  - intros c d w o w' Hs.
    by apply (send_loop_spec _ _ (inl (fd_ c))) in Hs; [|apply send_call].
Defined.

#[export] Instance connection_closes fuel : @ConnectionCloses t K _ _ (ops fuel).
Proof.
  split. intros c w o w'. change conn_destroy with destroy. unfold destroy.
  rewrite run_bind, run_sys. intros [= <- <-]. split; [done|].
  unfold wview. simpl. rewrite close_law. apply close_fd_closes.
Qed.

#[export] Instance connection_whole fuel `{!WholeKernel K} :
  @ConnectionWhole t K _ _ (ops fuel) (connection fuel).
Proof.
  split. intros c d w w'. apply send_loop_whole. intros k r k' Hs.
  destruct (send_whole _ _ _ _ _ Hs) as [?| ->]; [by left|right].
  apply send_law in Hs as [[? _]|[_ ->]]; [lia|].
  rewrite Nat2Z.id, firstn_all. auto with view.
Qed.
End spec.
End TCPConnection.
