(* ===== verification/SSLConnection.v ===== *)
(** * server/ssl/sslconnection.cc: a Connection over a TLS object *)

From S2P Require Import Prelude Cpp Log OS OpenSSL Connection.

Module SSLConnection.
Record t := Make { fd_ : SOCKET; ssl_ : Z }.

Section ops.
Context {K : Type} `{Kernel K} `{!OpenSSL K} `{Platform}.

Definition err (str : bytes) : M (world K) unit :=
  logging (ERR "ssl server connection: {}" [str]) ;;
  raise (runtime_error (lit "ssl server: {}" ++ str)).

(** [~Connection], the base class destructor. *)
Definition base_destroy (fd : SOCKET) : M (world K) unit :=
  sys (sys_close fd) ;; mret ().

(** The constructor: an exception of its body unwinds the base class. *)
Definition make (fd : SOCKET) (ctx : Z) : M (world K) t :=
  unwinding
    (ssl ← sys (SSL_new ctx);
     _ ← sys (SSL_set_fd ssl fd);
     r ← sys (SSL_accept ssl);
     when (r <=? 0)%Z (ERR_print_errors_cb err) ;;
     mret (Make fd ssl))
    (base_destroy fd).

Definition destroy (c : t) : M (world K) unit :=
  _ ← sys (SSL_shutdown (ssl_ c));
  sys (SSL_free (ssl_ c)) ;;
  base_destroy (fd_ c).

Definition recv (c : t) : M (world K) bytes :=
  '(r, data) ← sys (SSL_read (ssl_ c) RECV_BUF_SZ);
  recv_tail r (overwrite (string_buffer RECV_BUF_SZ) data).

(** The count is narrowed by the cast [(int) data.size()]. *)
Definition write_call (c : t) (data : bytes) : K → Z * K :=
  SSL_write (ssl_ c) data (to_int (Z.of_nat (length data))).

Definition send (fuel : nat) (c : t) (data : bytes) : M (world K) unit :=
  send_loop (write_call c data) data fuel 0.

#[export] Instance ops fuel : ConnectionOps t (world K) := {|
  conn_fd := fd_;
  conn_recv := recv;
  conn_send := send fuel;
  conn_destroy := destroy;
|}.
End ops.

Section spec.
Context {K : Type} `{OpenSSLLaws K} `{Platform}.

Lemma write_call_sends c data : sending_call (write_call c data) data (inr (ssl_ c)).
Proof.
  intros k r k' Hs. apply SSL_write_law in Hs as [[Hr ->]|(Hr & Hn & ->)].
  - replace (Z.to_nat r) with 0 by lia. split; [lia|auto with view].
  - split; [lia|auto with view].
Qed.

Lemma ssl_recv_run c w r data k' :
  SSL_read (ssl_ c) RECV_BUF_SZ (kern w) = ((r, data), k') →
  recv c w =
  (if (r <? 0)%Z then recv_failure r (World k' (logs w)) else Ret data,
   World k' (logs w)).
Proof.
  intros Hr. unfold recv. rewrite run_bind, run_sys, Hr. cbn [fst snd].
  destruct (SSL_read_law _ _ _ _ _ _ Hr) as [(Hn & -> & _)|(Hb & Hl & _)].
  - destruct (Z.ltb_spec r 0); [by rewrite recv_tail_failed|].
    by rewrite recv_tail_ok by (simpl; lia).
  - rewrite recv_tail_ok by lia. by rewrite (proj2 (Z.ltb_ge r 0)) by lia.
Qed.

Lemma ssl_recv_spec c w o w' :
  recv c w = (o, w') →
  stream_step (inr (ssl_ c)) (match o with Ret d => d | _ => [] end) []
    (wview w) (wview w') ∧
  (match o with Ret d => length d ≤ RECV_BUF_SZ | _ => True end).
Proof.
  destruct (SSL_read (ssl_ c) RECV_BUF_SZ (kern w)) as [[r data] k'] eqn:Hr.
  rewrite (ssl_recv_run _ _ _ _ _ Hr). intros [= <- <-]. unfold wview. simpl.
  destruct (SSL_read_law _ _ _ _ _ _ Hr) as [(Hn & -> & Hv)|(Hb & Hl & Hv)]; rewrite Hv.
  - pose proof (recv_failure_empty r (World k' (logs w))).
    destruct (r <? 0)%Z; [|simpl; auto with view lia].
    destruct (recv_failure _ _) as [d| | |]; subst; simpl; auto with view lia.
  - rewrite (proj2 (Z.ltb_ge r 0)) by lia. auto with view lia.
Qed.

#[export] Instance connection fuel : @ConnectionSpec t K _ _ (ops fuel).
Proof.
  refine {| conn_end c := inr (ssl_ c) |}.
  - intros c w o w' Hr. by apply ssl_recv_spec in Hr as [? _].
  - intros c w d w' Hr. by apply ssl_recv_spec in Hr as [_ ?].
  - intros c d w o w' Hs.
    by apply (send_loop_spec _ _ (inr (ssl_ c))) in Hs; [|apply write_call_sends].
Defined.

#[export] Instance connection_closes fuel : @ConnectionCloses t K _ _ (ops fuel).
Proof.
  split. intros c w o w'. change conn_destroy with destroy. unfold destroy, base_destroy.
  run_calls. intros [= <- <-]. split; [done|].
  unfold wview. simpl. rewrite close_law, SSL_free_law, SSL_shutdown_law.
  apply close_fd_closes.
Qed.
End spec.
End SSLConnection.
