(* ===== verification/TransportSpec.v ===== *)
(** * What the connections guarantee

    [send] and [recv] of the plain and the TLS connection: the bytes on the
    wire for any schedule of partial writes, termination, and every outcome of
    a read. *)

From S2P Require Import Prelude Cpp Log OS OpenSSL Sim Connection TCPConnection SSLConnection.

Section tcp.
Context {K : Type} `{KernelLaws K} `{Platform}.

(** C13: For any schedule of partial writes, TCPConnection::send puts on the wire one prefix of
    its argument per pass of its loop, each as long as the kernel accepted, and when it returns
    the accepted lengths add up to the size and no pass ran after they did. *)
Theorem tcp_send_wire fuel c d w o w' :
  TCPConnection.send fuel c d w = (o, w') →
  ∃ ns, Forall (λ n, n ≤ length d) ns ∧
    v_sent (inl (TCPConnection.fd_ c)) (wview w') =
      v_sent (inl (TCPConnection.fd_ c)) (wview w) ++ prefixes d ns ∧
    (o = Ret () → complete_passes d ns).
Proof.
  intros Hs. destruct (conn_send_spec (ConnectionSpec:=TCPConnection.connection fuel) c d w o w' Hs)
    as (ns & Hns & Hst & Hret).
  exists ns. split; [done|]. split; [by apply Hst|done].
Qed.

(** When the kernel takes a buffer whole or fails, a TCPConnection::send that returns has put
    exactly its argument on the wire, once, and touched no other stream or descriptor. *)
Theorem tcp_send_whole fuel `{!WholeKernel K} c d w w' :
  TCPConnection.send fuel c d w = (Ret (), w') →
  stream_step (inl (TCPConnection.fd_ c)) [] d (wview w) (wview w').
Proof. exact (conn_send_whole (ConnectionWhole:=TCPConnection.connection_whole fuel) c d w w'). Qed.

(** A partial write makes TCPConnection::send repeat itself: if the kernel takes n bytes of the
    buffer and then all of it, the wire carries the first n bytes twice. *)
Theorem tcp_partial_write_duplicates fuel c d w n k1 k2 :
  n < length d → 2 < fuel →
  sys_send (TCPConnection.fd_ c) d (kern w) = (Z.of_nat n, k1) →
  sys_send (TCPConnection.fd_ c) d k1 = (Z.of_nat (length d), k2) →
  TCPConnection.send fuel c d w = (Ret (), World k2 (logs w)) ∧
  v_sent (inl (TCPConnection.fd_ c)) (kview k2) =
    v_sent (inl (TCPConnection.fd_ c)) (wview w) ++ take n d ++ d.
Proof.
  intros Hn Hf Hs1 Hs2. split.
  - unfold TCPConnection.send. destruct fuel as [|[|[|fuel]]]; try lia.
    rewrite (send_loop_pass _ _ _ _ _ (Z.of_nat n) k1) by (done || lia).
    rewrite (proj2 (Z.ltb_ge _ 0)), Nat2Z.id by lia.
    rewrite (send_loop_pass _ _ _ _ _ (Z.of_nat (length d)) k2) by (done || lia).
    rewrite (proj2 (Z.ltb_ge _ 0)), Nat2Z.id by lia. by rewrite send_loop_done by lia.
  - apply send_law in Hs1 as [[? _]|[_ Hv1]]; [lia|].
    apply send_law in Hs2 as [[? _]|[_ Hv2]]; [lia|].
    rewrite Hv2, Hv1, !v_sent_push_out_eq, !Nat2Z.id, firstn_all, <-app_assoc. done.
Qed.

(** TCPConnection::send ends when no successful write takes zero bytes: one pass per byte and
    one more are enough fuel, and more fuel changes nothing. *)
Theorem tcp_send_terminates fuel c d w :
  progressing (sys_send (K:=K) (TCPConnection.fd_ c) d) d → length d < fuel →
  (TCPConnection.send fuel c d w).1 ≠ NoFuel ∧
  ∀ fuel', fuel ≤ fuel' → TCPConnection.send fuel' c d w = TCPConnection.send fuel c d w.
Proof.
  intros Hp Hf. assert ((TCPConnection.send fuel c d w).1 ≠ NoFuel) as Hn.
  { apply send_loop_terminates; [done|lia]. }
  split; [done|]. intros fuel' Hle. by apply send_loop_fuel.
Qed.

(** C28: TCPConnection::recv on every return value of the system call: the bytes read, at most
    16 KiB, when it succeeds; the empty string on EAGAIN or WSAEWOULDBLOCK; otherwise a
    runtime_error with the system's message. *)
Theorem tcp_recv_outcome c w r data k :
  sys_recv (TCPConnection.fd_ c) RECV_BUF_SZ (kern w) = ((r, data), k) →
  TCPConnection.recv c w =
  (if (r <? 0)%Z then
     if is_win32 && (r =? SOCKET_ERROR)%Z then
       if (WSAGetLastError k =? WSAEWOULDBLOCK)%Z then Ret []
       else Throw (runtime_error (lit "recv error: " ++ to_string (WSAGetLastError k)))
     else
       if (errno k =? EAGAIN)%Z then Ret []
       else Throw (runtime_error (lit "recv error: " ++ strerror (errno k)))
   else Ret data, World k (logs w)) ∧
  ((0 ≤ r)%Z → length data ≤ RECV_BUF_SZ).
Proof.
  intros Hr. pose proof (TCPConnection.tcp_recv_run c w r data k Hr) as Hrun.
  split; [exact Hrun|]. intros Hpos.
  destruct (recv_law _ _ _ _ _ _ Hr) as [[-> _]|(Hb & Hl & _)]; lia.
Qed.
End tcp.

Section ssl.
Context {K : Type} `{OpenSSLLaws K} `{Platform}.

(** For any schedule of partial writes, [SSLConnection::send] puts into the TLS stream one
    prefix of its argument per pass, and when it returns the accepted lengths add up to the
    size. *)
Theorem ssl_send_wire fuel c d w o w' :
  SSLConnection.send fuel c d w = (o, w') →
  ∃ ns, Forall (λ n, n ≤ length d) ns ∧
    v_sent (inr (SSLConnection.ssl_ c)) (wview w') =
      v_sent (inr (SSLConnection.ssl_ c)) (wview w) ++ prefixes d ns ∧
    (o = Ret () → complete_passes d ns).
Proof.
  intros Hs. destruct (conn_send_spec (ConnectionSpec:=SSLConnection.connection fuel) c d w o w' Hs)
    as (ns & Hns & Hst & Hret).
  exists ns. split; [done|]. split; [by apply Hst|done].
Qed.

(** A write that reports zero for ever keeps [SSLConnection::send] in its loop for ever. *)
Theorem ssl_send_zero_stuck fuel c d w :
  (∀ k, (SSL_write (SSLConnection.ssl_ c) d (to_int (Z.of_nat (length d))) k).1 = 0%Z) → d ≠ [] →
  (SSLConnection.send fuel c d w).1 = NoFuel.
Proof.
  intros Hz Hd. apply send_loop_stuck; [exact Hz|]. destruct d; [done|cbn; lia].
Qed.
End ssl.

(** ** Witnesses *)

Module Witness.
#[local] Instance platform : Platform := posix.

(** A connection whose transport takes two bytes first. *)
Definition slow : world sim := sim_world (sim_start [5%Z] [] [2%Z]).
Definition c : TCPConnection.t := TCPConnection.Make 5.

Lemma tcp_send_wire_witness :
  ∃ w', TCPConnection.send 10 c (lit "hello") slow = (Ret (), w') ∧
    ∃ ns, Forall (λ n, n ≤ 5) ns ∧
      v_sent (inl 5%Z) (wview w') = v_sent (inl 5%Z) (wview slow) ++ prefixes (lit "hello") ns ∧
      (Ret () = Ret () → complete_passes (lit "hello") ns).
Proof.
  destruct (TCPConnection.send 10 c (lit "hello") slow) as [o w'] eqn:Hs. exists w'.
  assert (o = Ret ()) as -> by (by vm_compute in Hs; injection Hs as <- _).
  split; [reflexivity|]. exact (tcp_send_wire 10 c (lit "hello") slow _ w' Hs).
Defined.

Lemma tcp_send_whole_witness :
  ∃ w', TCPConnection.send (K:=whole_sim) 10 c (lit "hello") (whole_world (sim_start [5%Z] [] [])) =
      (Ret (), w') ∧
    stream_step (inl 5%Z) [] (lit "hello") (wview (whole_world (sim_start [5%Z] [] []))) (wview w').
Proof.
  destruct (TCPConnection.send (K:=whole_sim) 10 c (lit "hello")
              (whole_world (sim_start [5%Z] [] []))) as [o w'] eqn:Hs. exists w'.
  assert (o = Ret ()) as -> by (by vm_compute in Hs; injection Hs as <- _).
  split; [reflexivity|]. exact (tcp_send_whole (K:=whole_sim) 10 c (lit "hello") _ w' Hs).
Defined.

Lemma tcp_partial_write_duplicates_witness :
  ∃ k2, TCPConnection.send 10 c (lit "hello") slow = (Ret (), World k2 sim_log) ∧
    v_sent (inl 5%Z) (kview k2) = lit "hehello".
Proof.
  destruct (sys_send 5 (lit "hello") (kern slow)) as [r1 k1] eqn:H1.
  destruct (sys_send 5 (lit "hello") k1) as [r2 k2] eqn:H2.
  assert (r1 = 2%Z) as -> by (by vm_compute in H1; injection H1 as <- _).
  assert (r2 = 5%Z) as ->.
  { vm_compute in H1. injection H1 as <-. vm_compute in H2. by injection H2 as <- _. }
  exists k2.
  destruct (tcp_partial_write_duplicates 10 c (lit "hello") slow 2 k1 k2) as [Hs Hv];
    [vm_compute; lia|lia|exact H1|exact H2|].
  split; [exact Hs|exact Hv].
Defined.

Lemma tcp_send_terminates_witness :
  (TCPConnection.send (K:=whole_sim) 10 c (lit "hello") (whole_world (sim_start [5%Z] [] []))).1 ≠ NoFuel ∧
  ∀ fuel', 10 ≤ fuel' →
    TCPConnection.send (K:=whole_sim) fuel' c (lit "hello") (whole_world (sim_start [5%Z] [] [])) =
    TCPConnection.send (K:=whole_sim) 10 c (lit "hello") (whole_world (sim_start [5%Z] [] [])).
Proof.
  apply (tcp_send_terminates (K:=whole_sim) 10 c (lit "hello") (whole_world (sim_start [5%Z] [] []))).
  - intros k r k' Hs _. apply send_whole in Hs as [?| ->]; [lia|discriminate].
  - vm_compute. lia.
Defined.

Lemma tcp_recv_outcome_witness :
  ∃ k, TCPConnection.recv c (sim_world (sim_start [5%Z] [(inl 5%Z, [lit "hi"])] [])) =
    (Ret (lit "hi"), World k sim_log).
Proof.
  destruct (sys_recv 5 RECV_BUF_SZ (sim_start [5%Z] [(inl 5%Z, [lit "hi"])] [])) as [[r d] k] eqn:Hr.
  assert (r = 2%Z ∧ d = lit "hi") as [-> ->] by (by vm_compute in Hr; injection Hr as <- <- _).
  exists k.
  exact (proj1 (tcp_recv_outcome c (sim_world (sim_start [5%Z] [(inl 5%Z, [lit "hi"])] []))
                  2 (lit "hi") k Hr)).
Defined.

Lemma ssl_send_wire_witness :
  ∃ w', SSLConnection.send 10 (SSLConnection.Make 5 7) (lit "hello") slow = (Ret (), w') ∧
    ∃ ns, Forall (λ n, n ≤ 5) ns ∧
      v_sent (inr 7%Z) (wview w') = v_sent (inr 7%Z) (wview slow) ++ prefixes (lit "hello") ns ∧
      (Ret () = Ret () → complete_passes (lit "hello") ns).
Proof.
  destruct (SSLConnection.send 10 (SSLConnection.Make 5 7) (lit "hello") slow) as [o w'] eqn:Hs.
  exists w'. assert (o = Ret ()) as -> by (by vm_compute in Hs; injection Hs as <- _).
  split; [reflexivity|].
  exact (ssl_send_wire 10 (SSLConnection.Make 5 7) (lit "hello") slow _ w' Hs).
Defined.
End Witness.
