(* ===== verification/Session.v ===== *)
(** * protocol/session: the Session base class, and what the threads ask of it

    A session owns its connection and the state of its protocol; [process] is
    the protocol's virtual method, a computation on that state.  [SessionOps]
    is the virtual interface the threads use, [SessionSpec] its contract. *)

From S2P Require Import Prelude Cpp Log OS Connection.

(** ** The interface *)

Class SessionOps (Se W : Type) := {
  session_fd : Se → SOCKET;
  session_iteration : M (Se * W) unit;
  (** the virtual destructor *)
  session_destroy : Se → M W unit;
}.

(** An iteration keeps the descriptor and opens, closes and watches nothing;
    the destructor closes the session's descriptor and no other. *)
Class SessionSpec (Se K : Type) `{KernelLaws K} `{!SessionOps Se (world K)} := {
  session_iteration_spec s w o s' w' :
    session_iteration (s, w) = (o, (s', w')) →
    session_fd s' = session_fd s ∧ io_only (wview w) (wview w');
  session_destroy_spec s w o w' :
    session_destroy s w = (o, w') → o = Ret () ∧ closes (session_fd s) (wview w) (wview w');
}.

(** ** Session *)

Module Session.
Record t (C PS : Type) := Make { connection_ : C; protocol_state : PS }.
Arguments Make {C PS}.
Arguments connection_ {C PS}.
Arguments protocol_state {C PS}.

Section ops.
Context {C PS W : Type} `{!ConnectionOps C W}.
Variable process : bytes → M PS bytes.

(** A call on the session's connection. *)
Definition on_connection {A} (f : C → M W A) : M (t C PS * W) A := λ '(s, w),
  let '(o, w') := f (connection_ s) w in (o, (s, w')).

(** A call of [process]. *)
Definition on_protocol {A} (m : M PS A) : M (t C PS) A :=
  zoom protocol_state (λ p s, Make (connection_ s) p) m.

Definition fd (s : t C PS) : SOCKET := conn_fd (connection_ s).

Definition iteration : M (t C PS * W) unit :=
  request ← on_connection conn_recv;
  when (negb (bool_decide (request = [])))
    (response ← on_fst (on_protocol (process request));
     on_connection (λ c, conn_send c response)).

(** [virtual ~Session() = default], which destroys the [unique_ptr]. *)
Definition destroy (s : t C PS) : M W unit := conn_destroy (connection_ s).

#[export] Instance ops : SessionOps (t C PS) W := {|
  session_fd := fd;
  session_iteration := iteration;
  session_destroy := destroy;
|}.
End ops.

Section spec.
Context {C PS K : Type} `{ConnectionSpec C K} (process : bytes → M PS bytes).

(** What an iteration comes to, by the outcome of [recv]. *)
Lemma session_iteration_run s w :
  iteration process (s, w) =
  match conn_recv (connection_ s) w with
  | (Ret [], w') => (Ret (), (s, w'))
  | (Ret d, w') =>
      match process d (protocol_state s) with
      | (Ret resp, p') =>
          let '(o, w'') := conn_send (connection_ s) resp w' in
          (o, (Make (connection_ s) p', w''))
      | (Throw e, p') => (Throw e, (Make (connection_ s) p', w'))
      | (UB, p') => (UB, (Make (connection_ s) p', w'))
      | (NoFuel, p') => (NoFuel, (Make (connection_ s) p', w'))
      end
  | (Throw e, w') => (Throw e, (s, w'))
  | (UB, w') => (UB, (s, w'))
  | (NoFuel, w') => (NoFuel, (s, w'))
  end.
Proof.
  unfold iteration. rewrite run_bind. unfold on_connection at 1.
  destruct (conn_recv _ w) as [[d| | |] w']; [|done..].
  case_bool_decide; simpl; [by subst|]. destruct d; [done|].
  rewrite run_bind. unfold on_fst, on_protocol, zoom. simpl.
  by destruct (process _ _) as [[]].
Qed.

#[export] Instance session `{!ConnectionCloses C K} :
  @SessionSpec (t C PS) K _ _ (ops process).
Proof.
  split.
  - intros s w o s' w'. change session_iteration with (iteration process).
  rewrite session_iteration_run.
    destruct (conn_recv _ w) as [oc w1] eqn:Hr.
    apply conn_recv_spec, stream_step_io_only in Hr.
    repeat case_match; intros; simplify_eq/=; try done.
    split; [done|]. etrans; [done|].
    match goal with Hs : conn_send _ _ _ = _ |- _ =>
      apply conn_send_spec in Hs as (? & _ & Hs & _) end.
    by eapply stream_step_io_only.
  - intros s w o w'. apply conn_destroy_spec.
Qed.
End spec.
End Session.
