(* ===== verification/LineSession.v ===== *)
(** * protocol/linesession: a Session that cuts its input into lines

    [iteration] is the code: it appends what [recv] delivers to [buffer_], cuts
    lines off its front and sends the concatenated responses.  [extract] is the
    cutting alone, [split] the specification of what it should cut. *)

From Stdlib Require Import Sorted.
From S2P Require Import Prelude Cpp Log OS Connection Session.

Module LineSession.
Record t (C PS : Type) := Make {
  base : Session.t C PS;
  separator_ : bytes;
  separator_len_ : nat;
  include_separator_ : bool;
  buffer_ : bytes }.
Arguments Make {C PS}.
Arguments base {C PS}.
Arguments separator_ {C PS}.
Arguments separator_len_ {C PS}.
Arguments include_separator_ {C PS}.
Arguments buffer_ {C PS}.

Definition set_buffer {C PS} (b : bytes) (s : t C PS) : t C PS :=
  Make (base s) (separator_ s) (separator_len_ s) (include_separator_ s) b.
Definition set_base {C PS} (x : Session.t C PS) (s : t C PS) : t C PS :=
  Make x (separator_ s) (separator_len_ s) (include_separator_ s) (buffer_ s).

(** The constructor; its defaults are [true] and [CRLF]. *)
Definition make {C PS} (c : C) (p : PS) (include_separator : bool) (separator : bytes) :
    t C PS :=
  Make (Session.Make c p) separator (length separator) include_separator [].

Section ops.
Context {C PS W : Type} `{!ConnectionOps C W}.
Variable process : bytes → M PS bytes.
Variable fuel : nat.

Definition on_base {A} (m : M (Session.t C PS) A) : M (t C PS) A :=
  zoom base set_base m.
Definition on_connection {A} (f : C → M W A) : M (t C PS * W) A := λ '(s, w),
  let '(o, w') := f (Session.connection_ (base s)) w in (o, (s, w')).

(** The argument of [process] for a line that ends at [i]. *)
Definition line_arg (s : t C PS) (i : nat) : bytes :=
  string_substr (buffer_ s) (i + (if include_separator_ s then separator_len_ s else 0)).

(** [for (;;)]: [i] keeps its value from one pass to the next. *)
Fixpoint line_loop (n i : nat) (response : bytes) : M (t C PS) bytes :=
  match n with
  | 0 => out_of_fuel
  | S n =>
      s ← get;
      match string_find (buffer_ s) (separator_ s) i with
      | Some i =>
          r ← on_base (Session.on_protocol (process (line_arg s i)));
          modify (λ s, set_buffer (string_erase (buffer_ s) (i + separator_len_ s)) s) ;;
          line_loop n i (response ++ r)
      | None => mret response
      end
  end.

Definition iteration : M (t C PS * W) unit :=
  d ← on_connection conn_recv;
  on_fst (modify (λ s, set_buffer (buffer_ s ++ d) s)) ;;
  response ← on_fst (line_loop fuel 0 []);
  on_connection (λ c, conn_send c response).

Definition fd (s : t C PS) : SOCKET := Session.fd (base s).
Definition destroy (s : t C PS) : M W unit := Session.destroy (base s).

#[export] Instance ops : SessionOps (t C PS) W := {|
  session_fd := fd;
  session_iteration := iteration;
  session_destroy := destroy;
|}.
End ops.

(** ** Cutting lines *)

Section extract.
Variable sep : bytes.

(** The loop without its calls: the lines it cuts, what it leaves in the
    buffer; [None] when [n] passes are not enough. *)
Fixpoint extract (n i : nat) (buf : bytes) : option (list bytes * bytes) :=
  match n with
  | 0 => None
  | S n =>
      match string_find buf sep i with
      | Some j =>
          '(ls, rest) ← extract n j (string_erase buf (j + length sep));
          Some (take j buf :: ls, rest)
      | None => Some ([], buf)
      end
  end.

(** The specification: every line starts its search at the front. *)
Fixpoint split (n : nat) (buf : bytes) : option (list bytes * bytes) :=
  match n with
  | 0 => None
  | S n =>
      match string_find buf sep 0 with
      | Some j =>
          '(ls, rest) ← split n (string_erase buf (j + length sep));
          Some (take j buf :: ls, rest)
      | None => Some ([], buf)
      end
  end.

(** The lines with their separators back. *)
Definition unlines (ls : list bytes) : bytes := concat ((λ l, l ++ sep) <$> ls).

Lemma unlines_cons l ls : unlines (l :: ls) = l ++ sep ++ unlines ls.
Proof. unfold unlines. simpl. by rewrite <-app_assoc. Qed.

Lemma unlines_app ls1 ls2 : unlines (ls1 ++ ls2) = unlines ls1 ++ unlines ls2.
Proof. unfold unlines. by rewrite fmap_app, concat_app. Qed.

(** A hit of [find] cuts the buffer in three. *)
Lemma find_cut buf i j :
  string_find buf sep i = Some j →
  buf = take j buf ++ sep ++ string_erase buf (j + length sep).
Proof.
  rewrite string_find_Some. intros (Hj & [k Hk] & _).
  rewrite <-(take_drop j buf) at 1. rewrite Hk. f_equal. f_equal.
  unfold string_erase. by rewrite <-drop_drop, Hk, drop_app_length.
Qed.

Lemma find_length buf i j : string_find buf sep i = Some j → i ≤ j ≤ length buf.
Proof. rewrite string_find_Some. tauto. Qed.

(** *** No byte is lost or invented *)

Lemma extract_unlines n i buf ls rest :
  extract n i buf = Some (ls, rest) → buf = unlines ls ++ rest.
Proof.
  revert i buf ls. induction n as [|n IH]; intros i buf ls; [done|]. cbn [extract].
  destruct (string_find buf sep i) as [j|] eqn:Hf.
  - intros H. destruct (extract n j _) as [[ls' r]|] eqn:He; simplify_eq/=.
    rewrite unlines_cons, <-!app_assoc. rewrite <-(IH _ _ _ He). by apply find_cut in Hf.
  - intros [= <- <-]. done.
Qed.

(** *** Termination *)

Context (Hsep : sep ≠ []).

Lemma erase_shorter buf i j :
  string_find buf sep i = Some j →
  length (string_erase buf (j + length sep)) < length buf.
Proof using Hsep.
  intros Hf. rewrite (find_cut _ _ _ Hf) at 2. rewrite !length_app.
  assert (length sep ≠ 0) by (by intros ?%length_zero_iff_nil). lia.
Qed.

Lemma extract_total n i buf : length buf < n → is_Some (extract n i buf).
Proof using Hsep.
  revert i buf. induction n as [|n IH]; intros i buf Hn; [lia|]. cbn [extract].
  destruct (string_find buf sep i) as [j|] eqn:Hf; [|done].
  destruct (IH j (string_erase buf (j + length sep))) as [[ls r] ->]; [|done].
  apply erase_shorter in Hf. lia.
Qed.

(** *** When the code cuts what it should *)

(** A search from [i] agrees with a search from the front up to the first
    separator. *)
Lemma find_from_front buf i j :
  string_find buf sep 0 = Some j → i ≤ j → string_find buf sep i = Some j.
Proof.
  rewrite !string_find_Some. intros (? & ? & Hk) ?. repeat split; [lia|lia|done|].
  intros k ?. apply Hk. lia.
Qed.
Lemma find_from_front_None buf i :
  string_find buf sep 0 = None → string_find buf sep i = None.
Proof using Hsep. rewrite !string_find_None by done. intros H k _. apply H. lia. Qed.

Lemma find_take buf i j : string_find buf sep i = Some j → length (take j buf) = j.
Proof using Type. intros Hf%find_length. rewrite length_take. lia. Qed.

(** From a carried position [i] the code cuts what it should exactly when
    the lengths of the lines never fall below [i] or one another. *)
Lemma extract_split n i buf ls rest :
  split n buf = Some (ls, rest) →
  extract n i buf = Some (ls, rest) ↔ Sorted le (i :: (length <$> ls)).
Proof using Hsep.
  revert i buf ls. induction n as [|n IH]; intros i buf ls; [done|].
  cbn [split extract]. destruct (string_find buf sep 0) as [j0|] eqn:H0.
  - destruct (split n _) as [[ls' r]|] eqn:Hs; [|done]. intros [= <- <-].
    cbn [fmap list_fmap]. rewrite (find_take _ _ _ H0). split.
    + destruct (string_find buf sep i) as [j|] eqn:Hi; [|done]. intros He.
      destruct (extract n j _) as [[ls'' r'']|] eqn:He'; [|done].
      injection He as Hj -> ->.
      assert (j = j0) as ->.
      { by rewrite <-(find_take _ _ _ Hi), Hj, (find_take _ _ _ H0). }
      constructor; [by apply (IH _ _ _ Hs)|]. constructor.
      by apply find_length in Hi as [? _].
    + intros [Hsort Hhd]%Sorted_inv. apply HdRel_inv in Hhd.
      rewrite (find_from_front _ _ _ H0 Hhd).
      by rewrite (proj2 (IH j0 _ _ Hs) Hsort).
  - intros [= <- <-]. rewrite find_from_front_None by done.
    split; [|done]. intros _. constructor; constructor.
Qed.

(** *** What it does otherwise *)

(** Two complete lines in the buffer, the second one shorter: the loop cuts
    the first line only, and leaves a complete line behind. *)
Lemma extract_shorter_second l1 l2 n :
  string_find (l1 ++ sep ++ l2 ++ sep) sep 0 = Some (length l1) →
  length l2 < length l1 →
  extract (S (S n)) 0 (l1 ++ sep ++ l2 ++ sep) = Some ([l1], l2 ++ sep).
Proof using Hsep.
  intros H0 Hlt. cbn [extract]. rewrite H0, take_app_length.
  assert (string_erase (l1 ++ sep ++ l2 ++ sep) (length l1 + length sep) = l2 ++ sep) as ->.
  { unfold string_erase. by rewrite <-drop_drop, !drop_app_length. }
  destruct (string_find (l2 ++ sep) sep (length l1)) as [j|] eqn:Hf; [|done].
  exfalso. apply string_find_Some in Hf as (Hj & Hp & _).
  apply prefix_length in Hp. rewrite length_drop, length_app in *.
  assert (length sep ≠ 0) by (by intros ?%length_zero_iff_nil). lia.
Qed.
End extract.

#[global] Arguments unlines : simpl never.

(** An empty separator is found at every position: the loop never ends. *)
Lemma extract_empty_separator n buf : extract [] n 0 buf = None.
Proof.
  induction n as [|n IH]; [done|]. cbn [extract].
  assert (string_find buf [] 0 = Some 0) as ->.
  { apply string_find_Some. repeat split; [lia|lia|apply prefix_nil|lia]. }
  unfold string_erase. simpl. by rewrite drop_0, IH.
Qed.

(** ** The loop is the cutting followed by the answers *)

(** What a line is passed to [process] as. *)
Definition arg_of {C PS} (s : t C PS) (l : bytes) : bytes :=
  l ++ (if include_separator_ s then separator_ s else []).

(** The constructor establishes, and every operation keeps, that the cached
    length is the length of the separator. *)
Definition wf {C PS} (s : t C PS) : Prop :=
  separator_len_ s = length (separator_ s) ∧ separator_ s ≠ [].

Section refinement.
Context {C PS K : Type} `{ConnectionSpec C K} (process : bytes → M PS bytes).

(** Answer the lines in order: the outcome with the responses so far, the
    protocol's state, and the lines not answered. *)
Fixpoint answer (arg : bytes → bytes) (ls : list bytes) (response : bytes) (p : PS) :
    outcome bytes * PS * list bytes :=
  match ls with
  | [] => (Ret response, p, [])
  | l :: ls' =>
      match process (arg l) p with
      | (Ret r, p') => answer arg ls' (response ++ r) p'
      | (o, p') => (o, p', ls)
      end
  end.

Definition with_protocol (p : PS) (s : t C PS) : t C PS :=
  set_base (Session.Make (Session.connection_ (base s)) p) s.

Lemma line_arg_cut (s : t C PS) i j :
  wf s → string_find (buffer_ s) (separator_ s) i = Some j →
  line_arg s j = arg_of s (take j (buffer_ s)).
Proof.
  intros [Hlen _] Hi. unfold line_arg, arg_of, string_substr. rewrite Hlen.
  pose proof (find_cut _ _ _ _ Hi) as Hcut. pose proof (find_take _ _ _ _ Hi) as Ht.
  destruct (include_separator_ s); [|by rewrite Nat.add_0_r, app_nil_r].
  rewrite Hcut at 1. rewrite app_assoc. apply take_app_length'.
  rewrite length_app. lia.
Qed.

Lemma line_loop_answer n i response (s : t C PS) ls rest :
  wf s → extract (separator_ s) n i (buffer_ s) = Some (ls, rest) →
  line_loop process n i response s =
  let '(o, p, pending) :=
    answer (arg_of s) ls response (Session.protocol_state (base s)) in
  (o, set_buffer (unlines (separator_ s) pending ++ rest) (with_protocol p s)).
Proof.
  revert i response s ls. induction n as [|n IH]; intros i response s ls Hwf; [done|].
  intros He. pose proof (extract_unlines _ _ _ _ _ _ He) as Hbuf. revert He.
  cbn [extract line_loop]. intros He. rewrite run_bind. cbn.
  destruct (string_find (buffer_ s) (separator_ s) i) as [j|] eqn:Hf.
  - destruct (extract _ n j _) as [[ls' r]|] eqn:He'; [|done]. injection He as <- <-.
    rewrite run_bind. unfold on_base, Session.on_protocol, zoom.
    rewrite (line_arg_cut _ _ _ Hwf Hf). cbn [answer].
    destruct (process _ _) as [[resp| | |] p] eqn:Hp; [|by cbn; rewrite <-Hbuf; destruct s..].
    cbn. unfold modify. rewrite run_bind. cbn. rewrite (proj1 Hwf).
    by rewrite IH with (ls := ls').
  - injection He as <- <-. by destruct s as [[] ? ? ? ?].
Qed.

(** The lines left unanswered are the last ones, and none after a return. *)
Lemma answer_pending arg ls response p o p' pending :
  answer arg ls response p = (o, p', pending) →
  ∃ done, ls = done ++ pending ∧ (is_ret o → pending = []).
Proof.
  revert response p. induction ls as [|l ls IH]; intros response p; cbn.
  { intros [= <- <- <-]. by exists []. }
  destruct (process _ _) as [[r| | |] p1]; [|intros [= <- <- <-]; by exists []..].
  intros (dn & -> & Hret)%IH. by exists (l :: dn).
Qed.

(** Answers go on where they ended, and behind what is there already. *)
Lemma answer_app arg ls1 ls2 response p r1 p1 :
  answer arg ls1 response p = (Ret r1, p1, []) →
  answer arg (ls1 ++ ls2) response p = answer arg ls2 r1 p1.
Proof.
  revert response p. induction ls1 as [|l ls IH]; intros response p; cbn; [by intros [= -> ->]|].
  destruct (process _ _) as [[r| | |] p']; [apply IH|done..].
Qed.

Lemma answer_behind arg ls response p r p' r0 :
  answer arg ls response p = (Ret r, p', []) →
  answer arg ls (r0 ++ response) p = (Ret (r0 ++ r), p', []).
Proof.
  revert response p. induction ls as [|l ls IH]; intros response p; cbn; [by intros [= -> ->]|].
  destruct (process _ _) as [[r1| | |] p1]; [rewrite <-app_assoc; apply IH|done..].
Qed.

(** A loop that returns had enough fuel. *)
Lemma line_loop_extracts n i response (s : t C PS) r s' :
  wf s → line_loop process n i response s = (Ret r, s') →
  is_Some (extract (separator_ s) n i (buffer_ s)).
Proof.
  revert i response s. induction n as [|n IH]; intros i response s Hwf; [done|].
  cbn [extract line_loop]. rewrite run_bind. cbn.
  destruct (string_find (buffer_ s) (separator_ s) i) as [j|] eqn:Hf; [|done].
  rewrite run_bind. unfold on_base, Session.on_protocol, zoom.
  destruct (process _ _) as [[resp| | |] p] eqn:Hp; [|done..].
  cbn. unfold modify. rewrite run_bind. cbn. rewrite (proj1 Hwf).
  intros [[ls rest] He]%IH; [|done]. cbn in He. rewrite He. by eexists.
Qed.

Lemma line_loop_returned n response (s : t C PS) r s' :
  wf s → line_loop process n 0 response s = (Ret r, s') →
  ∃ ls rest p, extract (separator_ s) n 0 (buffer_ s) = Some (ls, rest) ∧
    answer (arg_of s) ls response (Session.protocol_state (base s)) = (Ret r, p, []) ∧
    s' = set_buffer rest (with_protocol p s).
Proof.
  intros Hwf Hl. destruct (line_loop_extracts _ _ _ _ _ _ Hwf Hl) as [[ls rest] He].
  rewrite (line_loop_answer _ _ _ _ ls rest Hwf He) in Hl.
  destruct (answer _ _ _ _) as [[o p] pending] eqn:Ha. injection Hl as -> <-.
  destruct (answer_pending _ _ _ _ _ _ _ Ha) as (dn & _ & Hp). rewrite Hp in * by done.
  by exists ls, rest, p.
Qed.

(** The whole handler, when the loop's fuel covers the buffer. *)
Lemma line_iteration_run fuel (s : t C PS) w :
  iteration process fuel (s, w) =
  match conn_recv (Session.connection_ (base s)) w with
  | (Ret d, w1) =>
      match line_loop process fuel 0 [] (set_buffer (buffer_ s ++ d) s) with
      | (Ret resp, s') =>
          let '(o, w2) := conn_send (Session.connection_ (base s')) resp w1 in
          (o, (s', w2))
      | (Throw e, s') => (Throw e, (s', w1))
      | (UB, s') => (UB, (s', w1))
      | (NoFuel, s') => (NoFuel, (s', w1))
      end
  | (Throw e, w1) => (Throw e, (s, w1))
  | (UB, w1) => (UB, (s, w1))
  | (NoFuel, w1) => (NoFuel, (s, w1))
  end.
Proof.
  unfold iteration. rewrite run_bind. unfold on_connection at 1.
  destruct (conn_recv _ w) as [[d| | |] w1]; [|done..].
  rewrite run_bind. unfold on_fst at 1, zoom at 1, modify. cbn.
  rewrite run_bind. unfold on_fst, zoom. cbn.
  by destruct (line_loop _ _ _ _ _) as [[] s'].
Qed.

(** The loop never exchanges the connection or the separator. *)
Definition same_setup (s s' : t C PS) : Prop :=
  Session.connection_ (base s') = Session.connection_ (base s) ∧
  separator_ s' = separator_ s ∧ separator_len_ s' = separator_len_ s ∧
  include_separator_ s' = include_separator_ s.

#[local] Instance same_setup_preorder : PreOrder same_setup.
Proof.
  unfold same_setup. split; [by intros s|].
  intros s1 s2 s3 (?&?&?&?) (?&?&?&?). repeat split; congruence.
Qed.

Lemma line_loop_setup n i response : preserves same_setup (line_loop process n i response).
Proof.
  revert i response. induction n as [|n IH]; intros i response; cbn [line_loop];
    preserves_walk.
  - intros s'. unfold on_base, Session.on_protocol, zoom. cbn.
    by destruct (process _ _) as [o p].
  - done.
Qed.

#[export] Instance session fuel `{!ConnectionCloses C K} :
  @SessionSpec (t C PS) K _ _ (ops process fuel).
Proof.
  split.
  - intros s w o s' w'. change session_iteration with (iteration process fuel).
  rewrite line_iteration_run.
    destruct (conn_recv _ w) as [oc w1] eqn:Hr.
    apply conn_recv_spec, stream_step_io_only in Hr.
    destruct oc as [d| | |]; [|by intros [= <- <- <-]..].
    pose proof (line_loop_setup fuel 0 [] (set_buffer (buffer_ s ++ d) s)) as (Hc & _).
    destruct (line_loop _ _ _ _ _) as [ol s1]. simpl in Hc.
    destruct ol; [|by intros [= <- <- <-]; unfold session_fd; cbn; unfold fd, Session.fd;
                   rewrite Hc..].
    destruct (conn_send _ _ _) as [os w2] eqn:Hs. intros [= <- <- <-].
    apply conn_send_spec in Hs as (? & _ & Hs & _). apply stream_step_io_only in Hs.
    split; [|by etrans]. cbn. unfold fd, Session.fd. by rewrite Hc.
  - intros s w o w'. apply conn_destroy_spec.
Qed.
End refinement.
End LineSession.
