(* ===== verification/LineSessionSpec.v ===== *)
(** * What the line session guarantees

    The theorems on [LineSession]: the loop against its specification, the
    streams across iterations, termination, and the two inputs on which the
    code does not do what a line protocol needs. *)

From Stdlib Require Import Sorted.
From S2P Require Import Prelude Cpp Log OS Sim Connection TCPConnection Session LineSession.
Import LineSession.

(** ** The specification [split] cuts at every separator, and only there *)

Lemma split_spec sep n buf ls rest :
  sep ≠ [] → split sep n buf = Some (ls, rest) →
  buf = unlines sep ls ++ rest ∧
  Forall (λ l, ∀ tl, string_find (l ++ sep ++ tl) sep 0 = Some (length l)) ls ∧
  string_find rest sep 0 = None.
Proof.
  intros Hsep. revert buf ls. induction n as [|n IH]; intros buf ls; [done|]. cbn [split].
  destruct (string_find buf sep 0) as [j|] eqn:Hf.
  - destruct (split sep n _) as [[ls' r]|] eqn:Hs; [|done]. intros [= <- <-].
    destruct (IH _ _ Hs) as (Hb & Hall & Hr). split; [|split; [|done]].
    + rewrite unlines_cons, <-!app_assoc, <-Hb. by eapply find_cut.
    + constructor; [|done]. intros tl. pose proof (find_take _ _ _ _ Hf) as Hlen.
      pose proof (find_cut _ _ _ _ Hf) as Hcut.
      apply string_find_Some in Hf as (? & _ & Hk). apply string_find_Some.
      rewrite Hlen, !length_app, Hlen. split; [lia|]. split.
      { rewrite drop_app_length' by done. by apply prefix_app_r. }
      intros k Hkj Hp. apply (Hk k Hkj). rewrite Hcut.
      rewrite drop_app_le, app_assoc in Hp |- * by lia.
      apply (prefix_within _ _ _ _ Hp). rewrite length_app. lia.
  - intros [= <- <-]. done.
Qed.

Section properties.
Context {C PS K : Type} `{ConnectionSpec C K}.
Variable process : bytes → M PS bytes.

(** ** The loop *)

(** C4: With fuel above the length of the buffer, the loop of LineSession::iteration is the
    cutting of the buffer followed by the answers: it calls process on the lines cut off, in
    order, keeps the rest, and the lines with their separators and the rest are the whole
    buffer, also when process throws half-way. *)
Theorem line_loop_refines (s : t C PS) n response :
  wf s → length (buffer_ s) < n →
  ∃ ls rest, extract (separator_ s) n 0 (buffer_ s) = Some (ls, rest) ∧
    buffer_ s = unlines (separator_ s) ls ++ rest ∧
    line_loop process n 0 response s =
      let '(o, p, pending) :=
        answer process (arg_of s) ls response (Session.protocol_state (base s)) in
      (o, set_buffer (unlines (separator_ s) pending ++ rest) (with_protocol p s)).
Proof.
  intros Hwf Hn. destruct (extract_total (separator_ s) (proj2 Hwf) n 0 (buffer_ s) Hn)
    as [[ls rest] He].
  exists ls, rest. split; [done|]. split; [by eapply extract_unlines|].
  by apply line_loop_answer.
Qed.

(** ** The streams *)

(** Everything received is the separator-terminated lines taken so far
    followed by the buffer. *)
Definition lossless (s : t C PS) (w : world K) : Prop :=
  ∃ ls, v_received (conn_end (Session.connection_ (base s))) (wview w) =
        unlines (separator_ s) ls ++ buffer_ s.

Lemma iteration_received fuel (s : t C PS) w o s' w' :
  wf s → length (buffer_ s) + RECV_BUF_SZ < fuel →
  iteration process fuel (s, w) = (o, (s', w')) →
  ∃ d ls, same_setup s s' ∧
    v_received (conn_end (Session.connection_ (base s))) (wview w') =
      v_received (conn_end (Session.connection_ (base s))) (wview w) ++ d ∧
    buffer_ s ++ d = unlines (separator_ s) ls ++ buffer_ s'.
Proof.
  intros Hwf Hfuel. rewrite line_iteration_run.
  destruct (conn_recv _ w) as [od w1] eqn:Hr.
  pose proof (conn_recv_spec _ _ _ _ Hr) as Hrecv.
  destruct od as [d| | |].
  2-4: intros [= <- <- <-]; exists [], []; split; [done|];
       split; [apply Hrecv|by rewrite app_nil_r].
  apply conn_recv_bound in Hr.
  set (s1 := set_buffer (buffer_ s ++ d) s).
  destruct (extract_total (separator_ s) (proj2 Hwf) fuel 0 (buffer_ s ++ d))
    as [[ls rest] He]; [rewrite length_app; lia|].
  rewrite (line_loop_answer process _ _ _ s1 ls rest) by done.
  destruct (answer _ _ _ _ _) as [[oa p] pending] eqn:Ha.
  apply answer_pending in Ha as (dn & -> & _).
  apply extract_unlines in He. rewrite unlines_app, <-app_assoc in He.
  destruct oa as [resp| | |].
  2-4: intros [= <- <- <-]; exists d, dn; repeat split; [apply Hrecv|done].
  destruct (conn_send _ _ _) as [os w2] eqn:Hs. intros [= <- <- <-].
  apply conn_send_spec in Hs as (ns & _ & Hs & _).
  exists d, dn. repeat split; [|done].
  cbn in Hs. rewrite (ss_received _ _ _ _ _ Hs), app_nil_r. apply Hrecv.
Qed.

(** C5: LineSession::iteration loses and invents no input byte, whatever it returns or throws:
    what was received on the connection stays the separator-terminated lines taken so far
    followed by buffer_, and the cached separator length stays right. *)
Theorem iteration_lossless fuel (s : t C PS) w o s' w' :
  wf s → length (buffer_ s) + RECV_BUF_SZ < fuel → lossless s w →
  iteration process fuel (s, w) = (o, (s', w')) →
  wf s' ∧ lossless s' w'.
Proof.
  intros Hwf Hfuel [ls0 Hin] Hit.
  destruct (iteration_received _ _ _ _ _ _ Hwf Hfuel Hit)
    as (d & ls & (Hc & Hsep & Hlen & Hincl) & Hr & Hbuf).
  split; [unfold wf; rewrite Hsep, Hlen; exact Hwf|].
  exists (ls0 ++ ls). rewrite Hc, Hr, Hin, Hsep, unlines_app, <-!app_assoc.
  by rewrite Hbuf.
Qed.

(** The for(;;) of LineSession::iteration ends when the separator is not empty and process
    returns or throws: one pass per byte of the buffer and one more are enough. *)
Theorem line_loop_terminates (s : t C PS) n response :
  (∀ b p, (process b p).1 ≠ NoFuel) → wf s → length (buffer_ s) < n →
  (line_loop process n 0 response s).1 ≠ NoFuel.
Proof.
  intros Hp Hwf Hn.
  destruct (extract_total (separator_ s) (proj2 Hwf) n 0 (buffer_ s) Hn) as [[ls rest] He].
  rewrite (line_loop_answer process _ _ _ _ _ _ Hwf He). clear He.
  generalize (Session.protocol_state (base s)). revert response.
  induction ls as [|l ls IH]; intros response p; [done|]. cbn.
  specialize (Hp (arg_of s l) p).
  destruct (process _ _) as [[r| | |] p']; [apply IH|done..].
Qed.

(** An empty separator is found for ever: the loop has no end. *)
Theorem line_loop_empty_separator (s : t C PS) n response :
  (∀ b p, is_ret (process b p).1) → separator_ s = [] →
  separator_len_ s = length (separator_ s) →
  (line_loop process n 0 response s).1 = NoFuel.
Proof.
  intros Hp. revert s response. induction n as [|n IH]; intros s response Hsep Hlen; [done|].
  cbn [line_loop]. rewrite run_bind. cbn.
  assert (string_find (buffer_ s) (separator_ s) 0 = Some 0) as ->.
  { rewrite Hsep. apply string_find_Some. repeat split; [lia|lia|apply prefix_nil|lia]. }
  rewrite run_bind. unfold on_base, Session.on_protocol, zoom.
  specialize (Hp (line_arg s 0) (Session.protocol_state (base s))).
  destruct (process _ _) as [[r| | |] p]; [|done..]. cbn. unfold modify.
  rewrite run_bind. cbn. apply IH; done.
Qed.
End properties.

(** ** A protocol that only computes *)

Section pure_protocol.
Context {C K : Type} `{ConnectionSpec C K}.
Variable f : bytes → bytes.

Definition pure_process (b : bytes) : M () bytes := mret (f b).

Lemma answer_pure arg ls response p :
  answer pure_process arg ls response p = (Ret (response ++ concat ((f ∘ arg) <$> ls)), p, []).
Proof.
  revert response. induction ls as [|l ls IH]; intros response; cbn.
  - by rewrite app_nil_r.
  - by rewrite IH, <-app_assoc.
Qed.

(** What an iteration does when [recv] delivers [d]. *)
Lemma pure_iteration fuel (s : t C ()) w d w1 ls rest :
  wf s → conn_recv (Session.connection_ (base s)) w = (Ret d, w1) →
  extract (separator_ s) fuel 0 (buffer_ s ++ d) = Some (ls, rest) →
  iteration pure_process fuel (s, w) =
  let '(o, w2) := conn_send (Session.connection_ (base s))
                    (concat ((f ∘ arg_of s) <$> ls)) w1 in
  (o, (set_buffer rest s, w2)).
Proof.
  intros Hwf Hr He. rewrite line_iteration_run, Hr.
  rewrite (line_loop_answer pure_process _ _ _ (set_buffer (buffer_ s ++ d) s) ls rest) by done.
  rewrite answer_pure. cbn. destruct (conn_send _ _ _). by destruct s as [[? []] ? ? ? ?].
Qed.

(** The responses sent are those of the lines received, in order. *)
Definition answered (s : t C ()) (w : world K) : Prop :=
  ∃ ls, v_received (conn_end (Session.connection_ (base s))) (wview w) =
          unlines (separator_ s) ls ++ buffer_ s ∧
        v_sent (conn_end (Session.connection_ (base s))) (wview w) =
          concat ((f ∘ arg_of s) <$> ls).

(** [k] calls of the handler, as [data_available] makes them. *)
Definition iterations (fuel k : nat) : M (t C () * world K) unit :=
  for_each (seq 0 k) (λ _, iteration pure_process fuel).

Context `{!ConnectionWhole C K}.

Lemma iteration_answered fuel (s : t C ()) w s' w' :
  wf s → length (buffer_ s) + RECV_BUF_SZ < fuel → answered s w →
  iteration pure_process fuel (s, w) = (Ret (), (s', w')) →
  wf s' ∧ answered s' w' ∧ length (buffer_ s') ≤ length (buffer_ s) + RECV_BUF_SZ ∧
  ∃ b, s' = set_buffer b s.
Proof.
  intros Hwf Hfuel (ls0 & Hin & Hout) Hit.
  assert (∃ d w1, conn_recv (Session.connection_ (base s)) w = (Ret d, w1)) as (d & w1 & Hr).
  { rewrite line_iteration_run in Hit. destruct (conn_recv _ w) as [[] ?]; naive_solver. }
  pose proof (conn_recv_bound _ _ _ _ Hr) as Hd.
  destruct (extract_total (separator_ s) (proj2 Hwf) fuel 0 (buffer_ s ++ d))
    as [[ls rest] He]; [rewrite length_app; lia|].
  rewrite (pure_iteration _ _ _ _ _ _ _ Hwf Hr He) in Hit.
  destruct (conn_send _ _ _) as [os w2] eqn:Hs. injection Hit as -> <- <-.
  apply conn_recv_spec in Hr. apply conn_send_whole in Hs.
  apply extract_unlines in He. split; [done|]. split.
  - exists (ls0 ++ ls). cbn. split.
    + rewrite (ss_received _ _ _ _ _ Hs), (ss_received _ _ _ _ _ Hr), app_nil_r, Hin.
      by rewrite unlines_app, <-!app_assoc, He.
    + rewrite (ss_sent _ _ _ _ _ Hs), (ss_sent _ _ _ _ _ Hr), app_nil_r, Hout.
      by rewrite fmap_app, concat_app.
  - apply (f_equal length) in He. rewrite !length_app in He. cbn. split; [lia|by exists rest].
Qed.

Lemma iterations_answered c incl sep fuel k w s' w' :
  sep ≠ [] → k * RECV_BUF_SZ < fuel →
  v_received (conn_end c) (wview w) = [] → v_sent (conn_end c) (wview w) = [] →
  iterations fuel k (make c () incl sep, w) = (Ret (), (s', w')) →
  answered s' w' ∧ ∃ b, s' = set_buffer b (make c () incl sep).
Proof.
  intros Hsep Hfuel Hin Hout. unfold iterations. generalize 0 as a.
  assert (wf (make c () incl sep)) as Hwf by done.
  assert (answered (make c () incl sep) w) as Hans by (by exists []).
  assert (length (buffer_ (make c () incl sep)) + k * RECV_BUF_SZ < fuel) as Hlen by done.
  clear Hfuel Hin Hout. revert w Hwf Hans Hlen. generalize (make c () incl sep) as s.
  induction k as [|k IH]; intros s w Hwf Hans Hlen a; cbn.
  { intros [= <- <-]. split; [done|]. exists (buffer_ s). by destruct s. }
  intros Hit. inv_ret Hit. destruct s0 as [s1 w1], v.
  apply iteration_answered in E as (Hwf1 & Hans1 & Hlen1 & b & ->); [|done|lia|done].
  apply IH in Hit as (? & b' & ->); [|done|done|cbn in *; lia]. split; [done|]. by exists b'.
Qed.

(** Over a transport that takes buffers whole, after any number of iterations that return, the
    bytes received are the lines answered so far with their separators followed by the buffer,
    and the bytes sent are exactly the concatenated responses to those lines, in order. *)
Theorem conversation_answered c incl sep fuel k w s' w' :
  sep ≠ [] → k * RECV_BUF_SZ < fuel →
  v_received (conn_end c) (wview w) = [] → v_sent (conn_end c) (wview w) = [] →
  iterations fuel k (make c () incl sep, w) = (Ret (), (s', w')) →
  answered s' w'.
Proof. intros. by eapply iterations_answered. Qed.

(** Of two complete lines that arrive together, the second shorter than the first,
    LineSession::iteration answers the first only and leaves the second, complete, in the
    buffer. *)
Theorem shorter_line_unanswered c incl sep l1 l2 fuel w w1 :
  sep ≠ [] → 2 ≤ fuel → length l2 < length l1 →
  string_find (l1 ++ sep ++ l2 ++ sep) sep 0 = Some (length l1) →
  conn_recv c w = (Ret (l1 ++ sep ++ l2 ++ sep), w1) →
  let s := make c () incl sep in
  iteration pure_process fuel (s, w) =
  let '(o, w2) := conn_send c (f (arg_of s l1)) w1 in
  (o, (set_buffer (l2 ++ sep) s, w2)).
Proof.
  intros Hsep Hfuel Hlt Hfind Hr s. destruct fuel as [|[|fuel]]; [lia|lia|].
  rewrite (pure_iteration _ s w (l1 ++ sep ++ l2 ++ sep) w1 [l1] (l2 ++ sep)); [|done|done|].
  - cbn. by rewrite app_nil_r.
  - exact (extract_shorter_second sep Hsep l1 l2 fuel Hfind Hlt).
Qed.
End pure_protocol.

(** C30: The loop of LineSession::iteration cuts every complete line of the buffer if and only
    if the lengths of the lines never decrease, because the search position is kept from one
    line to the next. *)
Theorem extract_correct_iff sep n buf ls rest :
  sep ≠ [] → split sep n buf = Some (ls, rest) →
  extract sep n 0 buf = Some (ls, rest) ↔ Sorted le (length <$> ls).
Proof.
  intros Hsep Hs. rewrite (extract_split sep Hsep n 0 buf ls rest Hs). split.
  - by intros [? _]%Sorted_inv.
  - intros. constructor; [done|]. destruct ls; constructor. lia.
Qed.

(** ** A protocol that throws *)

(** When process throws on a line, LineSession::iteration sends nothing, not even the responses
    to the lines before it, which are gone from the buffer, while the offending line stays in
    it. *)
Theorem process_throws {C PS K} `{ConnectionSpec C K} (process : bytes → M PS bytes)
    fuel (s : t C PS) w d w1 done l rest_lines rest resp p1 e p2 :
  wf s → conn_recv (Session.connection_ (base s)) w = (Ret d, w1) →
  extract (separator_ s) fuel 0 (buffer_ s ++ d) = Some (done ++ l :: rest_lines, rest) →
  answer process (arg_of s) done [] (Session.protocol_state (base s)) = (Ret resp, p1, []) →
  process (arg_of s l) p1 = (Throw e, p2) →
  iteration process fuel (s, w) =
    (Throw e, (set_buffer (unlines (separator_ s) (l :: rest_lines) ++ rest)
                 (with_protocol p2 s), w1)).
Proof.
  intros Hwf Hr He Ha Hp. rewrite line_iteration_run, Hr.
  rewrite (line_loop_answer process _ _ _ (set_buffer (buffer_ s ++ d) s) _ _ Hwf He).
  assert (∀ resp0 p0, answer process (arg_of s) done resp0 p0 = (Ret resp, p1, []) →
            answer process (arg_of s) (done ++ l :: rest_lines) resp0 p0 =
            (Throw e, p2, l :: rest_lines)) as Happ.
  { clear -Hp. induction done as [|x done IH]; intros resp0 p0; cbn.
    - intros [= -> ->]. by rewrite Hp.
    - destruct (process _ p0) as [[| | |] ?]; [apply IH|done..]. }
  cbn. unfold arg_of in *. cbn. rewrite (Happ _ _ Ha). by destruct s.
Qed.

(** ** Witnesses *)

Module Witness.
Definition c : TCPConnection.t := TCPConnection.Make 5.
#[local] Instance platform : Platform := posix.
#[local] Instance tcp : ConnectionOps TCPConnection.t (world whole_sim) :=
  TCPConnection.ops (K:=whole_sim) 100.
#[local] Instance tcp_spec : ConnectionSpec TCPConnection.t whole_sim :=
  TCPConnection.connection (K:=whole_sim) 100.
#[local] Instance tcp_whole : ConnectionWhole TCPConnection.t whole_sim :=
  TCPConnection.connection_whole (K:=whole_sim) 100.

(** The echo of main.cc. *)
Definition bars (b : bytes) : bytes := lit "|" ++ b ++ lit "|" ++ crlf.

Definition ask (chunks : list bytes) : world whole_sim :=
  whole_world (sim_start [5%Z] [(inl 5%Z, chunks)] []).

Definition session (buf : bytes) : t TCPConnection.t () :=
  set_buffer buf (make c () false crlf).

Lemma line_loop_refines_witness :
  let s := session (lit "ab" ++ crlf ++ lit "c") in
  ∃ ls rest, extract crlf 20 0 (buffer_ s) = Some (ls, rest) ∧
    buffer_ s = unlines crlf ls ++ rest ∧
    line_loop (pure_process bars) 20 0 [] s =
      let '(o, p, pending) := answer (pure_process bars) (arg_of s) ls [] () in
      (o, set_buffer (unlines crlf pending ++ rest) (with_protocol p s)).
Proof.
  intros s. apply (line_loop_refines (pure_process bars) s 20 []).
  - split; [reflexivity|discriminate].
  - vm_compute. lia.
Defined.

(** A session that has answered one line and holds the beginning of another. *)
Lemma iteration_lossless_witness :
  ∃ o s' w', iteration (pure_process bars) (20 * 1000) (session [], ask [lit "ab" ++ crlf ++ lit "c"]) =
      (o, (s', w')) ∧ o = Ret () ∧ buffer_ s' = lit "c" ∧
    wf s' ∧ lossless s' w'.
Proof.
  destruct (iteration (pure_process bars) (20 * 1000)
              (session [], ask [lit "ab" ++ crlf ++ lit "c"])) as [o [s' w']] eqn:Hit.
  exists o, s', w'. split; [reflexivity|].
  assert (o = Ret () ∧ buffer_ s' = lit "c") as [-> Hb].
  { vm_compute in Hit. injection Hit as <- <- <-. by split. }
  split; [reflexivity|]. split; [exact Hb|].
  apply (iteration_lossless (K:=whole_sim) (pure_process bars) (20 * 1000)
           (session []) (ask [lit "ab" ++ crlf ++ lit "c"]) (Ret ()) s' w').
  - split; [reflexivity|discriminate].
  - apply Nat.ltb_lt. vm_compute. reflexivity.
  - exists []. reflexivity.
  - exact Hit.
Defined.

Lemma conversation_answered_witness :
  ∃ s' w', iterations bars (40 * 1000) 2 (session [], ask [lit "ab" ++ crlf ++ lit "c"; lit "d" ++ crlf]) =
      (Ret (), (s', w')) ∧ answered bars s' w'.
Proof.
  destruct (iterations bars (40 * 1000) 2 (session [],
              ask [lit "ab" ++ crlf ++ lit "c"; lit "d" ++ crlf])) as [o [s' w']] eqn:Hit.
  exists s', w'.
  assert (o = Ret ()) as -> by (by vm_compute in Hit; injection Hit as <- _ _).
  split; [reflexivity|].
  apply (conversation_answered (K:=whole_sim) bars c false crlf (40 * 1000) 2
           (ask [lit "ab" ++ crlf ++ lit "c"; lit "d" ++ crlf])); [discriminate| | | |exact Hit].
  - apply Nat.ltb_lt. vm_compute. reflexivity.
  - reflexivity.
  - reflexivity.
Defined.

Lemma extract_correct_iff_witness :
  split crlf 20 (lit "a" ++ crlf ++ lit "bc" ++ crlf) = Some ([lit "a"; lit "bc"], []) ∧
  extract crlf 20 0 (lit "a" ++ crlf ++ lit "bc" ++ crlf) = Some ([lit "a"; lit "bc"], []).
Proof.
  assert (split crlf 20 (lit "a" ++ crlf ++ lit "bc" ++ crlf) = Some ([lit "a"; lit "bc"], []))
    as Hs by reflexivity.
  split; [exact Hs|].
  apply (extract_correct_iff crlf 20 _ _ _ (ltac:(discriminate)) Hs).
  repeat constructor.
Defined.

Lemma line_loop_terminates_witness :
  (line_loop (pure_process bars) 20 0 [] (session (lit "ab" ++ crlf))).1 ≠ NoFuel.
Proof.
  apply (line_loop_terminates (pure_process bars) (session (lit "ab" ++ crlf)) 20 []).
  - discriminate.
  - split; [reflexivity|discriminate].
  - vm_compute. lia.
Defined.

Lemma line_loop_empty_separator_witness :
  (line_loop (pure_process bars) 1000 0 [] (make c () true [])).1 = NoFuel.
Proof.
  by apply (line_loop_empty_separator (pure_process bars) (make c () true []) 1000 []).
Defined.

Lemma shorter_line_unanswered_witness :
  let w := ask [lit "hello" ++ crlf ++ lit "a" ++ crlf] in
  ∃ w1, conn_recv c w = (Ret (lit "hello" ++ crlf ++ lit "a" ++ crlf), w1) ∧
    iteration (pure_process bars) 20 (make c () false crlf, w) =
    let '(o, w2) := conn_send c (bars (lit "hello")) w1 in
    (o, (session (lit "a" ++ crlf), w2)).
Proof.
  intros w. destruct (conn_recv c w) as [o w1] eqn:Hr. exists w1.
  assert (o = Ret (lit "hello" ++ crlf ++ lit "a" ++ crlf)) as ->
    by (by vm_compute in Hr; injection Hr as <- _).
  split; [reflexivity|].
  apply (shorter_line_unanswered (K:=whole_sim) bars c false crlf (lit "hello") (lit "a") 20 w w1);
    [discriminate|lia|vm_compute; lia|reflexivity|exact Hr].
Defined.

(** A protocol that refuses the line "bad". *)
Definition picky (b : bytes) : M () bytes :=
  if bool_decide (b = lit "bad") then raise (runtime_error (lit "bad line")) else mret b.

Lemma process_throws_witness :
  let w := ask [lit "a" ++ crlf ++ lit "bad" ++ crlf ++ lit "x"] in
  ∃ w1, iteration picky 30 (session [], w) =
    (Throw (runtime_error (lit "bad line")), (session (lit "bad" ++ crlf ++ lit "x"), w1)).
Proof.
  intros w. destruct (conn_recv c w) as [o w1] eqn:Hr. exists w1.
  assert (o = Ret (lit "a" ++ crlf ++ lit "bad" ++ crlf ++ lit "x")) as ->
    by (by vm_compute in Hr; injection Hr as <- _).
  apply (process_throws (K:=whole_sim) picky 30 (session []) w
           (lit "a" ++ crlf ++ lit "bad" ++ crlf ++ lit "x") w1
           [lit "a"] (lit "bad") [] (lit "x") (lit "a") () (runtime_error (lit "bad line")) ());
    [split; [reflexivity|discriminate]|exact Hr|reflexivity..].
Defined.
End Witness.
