(* ===== verification/LineCuts.v ===== *)
(** * The cutting of a whole conversation

    The search for a line begins where the line before it ended, or at the front
    of the buffer when a new iteration begins.  [cuts] says this of the lines of
    a whole conversation, however its bytes were divided into iterations; when
    the lines sent never get shorter, it determines the lines cut. *)

From Stdlib Require Import Sorted.
From S2P Require Import Prelude Cpp Log OS Connection Session LineSession LineSessionSpec.
Import LineSession.

Section cuts.
Variable sep : bytes.

(** Where the search for the next line begins, at most. *)
Definition last_length (i : nat) (ls : list bytes) : nat :=
  match last ls with Some l => length l | None => i end.

Lemma last_length_cons i l ls : last_length i (l :: ls) = last_length (length l) ls.
Proof. unfold last_length. rewrite last_cons. by destruct (last ls). Qed.

Lemma last_length_app i ls1 ls2 : last_length i (ls1 ++ ls2) = last_length (last_length i ls1) ls2.
Proof. unfold last_length. rewrite last_app. by destruct (last ls2). Qed.

(** Every line ends at the first separator found from a position that is not
    behind the length of the line before it. *)
Fixpoint cuts (i : nat) (ls : list bytes) : Prop :=
  match ls with
  | [] => True
  | l :: ls => (∃ j, j ≤ i ∧ string_find (l ++ sep) sep j = Some (length l)) ∧ cuts (length l) ls
  end.

Lemma cuts_mono i i' ls : i ≤ i' → cuts i ls → cuts i' ls.
Proof. destruct ls; [done|]. intros Hi [(j & ? & ?) ?]. split; [exists j; split; [lia|done]|done]. Qed.

Lemma cuts_app i ls1 ls2 : cuts i ls1 → cuts (last_length i ls1) ls2 → cuts i (ls1 ++ ls2).
Proof.
  revert i. induction ls1 as [|l ls1 IH]; intros i; [done|]. cbn [cuts app].
  rewrite last_length_cons. intros [? ?] ?. split; [done|]. by apply IH.
Qed.

(** A hit is also a hit when what follows it is cut off. *)
Lemma find_alone buf i j :
  string_find buf sep i = Some j → string_find (take j buf ++ sep) sep i = Some j.
Proof.
  intros Hf. pose proof (find_take _ _ _ _ Hf) as Hlen. pose proof (find_cut _ _ _ _ Hf) as Hcut.
  apply string_find_Some in Hf as (? & _ & Hk). apply string_find_Some.
  rewrite length_app, Hlen. split; [lia|]. split; [by rewrite drop_app_length' by done|].
  intros k Hkj Hp. apply (Hk k Hkj). rewrite Hcut. etrans; [exact Hp|].
  rewrite app_assoc, (drop_app_le (_ ++ _)) by (rewrite length_app; lia). by apply prefix_app_r.
Qed.

Lemma extract_cuts n i buf ls rest :
  extract sep n i buf = Some (ls, rest) →
  cuts i ls ∧ string_find rest sep (last_length i ls) = None.
Proof.
  revert i buf ls. induction n as [|n IH]; intros i buf ls; [done|]. cbn [extract].
  destruct (string_find buf sep i) as [j|] eqn:Hf; [|by intros [= <- <-]].
  destruct (extract sep n j _) as [[ls' r]|] eqn:He; [|done]. intros [= <- <-].
  rewrite last_length_cons. cbn [cuts]. rewrite (find_take _ _ _ _ Hf).
  apply IH in He as [? ?]. split; [|done]. split; [|done]. exists i. split; [done|]. by apply find_alone.
Qed.

Hypothesis Hsep : sep ≠ [].

(** What follows an iteration's cuts, when the next begins at the front. *)
Lemma cuts_continue i ls1 ls2 rest :
  cuts i ls1 → cuts 0 ls2 → string_find rest sep (last_length 0 ls2) = None →
  cuts i (ls1 ++ ls2) ∧ string_find rest sep (last_length i (ls1 ++ ls2)) = None.
Proof.
  intros H1 H2 Hr. split; [apply cuts_app; [done|by eapply cuts_mono; [|done]; lia]|].
  rewrite last_length_app. unfold last_length in *.
  destruct (last ls2); [done|]. by apply find_from_front_None.
Qed.

(** A complete line without separators in it. *)
Definition whole_line (l : bytes) : Prop :=
  ∀ tl, string_find (l ++ sep ++ tl) sep 0 = Some (length l).

Lemma whole_line_fresh x tl l : sep = x :: tl → x ∉ l → whole_line l.
Proof using Type.
  intros Hs Hx rest. apply string_find_Some. rewrite length_app. split; [lia|].
  split; [rewrite drop_app_length; by apply prefix_app_r|].
  intros k [_ Hk] [y Hy]. apply Hx. apply list_elem_of_lookup_2 with k.
  rewrite <-(lookup_app_l l (sep ++ rest)) by done.
  rewrite <-(Nat.add_0_r k), <-lookup_drop, Hy, Hs. done.
Qed.

(** No separator before the first one. *)
Lemma whole_line_first l tl buf j :
  whole_line l → l ++ sep ++ tl = buf → sep `prefix_of` drop j buf → length l ≤ j.
Proof.
  intros Hl <- Hp. specialize (Hl tl). apply string_find_Some in Hl as (_ & _ & Hk).
  destruct (decide (length l ≤ j)); [done|]. exfalso. apply (Hk j); [lia|done].
Qed.

(** Of lines that do not get shorter, exactly these are cut. *)
Lemma cuts_ordered i L tail ls rest :
  unlines sep L ++ tail = unlines sep ls ++ rest →
  Forall whole_line L → string_find tail sep 0 = None →
  Sorted le (i :: (length <$> L)) → cuts i ls → string_find rest sep (last_length i ls) = None →
  ls = L ∧ rest = tail.
Proof.
  revert i ls. induction L as [|m L IH]; intros i ls Heq HL Ht Hs Hc Hr.
  - change (tail = unlines sep ls ++ rest) in Heq. destruct ls as [|l ls]; [done|]. exfalso.
    rewrite unlines_cons, <-!app_assoc in Heq. subst tail.
    apply string_find_None with (k := length l) in Ht; [|done|lia]. apply Ht.
    rewrite drop_app_length. by apply prefix_app_r.
  - apply Forall_cons in HL as [Hm HL]. apply Sorted_inv in Hs as [Hs Him%HdRel_inv].
    rewrite unlines_cons, <-!app_assoc in Heq. destruct ls as [|l ls].
    { exfalso. change (m ++ sep ++ unlines sep L ++ tail = rest) in Heq. subst rest. apply string_find_None with (k := length m) in Hr; [|done|done].
      apply Hr. rewrite drop_app_length. by apply prefix_app_r. }
    destruct Hc as [(j & Hj & Hl) Hc]. rewrite unlines_cons, <-!app_assoc in Heq.
    rewrite last_length_cons in Hr.
    assert (length m ≤ length l) as Hml.
    { eapply whole_line_first; [done|exact Heq|]. rewrite drop_app_length. by apply prefix_app_r. }
    assert (length l = length m) as Hlen.
    { destruct (decide (length l = length m)) as [|Hne]; [done|exfalso].
      apply string_find_Some in Hl as (_ & _ & Hk). apply (Hk (length m)); [lia|].
      assert (sep `prefix_of` drop (length m) ((l ++ sep) ++ unlines sep ls ++ rest)) as Hp.
      { rewrite <-app_assoc, <-Heq, drop_app_length. by apply prefix_app_r. }
      rewrite drop_app_le in Hp by (rewrite length_app; lia).
      apply prefix_within with (d := []) in Hp; [by rewrite app_nil_r in Hp|]. rewrite length_drop, length_app. lia. }
    apply app_inj_1 in Heq as [<- Heq]; [|done]. apply app_inv_head in Heq.
    destruct (IH (length m) ls) as [-> ->]; done.
Qed.
End cuts.
