(* ===== verification/Threads.v ===== *)
(** * thread/: the threads that own the sessions, and their manager

    [ThreadSingle] runs a session in the caller; [ThreadMulti] queues its
    descriptor for a worker.  Every public method of [ThreadMulti] is one
    critical section of its mutex, hence one atomic operation here; the
    interleaving of the critical sections is the subject of [Worker]. *)

From S2P Require Import Prelude Cpp Log OS Session.

(** The [std::unordered_map<SOCKET, std::unique_ptr<Session>>] every Thread has. *)
Section sessions.
Context {Se W : Type} `{!SessionOps Se W}.

(** [sessions_[session->fd()] = std::move(session)]: the pointer that was
    under the key is deleted. *)
Definition store_session (s : Se) : M (gmap SOCKET Se * W) unit := λ '(m, w),
  match m !! session_fd s with
  | None => (Ret (), (<[session_fd s := s]> m, w))
  | Some old =>
      let '(o, w') := session_destroy old w in (o, (<[session_fd s := s]> m, w'))
  end.

(** [sessions_.erase(fd)] *)
Definition erase_session (fd : SOCKET) : M (gmap SOCKET Se * W) unit := λ '(m, w),
  match m !! fd with
  | None => (Ret (), (m, w))
  | Some s => let '(o, w') := session_destroy s w in (o, (delete fd m, w'))
  end.

(** [auto it = sessions_.find(fd); if (it != sessions_.end())
    it->second->iteration();] *)
Definition iterate_session (fd : SOCKET) : M (gmap SOCKET Se * W) unit := λ '(m, w),
  match m !! fd with
  | None => (Ret (), (m, w))
  | Some s => let '(o, (s', w')) := session_iteration (s, w) in (o, (<[fd := s']> m, w'))
  end.
End sessions.

Module ThreadSingle.
Record t (Se : Type) := Make { sessions_ : gmap SOCKET Se }.
Arguments Make {Se}.
Arguments sessions_ {Se}.

Section ops.
Context {Se W : Type} `{!SessionOps Se W}.

Definition on_sessions {A} (m : M (gmap SOCKET Se * W) A) : M (t Se * W) A :=
  zoom (λ '(x, w), (sessions_ x, w)) (λ '(s, w) _, (Make s, w)) m.

Definition add_session (s : Se) : M (t Se * W) unit := on_sessions (store_session s).
Definition remove_session (fd : SOCKET) : M (t Se * W) unit := on_sessions (erase_session fd).
Definition data_available (fd : SOCKET) : M (t Se * W) unit := on_sessions (iterate_session fd).
End ops.
End ThreadSingle.

Module ThreadMulti.
(** [queue_] front first; [stop_requested] is the state of [thread_]'s stop
    token, [finished_] what the worker sets when it leaves its loop. *)
Record t (Se : Type) := Make {
  sessions_ : gmap SOCKET Se;
  queue_ : list SOCKET;
  stop_requested : bool;
  finished_ : bool }.
Arguments Make {Se}.
Arguments sessions_ {Se}.
Arguments queue_ {Se}.
Arguments stop_requested {Se}.
Arguments finished_ {Se}.

Definition make {Se} : t Se := Make ∅ [] false false.

Section ops.
Context {Se W : Type} `{!SessionOps Se W}.

Definition on_sessions {A} (m : M (gmap SOCKET Se * W) A) : M (t Se * W) A :=
  zoom (λ '(x, w), (sessions_ x, w))
    (λ '(s, w) '(x, _), (Make s (queue_ x) (stop_requested x) (finished_ x), w)) m.

Definition set_queue (q : list SOCKET) (x : t Se) : t Se :=
  Make (sessions_ x) q (stop_requested x) (finished_ x).

(** The critical sections of the public methods. *)
Definition add_session (s : Se) : M (t Se * W) unit := on_sessions (store_session s).
Definition remove_session (fd : SOCKET) : M (t Se * W) unit := on_sessions (erase_session fd).
Definition data_available (fd : SOCKET) : M (t Se * W) unit :=
  on_fst (modify (λ x, set_queue (queue_ x ++ [fd]) x)).

(** The critical section of the worker's loop, from the return of
    [wait_for] to the end of the body. *)
Definition work : M (t Se * W) unit :=
  x ← gets fst;
  match queue_ x with
  | [] => mret ()
  | fd :: q =>
      on_fst (modify (set_queue q)) ;;
      on_sessions (iterate_session fd)
  end.

(** [thread_.request_stop()], and [finished_ = true]. *)
Definition request_stop (x : t Se) : t Se :=
  Make (sessions_ x) (queue_ x) true (finished_ x).
Definition finish (x : t Se) : t Se :=
  Make (sessions_ x) (queue_ x) (stop_requested x) true.
End ops.
End ThreadMulti.

(** ** The abstract class Thread: virtual dispatch over its two subclasses *)

Module Thread.
Inductive t (Se : Type) :=
  | Single (x : ThreadSingle.t Se)
  | Multi (x : ThreadMulti.t Se).
Arguments Single {Se}.
Arguments Multi {Se}.

Definition sessions {Se} (x : t Se) : gmap SOCKET Se :=
  match x with
  | Single x => ThreadSingle.sessions_ x
  | Multi x => ThreadMulti.sessions_ x
  end.

Section ops.
Context {Se W : Type} `{!SessionOps Se W}.

Definition dispatch (f : M (ThreadSingle.t Se * W) unit) (g : M (ThreadMulti.t Se * W) unit) :
    M (t Se * W) unit := λ '(x, w),
  match x with
  | Single x => let '(o, (x', w')) := f (x, w) in (o, (Single x', w'))
  | Multi x => let '(o, (x', w')) := g (x, w) in (o, (Multi x', w'))
  end.

Definition add_session (s : Se) : M (t Se * W) unit :=
  dispatch (ThreadSingle.add_session s) (ThreadMulti.add_session s).
Definition remove_session (fd : SOCKET) : M (t Se * W) unit :=
  dispatch (ThreadSingle.remove_session fd) (ThreadMulti.remove_session fd).
Definition data_available (fd : SOCKET) : M (t Se * W) unit :=
  dispatch (ThreadSingle.data_available fd) (ThreadMulti.data_available fd).
End ops.
End Thread.

(** ** ThreadManager *)

(** [enum class Threads { Single }; using ThreadCount = std::variant<Threads, int>;] *)
Inductive Threads := Threads_Single.
Abbreviation ThreadCount := (Threads + Z)%type (only parsing).

(** How the destructor of a [ThreadMulti] ends.  [Races]: its worker comes to a
    member that is destroyed, which is undefined; [Worker] has the steps.
    [Joins]: the worker is joined, and these are the bodies of workers that run
    until then, by their positions among the threads that are left. *)
Inductive ending := Races | Joins (bodies : list nat).

Module ThreadManager.
Record t (Se : Type) := Make { threads_ : list (Thread.t Se) }.
Arguments Make {Se}.
Arguments threads_ {Se}.

(** The constructor: one worker per unit of a positive [int]. *)
Definition make {Se} (thread_count : ThreadCount) : t Se :=
  Make match thread_count with
       | inr n => replicate (Z.to_nat n) (Thread.Multi ThreadMulti.make)
       | inl _ => [Thread.Single (ThreadSingle.Make ∅)]
       end.

(** [fd % threads_.size()], in [size_t]. *)
Definition index {Se} (tm : t Se) (fd : SOCKET) : nat :=
  Z.to_nat (to_size_t fd `mod` Z.of_nat (length (threads_ tm))).

Section ops.
Context {Se W : Type} `{!SessionOps Se W}.

(** [threads_.at(fd % threads_.size())->op]: a remainder by zero is
    undefined, an index out of range throws. *)
Definition at_thread (fd : SOCKET) (op : M (Thread.t Se * W) unit) :
    M (t Se * W) unit := λ '(tm, w),
  match threads_ tm with
  | [] => (UB, (tm, w))
  | _ :: _ =>
      match threads_ tm !! index tm fd with
      | None => (Throw out_of_range, (tm, w))
      | Some x =>
          let '(o, (x', w')) := op (x, w) in
          (o, (Make (<[index tm fd := x']> (threads_ tm)), w'))
      end
  end.

Definition add_session (s : Se) : M (t Se * W) unit :=
  at_thread (session_fd s) (Thread.add_session s).
Definition remove_session (fd : SOCKET) : M (t Se * W) unit :=
  at_thread fd (Thread.remove_session fd).
Definition data_available (fd : SOCKET) : M (t Se * W) unit :=
  at_thread fd (Thread.data_available fd).

(** The body of the worker at position [i] of the threads that are left. *)
Definition body (i : nat) : M (list (Thread.t Se) * W) unit := λ '(l, w),
  match l !! i with
  | Some (Thread.Multi x) =>
      let '(o, (x', w')) := ThreadMulti.work (x, w) in (o, (<[i := Thread.Multi x']> l, w'))
  | _ => (Ret (), (l, w))
  end.

(** The sessions a thread owns, in the order its map destroys them. *)
Definition destroy_sessions (m : gmap SOCKET Se) : M W unit :=
  for_each (map_to_list m) (λ p, session_destroy p.2).

(** The destructor of the first of the threads that are left, over the ways its
    join can end.  [~ThreadMulti] requests the stop; until the join returns the
    worker can run one more body, and the workers behind it, which go on, any
    number; [jthread] is joined, and [~Thread] destroys the sessions.  What
    leaves a body is the end of the process, and of the model. *)
Definition destroy_front (e : ending) : M (list (Thread.t Se) * W) unit := λ '(l, w),
  match l with
  | [] => (Ret (), ([], w))
  | Thread.Single x :: l =>
      let '(o, w') := destroy_sessions (ThreadSingle.sessions_ x) w in (o, (l, w'))
  | Thread.Multi x :: l =>
      match e with
      | Races => (UB, (Thread.Multi x :: l, w))
      | Joins bodies =>
          match for_each bodies body (Thread.Multi (ThreadMulti.request_stop x) :: l, w) with
          | (Ret _, (x' :: l', w')) =>
              let '(o, w'') := destroy_sessions (Thread.sessions x') w' in (o, (l', w''))
          | r => r
          end
      end
  end.

(** The vector destroys its elements from the front on. *)
Definition destroy (ends : nat → ending) (tm : t Se) : M W unit := λ w,
  let '(o, (_, w')) :=
    for_each (seq 0 (length (threads_ tm))) (λ i, destroy_front (ends i)) (threads_ tm, w) in
  (o, w').
End ops.
End ThreadManager.
