(* ===== verification/ThreadsSpec.v ===== *)
(** * What the threads and their manager guarantee

    The manager is specified by one flat map of sessions and the queues of its
    workers: whatever the number of threads, an operation on the manager is that
    operation on the flat state.  The
    invariant [wf] says every session sits under its own descriptor in the
    thread its descriptor selects. *)

From S2P Require Import Prelude Cpp Log OS OpenSSL Sim Connection TCPConnection Session Threads.

(** ** Operations on one key of a map *)

Section local.
Context {Se K : Type} `{SessionSpec Se K}.

(** [h] is what the operation does to the entry of [fd] and to the world; an
    entry it leaves there is a session on [fd]. *)
Definition local_at (fd : SOCKET) (op : M (gmap SOCKET Se * world K) unit)
    (h : option Se → world K → outcome unit * (option Se * world K)) : Prop :=
  (∀ m w, op (m, w) = let '(o, (v, w')) := h (m !! fd) w in
                      (o, (partial_alter (λ _, v) fd m, w'))) ∧
  (∀ v w o v' w', h v w = (o, (v', w')) →
     (∀ s, v = Some s → session_fd s = fd) → ∀ s, v' = Some s → session_fd s = fd).

Definition store_entry (s : Se) (v : option Se) (w : world K) :
    outcome unit * (option Se * world K) :=
  match v with
  | None => (Ret (), (Some s, w))
  | Some old => let '(o, w') := session_destroy old w in (o, (Some s, w'))
  end.
Definition erase_entry (v : option Se) (w : world K) : outcome unit * (option Se * world K) :=
  match v with
  | None => (Ret (), (None, w))
  | Some s => let '(o, w') := session_destroy s w in (o, (None, w'))
  end.
Definition iterate_entry (v : option Se) (w : world K) : outcome unit * (option Se * world K) :=
  match v with
  | None => (Ret (), (None, w))
  | Some s => let '(o, (s', w')) := session_iteration (s, w) in (o, (Some s', w'))
  end.

Lemma alter_id {A} (m : gmap SOCKET A) fd v :
  m !! fd = v → partial_alter (λ _, v) fd m = m.
Proof. intros <-. apply partial_alter_self. Qed.

Lemma store_local s : local_at (session_fd s) (store_session s) (store_entry s).
Proof.
  split.
  - intros m w. unfold store_session, store_entry.
    destruct (m !! session_fd s); [by destruct (session_destroy _ _)|done].
  - intros v w o v' w'. unfold store_entry.
    destruct v; [destruct (session_destroy _ _)|]; intros [= <- <- <-] _; naive_solver.
Qed.

Lemma erase_local fd : local_at fd (erase_session fd) erase_entry.
Proof.
  split.
  - intros m w. unfold erase_session, erase_entry.
    destruct (m !! fd) eqn:Hm; [by destruct (session_destroy _ _)|].
    by rewrite alter_id.
  - intros v w o v' w'. unfold erase_entry.
    destruct v; [destruct (session_destroy _ _)|]; intros [= <- <- <-] _; done.
Qed.

Lemma iterate_local fd : local_at fd (iterate_session fd) iterate_entry.
Proof.
  split.
  - intros m w. unfold iterate_session, iterate_entry.
    destruct (m !! fd) eqn:Hm; [by destruct (session_iteration _) as [? []]|].
    by rewrite alter_id.
  - intros v w o v' w'. unfold iterate_entry.
    destruct v as [s|]; [|by intros [= <- <- <-]].
    destruct (session_iteration (s, w)) as [o1 [s1 w1]] eqn:Hi.
    intros [= <- <- <-] Hv s' [= <-].
    apply session_iteration_spec in Hi as [-> _]. by apply Hv.
Qed.
End local.

(** ** The manager *)

Section manager.
Context {Se K : Type} `{SessionSpec Se K}.
Import ThreadManager.

(** The descriptors queued in a thread. *)
Definition queued (x : Thread.t Se) : list SOCKET :=
  match x with
  | Thread.Single _ => []
  | Thread.Multi x => ThreadMulti.queue_ x
  end.

Definition wf (tm : t Se) : Prop :=
  threads_ tm ≠ [] ∧
  ∀ i x fd, threads_ tm !! i = Some x →
    (∀ s, Thread.sessions x !! fd = Some s → session_fd s = fd ∧ i = index tm fd) ∧
    (fd ∈ queued x → i = index tm fd).

(** The flat map the manager stands for. *)
Definition all_sessions (tm : t Se) : gmap SOCKET Se :=
  foldr (λ x m, Thread.sessions x ∪ m) ∅ (threads_ tm).

Lemma all_sessions_Some (tm : t Se) fd s :
  all_sessions tm !! fd = Some s →
  ∃ i x, threads_ tm !! i = Some x ∧ Thread.sessions x !! fd = Some s.
Proof.
  unfold all_sessions. induction (threads_ tm) as [|x l IH]; [done|].
  cbn. rewrite lookup_union_Some_raw. intros [?|[_ (i & y & ? & ?)%IH]].
  - by exists 0, x.
  - by exists (S i), y.
Qed.

Lemma all_sessions_None (tm : t Se) fd i x :
  all_sessions tm !! fd = None → threads_ tm !! i = Some x →
  Thread.sessions x !! fd = None.
Proof.
  unfold all_sessions. revert i. induction (threads_ tm) as [|y l IH]; intros i; [done|].
  cbn. rewrite lookup_union_None. intros [? ?].
  destruct i; [by intros [= <-]|by apply IH].
Qed.

Lemma index_lookup (tm : t Se) fd :
  threads_ tm ≠ [] → ∃ x, threads_ tm !! index tm fd = Some x.
Proof.
  intros Hne. apply lookup_lt_is_Some. unfold index.
  assert (length (threads_ tm) ≠ 0) by (by intros ?%length_zero_iff_nil).
  pose proof (Z.mod_pos_bound (to_size_t fd) (Z.of_nat (length (threads_ tm)))). lia.
Qed.

(** The flat map at [fd] is the entry of the thread [fd] selects. *)
Lemma all_sessions_lookup (tm : t Se) fd x :
  wf tm → threads_ tm !! index tm fd = Some x →
  all_sessions tm !! fd = Thread.sessions x !! fd.
Proof.
  intros [_ Hwf] Hx. destruct (all_sessions tm !! fd) as [s|] eqn:Ha.
  - apply all_sessions_Some in Ha as (i & y & Hy & Hs).
    destruct (proj1 (Hwf _ _ fd Hy) _ Hs) as [_ ->]. by simplify_eq.
  - symmetry. by eapply all_sessions_None.
Qed.

(** On the thread [x], the operation is a map operation on its sessions, and
    queues no other descriptor than [fd]. *)
Definition lifts (fd : SOCKET) (x : Thread.t Se) (op : M (Thread.t Se * world K) unit)
    (mop : M (gmap SOCKET Se * world K) unit) : Prop :=
  ∀ w o x' w', op (x, w) = (o, (x', w')) →
    mop (Thread.sessions x, w) = (o, (Thread.sessions x', w')) ∧
    ∀ fd', fd' ∈ queued x' → fd' ∈ queued x ∨ fd' = fd.

Lemma at_thread_refines fd op mop h tm w o tm' w' :
  local_at fd mop h → (∀ x, threads_ tm !! index tm fd = Some x → lifts fd x op mop) → wf tm →
  at_thread fd op (tm, w) = (o, (tm', w')) →
  wf tm' ∧ mop (all_sessions tm, w) = (o, (all_sessions tm', w')).
Proof.
  intros [Hmop Hkey] Hlift Hwf. unfold at_thread.
  destruct (index_lookup tm fd (proj1 Hwf)) as [x Hx].
  destruct (threads_ tm) as [|x0 xs] eqn:Ht; [by destruct (proj1 Hwf)|rewrite <-Ht in *].
  rewrite Hx. destruct (op (x, w)) as [o1 [x1 w1]] eqn:Hop. intros [= <- <- <-].
  apply (Hlift _ Hx) in Hop as [Hop Hqueue]. rewrite Hmop in Hop |- *.
  rewrite (all_sessions_lookup _ _ _ Hwf Hx).
  destruct (h _ w) as [o2 [v w2]] eqn:Hh. injection Hop as -> Hx1 ->.
  pose proof (lookup_lt_Some _ _ _ Hx) as Hlt.
  assert (∀ fd', index (Make (<[index tm fd:=x1]> (threads_ tm))) fd' = index tm fd') as Hidx.
  { intros. unfold index. cbn. by rewrite length_insert. }
  assert (wf (Make (<[index tm fd:=x1]> (threads_ tm)))) as Hwf'.
  { split.
    { cbn. intros Hnil. apply (f_equal length) in Hnil. rewrite length_insert in Hnil.
      simpl in Hnil. lia. }
    intros i y fd' Hy. rewrite Hidx. cbn in Hy.
    destruct (decide (i = index tm fd)) as [->|Hne].
    2: { rewrite list_lookup_insert_ne in Hy by done. by apply Hwf. }
    rewrite list_lookup_insert_eq in Hy by done. injection Hy as <-. split.
    - intros s Hs. rewrite <-Hx1 in Hs. destruct (decide (fd' = fd)) as [->|Hfd].
      + rewrite lookup_partial_alter_eq in Hs. split; [|done].
        eapply Hkey; [exact Hh| |exact Hs]. intros s0 Hs0. by eapply Hwf.
      + rewrite lookup_partial_alter_ne in Hs by done. by eapply Hwf.
    - intros [Hq| ->]%Hqueue; [by eapply Hwf|done]. }
  split; [done|]. f_equal. f_equal. apply map_eq. intros fd'.
  destruct (index_lookup _ fd' (proj1 Hwf')) as [y Hy].
  rewrite (all_sessions_lookup _ _ _ Hwf' Hy). rewrite Hidx in Hy. cbn in Hy.
  destruct (decide (index tm fd' = index tm fd)) as [Heq|Hne].
  - rewrite Heq, list_lookup_insert_eq in Hy by done. injection Hy as <-.
    rewrite <-Hx1. destruct (decide (fd' = fd)) as [->|].
    + by rewrite !lookup_partial_alter_eq.
    + rewrite !lookup_partial_alter_ne by done. apply all_sessions_lookup; [done|].
      by rewrite Heq.
  - rewrite list_lookup_insert_ne in Hy by done.
    rewrite lookup_partial_alter_ne by congruence. by apply all_sessions_lookup.
Qed.

Lemma dispatch_lifts fd mop :
  ∀ x, lifts fd x
         (Thread.dispatch (ThreadSingle.on_sessions mop) (ThreadMulti.on_sessions mop)) mop.
Proof.
  intros [x|x] w o x' w';
    unfold Thread.dispatch, ThreadSingle.on_sessions, ThreadMulti.on_sessions, zoom; cbn;
    destruct (mop _) as [o1 [m1 w1]]; intros [= <- <- <-]; split; auto.
Qed.

Lemma make_wf (c : ThreadCount) :
  (∀ n, c = inr n → (0 < n)%Z) → wf (make (Se:=Se) c).
Proof.
  intros Hn. split.
  - destruct c as [|n]; [done|]. cbn. specialize (Hn n eq_refl).
    destruct (Z.to_nat n) eqn:?; [lia|done].
  - intros i x fd Hx.
    assert (Thread.sessions x = ∅ ∧ queued x = []) as [-> ->].
    { destruct c as [|n]; cbn in Hx.
      - destruct i; [by injection Hx as <-|done].
      - by apply lookup_replicate in Hx as [-> _]. }
    split; [by intros s|by intros ?%elem_of_nil].
Qed.

(** *** The three operations on the flat map *)

Lemma add_refines s tm w o tm' w' :
  wf tm → add_session s (tm, w) = (o, (tm', w')) →
  wf tm' ∧ store_session s (all_sessions tm, w) = (o, (all_sessions tm', w')).
Proof.
  apply at_thread_refines with (h := store_entry s); [apply store_local|].
  intros. apply dispatch_lifts.
Qed.

Lemma remove_refines fd tm w o tm' w' :
  wf tm → remove_session fd (tm, w) = (o, (tm', w')) →
  wf tm' ∧ erase_session fd (all_sessions tm, w) = (o, (all_sessions tm', w')).
Proof.
  apply at_thread_refines with (h := erase_entry); [apply erase_local|].
  intros. apply dispatch_lifts.
Qed.

Lemma ret_local fd : local_at (Se:=Se) (K:=K) fd (mret ()) (λ v w, (Ret (), (v, w))).
Proof.
  split.
  - intros m w. cbn. by rewrite alter_id.
  - intros v w o v' w' [= <- <- <-]. done.
Qed.

(** What [data_available] does to the sessions: the iteration on a single
    thread; a worker only queues. *)
Lemma data_sessions fd tm w o tm' w' :
  wf tm → data_available fd (tm, w) = (o, (tm', w')) →
  wf tm' ∧
  match threads_ tm !! index tm fd with
  | Some (Thread.Single _) => iterate_session fd (all_sessions tm, w)
  | _ => (Ret (), (all_sessions tm, w))
  end = (o, (all_sessions tm', w')).
Proof.
  intros Hwf. destruct (index_lookup tm fd (proj1 Hwf)) as [x Hx]. rewrite Hx. destruct x as [x|x].
  - apply at_thread_refines with (h := iterate_entry); [apply iterate_local| |done].
    intros y Hy. simplify_eq. intros w1 o1 x' w1'.
    unfold Thread.data_available, Thread.dispatch, ThreadSingle.data_available,
      ThreadSingle.on_sessions, zoom. cbn -[iterate_session].
    destruct (iterate_session fd _) as [o2 [m2 w2]]. intros [= <- <- <-]. auto.
  - change (Ret (), (all_sessions tm, w)) with (mret (M:=M _) () (all_sessions tm, w)).
    apply at_thread_refines with (h := λ v w, (Ret (), (v, w)));
      [apply ret_local| |done].
    intros y Hy. simplify_eq. intros w1 o1 x' w1' [= <- <- <-]. cbn. split; [done|].
    intros fd'. rewrite elem_of_app, list_elem_of_singleton. done.
Qed.

(** *** The queues of the workers *)

Definition queue_of (x : Thread.t Se) : option (list SOCKET) :=
  match x with
  | Thread.Single _ => None
  | Thread.Multi x => Some (ThreadMulti.queue_ x)
  end.

Lemma manager_queues fd (op : M (Thread.t Se * world K) unit) (g : list SOCKET → list SOCKET)
    tm w o tm' w' :
  (∀ x w o x' w', op (x, w) = (o, (x', w')) → queue_of x' = g <$> queue_of x) →
  at_thread fd op (tm, w) = (o, (tm', w')) →
  queue_of <$> threads_ tm' = alter (fmap g) (index tm fd) (queue_of <$> threads_ tm).
Proof.
  intros Hop. unfold at_thread. destruct (threads_ tm) as [|x0 l] eqn:Ht; rewrite <-?Ht.
  - intros [= _ <- _]. by rewrite Ht.
  - destruct (threads_ tm !! index tm fd) as [x|] eqn:Hx.
    + destruct (op (x, w)) as [o1 [x1 w1]] eqn:E. intros [= _ <- _]. apply Hop in E. cbn.
      apply list_eq. intros i. rewrite list_fmap_insert.
      destruct (decide (index tm fd = i)) as [<-|Hne].
      * rewrite list_lookup_alter_eq, list_lookup_insert_eq, list_lookup_fmap, Hx; cbn;
          [by rewrite E|rewrite length_fmap; by eapply lookup_lt_Some].
      * by rewrite list_lookup_alter_ne, list_lookup_insert_ne by done.
    + intros [= _ <- _]. apply list_eq. intros i.
      destruct (decide (index tm fd = i)) as [<-|Hne]; [|by rewrite list_lookup_alter_ne].
      by rewrite list_lookup_alter_eq, list_lookup_fmap, Hx.
Qed.

Lemma dispatch_queue mop (x : Thread.t Se) (w : world K) o x' w' :
  Thread.dispatch (ThreadSingle.on_sessions mop) (ThreadMulti.on_sessions mop) (x, w) =
    (o, (x', w')) → queue_of x' = id <$> queue_of x.
Proof.
  unfold Thread.dispatch, ThreadSingle.on_sessions, ThreadMulti.on_sessions, zoom.
  destruct x; destruct (mop _) as [o1 [m1 w1]]; by intros [= <- <- <-].
Qed.

Lemma data_queue fd (x : Thread.t Se) (w : world K) o x' w' :
  Thread.data_available fd (x, w) = (o, (x', w')) →
  queue_of x' = (λ q, q ++ [fd]) <$> queue_of x.
Proof.
  destruct x as [x|x]; [|by intros [= <- <- <-]].
  unfold Thread.data_available, Thread.dispatch, ThreadSingle.data_available,
    ThreadSingle.on_sessions, zoom.
  destruct (iterate_session fd _) as [o1 [m1 w1]]. by intros [= <- <- <-].
Qed.

(** The body of the worker [i]: the iteration of the descriptor it pops. *)
Definition next_work (x : ThreadMulti.t Se) : M (gmap SOCKET Se * world K) unit :=
  match ThreadMulti.queue_ x with
  | [] => mret ()
  | fd :: _ => iterate_session fd
  end.

Lemma work_lifts fd x :
  head (ThreadMulti.queue_ x) = Some fd →
  lifts fd (Thread.Multi x) (Thread.dispatch (mret ()) ThreadMulti.work) (iterate_session fd).
Proof.
  intros Hq w o x' w'. unfold Thread.dispatch, ThreadMulti.work. rewrite run_bind. cbn.
  destruct (ThreadMulti.queue_ x) as [|fd0 q] eqn:Hx; simplify_eq/=.
  unfold ThreadMulti.on_sessions, zoom. rewrite run_bind. cbn -[iterate_session].
  destruct (iterate_session fd _) as [o2 [m2 w2]] eqn:Hi. intros [= <- <- <-].
  split; [exact Hi|]. intros fd' ?. left. by right.
Qed.

Lemma work_refines i x tm w o x' w' :
  wf tm → threads_ tm !! i = Some (Thread.Multi x) →
  ThreadMulti.work (x, w) = (o, (x', w')) →
  let tm' := Make (<[i := Thread.Multi x']> (threads_ tm)) in
  wf tm' ∧ next_work x (all_sessions tm, w) = (o, (all_sessions tm', w')).
Proof.
  intros Hwf Hx Hw tm'. unfold next_work. destruct (ThreadMulti.queue_ x) as [|fd q] eqn:Hq.
  - unfold ThreadMulti.work in Hw. rewrite run_bind in Hw. cbn in Hw. rewrite Hq in Hw.
    injection Hw as <- <- <-. unfold tm'. rewrite list_insert_id by done. by destruct tm.
  - assert (i = index tm fd) as ->.
    { apply (proj2 Hwf _ _ fd Hx). cbn. rewrite Hq. left. }
    apply (at_thread_refines fd (Thread.dispatch (mret ()) ThreadMulti.work)
             (iterate_session fd) iterate_entry tm w o tm' w'); [apply iterate_local| |done|].
    + intros y Hy. simplify_eq. apply work_lifts. by rewrite ?Hq.
    + unfold at_thread. rewrite Hx. unfold Thread.dispatch. rewrite Hw.
      by destruct (threads_ tm).
Qed.

(** ** Theorems *)

Inductive manager_call := MAdd (s : Se) | MRemove (fd : SOCKET) | MData (fd : SOCKET).

Definition call_manager (c : manager_call) : M (t Se * world K) unit :=
  match c with
  | MAdd s => add_session s
  | MRemove fd => remove_session fd
  | MData fd => data_available fd
  end.

(** The specification: one map of all sessions, and for every thread the
    descriptors it has yet to serve, if it is a worker. *)
Record flat := Flat {
  flat_sessions : gmap SOCKET Se;
  flat_queues : list (option (list SOCKET)) }.

Definition on_flat (m : M (gmap SOCKET Se * world K) unit) : M (flat * world K) unit :=
  λ '(f, w), let '(o, (s, w')) := m (flat_sessions f, w) in (o, (Flat s (flat_queues f), w')).

Definition slot (n : nat) (fd : SOCKET) : nat := Z.to_nat (to_size_t fd `mod` Z.of_nat n).

(** On a worker [data_available] appends the descriptor to its queue and does
    nothing else; on the single thread it is the session's iteration. *)
Definition flat_data (fd : SOCKET) : M (flat * world K) unit := λ '(f, w),
  let i := slot (length (flat_queues f)) fd in
  match flat_queues f !! i with
  | Some (Some q) =>
      (Ret (), (Flat (flat_sessions f) (<[i := Some (q ++ [fd])]> (flat_queues f)), w))
  | Some None => on_flat (iterate_session fd) (f, w)
  | None => (UB, (f, w))
  end.

Definition call_flat (c : manager_call) : M (flat * world K) unit :=
  match c with
  | MAdd s => on_flat (store_session s)
  | MRemove fd => on_flat (erase_session fd)
  | MData fd => flat_data fd
  end.

(** The flat state a manager stands for. *)
Definition flatten (tm : t Se) : flat := Flat (all_sessions tm) (queue_of <$> threads_ tm).

Lemma alter_id_list (l : list (option (list SOCKET))) i : alter (fmap id) i l = l.
Proof.
  apply list_eq. intros j. destruct (decide (i = j)) as [<-|]; [|by rewrite list_lookup_alter_ne].
  rewrite list_lookup_alter_eq. by destruct (l !! i) as [[]|].
Qed.

Lemma on_flat_flatten m tm w o tm' w' :
  m (all_sessions tm, w) = (o, (all_sessions tm', w')) →
  queue_of <$> threads_ tm' = queue_of <$> threads_ tm →
  on_flat m (flatten tm, w) = (o, (flatten tm', w')).
Proof. intros Hm Hq. unfold on_flat, flatten. cbn. by rewrite Hm, Hq. Qed.

Lemma data_flat fd tm w o tm' w' :
  wf tm → data_available fd (tm, w) = (o, (tm', w')) →
  wf tm' ∧ flat_data fd (flatten tm, w) = (o, (flatten tm', w')).
Proof.
  intros Hwf Hd. pose proof (manager_queues _ _ _ _ _ _ _ _ (data_queue fd) Hd) as Hq.
  destruct (data_sessions _ _ _ _ _ _ Hwf Hd) as [Hwf' Hs]. split; [done|].
  unfold flat_data. cbn [flatten flat_queues]. rewrite length_fmap.
  change (slot (length (threads_ tm)) fd) with (index tm fd). rewrite list_lookup_fmap.
  destruct (index_lookup tm fd (proj1 Hwf)) as [[x|x] Hx]; rewrite Hx in Hs |- *; cbn [fmap option_fmap option_map queue_of].
  - apply on_flat_flatten; [exact Hs|]. rewrite Hq. apply list_eq. intros i.
    destruct (decide (index tm fd = i)) as [<-|]; [|by rewrite list_lookup_alter_ne].
    by rewrite list_lookup_alter_eq, list_lookup_fmap, Hx.
  - injection Hs as <- Hs <-. unfold flatten. cbn [flat_sessions flat_queues]. rewrite <-Hs, Hq.
    do 3 f_equal. apply list_eq. intros i. destruct (decide (index tm fd = i)) as [<-|].
    + rewrite list_lookup_alter_eq, list_lookup_insert_eq, list_lookup_fmap, Hx; [done|].
      rewrite length_fmap. by eapply lookup_lt_Some.
    + by rewrite list_lookup_alter_ne, list_lookup_insert_ne.
Qed.

(** C9: ThreadManager keeps its invariant and behaves like one flat map of sessions with one
    queue per worker, whatever the number of threads: add_session and remove_session are the
    operations on the union of the threads' maps and leave the queues as they are;
    data_available is the iteration of the descriptor's session on a single thread, and with
    workers appends the descriptor to the queue of the worker it selects and touches no session
    and no other queue; with the same outcome and the same effects on the world. *)
Theorem manager_refines c tm w o tm' w' :
  wf tm → call_manager c (tm, w) = (o, (tm', w')) →
  wf tm' ∧ call_flat c (flatten tm, w) = (o, (flatten tm', w')).
Proof.
  intros Hwf. destruct c as [s|fd|fd]; cbn [call_manager call_flat]; [| |by apply data_flat]; intros Hc.
  - pose proof (manager_queues _ _ id _ _ _ _ _ (dispatch_queue _) Hc) as Hq.
    apply add_refines in Hc as [Hwf' Hc]; [|done]. split; [done|].
    apply on_flat_flatten; [exact Hc|]. by rewrite Hq, alter_id_list.
  - pose proof (manager_queues _ _ id _ _ _ _ _ (dispatch_queue _) Hc) as Hq.
    apply remove_refines in Hc as [Hwf' Hc]; [|done]. split; [done|].
    apply on_flat_flatten; [exact Hc|]. by rewrite Hq, alter_id_list.
Qed.

(** A worker thread queues the descriptor, behind what it holds already. *)
Theorem manager_data_queues fd tm w x :
  threads_ tm !! index tm fd = Some (Thread.Multi x) →
  data_available fd (tm, w) =
  (Ret (), (Make (<[index tm fd := Thread.Multi
              (ThreadMulti.set_queue (ThreadMulti.queue_ x ++ [fd]) x)]> (threads_ tm)), w)).
Proof.
  intros Hx. unfold data_available, at_thread.
  destruct (threads_ tm) as [|y l] eqn:Ht; [done|]. rewrite <-Ht in *. by rewrite Hx.
Qed.

(** A thread count of zero or less makes every operation of the manager undefined: the remainder
    by the size of an empty vector. *)
Theorem manager_no_threads n s fd w :
  (n ≤ 0)%Z →
  let tm : t Se := make (inr n) in
  add_session s (tm, w) = (UB, (tm, w)) ∧
  remove_session fd (tm, w) = (UB, (tm, w)) ∧
  data_available fd (tm, w) = (UB, (tm, w)).
Proof.
  intros Hn tm. assert (tm = Make []) as ->; [|done].
  unfold tm, make. by rewrite Z2Nat.nonpos.
Qed.
End manager.

(** ** Witnesses *)

Module Witness.
#[local] Instance platform : Platform := posix.
#[local] Instance tcp : ConnectionOps TCPConnection.t (world sim) := TCPConnection.ops (K:=sim) 100.
#[local] Instance tcp_spec : ConnectionSpec TCPConnection.t sim :=
  TCPConnection.connection (K:=sim) 100.
#[local] Instance tcp_closes : ConnectionCloses TCPConnection.t sim :=
  TCPConnection.connection_closes (K:=sim) 100.
#[local] Instance sessions : SessionOps (Session.t TCPConnection.t ()) (world sim) :=
  Session.ops (W:=world sim) mret.
#[local] Instance sessions_spec : SessionSpec (Session.t TCPConnection.t ()) sim :=
  Session.session (K:=sim) mret.

Definition s (fd : Z) : Session.t TCPConnection.t () := Session.Make (TCPConnection.Make fd) ().
Definition two : ThreadManager.t (Session.t TCPConnection.t ()) := ThreadManager.make (inr 2%Z).
Definition start : world sim := sim_world (sim_start [5%Z] [] []).

Lemma two_wf : wf two.
Proof. apply make_wf. intros n [= <-]. lia. Qed.

(** A session is added, and its descriptor is queued at the worker it selects. *)
Definition added : ThreadManager.t (Session.t TCPConnection.t ()) :=
  (ThreadManager.add_session (s 5) (two, start)).2.1.

Lemma manager_refines_witness :
  ∃ tm', call_manager (MData 5) (added, start) = (Ret (), (tm', start)) ∧
    wf tm' ∧ call_flat (MData 5) (flatten added, start) = (Ret (), (flatten tm', start)) ∧
    flat_queues (flatten tm') = [Some []; Some [5%Z]].
Proof.
  destruct (call_manager (MData 5) (added, start)) as [o [tm' w']] eqn:Hc. exists tm'.
  assert (o = Ret () ∧ w' = start ∧ flat_queues (flatten tm') = [Some []; Some [5%Z]]) as (-> & -> & Hq).
  { vm_compute in Hc. injection Hc as <- <- <-. split_and!; vm_compute; reflexivity. }
  split; [reflexivity|].
  assert (wf added) as Hwf.
  { unfold added. destruct (ThreadManager.add_session (s 5) (two, start)) as [o1 [tm1 w1]] eqn:Ha.
    exact (proj1 (add_refines _ _ _ _ _ _ two_wf Ha)). }
  destruct (manager_refines (MData 5) added start (Ret ()) tm' start Hwf Hc) as [Hwf' Hf].
  split; [exact Hwf'|]. split; [exact Hf|exact Hq].
Defined.

Lemma manager_no_threads_witness :
  let tm : ThreadManager.t (Session.t TCPConnection.t ()) := ThreadManager.make (inr 0%Z) in
  ThreadManager.add_session (s 5) (tm, start) = (UB, (tm, start)) ∧
  ThreadManager.remove_session 5 (tm, start) = (UB, (tm, start)) ∧
  ThreadManager.data_available 5 (tm, start) = (UB, (tm, start)).
Proof. apply (manager_no_threads 0 (s 5) 5 start). lia. Defined.
End Witness.
