(* ===== verification/Worker.v ===== *)
(** * thread/threadmulti.cc: the worker and its caller, interleaved

    A small-step machine of one [ThreadMulti]: the server's thread, which calls
    its methods and finally its destructor, and the worker's loop.  The mutex
    has an owner, [wait_for] gives it up and takes it back, and each [step] is
    one action of one of the two threads.  The destructor destroys the members
    one by one: a worker that comes to a destroyed one, or a member destroyed in
    use, is undefined behaviour, and the machine stops there.  [astep] is the
    specification: the critical sections as atomic operations. *)

From S2P Require Import Prelude Cpp Log OS Session Threads.
Import ThreadMulti.

(** The members of [threadmulti.hh] in the order of their declaration. *)
Inductive member := m_thread | m_mutex | m_queue | m_cond | m_finished.
Definition members : list member := [m_thread; m_mutex; m_queue; m_cond; m_finished].

#[export] Instance member_eq_dec : EqDecision member.
Proof. solve_decision. Defined.

Inductive who := Caller | Worker.

#[export] Instance who_eq_dec : EqDecision who.
Proof. solve_decision. Defined.

Section machine.
Context {Se W : Type} `{!SessionOps Se W}.

(** A call of a public method. *)
Inductive call := CallAdd (s : Se) | CallRemove (fd : SOCKET) | CallData (fd : SOCKET).

Definition run_call (c : call) : M (t Se * W) unit :=
  match c with
  | CallAdd s => add_session s
  | CallRemove fd => remove_session fd
  | CallData fd => data_available fd
  end.

(** Where the worker is in its loop. *)
Inductive wpc :=
  | WTest                  (** at [while (!st.stop_requested())] *)
  | WLock                  (** constructing [lock] *)
  | WWait                  (** calling [cond_.wait_for], mutex held *)
  | WBlocked (notified : bool) (** inside [wait_for], mutex released *)
  | WBody                  (** after [wait_for], mutex held again *)
  | WIterate (fd : SOCKET) (** [fd] popped, mutex held *)
  | WUnlock                (** at the end of the body *)
  | WFinish                (** at [finished_ = true] *)
  | WDone                  (** the thread function has returned *)
  | WTerminated            (** an exception left the thread function *)
  | WUndefined.            (** a destroyed member was used *)

(** Where the server's thread is. *)
Inductive cpc :=
  | CIdle
  | CLock (c : call)
  | CHold (c : call)
  | CUnlock
  | DSleep                 (** in [~ThreadMulti], after [request_stop] *)
  | DLock
  | DUnlock                (** holding the lock, after [notify_one] *)
  | DDestroy (l : list member) (** members still to destroy, in order *)
  | DDone
  | DUndefined.            (** a member was destroyed in use *)

Record config := Config {
  th : t Se;
  wd : W;
  owner : option who;
  wp : wpc;
  cp : cpc;
  destroyed : list member }.

Definition start (x : t Se) (w : W) : config := Config x w None WTest CIdle [].

(** What an outsider sees of a step. *)
Inductive event := EvCall (c : call) | EvWork (fd : option SOCKET) | EvStop | EvFinish.

(** The worker after a body that ended with [o]. *)
Definition after_body (o : outcome unit) : wpc :=
  if is_ret o then WUnlock else WTerminated.

(** The worker's actions, on members that live. *)
Inductive waction : config → option event → config → Prop :=
  | w_enter c : wp c = WTest → stop_requested (th c) = false →
      waction c None (Config (th c) (wd c) (owner c) WLock (cp c) (destroyed c))
  | w_leave c : wp c = WTest → stop_requested (th c) = true →
      waction c None (Config (th c) (wd c) (owner c) WFinish (cp c) (destroyed c))
  | w_lock c : wp c = WLock → owner c = None →
      waction c None (Config (th c) (wd c) (Some Worker) WWait (cp c) (destroyed c))
  | w_wait c : wp c = WWait →
      waction c None (Config (th c) (wd c) None (WBlocked false) (cp c) (destroyed c))
  (* notified, timed out or woken for no reason: the mutex is taken back *)
  | w_wake c n : wp c = WBlocked n → owner c = None →
      waction c None (Config (th c) (wd c) (Some Worker) WBody (cp c) (destroyed c))
  | w_empty c : wp c = WBody → queue_ (th c) = [] →
      waction c (Some (EvWork None))
        (Config (th c) (wd c) (owner c) WUnlock (cp c) (destroyed c))
  | w_pop c fd q : wp c = WBody → queue_ (th c) = fd :: q →
      waction c None
        (Config (set_queue q (th c)) (wd c) (owner c) (WIterate fd) (cp c) (destroyed c))
  | w_iterate c fd o x w : wp c = WIterate fd →
      on_sessions (iterate_session fd) (th c, wd c) = (o, (x, w)) →
      waction c (Some (EvWork (Some fd)))
        (Config x w (owner c) (after_body o) (cp c) (destroyed c))
  | w_unlock c : wp c = WUnlock →
      waction c None (Config (th c) (wd c) None WTest (cp c) (destroyed c))
  | w_finish c : wp c = WFinish →
      waction c (Some EvFinish) (Config (finish (th c)) (wd c) (owner c) WDone (cp c) (destroyed c)).

(** The members the worker's next action uses; [wait_for], once it has begun, only
    takes the mutex back. *)
Definition touches (p : wpc) : list member :=
  match p with
  | WLock | WBlocked _ | WUnlock => [m_mutex]
  | WWait => [m_cond; m_mutex]
  | WBody => [m_queue]
  | WFinish => [m_finished]
  | _ => []
  end.

Definition in_reach (c : config) : Prop := ∀ m, m ∈ touches (wp c) → m ∉ destroyed c.

Inductive wstep : config → option event → config → Prop :=
  | w_act c e c' : in_reach c → waction c e c' → wstep c e c'
  | w_undefined c : ¬ in_reach c →
      wstep c None (Config (th c) (wd c) (owner c) WUndefined (cp c) (destroyed c)).

(** [notify_one]: the worker, if it waits, is woken. *)
Definition notify (p : wpc) : wpc := match p with WBlocked _ => WBlocked true | p => p end.
Definition notifies (k : call) (p : wpc) : wpc :=
  match k with CallData _ => notify p | _ => p end.

(** A member that must not be destroyed now: a thread that can be joined, a mutex
    that is held, a condition variable with a waiter that was not notified.  The
    first is waited for; the others are undefined behaviour. *)
Definition in_use (c : config) (m : member) : Prop :=
  match m with
  | m_thread => wp c ≠ WDone
  | m_mutex => is_Some (owner c)
  | m_cond => wp c = WBlocked false
  | _ => False
  end.

Inductive cstep : config → option event → config → Prop :=
  | c_call c k : cp c = CIdle →
      cstep c None (Config (th c) (wd c) (owner c) (wp c) (CLock k) (destroyed c))
  | c_lock c k : cp c = CLock k → owner c = None →
      cstep c None (Config (th c) (wd c) (Some Caller) (wp c) (CHold k) (destroyed c))
  | c_run c k o x w : cp c = CHold k → run_call k (th c, wd c) = (o, (x, w)) →
      cstep c (Some (EvCall k))
        (Config x w (owner c) (notifies k (wp c)) CUnlock (destroyed c))
  | c_unlock c : cp c = CUnlock →
      cstep c None (Config (th c) (wd c) None (wp c) CIdle (destroyed c))
  (* the destructor *)
  | d_stop c : cp c = CIdle →
      cstep c (Some EvStop)
        (Config (request_stop (th c)) (wd c) (owner c) (wp c) DSleep (destroyed c))
  | d_sleep c : cp c = DSleep →
      cstep c None (Config (th c) (wd c) (owner c) (wp c) DLock (destroyed c))
  | d_lock c : cp c = DLock → owner c = None →
      cstep c None (Config (th c) (wd c) (Some Caller) (notify (wp c)) DUnlock (destroyed c))
  | d_unlock c : cp c = DUnlock →
      cstep c None (Config (th c) (wd c) None (wp c) (DDestroy (rev members)) (destroyed c))
  (* members die in the reverse order of their declaration; the destructor of
     the thread first joins it *)
  | d_destroy c m l : cp c = DDestroy (m :: l) → ¬ in_use c m →
      cstep c None (Config (th c) (wd c) (owner c) (wp c) (DDestroy l) (m :: destroyed c))
  | d_undefined c m l : cp c = DDestroy (m :: l) → m ≠ m_thread → in_use c m →
      cstep c None (Config (th c) (wd c) (owner c) (wp c) DUndefined (destroyed c))
  | d_done c : cp c = DDestroy [] →
      cstep c None (Config (th c) (wd c) (owner c) (wp c) DDone (destroyed c)).

(** Undefined behaviour has happened. *)
Definition is_undefined (c : config) : bool :=
  match wp c, cp c with WUndefined, _ | _, DUndefined => true | _, _ => false end.

(** Nothing runs after [std::terminate], and nothing is said of what runs after
    undefined behaviour. *)
Definition ended (c : config) : bool :=
  match wp c with WTerminated => true | _ => is_undefined c end.

Definition step (c : config) (e : option event) (c' : config) : Prop :=
  ended c = false ∧ (wstep c e c' ∨ cstep c e c').

(** Runs, with the events they show. *)
Inductive runs : config → list event → config → Prop :=
  | runs_refl c : runs c [] c
  | runs_step c1 e c2 es c3 :
      step c1 e c2 → runs c2 es c3 → runs c1 (option_list e ++ es) c3.

(** ** The specification *)

(** A critical section runs at once. *)
Inductive astep : t Se * W → event → t Se * W → Prop :=
  | a_call k o x w x' w' :
      run_call k (x, w) = (o, (x', w')) → astep (x, w) (EvCall k) (x', w')
  | a_work o x w x' w' :
      work (x, w) = (o, (x', w')) → astep (x, w) (EvWork (head (queue_ x))) (x', w')
  | a_stop x w : astep (x, w) EvStop (request_stop x, w)
  | a_finish x w : astep (x, w) EvFinish (finish x, w).

Inductive aruns : t Se * W → list event → t Se * W → Prop :=
  | aruns_refl a : aruns a [] a
  | aruns_step a1 e a2 es a3 : astep a1 e a2 → aruns a2 es a3 → aruns a1 (e :: es) a3.
End machine.

Arguments call : clear implicits.
Arguments config : clear implicits.
Arguments event : clear implicits.
