(* ===== verification/WorkerSpec.v ===== *)
(** * What the worker and its caller guarantee

    Mutual exclusion, the refinement of the interleaved machine by atomic
    critical sections, the order of service, what a stop request leaves to run,
    and the order of destruction. *)

From S2P Require Import Prelude Cpp Log OS OpenSSL Sim Connection TCPConnection Session Threads.
From S2P Require Import Worker.
Import ThreadMulti.

Create HintDb worker.
#[export] Hint Constructors waction wstep cstep runs astep aruns : worker.

Section spec.
Context {Se W : Type} `{!SessionOps Se W}.
Implicit Types c : config Se W.

(** ** The mutex *)

Definition w_holds (p : wpc) : bool :=
  match p with WWait | WBody | WIterate _ | WUnlock | WTerminated => true | _ => false end.
Definition c_holds (p : cpc (Se:=Se)) : bool :=
  match p with CHold _ | CUnlock | DUnlock => true | _ => false end.

Definition mutex_ok c : Prop :=
  (w_holds (wp c) = true ↔ owner c = Some Worker) ∧
  (c_holds (cp c) = true ↔ owner c = Some Caller).

Lemma w_holds_notify p : w_holds (notify p) = w_holds p.
Proof. by destruct p. Qed.
Lemma w_holds_notifies k p : w_holds (notifies (Se:=Se) k p) = w_holds p.
Proof. destruct k; [done..|apply w_holds_notify]. Qed.

Lemma mutex_action c e c' : waction c e c' → mutex_ok c → mutex_ok c'.
Proof.
  intros Hs [Hw Hc]; destruct Hs; unfold mutex_ok; cbn;
    repeat match goal with Hp : wp _ = _ |- _ => rewrite Hp in * end;
    cbn in *; try (unfold after_body; destruct o);
    destruct (owner c) as [[]|]; cbn in *; naive_solver.
Qed.

Lemma mutex_caller c e c' : cstep c e c' → mutex_ok c → mutex_ok c'.
Proof.
  intros Hs [Hw Hc]; destruct Hs; unfold mutex_ok; cbn; rewrite ?w_holds_notify, ?w_holds_notifies;
    repeat match goal with Hp : cp _ = _ |- _ => rewrite Hp in * end;
    destruct (owner c) as [[]|]; cbn in *; naive_solver.
Qed.

(** A worker that used a destroyed member may have held the mutex. *)
Definition mutex_inv c : Prop := is_undefined c = false → mutex_ok c.

Lemma ended_undefined c : ended c = false → is_undefined c = false.
Proof. unfold ended, is_undefined. by destruct (wp c). Qed.

Lemma undefined_worker (x : t Se) (w : W) o k d :
  is_undefined (Config x w o WUndefined k d) = true.
Proof. done. Qed.

Lemma mutex_step c e c' : step c e c' → mutex_inv c → mutex_inv c'.
Proof.
  intros [He%ended_undefined Hs] Hm Hu. specialize (Hm He).
  destruct Hs as [Hs|Hs]; [destruct Hs as [c e c' _ Hs|c _]|].
  - by eapply mutex_action.
  - by rewrite undefined_worker in Hu.
  - by eapply mutex_caller.
Qed.

Lemma mutex_runs c es c' : runs c es c' → mutex_inv c → mutex_inv c'.
Proof. induction 1; eauto using mutex_step. Qed.

Lemma mutex_start x w : mutex_inv (start x w).
Proof. intros _. split; done. Qed.

(** ** The critical sections as atomic operations *)

Definition abs c : t Se * W :=
  (match wp c with
   | WIterate fd => set_queue (fd :: queue_ (th c)) (th c)
   | _ => th c
   end, wd c).

Lemma on_sessions_queue (m : M (gmap SOCKET Se * W) unit) x w o x' w' q :
  on_sessions m (x, w) = (o, (x', w')) →
  queue_ x' = queue_ x ∧ stop_requested x' = stop_requested x ∧
  on_sessions m (set_queue q x, w) = (o, (set_queue q x', w')).
Proof.
  unfold on_sessions, zoom. cbn. destruct (m _) as [o1 [m1 w1]].
  by intros [= <- <- <-].
Qed.

Lemma action_refines c e c' :
  waction c e c' → aruns (abs c) (option_list e) (abs c').
Proof.
  intros Hs.
  destruct Hs as [c Hp|c Hp|c Hp|c Hp|c n Hp|c Hp Hq|c fd q Hp Hq|c fd o x w Hp Hi|c Hp|c Hp];
    unfold abs; cbn; rewrite Hp; try apply aruns_refl.
  - eapply aruns_step; [|apply aruns_refl].
    pose proof (a_work (Ret ()) (th c) (wd c) (th c) (wd c)) as Ha.
    rewrite Hq in Ha. apply Ha. unfold work. rewrite run_bind. cbn. by rewrite Hq.
  - destruct c as [[] ? ? ? ? ?]. cbn in *. subst. apply aruns_refl.
  - eapply aruns_step; [|].
    + apply (a_work o (set_queue (fd :: queue_ (th c)) (th c)) (wd c) x w).
      unfold work. rewrite run_bind. cbn. rewrite run_bind. cbn.
      destruct (th c). exact Hi.
    + destruct o; apply aruns_refl.
  - eauto with worker.
Qed.

Lemma caller_refines c e c' :
  cstep c e c' → mutex_ok c → aruns (abs c) (option_list e) (abs c').
Proof.
  intros Hs [Hw Hc].
  destruct Hs as [c k Hp|c k Hp|c k o x w Hp Hr|c Hp|c Hp|c Hp|c Hp|c Hp|c m l Hp|c m l Hp|c Hp];
    unfold abs; cbn; try apply aruns_refl.
  - assert (∀ fd, wp c ≠ WIterate fd) as Hn.
    { intros fd Heq. rewrite Hp in Hc. destruct Hc as [Hc _]. rewrite Heq, Hc in Hw by done.
      destruct Hw as [Hw _]. by specialize (Hw eq_refl). }
    destruct (wp c), k; try (by edestruct Hn); cbn; eauto with worker.
  - destruct (wp c); eauto with worker.
  - destruct (wp c); apply aruns_refl.
Qed.

Lemma step_refines c e c' :
  step c e c' → mutex_inv c → aruns (abs c) (option_list e) (abs c').
Proof.
  intros [He%ended_undefined Hs] Hm. specialize (Hm He).
  destruct Hs as [Hs|Hs]; [destruct Hs as [c e c' _ Hs|c Hreach]|].
  - by apply action_refines.
  - unfold abs. cbn. destruct (wp c) eqn:Hp; try apply aruns_refl.
    destruct Hreach. intros m Hin. rewrite Hp in Hin. by apply not_elem_of_nil in Hin.
  - apply caller_refines; auto.
Qed.

Lemma aruns_app a1 es1 a2 es2 a3 : aruns a1 es1 a2 → aruns a2 es2 a3 → aruns a1 (es1 ++ es2) a3.
Proof. induction 1; cbn; eauto with worker. Qed.

(** ** The order of service *)

Definition pushed_by (e : event Se) : list SOCKET :=
  match e with EvCall (CallData fd) => [fd] | _ => [] end.
Definition served_by (e : event Se) : list SOCKET :=
  match e with EvWork (Some fd) => [fd] | _ => [] end.

Lemma astep_fifo a e a' :
  astep a e a' → queue_ a.1 ++ pushed_by e = served_by e ++ queue_ a'.1.
Proof.
  intros [k o x w x' w' Hr|o x w x' w' Hw|x w|x w]; cbn; rewrite ?app_nil_r; [|..|done|done].
  - destruct k as [s|fd|fd]; cbn in *; rewrite ?app_nil_r.
    + by apply (on_sessions_queue _ _ _ _ _ _ []) in Hr as [-> _].
    + by apply (on_sessions_queue _ _ _ _ _ _ []) in Hr as [-> _].
    + by injection Hr as <- <- <-.
  - unfold work in Hw. rewrite run_bind in Hw. cbn in Hw.
    destruct (queue_ x) as [|fd q] eqn:Hq; [by injection Hw as <- <- <-|].
    rewrite run_bind in Hw. cbn in Hw.
    apply (on_sessions_queue _ _ _ _ _ _ []) in Hw as [-> _]. done.
Qed.

Lemma aruns_fifo a es a' :
  aruns a es a' → queue_ a.1 ++ (es ≫= pushed_by) = (es ≫= served_by) ++ queue_ a'.1.
Proof.
  induction 1 as [a|a1 e a2 es a3 Hs Hr IH]; cbn; [by rewrite app_nil_r|].
  apply astep_fifo in Hs. by rewrite app_assoc, Hs, <-app_assoc, IH, app_assoc.
Qed.

Lemma runs_refine c es c' :
  runs c es c' → mutex_inv c → aruns (abs c) es (abs c').
Proof.
  induction 1 as [c|c1 e c2 es c3 Hs Hr IH]; intros Hm; [apply aruns_refl|].
  eapply aruns_app; [by apply step_refines|]. apply IH. by eapply mutex_step.
Qed.

(** ** What a stop request leaves to run *)

Definition is_body (e : event Se) : nat := match e with EvWork _ => 1 | _ => 0 end.
Definition bodies (es : list (event Se)) : nat := sum_list_with is_body es.

(** The bodies the worker may still run once the stop is requested. *)
Definition budget (p : wpc) : nat :=
  match p with WLock | WWait | WBlocked _ | WBody | WIterate _ => 1 | _ => 0 end.

Lemma budget_notify p : budget (notify p) = budget p.
Proof. by destruct p. Qed.
Lemma budget_notifies k p : budget (notifies (Se:=Se) k p) = budget p.
Proof. destruct k; [done..|apply budget_notify]. Qed.

Lemma run_call_stop k x w o x' w' :
  run_call k (x, w) = (o, (x', w')) → stop_requested x' = stop_requested x.
Proof.
  destruct k; cbn; intros Hr.
  - by apply (on_sessions_queue _ _ _ _ _ _ []) in Hr as (_ & -> & _).
  - by apply (on_sessions_queue _ _ _ _ _ _ []) in Hr as (_ & -> & _).
  - by injection Hr as <- <- <-.
Qed.

Lemma step_stop c e c' :
  step c e c' → stop_requested (th c) = true →
  stop_requested (th c') = true ∧ bodies (option_list e) + budget (wp c') ≤ budget (wp c).
Proof.
  intros [_ Hs] Hstop. destruct Hs as [Hs|Hs]; [destruct Hs as [c e c' _ Hs|c _]|].
  - destruct Hs as [c Hp|c Hp|c Hp|c Hp|c n Hp|c Hp Hq|c fd q Hp Hq|c fd o x w Hp Hi|c Hp|c Hp];
      cbn; rewrite ?Hp; cbn; try (split; [done|lia]); [congruence|].
    apply (on_sessions_queue _ _ _ _ _ _ []) in Hi as (_ & -> & _).
    split; [done|]. unfold after_body. case_match; cbn; lia.
  - cbn. split; [done|lia].
  - destruct Hs as [c k Hp|c k Hp|c k o x w Hp Hr|c Hp|c Hp|c Hp|c Hp|c Hp|c m l Hp|c m l Hp|c Hp];
      cbn; rewrite ?budget_notify, ?budget_notifies; try (split; [done|lia]).
    apply run_call_stop in Hr as ->. split; [done|lia].
Qed.

Lemma bodies_app es1 es2 : bodies (es1 ++ es2) = bodies es1 + bodies es2.
Proof. apply sum_list_with_app. Qed.

(** The destructor has requested the stop, and is past its body. *)
Definition dying (p : cpc (Se:=Se)) : bool :=
  match p with
  | DSleep | DLock | DUnlock | DDestroy _ | DDone | DUndefined => true
  | _ => false
  end.
Definition destroying (p : cpc (Se:=Se)) : bool :=
  match p with DDestroy _ | DDone | DUndefined => true | _ => false end.

Lemma dying_step c e c' :
  step c e c' → (dying (cp c) = true → stop_requested (th c) = true) →
  dying (cp c') = true → stop_requested (th c') = true.
Proof.
  intros [_ Hs] Hinv. destruct Hs as [Hs|Hs]; [destruct Hs as [c e c' _ Hs|c _]|].
  - destruct Hs as [| | | | | | |c fd o x w Hp Hi| |]; cbn; try exact Hinv.
    apply (on_sessions_queue _ _ _ _ _ _ []) in Hi as (_ & -> & _). exact Hinv.
  - exact Hinv.
  - destruct Hs as [c k Hp|c k Hp|c k o x w Hp Hr|c Hp|c Hp|c Hp|c Hp|c Hp|c m l Hp|c m l Hp|c Hp];
      cbn; rewrite ?Hp in Hinv; auto; done.
Qed.

Lemma dying_runs c es c' :
  runs c es c' → (dying (cp c) = true → stop_requested (th c) = true) →
  dying (cp c') = true → stop_requested (th c') = true.
Proof. induction 1; eauto using dying_step. Qed.

(** ** Undefined behaviour *)

(** Before the destructor destroys members nothing undefined happens. *)
Definition defined_inv c : Prop :=
  wp c = WUndefined ∨ cp c = DUndefined ∨ destroyed c ≠ [] → destroying (cp c) = true.

Lemma defined_step c e c' : step c e c' → defined_inv c → defined_inv c'.
Proof.
  unfold defined_inv. intros [He Hs] Hinv.
  assert (wp c ≠ WUndefined) as Hw by (intros Heq; unfold ended, is_undefined in He; by rewrite Heq in He).
  destruct Hs as [Hs|Hs]; [destruct Hs as [c e c' _ Hs|c Hreach]|].
  - destruct Hs; cbn in *; try (unfold after_body; destruct o); naive_solver.
  - cbn. intros _. apply Hinv. right. right. intros Hd. destruct Hreach. intros m _.
    rewrite Hd. apply not_elem_of_nil.
  - assert (∀ p, notify p = WUndefined → p = WUndefined) as Hn by (by intros []).
    assert (∀ k p, notifies (Se:=Se) k p = WUndefined → p = WUndefined) as Hk by (by intros [] []).
    destruct Hs as [c k Hp|c k Hp|c k o x w Hp Hr|c Hp|c Hp|c Hp|c Hp|c Hp|c m l Hp|c m l Hp|c Hp];
      cbn in *; rewrite ?Hp in Hinv; cbn in Hinv; try done; naive_solver.
Qed.

Lemma defined_runs c es c' : runs c es c' → defined_inv c → defined_inv c'.
Proof. induction 1; eauto using defined_step. Qed.

Lemma undefined_destroying x w es c :
  runs (start x w) es c → is_undefined c = true → destroying (cp c) = true.
Proof.
  intros Hr Hu. apply (defined_runs _ _ _ Hr); [by intros [|[|]]|].
  unfold is_undefined in Hu. destruct (wp c), (cp c); auto; done.
Qed.

(** ** Theorems *)

(** C21: In no interleaving do the worker and a caller of ThreadMulti hold its mutex at the same
    time, and every step that changes queue_ or sessions_ is made by the thread that holds it.
    The destruction of the members is not guarded by it (WorkerSpec.destructor_race). *)
Theorem mutual_exclusion x w es c :
  runs (start x w) es c →
  ¬ (w_holds (wp c) = true ∧ c_holds (cp c) = true) ∧
  ∀ e c', step c e c' →
    queue_ (th c') ≠ queue_ (th c) ∨ sessions_ (th c') ≠ sessions_ (th c) →
    (wstep c e c' ∧ owner c = Some Worker) ∨ (cstep c e c' ∧ owner c = Some Caller).
Proof.
  intros Hr. pose proof (mutex_runs _ _ _ Hr (mutex_start x w)) as Hm. split.
  - intros [Hw Hc]. destruct Hm as [Hmw Hmc].
    { unfold is_undefined. by destruct (wp c), (cp c). }
    apply Hmw in Hw. apply Hmc in Hc. congruence.
  - intros e c' [He%ended_undefined Hs] Hne. destruct (Hm He) as [Hmw Hmc].
    destruct Hs as [Hs|Hs]; [left|right]; (split; [done|]).
    + apply Hmw. destruct Hs as [c e c' _ Hs|]; [|by destruct Hne].
      destruct Hs as [| | | | | |? ? ? Hp|? ? ? ? ? Hp| |]; try (by destruct Hne); by rewrite Hp.
    + apply Hmc. destruct Hs as [| |? ? ? ? ? Hp| | | | | | | |]; try (by destruct Hne).
      by rewrite Hp.
Qed.

(** C10: Every interleaving of the worker's loop with the public methods and the destructor of
    ThreadMulti, one lock, wait and access at a time, is, as far as it is defined, a run of
    atomic critical sections in the order of their events. A run ends where its behaviour
    becomes undefined - the worker comes to a mutex, condition variable, queue or flag that is
    destroyed, or the mutex is destroyed while held or the condition variable under a waiter
    that was not notified - and that happens only once the destructor is destroying the members. *)
Theorem worker_refines_atomic x w es c :
  runs (start x w) es c →
  aruns (x, w) es (abs c) ∧ (is_undefined c = true → destroying (cp c) = true).
Proof.
  intros Hr. split; [apply (runs_refine _ _ _ Hr (mutex_start x w))|].
  by apply (undefined_destroying x w es).
Qed.

(** C24: The descriptors passed to ThreadMulti::data_available are, at every moment and in this
    order, those whose body the worker has run followed by those still queued: none is lost,
    repeated or overtaken. *)
Theorem worker_fifo w es c :
  runs (start make w) es c →
  es ≫= pushed_by = (es ≫= served_by) ++ queue_ (abs c).1.
Proof. intros Hr. exact (aruns_fifo _ _ _ (runs_refine _ _ _ Hr (mutex_start make w))). Qed.

(** C39: After request_stop the worker runs at most one more body, however many descriptors are
    queued. *)
Theorem stop_bounds_work c es c' :
  stop_requested (th c) = true → runs c es c' → bodies es ≤ 1.
Proof.
  intros Hstop Hr. cut (bodies es ≤ budget (wp c)).
  { intros ?. destruct (wp c); cbn in *; lia. }
  induction Hr as [c|c1 e c2 es c3 Hs Hr IH]; [cbn; lia|].
  apply step_stop in Hs as [Hstop' Hb]; [|done]. rewrite bodies_app.
  specialize (IH Hstop'). lia.
Qed.

(** ** Draining the queue *)

Lemma work_cons x fd q w :
  queue_ x = fd :: q →
  work (x, w) = on_sessions (iterate_session fd) (set_queue q x, w).
Proof. intros Hq. unfold work. rewrite run_bind. cbn. by rewrite Hq. Qed.

(** C26: Running the worker's body once per queued descriptor is the iterations of those
    descriptors in queue order, as a single-threaded Thread would have run them, and leaves the
    queue empty. *)
Theorem work_drains x w :
  let '(o, (x', w')) := for_each (queue_ x) (λ _, work) (x, w) in
  let '(o2, (m2, w2)) := for_each (queue_ x) iterate_session (sessions_ x, w) in
  o = o2 ∧ sessions_ x' = m2 ∧ w' = w2 ∧ (o = Ret () → queue_ x' = []).
Proof.
  remember (queue_ x) as q eqn:Hq. revert x w Hq.
  induction q as [|fd q IH]; intros x w Hq; [by cbn|].
  cbn [for_each]. rewrite !run_bind, (work_cons x fd q) by done.
  unfold on_sessions, zoom. cbn -[iterate_session].
  destruct (iterate_session fd (sessions_ x, w)) as [[[]| | |] [m w']];
    [|by repeat split..].
  apply (IH (Make m q (stop_requested x) (finished_ x)) w'). done.
Qed.

(** ** The join of the destructor *)

(** How far the worker is from the end of its function after a stop. *)
Definition rank (p : wpc) : nat :=
  match p with
  | WDone | WTerminated | WUndefined => 0
  | WFinish => 1 | WTest => 2 | WUnlock => 3 | WIterate _ => 4 | WBody => 5
  | WBlocked _ => 6 | WWait => 7 | WLock => 8
  end.

Lemma worker_acts c :
  mutex_ok c → stop_requested (th c) = true → c_holds (cp c) = false → rank (wp c) ≠ 0 →
  ∃ e c', waction c e c' ∧ rank (wp c') < rank (wp c) ∧ cp c' = cp c.
Proof.
  intros [Hw Hc] Hstop Hheld Hrank.
  assert (w_holds (wp c) = false → owner c = None) as Hfree.
  { intros Hn. destruct (owner c) as [[]|]; [|by destruct Hw; naive_solver|done].
    destruct Hc as [_ Hc]. specialize (Hc eq_refl). congruence. }
  destruct (wp c) as [| | |n| |fd| | | | |] eqn:Hp; cbn in *; try lia.
  - eexists _, _. split; [by apply w_leave|]. cbn. split; [lia|done].
  - eexists _, _. split; [by apply w_lock; auto|]. cbn. split; [lia|done].
  - eexists _, _. split; [by apply w_wait|]. cbn. split; [lia|done].
  - eexists _, _. split; [by eapply w_wake; auto|]. cbn. split; [lia|done].
  - destruct (queue_ (th c)) as [|fd q] eqn:Hq.
    + eexists _, _. split; [by apply w_empty|]. cbn. split; [lia|done].
    + eexists _, _. split; [by eapply w_pop|]. cbn. split; [lia|done].
  - destruct (on_sessions (iterate_session fd) (th c, wd c)) as [o [x w]] eqn:Hi.
    eexists _, _. split; [by eapply w_iterate|]. cbn.
    split; [unfold after_body; case_match; cbn; lia|done].
  - eexists _, _. split; [by apply w_unlock|]. cbn. split; [lia|done].
  - eexists _, _. split; [by apply w_finish|]. cbn. split; [lia|done].
Qed.

Lemma worker_progress c :
  mutex_ok c → stop_requested (th c) = true → c_holds (cp c) = false → rank (wp c) ≠ 0 →
  ∃ e c', wstep c e c' ∧ rank (wp c') < rank (wp c) ∧ cp c' = cp c.
Proof.
  intros Hm Hstop Hheld Hrank.
  destruct (decide (Forall (λ m, m ∉ destroyed c) (touches (wp c)))) as [Hd|Hd];
    rewrite Forall_forall in Hd.
  - destruct (worker_acts c Hm Hstop Hheld Hrank) as (e & c' & Ha & H'). exists e, c'.
    split; [by apply w_act|done].
  - eexists _, _. split; [by apply w_undefined|]. cbn. split; [lia|done].
Qed.

(** From any state in which the destructor of ThreadMulti is destroying its members, the worker
    alone can run to the end of its function, or into undefined behaviour, so that the join of
    thread_ does not wait for ever. *)
Theorem join_returns x w es c l :
  runs (start x w) es c → cp c = DDestroy l →
  ∃ es' c', runs c es' c' ∧ cp c' = DDestroy l ∧
    (wp c' = WDone ∨ wp c' = WTerminated ∨ wp c' = WUndefined).
Proof.
  intros Hr Hl. pose proof (mutex_runs _ _ _ Hr (mutex_start x w)) as Hm.
  assert (stop_requested (th c) = true) as Hstop.
  { eapply dying_runs; [exact Hr|done|by rewrite Hl]. }
  clear Hr es. remember (rank (wp c)) as n eqn:Hn. revert c Hn Hm Hstop Hl.
  induction n as [n IH] using lt_wf_ind; intros c Hn Hm Hstop Hl.
  destruct (decide (rank (wp c) = 0)) as [H0|H0].
  { exists [], c. split; [constructor|]. split; [done|].
    destruct (wp c); cbn in H0; auto; lia. }
  assert (ended c = false) as He by (unfold ended, is_undefined; rewrite Hl; revert H0; destruct (wp c); cbn; congruence).
  destruct (worker_progress c) as (e & c1 & Hs & Hlt & Hcp);
    [by apply Hm, ended_undefined|done|by rewrite Hl|done|].
  assert (step c e c1) as Hstep by (split; [done|by left]).
  destruct (IH (rank (wp c1))) with (c := c1) as (es' & c' & Hr' & Hl' & Hp');
    [lia|done|by eapply mutex_step|by eapply step_stop|congruence|].
  exists (option_list e ++ es'), c'. split; [by econstructor|]. done.
Qed.

End spec.

(** ** The race of the destructor *)

Section moves.
Context {Se W : Type} `{!SessionOps Se W}.
Implicit Types c : config Se W.

Lemma runs_act c e c' es c2 :
  ended c = false → in_reach c → waction c e c' → runs c' es c2 → runs c (option_list e ++ es) c2.
Proof. intros. eapply runs_step; [|done]. split; [done|]. left. by apply w_act. Qed.

Lemma in_reach_nil c : destroyed c = [] → in_reach c.
Proof. intros Hd m _. rewrite Hd. apply not_elem_of_nil. Qed.

Lemma runs_caller c e c' es c2 :
  ended c = false → cstep c e c' → runs c' es c2 → runs c (option_list e ++ es) c2.
Proof. intros. eapply runs_step; [|done]. split; [done|]. by right. Qed.

End moves.

Ltac in_machine := cbn [start th wd owner wp cp destroyed notify].
Tactic Notation "worker_moves" uconstr(rule) :=
  eapply (runs_act _ None); [done|by apply in_reach_nil|by apply rule|]; in_machine.
Tactic Notation "caller_moves" uconstr(rule) :=
  eapply (runs_caller _ None); [done|apply rule; done|]; in_machine.

Section race.
Context {Se W : Type} `{!SessionOps Se W}.
Implicit Types c : config Se W.

(** The run in which the worker waits while the caller destroys the object. *)
Lemma race_run (x : t Se) w :
  stop_requested x = false →
  runs (start x w) [EvStop]
    (Config (request_stop x) w None (WBlocked true) (DDestroy [m_thread])
       [m_mutex; m_queue; m_cond; m_finished]).
Proof.
  intros Hx. change [EvStop (Se:=Se)] with
    (([] ++ [] ++ [] ++ [EvStop] ++ [] ++ [] ++ [] ++ [] ++ [] ++ [] ++ [] ++ []) : list (event Se)).
  (* the worker goes to wait; the caller destroys the object *)
  worker_moves w_enter. worker_moves w_lock. worker_moves w_wait.
  eapply (runs_caller _ (Some EvStop)); [done|by apply d_stop|]. in_machine.
  caller_moves d_sleep. caller_moves d_lock. caller_moves d_unlock.
  do 4 (eapply (runs_caller _ None);
    [done|eapply d_destroy; [done|by repeat (intros [=] || intros [])]|]; in_machine).
  apply runs_refl.
Qed.

(** The destructor of ThreadMulti destroys the mutex while the worker, woken, has yet to take it
    back from wait_for, and the next step of the worker is undefined: thread_ is declared first,
    hence joined last. *)
Theorem destructor_race w :
  ∃ es c e c', runs (start make w) es c ∧ m_mutex ∈ touches (wp c) ∧ m_mutex ∈ destroyed c ∧
    step c e c' ∧ is_undefined c' = true.
Proof.
  eexists _, _, None, _. split; [by apply race_run|]. split; [left|]. split; [left|].
  split; [|by apply undefined_worker]. split; [done|]. left. apply w_undefined.
  intros Hreach. destruct (Hreach m_mutex); left.
Qed.

(** A worker that has returned is out of reach of the destructor. *)
Theorem finished_worker_safe c es c' :
  wp c = WDone → runs c es c' → wp c' = WDone ∧ touches (wp c') = [].
Proof.
  intros Hd Hr. assert (wp c' = WDone) as ->; [|done].
  induction Hr as [c|c1 e c2 es c3 [_ Hs] Hr IH]; [done|]. apply IH.
  destruct Hs as [Hs|Hs]; [destruct Hs as [c e c' _ Hs|c Hreach]|].
  - destruct Hs; cbn in *; congruence.
  - destruct Hreach. intros m Hm. rewrite Hd in Hm. by apply not_elem_of_nil in Hm.
  - destruct Hs as [| |c k| | | | | | | |]; cbn in *; rewrite ?Hd; try done. by destruct k.
Qed.
End race.

(** ** Witnesses *)

Module Witness.
#[local] Instance platform : Platform := posix.
#[local] Instance tcp : ConnectionOps TCPConnection.t (world sim) := TCPConnection.ops (K:=sim) 100.
#[local] Instance sessions : SessionOps (Session.t TCPConnection.t ()) (world sim) :=
  Session.ops (W:=world sim) mret.

Abbreviation Se := (Session.t TCPConnection.t ()) (only parsing).
Definition w : world sim := sim_world (sim_start [5%Z] [] []).

(** The caller destroys the object while the worker waits. *)
Definition racing : config Se (world sim) :=
  Config (request_stop make) w None (WBlocked true) (DDestroy [m_thread])
    [m_mutex; m_queue; m_cond; m_finished].
Definition race : runs (start make w) [EvStop] racing := race_run make w eq_refl.

(** A descriptor is queued while the worker waits. *)
Definition queued : config Se (world sim) :=
  Config (set_queue [5%Z] make) w None (WBlocked true) CIdle [].

Lemma queue_run : runs (start make w) [EvCall (CallData 5)] queued.
Proof.
  change [EvCall (Se:=Se) (CallData 5)] with
    (([] ++ [] ++ [] ++ [] ++ [] ++ [EvCall (CallData 5)] ++ [] ++ []) : list (event Se)).
  worker_moves w_enter. worker_moves w_lock. worker_moves w_wait.
  caller_moves (c_call _ (CallData 5)). caller_moves (c_lock _ (CallData 5)).
  eapply (runs_caller _ (Some _)); [done|by eapply (c_run _ (CallData 5))|]. in_machine.
  caller_moves c_unlock. apply runs_refl.
Qed.

Lemma mutual_exclusion_witness :
  ¬ (w_holds (wp queued) = true ∧ c_holds (cp queued) = true).
Proof. exact (proj1 (mutual_exclusion make w [EvCall (CallData 5)] queued queue_run)). Defined.

Lemma worker_refines_atomic_witness :
  aruns (make, w) [EvCall (CallData 5)] (set_queue [5%Z] (make (Se:=Se)), w).
Proof. exact (proj1 (worker_refines_atomic make w [EvCall (CallData 5)] queued queue_run)). Defined.

Lemma worker_fifo_witness :
  [EvCall (Se:=Se) (CallData 5)] ≫= pushed_by =
  ([EvCall (Se:=Se) (CallData 5)] ≫= served_by) ++ [5%Z].
Proof. exact (worker_fifo w [EvCall (CallData 5)] queued queue_run). Defined.

(** Two descriptors are queued when the stop finds the worker awake: it serves
    the first and leaves. *)
Definition stopped (q : list SOCKET) (o : option who) (p : wpc) : config Se (world sim) :=
  Config (set_queue q (request_stop make)) w o p DSleep [].

Lemma stopped_run :
  runs (stopped [5; 6]%Z (Some Worker) WBody) [EvWork (Some 5%Z); EvFinish]
    (Config (finish (set_queue [6%Z] (request_stop make))) w None WDone DSleep []).
Proof.
  change [EvWork (Se:=Se) (Some 5%Z); EvFinish] with
    (([] ++ [EvWork (Some 5%Z)] ++ [] ++ [] ++ [EvFinish] ++ []) : list (event Se)).
  worker_moves (w_pop (stopped [5; 6]%Z (Some Worker) WBody) 5%Z [6%Z]).
  eapply (runs_act _ (Some _)); [done|by apply in_reach_nil| |].
  { by eapply (w_iterate (stopped [6%Z] (Some Worker) (WIterate 5)) 5 (Ret ())). }
  worker_moves w_unlock. worker_moves w_leave.
  eapply (runs_act _ (Some EvFinish)); [done|by apply in_reach_nil|by apply w_finish|].
  apply runs_refl.
Qed.

Lemma stop_bounds_work_witness :
  bodies (Se:=Se) [EvWork (Some 5%Z); EvFinish] ≤ 1.
Proof. exact (stop_bounds_work (stopped [5; 6]%Z (Some Worker) WBody) _ _ eq_refl stopped_run). Defined.

Lemma join_returns_witness :
  ∃ es' c', runs racing es' c' ∧ cp c' = DDestroy [m_thread] ∧
    (wp c' = WDone ∨ wp c' = WTerminated ∨ wp c' = WUndefined).
Proof. exact (join_returns make w [EvStop] racing [m_thread] race eq_refl). Defined.
End Witness.
