(* ===== verification/Poller.v ===== *)
(** * server/poller: what is ready to be read, on three systems

    [PollerOps] is the class Poller of [poller.hh]; its three implementations,
    one per operating system, are [PollerLinux], [PollerBsd] and [PollerWin32]
    over the classes of system calls [Epoll], [Kqueue] and [WinPoll]. *)

From S2P Require Import Prelude Cpp Log OS.

Inductive EventType := NewClient | ClientDataReady | ClientDisconnected.

Record Event := MkEvent { type : EventType; fd : SOCKET }.

#[export] Instance EventType_eq_dec : EqDecision EventType.
Proof. solve_decision. Defined.
#[export] Instance Event_eq_dec : EqDecision Event.
Proof. solve_decision. Defined.

Class PollerOps (P W : Type) := {
  poller_make : SOCKET → M W P;
  poller_wait : Z → M (P * W) (list Event);
  poller_add_client : SOCKET → M (P * W) unit;
  (** the destructor *)
  poller_destroy : P → M W unit;
}.

Definition EVENT_BUFFER_SZ : nat := 64.
(** [timeout=50ms] *)
Definition default_timeout : Z := 50%Z.

(** ** Linux *)

Definition EPOLLIN : Z := 1%Z.
Definition EPOLLERR : Z := 8%Z.
Definition EPOLLHUP : Z := 16%Z.
Definition EPOLLRDHUP : Z := 8192%Z.
Definition EPOLLET : Z := (2 ^ 31)%Z.

(** [bits & mask] as a condition. *)
Definition has (bits mask : Z) : bool := negb (Z.land bits mask =? 0)%Z.

Class Epoll (K : Type) := {
  epoll_create1 : K → Z * K;
  epoll_ctl_add : Z → SOCKET → Z → K → Z * K;
  epoll_ctl_del : Z → SOCKET → K → Z * K;
  (** the return value and the entries filled in: [data.fd] and [events] *)
  epoll_wait : Z → nat → Z → K → (Z * list (SOCKET * Z)) * K;
}.

Class EpollLaws (K : Type) `{KernelLaws K} `{!Epoll K} := {
  epoll_create1_law k r k' :
    epoll_create1 k = (r, k') →
    (r = (-1)%Z ∧ kview k' = kview k) ∨
    ((0 ≤ r < 2 ^ 31)%Z ∧ (r ∉ v_open (kview k)) ∧ kview k' = open_poll r (kview k));
  epoll_add_law ep fd ev k r k' :
    epoll_ctl_add ep fd ev k = (r, k') →
    (r = (-1)%Z ∧ kview k' = kview k) ∨ (r = 0%Z ∧ kview k' = watch ep fd (kview k));
  epoll_del_law ep fd k r k' :
    epoll_ctl_del ep fd k = (r, k') →
    (r = (-1)%Z ∧ kview k' = kview k) ∨ (r = 0%Z ∧ kview k' = unwatch ep fd (kview k));
  epoll_wait_law ep n t k r evs k' :
    epoll_wait ep n t k = ((r, evs), k') →
    kview k' = kview k ∧
    (r = (-1)%Z ∧ evs = [] ∨
     (0 ≤ r ≤ Z.of_nat n)%Z ∧ length evs = Z.to_nat r ∧ NoDup evs.*1 ∧
     Forall (λ e, e.1 ∈ watched ep (kview k)) evs);
}.

Module PollerLinux.
Record t := Make { server_fd_ : SOCKET; epoll_fd : Z }.

Section ops.
Context {K : Type} `{Kernel K} `{!Epoll K}.

Definition make (server_fd : SOCKET) : M (world K) t :=
  ep ← sys epoll_create1;
  if (ep <? 0)%Z then throw_errno NonRecoverableException "Could not initialize epoll: "
  else
    r ← sys (epoll_ctl_add ep server_fd EPOLLIN);
    if (r <? 0)%Z then
      throw_errno NonRecoverableException "Could not initialize socket fd in epoll: "
    else
      logging (DBG "epoll fd {}" [to_string ep]) ;;
      mret (Make server_fd ep).

Definition destroy (p : t) : M (world K) unit := sys (sys_close (epoll_fd p)) ;; mret ().

(** The loop over the entries, with the events emplaced so far. *)
Fixpoint scan (p : t) (events : list (SOCKET * Z)) (evs : list Event) :
    M (world K) (list Event) :=
  match events with
  | [] => mret evs
  | (fd, bits) :: events =>
      if (fd =? server_fd_ p)%Z then
        scan p events (evs ++ [MkEvent NewClient (server_fd_ p)])
      else if has bits (Z.lor EPOLLERR (Z.lor EPOLLHUP EPOLLRDHUP)) then
        r ← sys (epoll_ctl_del (epoll_fd p) fd);
        if (r <? 0)%Z then
          throw_errno NonRecoverableException "Could not remove client socket from epoll: "
        else scan p events (evs ++ [MkEvent ClientDisconnected fd])
      else if has bits (Z.lor EPOLLIN EPOLLET) then
        scan p events (evs ++ [MkEvent ClientDataReady fd])
      else scan p events evs
  end.

Definition wait (timeout : Z) (p : t) : M (world K) (list Event) :=
  '(n_events, events) ← sys (epoll_wait (epoll_fd p) EVENT_BUFFER_SZ (to_int timeout));
  if (n_events <? 0)%Z then
    err ← get_errno;
    if (err =? EINTR)%Z then mret []
    else throw_errno NonRecoverableException "epoll error: "
  else scan p (take (Z.to_nat n_events) events) [].

Definition client_events : Z :=
  Z.lor EPOLLIN (Z.lor EPOLLET (Z.lor EPOLLRDHUP (Z.lor EPOLLHUP EPOLLERR))).

Definition add_client (client_fd : SOCKET) (p : t) : M (world K) unit :=
  r ← sys (epoll_ctl_add (epoll_fd p) client_fd client_events);
  if (r <? 0)%Z then
    throw_errno NonRecoverableException "Could not add client socket in epoll: "
  else mret ().

(** A method that does not modify the object. *)
Definition on_self {A} (f : t → M (world K) A) : M (t * world K) A := λ '(p, w),
  let '(o, w') := f p w in (o, (p, w')).

#[export] Instance ops : PollerOps t (world K) := {|
  poller_make := make;
  poller_wait timeout := on_self (wait timeout);
  poller_add_client client_fd := on_self (add_client client_fd);
  poller_destroy := destroy;
|}.
End ops.
End PollerLinux.

(** ** BSD and macOS *)

Definition EV_EOF : Z := 32768%Z.

Class Kqueue (K : Type) := {
  kqueue : K → Z * K;
  (** [kevent] with one change: [EV_ADD | EV_ENABLE] or [EV_DELETE] of the
      read filter of a descriptor *)
  kevent_add : Z → SOCKET → K → Z * K;
  kevent_delete : Z → SOCKET → K → Z * K;
  (** [kevent] with a buffer: [ident] and [flags] of the entries filled in;
      the timeout is [tv_sec] and [tv_nsec] *)
  kevent_wait : Z → nat → Z * Z → K → (Z * list (SOCKET * Z)) * K;
}.

Class KqueueLaws (K : Type) `{KernelLaws K} `{!Kqueue K} := {
  kqueue_law k r k' :
    kqueue k = (r, k') →
    (r = (-1)%Z ∧ kview k' = kview k) ∨
    ((0 ≤ r < 2 ^ 31)%Z ∧ (r ∉ v_open (kview k)) ∧ kview k' = open_poll r (kview k));
  kevent_add_law kq fd k r k' :
    kevent_add kq fd k = (r, k') →
    (r = (-1)%Z ∧ kview k' = kview k) ∨ (r = 0%Z ∧ kview k' = watch kq fd (kview k));
  kevent_delete_law kq fd k r k' :
    kevent_delete kq fd k = (r, k') →
    (r = (-1)%Z ∧ kview k' = kview k) ∨ (r = 0%Z ∧ kview k' = unwatch kq fd (kview k));
  kevent_wait_law kq n t k r evs k' :
    kevent_wait kq n t k = ((r, evs), k') →
    kview k' = kview k ∧
    (r = (-1)%Z ∧ evs = [] ∨
     (0 ≤ r ≤ Z.of_nat n)%Z ∧ length evs = Z.to_nat r ∧ NoDup evs.*1 ∧
     Forall (λ e, e.1 ∈ watched kq (kview k) ∧ int_range e.1) evs);
}.

Module PollerBsd.
Record t := Make { server_fd_ : SOCKET; kqueue_fd : Z }.

Section ops.
Context {K : Type} `{Kernel K} `{!Kqueue K}.

Definition make (socket_fd : SOCKET) : M (world K) t :=
  kq ← sys kqueue;
  if (kq <? 0)%Z then throw_errno NonRecoverableException "Could not initialize kqueue: "
  else
    r ← sys (kevent_add kq socket_fd);
    if (r <? 0)%Z then
      throw_errno NonRecoverableException "Could not initialize socket fd in kqueue: "
    else mret (Make socket_fd kq).

Definition destroy (p : t) : M (world K) unit := sys (sys_close (kqueue_fd p)) ;; mret ().

(** [(SOCKET) ident] is a narrowing cast. *)
Fixpoint scan (p : t) (events : list (SOCKET * Z)) (evs : list Event) :
    M (world K) (list Event) :=
  match events with
  | [] => mret evs
  | (ident, flags) :: events =>
      let fd := to_int ident in
      if (fd =? server_fd_ p)%Z then
        scan p events (evs ++ [MkEvent NewClient (server_fd_ p)])
      else if has flags EV_EOF then
        r ← sys (kevent_delete (kqueue_fd p) fd);
        if negb (r =? 0)%Z then
          throw_errno NonRecoverableException "Could not remove client socket from kqueue: "
        else scan p events (evs ++ [MkEvent ClientDisconnected fd])
      else scan p events (evs ++ [MkEvent ClientDataReady fd])
  end.

(** [{ .tv_sec = 0, .tv_nsec = timeout.count() * 1000000 }] *)
Definition timespec (timeout : Z) : Z * Z := (0%Z, (timeout * 1000000)%Z).

Definition wait (timeout : Z) (p : t) : M (world K) (list Event) :=
  '(n_events, events) ← sys (kevent_wait (kqueue_fd p) EVENT_BUFFER_SZ (timespec timeout));
  err ← get_errno;
  if (n_events <? 0)%Z && negb (err =? EINTR)%Z then
    throw_errno NonRecoverableException "epoll error: "
  else scan p (take (Z.to_nat n_events) events) [].

Definition add_client (client_fd : SOCKET) (p : t) : M (world K) unit :=
  r ← sys (kevent_add (kqueue_fd p) client_fd);
  if (r <? 0)%Z then
    throw_errno NonRecoverableException "Could not add client socket in kqueue: "
  else mret ().

Definition on_self {A} (f : t → M (world K) A) : M (t * world K) A := λ '(p, w),
  let '(o, w') := f p w in (o, (p, w')).

#[export] Instance ops : PollerOps t (world K) := {|
  poller_make := make;
  poller_wait timeout := on_self (wait timeout);
  poller_add_client client_fd := on_self (add_client client_fd);
  poller_destroy := destroy;
|}.
End ops.
End PollerBsd.

(** ** Windows *)

Definition POLLRDNORM : Z := 256%Z.
Definition POLLERR : Z := 1%Z.
Definition POLLHUP : Z := 2%Z.
Definition POLLNVAL : Z := 4%Z.

Record WSAPOLLFD := PollFd { pfd : SOCKET; events : Z; revents : Z }.

Class WinPoll (K : Type) := {
  (** the return value, and the new [revents] of the entries *)
  WSAPoll : list WSAPOLLFD → Z → K → (Z * list Z) * K;
}.

Module PollerWin32.
Record t := Make { server_fd_ : SOCKET; fds : list WSAPOLLFD }.

Section ops.
Context {K : Type} `{!WinPoll K}.

Definition make (server_fd : SOCKET) : t :=
  Make server_fd [PollFd server_fd POLLRDNORM 0].

Definition set_revents (p : t) (rs : list Z) : t :=
  Make (server_fd_ p) (zip_with (λ x r, PollFd (pfd x) (events x) r) (fds p) rs).

(** One pass of the loop over the clients. *)
Definition client_events (x : WSAPOLLFD) : list Event :=
  if (revents x =? 0)%Z then []
  else
    (if has (revents x) POLLRDNORM then [MkEvent ClientDataReady (pfd x)] else []) ++
    (if has (revents x) (Z.lor POLLHUP (Z.lor POLLERR POLLNVAL))
     then [MkEvent ClientDisconnected (pfd x)] else []).

(** The events of the vector after a poll: index 0 is the listener. *)
Definition collect (p : t) : list Event :=
  match fds p with
  | [] => []
  | x :: xs =>
      (if has (revents x) POLLRDNORM then [MkEvent NewClient (server_fd_ p)] else []) ++
      (xs ≫= client_events)
  end.

Definition poll_timeout (timeout : Z) : Z :=
  if (timeout <? 0)%Z then (-1)%Z else to_int timeout.

Definition wait (timeout : Z) : M (t * world K) (list Event) :=
  p ← gets fst;
  match fds p with
  | [] => mret []
  | _ :: _ =>
      '(r, rs) ← on_snd (sys (WSAPoll (fds p) (poll_timeout timeout)));
      on_fst (modify (λ p, set_revents p rs)) ;;
      if (r <? 0)%Z then raise (runtime_error (lit "WSAPoll failed"))
      else if (r =? 0)%Z then mret []
      else p ← gets fst; mret (collect p)
  end.

Definition add_client (client_fd : SOCKET) : M (t * world K) unit :=
  on_fst (modify (λ p,
    Make (server_fd_ p) (fds p ++ [PollFd client_fd POLLRDNORM 0]))).

#[export] Instance ops : PollerOps t (world K) := {|
  poller_make server_fd := mret (make server_fd);
  poller_wait := wait;
  poller_add_client := add_client;
  poller_destroy _ := mret ();
|}.
End ops.
End PollerWin32.
