(* ===== verification/SimPoll.v ===== *)
(** * A concrete poller environment for the witnesses

    [epoll], [kqueue] and [WSAPoll] over the scripted kernel of [Sim]: each poll
    reports the next batch of the script.  It models nothing of the repository. *)

From S2P Require Import Prelude Cpp Log OS OpenSSL Sim Poller.

(** A new poller instance. *)
Definition sim_poll_open (k : sim) : Z * sim :=
  match sim_fresh k with
  | Some fd => (fd, sim_view (open_poll fd (s_view k)) k)
  | None => ((-1)%Z, sim_fail 24 k)
  end.

(** A batch a poll of [ep] with [n] entries may report. *)
Definition sim_batch_ok (ep : Z) (n : nat) (k : sim) (b : list (SOCKET * Z)) : Prop :=
  length b ≤ n ∧ NoDup b.*1 ∧ Forall (λ e, e.1 ∈ watched ep (s_view k) ∧ (- 2 ^ 31 ≤ e.1 < 2 ^ 31)%Z) b.

#[export] Instance sim_batch_ok_dec ep n k b : Decision (sim_batch_ok ep n k b).
Proof. unfold sim_batch_ok. apply _. Defined.

(** The next batch; an ill-formed one counts as a signal. *)
Definition sim_poll (ep : Z) (n : nat) (k : sim) : (Z * list (SOCKET * Z)) * sim :=
  match s_ready k with
  | [] => ((0%Z, []), k)
  | b :: r =>
      if decide (sim_batch_ok ep n k b)
      then ((Z.of_nat (length b), b), sim_fail (s_errno k) (sim_ready r k))
      else (((-1)%Z, []), sim_fail EINTR (sim_ready r k))
  end.

#[export] Instance sim_epoll : Epoll sim := {|
  epoll_create1 := sim_poll_open;
  epoll_ctl_add ep fd _ k := (0%Z, sim_view (watch ep fd (s_view k)) k);
  epoll_ctl_del ep fd k := (0%Z, sim_view (unwatch ep fd (s_view k)) k);
  epoll_wait ep n _ k := sim_poll ep n k;
|}.

#[export] Instance sim_kqueue : Kqueue sim := {|
  kqueue := sim_poll_open;
  kevent_add ep fd k := (0%Z, sim_view (watch ep fd (s_view k)) k);
  kevent_delete ep fd k := (0%Z, sim_view (unwatch ep fd (s_view k)) k);
  kevent_wait ep n _ k := sim_poll ep n k;
|}.

#[export] Instance sim_winpoll : WinPoll sim := {|
  WSAPoll l _ k :=
    match s_ready k with
    | [] => ((0%Z, revents <$> l), k)
    | b :: r =>
        ((Z.of_nat (length b), (λ x, default 0%Z ((list_to_map b : gmap SOCKET Z) !! pfd x)) <$> l),
         sim_ready r k)
    end;
|}.

Lemma sim_poll_open_view k r k' :
  sim_poll_open k = (r, k') →
  (r = (-1)%Z ∧ s_view k' = s_view k) ∨
  ((0 ≤ r < 2 ^ 31)%Z ∧ (r ∉ v_open (s_view k)) ∧ s_view k' = open_poll r (s_view k)).
Proof.
  unfold sim_poll_open, sim_fresh. case_decide as Hd; intros [= <- <-]; [right|by left].
  destruct Hd. done.
Qed.

Lemma sim_poll_view ep n k r b k' :
  sim_poll ep n k = ((r, b), k') →
  s_view k' = s_view k ∧
  (r = (-1)%Z ∧ b = [] ∨
   (0 ≤ r ≤ Z.of_nat n)%Z ∧ length b = Z.to_nat r ∧ NoDup b.*1 ∧
   Forall (λ e, e.1 ∈ watched ep (s_view k) ∧ int_range e.1) b).
Proof.
  unfold sim_poll. destruct (s_ready k) as [|b0 r0].
  - intros [= <- <- <-]. split; [done|right]. split_and!; [lia|lia|done|constructor|constructor].
  - case_decide as Hd; intros [= <- <- <-]; (split; [done|]); [right|by left].
    destruct Hd as (? & ? & ?). split_and!; [lia|lia|lia|done|done].
Qed.

#[export] Instance sim_epoll_laws : EpollLaws sim.
Proof.
  split.
  - apply sim_poll_open_view.
  - intros ep fd ev k r k' [= <- <-]. by right.
  - intros ep fd k r k' [= <- <-]. by right.
  - intros ep n t k r b k' [? Hb]%sim_poll_view. split; [done|].
    destruct Hb as [?|(? & ? & ? & Hall)]; [by left|right]. split_and!; try done; [lia|lia|].
    by apply Forall_and in Hall as [? _].
Qed.

#[export] Instance sim_kqueue_laws : KqueueLaws sim.
Proof.
  split.
  - apply sim_poll_open_view.
  - intros kq fd k r k' [= <- <-]. by right.
  - intros kq fd k r k' [= <- <-]. by right.
  - intros ep n t k r b k' Hb. by apply sim_poll_view in Hb.
Qed.
