(* ===== verification/PollerSpec.v ===== *)
(** * What the pollers guarantee

    [PollerSpec] is the contract the server relies on; the epoll and kqueue
    pollers implement it.  The WSAPoll one does not: it never forgets a
    descriptor. *)

From S2P Require Import Prelude Cpp Log OS OpenSSL Sim Poller SimPoll.

(** The descriptors a batch of events disconnects, and those it speaks of. *)
Definition disconnected (evs : list Event) : list SOCKET :=
  omap (λ e, match type e with ClientDisconnected => Some (fd e) | _ => None end) evs.
Definition client_fds (evs : list Event) : list SOCKET :=
  omap (λ e, match type e with NewClient => None | _ => Some (fd e) end) evs.

(** Only the sets of watched descriptors differ. *)
Definition same_but_interest (v v' : view) : Prop :=
  v_open v' = v_open v ∧ v_in v' = v_in v ∧ v_out v' = v_out v.

#[export] Instance same_but_interest_preorder : PreOrder same_but_interest.
Proof.
  unfold same_but_interest. split; [by intros v|].
  intros v1 v2 v3 (?&?&?) (?&?&?). split_and!; congruence.
Qed.

Class PollerSpec (P K : Type) `{KernelLaws K} `{!PollerOps P (world K)} := {
  poller_listener : P → SOCKET;
  poller_fd : P → Z;
  poller_make_spec l w p w' :
    poller_make l w = (Ret p, w') →
    poller_listener p = l ∧ (poller_fd p ∉ v_open (wview w)) ∧
    v_open (wview w') = {[poller_fd p]} ∪ v_open (wview w) ∧
    watched (poller_fd p) (wview w') = {[l]};
  poller_wait_spec timeout p w o p' w' :
    poller_wait timeout (p, w) = (o, (p', w')) →
    p' = p ∧ same_but_interest (wview w) (wview w') ∧
    match o with
    | Ret evs =>
        watched (poller_fd p) (wview w') =
          watched (poller_fd p) (wview w) ∖ list_to_set (disconnected evs) ∧
        NoDup (client_fds evs) ∧
        Forall (λ c, c ∈ watched (poller_fd p) (wview w) ∧ c ≠ poller_listener p)
          (client_fds evs)
    | _ => watched (poller_fd p) (wview w') ⊆ watched (poller_fd p) (wview w)
    end;
  poller_add_spec c p w o p' w' :
    poller_add_client c (p, w) = (o, (p', w')) →
    p' = p ∧ same_but_interest (wview w) (wview w') ∧
    watched (poller_fd p) (wview w') =
      (if is_ret o then {[c]} ∪ watched (poller_fd p) (wview w)
       else watched (poller_fd p) (wview w));
  poller_destroy_spec p w o w' :
    poller_destroy p w = (o, w') → o = Ret () ∧ wview w' = close_fd (poller_fd p) (wview w);
}.

Lemma client_fds_app e1 e2 : client_fds (e1 ++ e2) = client_fds e1 ++ client_fds e2.
Proof. apply omap_app. Qed.
Lemma disconnected_app e1 e2 : disconnected (e1 ++ e2) = disconnected e1 ++ disconnected e2.
Proof. apply omap_app. Qed.

Lemma same_but_interest_watch ep fd v : same_but_interest v (watch ep fd v).
Proof. done. Qed.
Lemma same_but_interest_unwatch ep fd v : same_but_interest v (unwatch ep fd v).
Proof. done. Qed.

(** ** The loop over the entries *)

Section entries.
Context {K : Type} `{KernelLaws K}.
Variables ep server : Z.
Variable well_formed : SOCKET * Z → Prop.
Variable classify : SOCKET * Z → list Event.
Variable del : SOCKET → K → Z * K.
Variable failed : Z → bool.
Variable message : string.
Variable scan : list (SOCKET * Z) → list Event → M (world K) (list Event).

(** What the loops over the entries of epoll and of kqueue have in common: an
    entry becomes at most one event, and a client reported as disconnected is
    removed from the set of the instance [ep]. *)
Record entry_loop : Prop := {
  el_one e : length (classify e) ≤ 1;
  el_fds e : well_formed e →
    client_fds (classify e) = [] ∨ client_fds (classify e) = [e.1] ∧ e.1 ≠ server;
  el_del fd k r k' : del fd k = (r, k') →
    (r = (-1)%Z ∧ kview k' = kview k) ∨ (r = 0%Z ∧ kview k' = unwatch ep fd (kview k));
  el_failed : failed (-1) = true ∧ failed 0 = false;
  el_nil evs w : scan [] evs w = (Ret evs, w);
  el_cons e entries evs w :
    scan (e :: entries) evs w =
    match disconnected (classify e) with
    | [] => scan entries (evs ++ classify e) w
    | fd :: _ =>
        let '(r, k) := del fd (kern w) in
        if failed r then throw_errno NonRecoverableException message (World k (logs w))
        else scan entries (evs ++ classify e) (World k (logs w))
    end }.

Hypothesis loop : entry_loop.

Lemma entries_spec entries evs w o w' :
  scan entries evs w = (o, w') →
  same_but_interest (wview w) (wview w') ∧
  match o with
  | Ret res => res = evs ++ (entries ≫= classify) ∧
      watched ep (wview w') = watched ep (wview w) ∖
        list_to_set (disconnected (entries ≫= classify))
  | _ => watched ep (wview w') ⊆ watched ep (wview w)
  end.
Proof.
  destruct loop as [Hone _ Hdel [Hfail Hgood] Hnil Hcons].
  revert evs w. induction entries as [|e entries IH]; intros evs w.
  { rewrite Hnil. intros [= <- <-]. split; [done|]. cbn. rewrite app_nil_r. set_solver. }
  rewrite Hcons. cbn [mbind list_bind]. rewrite disconnected_app.
  destruct (disconnected (classify e)) as [|fd l] eqn:Hd.
  - intros Hs. destruct (IH _ _ Hs) as [Hsame Hout]. split; [done|].
    destruct o; [|done..]. by rewrite app_assoc.
  - assert (l = []) as ->.
    { specialize (Hone e). destruct (classify e) as [|[[] ?] [|]]; cbn in *; (congruence || lia). }
    destruct (del _ _) as [r k] eqn:Hr. apply Hdel in Hr as [[-> Hv]|[-> Hv]].
    + rewrite Hfail. intros [= <- <-]. unfold wview. cbn. by rewrite Hv.
    + rewrite Hgood. intros Hs. destruct (IH _ _ Hs) as [Hsame Hout].
      unfold wview in *. cbn in Hsame, Hout. rewrite Hv in Hsame, Hout. split.
      { by etrans; [apply same_but_interest_unwatch|]. }
      rewrite watched_unwatch in Hout.
      destruct o; [|set_solver..]. destruct Hout as [-> ->].
      split; [by rewrite app_assoc|set_solver].
Qed.

Lemma classify_client_fds entries :
  NoDup entries.*1 → Forall well_formed entries →
  NoDup (client_fds (entries ≫= classify)) ∧
  ∀ c, c ∈ client_fds (entries ≫= classify) → c ∈ entries.*1 ∧ c ≠ server.
Proof.
  induction entries as [|e entries IH]; cbn [fmap list_fmap mbind list_bind].
  { intros _ _. cbn. split; [constructor|]. set_solver. }
  intros [Hnin Hnd]%NoDup_cons [He Hes]%Forall_cons. destruct (IH Hnd Hes) as [IHnd IHin].
  rewrite client_fds_app. destruct (el_fds loop e He) as [->|[-> Hne]]; cbn.
  - split; [done|]. set_solver.
  - split; [constructor; [|done]|]; set_solver.
Qed.

(** The whole loop, as the server relies on it. *)
Lemma entries_contract entries w o w' :
  scan entries [] w = (o, w') → NoDup entries.*1 → Forall well_formed entries →
  Forall (λ e, e.1 ∈ watched ep (wview w)) entries →
  same_but_interest (wview w) (wview w') ∧
  match o with
  | Ret evs =>
      watched ep (wview w') = watched ep (wview w) ∖ list_to_set (disconnected evs) ∧
      NoDup (client_fds evs) ∧
      Forall (λ c, c ∈ watched ep (wview w) ∧ c ≠ server) (client_fds evs)
  | _ => watched ep (wview w') ⊆ watched ep (wview w)
  end.
Proof.
  intros Hs Hnd Hwf Hall. apply entries_spec in Hs as [Hsame Hout]. split; [done|].
  destruct o as [evs| | |]; [|done..]. destruct Hout as [-> Hwatch]. cbn. split; [done|].
  destruct (classify_client_fds entries Hnd Hwf) as [Hnd' Hin]. split; [done|].
  apply Forall_forall. intros c [Hc ?]%Hin. split; [|done].
  apply list_elem_of_fmap in Hc as (e & -> & He). rewrite Forall_forall in Hall. by apply Hall.
Qed.

(** The events, one by one. *)
Lemma entries_events entries w evs w' :
  scan entries [] w = (Ret evs, w') →
  evs = entries ≫= classify ∧ length evs ≤ length entries ∧
  watched ep (wview w') = watched ep (wview w) ∖ list_to_set (disconnected evs).
Proof.
  intros [_ [-> Hwatch]]%entries_spec. split; [done|]. split; [|done].
  destruct loop as [Hone _ _ _ _ _]. clear -Hone.
  induction entries as [|e l IH]; cbn; [lia|]. rewrite length_app. specialize (Hone e). cbn in IH. lia.
Qed.
End entries.

(** ** Linux *)

Module Linux.
Import PollerLinux.

(** The event one entry becomes. *)
Definition classify (p : t) (e : SOCKET * Z) : list Event :=
  if (e.1 =? server_fd_ p)%Z then [MkEvent NewClient (server_fd_ p)]
  else if has e.2 (Z.lor EPOLLERR (Z.lor EPOLLHUP EPOLLRDHUP)) then
    [MkEvent ClientDisconnected e.1]
  else if has e.2 (Z.lor EPOLLIN EPOLLET) then [MkEvent ClientDataReady e.1]
  else [].

Section spec.
Context {K : Type} `{EpollLaws K}.

Lemma linux_loop p :
  entry_loop (epoll_fd p) (server_fd_ p) (λ _, True) (classify p) (epoll_ctl_del (epoll_fd p))
    (λ r, r <? 0)%Z "Could not remove client socket from epoll: " (scan p).
Proof.
  split; try done.
  - intros e. unfold classify. by repeat case_match; cbn; lia.
  - intros e _. unfold classify. destruct (Z.eqb_spec e.1 (server_fd_ p)); [by left|].
    repeat case_match; cbn; auto.
  - intros fd k r k' Hd. by apply epoll_del_law in Hd.
  - intros [fd bits] entries evs w. cbn [scan]. unfold classify. cbn [fst snd].
    destruct (fd =? server_fd_ p)%Z; [done|].
    destruct (has bits (Z.lor EPOLLERR _)).
    + cbn. rewrite run_bind, run_sys. destruct (epoll_ctl_del _ _ _) as [r k]. cbn.
      by destruct (r <? 0)%Z.
    + destruct (has bits _); cbn; [done|]. by rewrite app_nil_r.
Qed.

#[export] Instance poller : PollerSpec t K.
Proof.
  refine {| poller_listener := server_fd_; poller_fd := epoll_fd |}.
  - intros l w p w'. change poller_make with make. unfold make.
    rewrite run_bind, run_sys. destruct (epoll_create1 _) as [ep k] eqn:Hc. cbn [fst snd].
    apply epoll_create1_law in Hc as [[-> Hv]|(Hb & Hfresh & Hv)]; [by cbn|].
    rewrite (proj2 (Z.ltb_ge ep 0)) by lia. rewrite run_bind, run_sys. cbn [kern logs].
    destruct (epoll_ctl_add _ _ _ k) as [r k2] eqn:Ha. cbn [fst snd].
    apply epoll_add_law in Ha as [[-> Hv2]|[-> Hv2]]; [by cbn|]. cbn [Z.ltb Z.compare].
    rewrite run_bind.
    destruct (run_logging_DBG "epoll fd {}" [to_string ep] (World k2 (logs w))) as [lg ->].
    intros [= <- <-]. unfold wview in *. cbn. rewrite Hv2, Hv, watched_watch, watched_open_poll.
    split_and!; [done..|set_solver].
  - intros timeout p w o p' w'. cbn. unfold on_self.
    destruct (wait timeout p w) as [o1 w1] eqn:Hw. intros [= <- <- <-]. split; [done|].
    unfold wait in Hw. rewrite run_bind, run_sys in Hw.
    destruct (epoll_wait _ _ _ _) as [[n events] k] eqn:He. cbn in Hw.
    apply epoll_wait_law in He as [Hv He].
    assert (wview (World k (logs w)) = wview w) as Hview by exact Hv.
    destruct He as [[-> ->]|(Hn & Hlen & Hnd & Hall)]; cbn in Hw.
    + rewrite run_bind in Hw. cbn in Hw.
      destruct (_ =? EINTR)%Z; injection Hw as <- <-; rewrite Hview; split; try done.
      cbn. split_and!; [set_solver|constructor|constructor].
    + rewrite (proj2 (Z.ltb_ge n 0)), <-Hlen, firstn_all in Hw by lia.
      rewrite <-Hview. eapply entries_contract; [apply linux_loop|exact Hw|done| |].
      * by apply Forall_true.
      * by rewrite Hview.
  - intros c p w o p' w'. cbn. unfold on_self, add_client.
    rewrite run_bind, run_sys.
    destruct (epoll_ctl_add _ _ _ _) as [r k] eqn:Ha. cbn.
    apply epoll_add_law in Ha as [[-> Hv]|[-> Hv]]; cbn; intros [= <- <- <-];
      unfold wview; cbn; rewrite Hv; (split; [done|]); split; try done.
    by rewrite watched_watch.
  - intros p w o w'. cbn. unfold destroy. rewrite run_bind, run_sys. intros [= <- <-].
    split; [done|]. apply close_law.
Defined.

(** C18: Poller::wait on Linux returns the classification of the entries epoll reported, in
    their order and at most 64: the listener as NewClient, error or hang-up as
    ClientDisconnected, readable as ClientDataReady; and afterwards the epoll set has lost
    exactly the disconnected clients. *)
Theorem linux_wait_events timeout p w n entries k evs w' :
  epoll_wait (epoll_fd p) EVENT_BUFFER_SZ (to_int timeout) (kern w) = ((n, entries), k) →
  (0 ≤ n)%Z → wait timeout p w = (Ret evs, w') →
  evs = entries ≫= classify p ∧ length evs ≤ EVENT_BUFFER_SZ ∧
  watched (epoll_fd p) (wview w') =
    watched (epoll_fd p) (wview w) ∖ list_to_set (disconnected evs).
Proof.
  intros He Hn Hw. unfold wait in Hw. rewrite run_bind, run_sys, He in Hw. cbn in Hw.
  apply epoll_wait_law in He as (Hv & [[-> _]|(Hb & Hlen & _)]); [done|].
  rewrite (proj2 (Z.ltb_ge n 0)), <-Hlen, firstn_all in Hw by lia.
  apply (entries_events _ _ _ _ _ _ _ _ (linux_loop p)) in Hw as (-> & Hl & Hwatch).
  change (wview (World k (logs w))) with (kview k) in Hwatch. rewrite Hv in Hwatch.
  split; [done|]. split; [unfold EVENT_BUFFER_SZ in *; lia|exact Hwatch].
Qed.

(** A signal during the wait is no event; any other failure is an exception. *)
Theorem linux_wait_failure timeout p w n k :
  epoll_wait (epoll_fd p) EVENT_BUFFER_SZ (to_int timeout) (kern w) = ((n, []), k) →
  (n < 0)%Z →
  wait timeout p w =
  (if (errno k =? EINTR)%Z then Ret []
   else Throw (NonRecoverableException (lit "epoll error: " ++ strerror (errno k))),
   World k (logs w)).
Proof.
  intros He Hn. unfold wait. rewrite run_bind, run_sys, He. cbn.
  rewrite (proj2 (Z.ltb_lt n 0)) by done. rewrite run_bind. cbn. by case_match.
Qed.

(** When the listener cannot be watched the constructor throws with the epoll instance still
    open: no destructor runs. *)
Theorem linux_constructor_leaks l w ep k1 k2 :
  epoll_create1 (kern w) = (ep, k1) → (0 ≤ ep)%Z →
  epoll_ctl_add ep l EPOLLIN k1 = ((-1)%Z, k2) →
  ∃ e, make l w = (Throw e, World k2 (logs w)) ∧ ep ∈ v_open (kview k2).
Proof.
  intros Hc Hep Ha. eexists. split.
  - unfold make. rewrite run_bind, run_sys, Hc. cbn [fst snd].
    rewrite (proj2 (Z.ltb_ge ep 0)) by done. run_call. rewrite Ha. cbn. reflexivity.
  - apply epoll_create1_law in Hc as [[-> _]|(_ & _ & Hv)]; [done|].
    apply epoll_add_law in Ha as [[_ ->]|[? _]]; [|done]. rewrite Hv. cbn. set_solver.
Qed.
End spec.
End Linux.

(** ** BSD and macOS *)

Module Bsd.
Import PollerBsd.

Definition classify (p : t) (e : SOCKET * Z) : list Event :=
  if (to_int e.1 =? server_fd_ p)%Z then [MkEvent NewClient (server_fd_ p)]
  else if has e.2 EV_EOF then [MkEvent ClientDisconnected (to_int e.1)]
  else [MkEvent ClientDataReady (to_int e.1)].

Section spec.
Context {K : Type} `{KqueueLaws K}.

Lemma bsd_loop p :
  entry_loop (kqueue_fd p) (server_fd_ p) (λ e, int_range e.1) (classify p)
    (kevent_delete (kqueue_fd p)) (λ r, negb (r =? 0)%Z)
    "Could not remove client socket from kqueue: " (scan p).
Proof.
  split; try done.
  - intros e. unfold classify. by repeat case_match; cbn; lia.
  - intros e He. unfold classify. rewrite to_int_id by done.
    destruct (Z.eqb_spec e.1 (server_fd_ p)); [by left|]. repeat case_match; cbn; auto.
  - intros fd k r k' Hd. by apply kevent_delete_law in Hd.
  - intros [ident flags] entries evs w. cbn [scan]. unfold classify. cbn [fst snd].
    destruct (to_int ident =? server_fd_ p)%Z; [done|].
    destruct (has flags EV_EOF); [|done].
    cbn. rewrite run_bind, run_sys. destruct (kevent_delete _ _ _) as [r k]. cbn.
    by destruct (r =? 0)%Z.
Qed.

#[export] Instance poller : PollerSpec t K.
Proof.
  refine {| poller_listener := server_fd_; poller_fd := kqueue_fd |}.
  - intros l w p w'. change poller_make with make. unfold make.
    rewrite run_bind, run_sys. destruct (kqueue _) as [ep k] eqn:Hc. cbn [fst snd].
    apply kqueue_law in Hc as [[-> Hv]|(Hb & Hfresh & Hv)]; [by cbn|].
    rewrite (proj2 (Z.ltb_ge ep 0)) by lia. rewrite run_bind, run_sys. cbn [kern logs].
    destruct (kevent_add _ _ k) as [r k2] eqn:Ha. cbn [fst snd].
    apply kevent_add_law in Ha as [[-> Hv2]|[-> Hv2]]; [by cbn|]. cbn [Z.ltb Z.compare].
    intros [= <- <-]. unfold wview in *. cbn. rewrite Hv2, Hv, watched_watch, watched_open_poll.
    split_and!; [done..|set_solver].
  - intros timeout p w o p' w'. cbn. unfold on_self.
    destruct (wait timeout p w) as [o1 w1] eqn:Hw. intros [= <- <- <-]. split; [done|].
    unfold wait in Hw. rewrite run_bind, run_sys in Hw.
    destruct (kevent_wait _ _ _ _) as [[n events] k] eqn:He. cbn [fst snd] in Hw.
    rewrite run_bind in Hw. cbn in Hw.
    apply kevent_wait_law in He as [Hv He].
    assert (wview (World k (logs w)) = wview w) as Hview by exact Hv.
    destruct He as [[-> ->]|(Hn & Hlen & Hnd & Hall)]; cbn in Hw.
    + destruct (_ =? EINTR)%Z; injection Hw as <- <-; rewrite Hview; split; try done.
      cbn. split_and!; [set_solver|constructor|constructor].
    + rewrite (proj2 (Z.ltb_ge n 0)), <-Hlen, firstn_all in Hw by lia.
      apply Forall_and in Hall as [Hall Hrange].
      rewrite <-Hview. eapply entries_contract; [apply bsd_loop|exact Hw|done..|]. by rewrite Hview.
  - intros c p w o p' w'. cbn. unfold on_self, add_client.
    rewrite run_bind, run_sys.
    destruct (kevent_add _ _ _) as [r k] eqn:Ha. cbn.
    apply kevent_add_law in Ha as [[-> Hv]|[-> Hv]]; cbn; intros [= <- <- <-];
      unfold wview; cbn; rewrite Hv; (split; [done|]); split; try done.
    by rewrite watched_watch.
  - intros p w o w'. cbn. unfold destroy. rewrite run_bind, run_sys. intros [= <- <-].
    split; [done|]. apply close_law.
Defined.

(** Poller::wait on BSD and macOS returns the classification of the entries kevent reported, in
    their order and at most 64; afterwards the kqueue has lost exactly the disconnected clients. *)
Theorem bsd_wait_events timeout p w n entries k evs w' :
  kevent_wait (kqueue_fd p) EVENT_BUFFER_SZ (timespec timeout) (kern w) = ((n, entries), k) →
  (0 ≤ n)%Z → wait timeout p w = (Ret evs, w') →
  evs = entries ≫= classify p ∧ length evs ≤ EVENT_BUFFER_SZ ∧
  watched (kqueue_fd p) (wview w') =
    watched (kqueue_fd p) (wview w) ∖ list_to_set (disconnected evs).
Proof.
  intros He Hn Hw. unfold wait in Hw. rewrite run_bind, run_sys, He in Hw. cbn in Hw.
  rewrite run_bind in Hw. cbn in Hw.
  apply kevent_wait_law in He as (Hv & [[-> _]|(Hb & Hlen & _)]); [done|].
  rewrite (proj2 (Z.ltb_ge n 0)), <-Hlen, firstn_all in Hw by lia.
  apply (entries_events _ _ _ _ _ _ _ _ (bsd_loop p)) in Hw as (-> & Hl & Hwatch).
  change (wview (World k (logs w))) with (kview k) in Hwatch. rewrite Hv in Hwatch.
  split; [done|]. split; [unfold EVENT_BUFFER_SZ in *; lia|exact Hwatch].
Qed.

(** A signal during the wait is no event; any other failure is an exception, whose text says
    epoll. *)
Theorem bsd_wait_failure timeout p w n k :
  kevent_wait (kqueue_fd p) EVENT_BUFFER_SZ (timespec timeout) (kern w) = ((n, []), k) →
  (n < 0)%Z →
  wait timeout p w =
  (if (errno k =? EINTR)%Z then Ret []
   else Throw (NonRecoverableException (lit "epoll error: " ++ strerror (errno k))),
   World k (logs w)).
Proof.
  intros He Hn. unfold wait. rewrite run_bind, run_sys, He. cbn.
  rewrite (proj2 (Z.ltb_lt n 0)) by done. rewrite run_bind. cbn.
  destruct (errno k =? EINTR)%Z; cbn; [by rewrite take_nil|done].
Qed.

(** When the listener cannot be added the constructor throws with the kqueue still open: no
    destructor runs. *)
Theorem bsd_constructor_leaks l w ep k1 k2 :
  kqueue (kern w) = (ep, k1) → (0 ≤ ep)%Z → kevent_add ep l k1 = ((-1)%Z, k2) →
  ∃ e, make l w = (Throw e, World k2 (logs w)) ∧ ep ∈ v_open (kview k2).
Proof.
  intros Hc Hep Ha. eexists. split.
  - unfold make. rewrite run_bind, run_sys, Hc. cbn [fst snd].
    rewrite (proj2 (Z.ltb_ge ep 0)) by done. run_call. rewrite Ha. cbn. reflexivity.
  - apply kqueue_law in Hc as [[-> _]|(_ & _ & Hv)]; [done|].
    apply kevent_add_law in Ha as [[_ ->]|[? _]]; [|done]. rewrite Hv. cbn. set_solver.
Qed.
End spec.
End Bsd.

(** ** Windows *)

Module Win32.
Import PollerWin32.

Section spec.
Context {K : Type} `{!WinPoll K}.

(** [WSAPoll] fills in one [revents] per entry. *)
Definition fills_in : Prop := ∀ l t k, length (WSAPoll l t k).1.2 = length l.

Lemma set_revents_fds p rs :
  length rs = length (fds p) → pfd <$> fds (set_revents p rs) = pfd <$> fds p.
Proof.
  unfold set_revents. cbn. revert rs. induction (fds p) as [|x l IH]; intros rs Hl;
    [by destruct rs|]. destruct rs as [|r rs]; [done|]. cbn in *. f_equal. apply IH. lia.
Qed.

(** Poller::wait on Windows never removes a descriptor from the polled vector, not even one it
    reports as disconnected. *)
Theorem win32_never_forgets timeout p w o p' w' :
  fills_in → wait timeout (p, w) = (o, (p', w')) →
  pfd <$> fds p' = pfd <$> fds p.
Proof.
  intros Hf. unfold wait. rewrite run_bind. cbn.
  destruct (fds p) as [|x l] eqn:Hp; [intros [= <- <- <-]; by rewrite Hp|].
  rewrite <-Hp. rewrite run_bind. unfold on_snd, zoom. cbn. unfold sys.
  specialize (Hf (fds p) (poll_timeout timeout) (kern w)).
  destruct (WSAPoll _ _ _) as [[r rs] k]. cbn in *.
  rewrite run_bind. cbn. case_match; [intros [= <- <- <-]; by apply set_revents_fds|].
  case_match; intros [= <- <- <-]; by apply set_revents_fds.
Qed.
End spec.
End Win32.

(** ** A hang-up that comes with data *)

(** Data that arrives with a hang-up: the epoll and the kqueue poller report the client as
    disconnected only, so the data is never read, while the WSAPoll poller reports both. *)
Theorem pollers_differ_on_hangup c bits ebits l ep :
  c ≠ l → int_range c → has bits EPOLLIN = true → has bits EPOLLRDHUP = true →
  has ebits EV_EOF = true →
  Linux.classify (PollerLinux.Make l ep) (c, bits) = [MkEvent ClientDisconnected c] ∧
  Bsd.classify (PollerBsd.Make l ep) (c, ebits) = [MkEvent ClientDisconnected c] ∧
  PollerWin32.client_events (PollFd c POLLRDNORM (Z.lor POLLRDNORM POLLHUP)) =
    [MkEvent ClientDataReady c; MkEvent ClientDisconnected c].
Proof.
  intros Hne Hr Hin Hhup Heof. split_and!.
  - unfold Linux.classify. cbn [fst snd PollerLinux.server_fd_].
    rewrite (proj2 (Z.eqb_neq c l)) by done.
    assert (has bits (Z.lor EPOLLERR (Z.lor EPOLLHUP EPOLLRDHUP)) = true) as ->; [|done].
    unfold has in *. rewrite negb_true_iff, Z.eqb_neq in *. intros H0. apply Hhup.
    apply Z.bits_inj'. intros i Hi. apply (f_equal (λ z, Z.testbit z i)) in H0.
    rewrite !Z.land_spec, !Z.lor_spec, Z.bits_0 in *.
    destruct (Z.testbit bits i); [|done]. cbn in *. by repeat apply orb_false_iff in H0 as [_ H0].
  - unfold Bsd.classify. cbn [fst snd PollerBsd.server_fd_]. rewrite to_int_id by done.
    by rewrite (proj2 (Z.eqb_neq c l)), Heof.
  - reflexivity.
Qed.

(** The kqueue timeout is a valid [timespec] only below one second. *)
Theorem bsd_timespec_valid timeout :
  let '(sec, nsec) := PollerBsd.timespec timeout in
  (0 ≤ nsec < 1000000000)%Z ↔ (0 ≤ timeout < 1000)%Z.
Proof. cbn. lia. Qed.
