(* ===== verification/Server.v ===== *)
(** * server/server: the event loop over the poller and the threads

    [Server] is the abstract class: its two virtual methods are the interface
    [ServerOps], the protocol's factory is [ProtocolOps].  [iterate] and [run]
    are the code; [Machine] interleaves the server's thread, step by step, with
    the workers and with whoever calls [stop].  [SigInt] is [stop_on_SIGINT]. *)

From S2P Require Import Prelude Cpp Log OS Connection Session Threads Poller.

(** The virtual methods of class Server; [accept] is given the member [fd_]. *)
Class ServerOps (C W : Type) := {
  server_accept : SOCKET → M W SOCKET;
  server_create_connection : SOCKET → M W C;
}.

(** [Protocol::create_session], a constructor of sessions. *)
Class ProtocolOps (C Se : Type) := create_session : C → Se.

Module Server.
Record t (P Se : Type) := Make {
  fd_ : SOCKET;
  poller_ : P;
  thread_manager_ : ThreadManager.t Se;
  running_ : bool }.
Arguments Make {P Se}.
Arguments fd_ {P Se}.
Arguments poller_ {P Se}.
Arguments thread_manager_ {P Se}.
Arguments running_ {P Se}.

Section ops.
Context {C P Se W : Type} `{!PollerOps P W} `{!SessionOps Se W} `{!ServerOps C W}
  `{!ProtocolOps C Se}.

(** Calls on the members. *)
Definition on_poller {A} (m : M (P * W) A) : M (t P Se * W) A :=
  zoom (λ '(s, w), (poller_ s, w))
    (λ '(p, w) '(s, _), (Make (fd_ s) p (thread_manager_ s) (running_ s), w)) m.
Definition on_manager {A} (m : M (ThreadManager.t Se * W) A) : M (t P Se * W) A :=
  zoom (λ '(s, w), (thread_manager_ s, w))
    (λ '(tm, w) '(s, _), (Make (fd_ s) (poller_ s) tm (running_ s), w)) m.

(** The constructor.  Should [Poller(fd)] throw, [~Server] does not run. *)
Definition make (fd : SOCKET) (thread_count : ThreadCount) : M W (t P Se) :=
  p ← poller_make fd;
  mret (Make fd p (ThreadManager.make thread_count) true).

(** The body of the range-based [for] of [iterate]. *)
Definition handle (event : Event) : M (t P Se * W) unit :=
  match type event with
  | NewClient =>
      s ← gets fst;
      fd ← on_snd (server_accept (fd_ s));
      connection ← on_snd (server_create_connection fd);
      on_manager (ThreadManager.add_session (create_session connection)) ;;
      on_poller (poller_add_client fd)
  | ClientDataReady => on_manager (ThreadManager.data_available (fd event))
  | ClientDisconnected => on_manager (ThreadManager.remove_session (fd event))
  end.

Definition iterate : M (t P Se * W) unit :=
  events ← on_poller (poller_wait default_timeout);
  for_each events handle.

Definition set_running (b : bool) (s : t P Se) : t P Se :=
  Make (fd_ s) (poller_ s) (thread_manager_ s) b.
Definition stop : M (t P Se * W) unit := on_fst (modify (set_running false)).
Definition running : M (t P Se * W) bool := gets (λ '(s, _), running_ s).

(** [while (running_.load()) iterate();], where [stops] says for each pass
    whether someone calls [stop] during it; there are no more passes than
    [stops] has entries. *)
Fixpoint run (stops : list bool) : M (t P Se * W) unit :=
  r ← running;
  if negb r then mret ()
  else match stops with
       | [] => out_of_fuel
       | b :: stops => iterate ;; when b stop ;; run stops
       end.

(** [~Server]: the body, then the members in reverse order: the threads, with
    [ends] for the workers, and the poller. *)
Definition destroy (ends : nat → ending) (close_socket : SOCKET → M W unit) (s : t P Se) :
    M W unit :=
  close_socket (fd_ s) ;;
  ThreadManager.destroy ends (thread_manager_ s) ;;
  poller_destroy (poller_ s).
End ops.
End Server.

(** ** The server's thread among the others *)

Module Machine.
Import Server.

(** Where the server's thread is: at the test of [run], about to call
    [wait], in the loop over a batch, or returned from [run]. *)
Inductive phase := AtTest | AtWait | Handling (events : list Event) | Returned.

Record config (P Se W : Type) := Config { srv : t P Se; wd : W; ph : phase }.
Arguments Config {P Se W}.
Arguments srv {P Se W}.
Arguments wd {P Se W}.
Arguments ph {P Se W}.

Section machine.
Context {C P Se W : Type} `{!PollerOps P W} `{!SessionOps Se W} `{!ServerOps C W}
  `{!ProtocolOps C Se}.

Inductive label := LTest | LWait | LEvent (e : Event) | LEnd | LWork (i : nat) | LStop.

(** Only steps that return are steps: an exception leaves [run], or, in a
    worker, ends the process. *)
Inductive step : config P Se W → label → config P Se W → Prop :=
  | s_test s w :
      step (Config s w AtTest) LTest
        (Config s w (if running_ s then AtWait else Returned))
  | s_wait s w evs s' w' :
      on_poller (poller_wait default_timeout) (s, w) = (Ret evs, (s', w')) →
      step (Config s w AtWait) LWait (Config s' w' (Handling evs))
  | s_event s w e evs s' w' :
      handle e (s, w) = (Ret (), (s', w')) →
      step (Config s w (Handling (e :: evs))) (LEvent e) (Config s' w' (Handling evs))
  | s_end s w : step (Config s w (Handling [])) LEnd (Config s w AtTest)
  (* the body of the [i]-th worker *)
  | s_work s w p i x x' w' :
      ThreadManager.threads_ (thread_manager_ s) !! i = Some (Thread.Multi x) →
      ThreadMulti.work (x, w) = (Ret (), (x', w')) →
      step (Config s w p) (LWork i)
        (Config (Make (fd_ s) (poller_ s)
                   (ThreadManager.Make (<[i := Thread.Multi x']>
                      (ThreadManager.threads_ (thread_manager_ s)))) (running_ s)) w' p)
  (* a signal handler or another thread *)
  | s_stop s w p : step (Config s w p) LStop (Config (set_running false s) w p).

Inductive steps : config P Se W → list label → config P Se W → Prop :=
  | steps_refl c : steps c [] c
  | steps_step c1 l c2 ls c3 : step c1 l c2 → steps c2 ls c3 → steps c1 (l :: ls) c3.
End machine.
End Machine.

(** ** stop_on_SIGINT

    The process has one handler and one [global_server], a function-local
    static that the first call initialises. *)

Module SigInt.
Record process := Process {
  global_server : option nat;
  handler_installed : bool;
  (** [running_] of each server of the process *)
  running_of : gmap nat bool;
  printed : nat }.

Definition stop_on_SIGINT (this : nat) (p : process) : process :=
  Process (Some (default this (global_server p))) true (running_of p) (printed p).

(** The delivery of a SIGINT: [None] is the default action, the process dies. *)
Definition deliver (p : process) : option process :=
  if negb (handler_installed p) then None
  else match global_server p with
       | None => Some p
       | Some s => Some (Process (global_server p) true (<[s := false]> (running_of p))
                           (S (printed p)))
       end.
End SigInt.
