(* ===== verification/ServerSpec.v ===== *)
(** * What the server guarantees

    The invariant of the event loop, against the interfaces of the poller, the
    connections, the sessions and the threads: the poller watches the listener
    and exactly the clients that have a session, and no descriptor leaks. *)

From S2P Require Import Prelude Cpp Log OS Connection Session Threads ThreadsSpec Poller.
From S2P Require Import PollerSpec Server.
Import Server Machine.

(** ** What the server asks of its parts *)

Class ServerSpec (C K : Type) `{KernelLaws K} `{!ConnectionOps C (world K)}
    `{!ServerOps C (world K)} := {
  server_accept_spec l w c w' :
    server_accept l w = (Ret c, w') →
    (c ∉ v_open (wview w)) ∧ v_open (wview w') = {[c]} ∪ v_open (wview w) ∧
    v_interest (wview w') = v_interest (wview w);
  server_create_spec c w conn w' :
    server_create_connection c w = (Ret conn, w') →
    conn_fd conn = c ∧ io_only (wview w) (wview w');
}.

Class ProtocolSpec (C Se W : Type) `{!ConnectionOps C W} `{!SessionOps Se W}
    `{!ProtocolOps C Se} :=
  create_session_fd (conn : C) : session_fd (create_session conn) = conn_fd conn.

(** ** Sets of watched descriptors *)

Lemma watched_io_only ep v v' : io_only v v' → watched ep v' = watched ep v.
Proof. intros [_ Hi]. unfold watched. by rewrite Hi. Qed.

Lemma watched_closes ep c v v' :
  closes c v v' → ep ≠ c → watched ep v' = watched ep v ∖ {[c]}.
Proof.
  intros [_ Hi] Hne. rewrite <-watched_close by done. unfold watched, close_fd. by rewrite Hi.
Qed.

(** The set equations of the invariant. *)
Section sets.
Implicit Types B D E : gset Z.

Lemma remove_open B D x : x ∉ B → (B ∪ D) ∖ {[x]} = B ∪ D ∖ {[x]}.
Proof. set_solver. Qed.
Lemma remove_watched l D E x :
  l ≠ x → x ∉ E → ({[l]} ∪ D) ∖ ({[x]} ∪ E) ∖ {[x]} = ({[l]} ∪ D ∖ {[x]}) ∖ E.
Proof. set_solver. Qed.
Lemma add_open B D x : {[x]} ∪ (B ∪ D) = B ∪ ({[x]} ∪ D).
Proof. set_solver. Qed.
Lemma add_watched l D E x :
  x ∉ E → {[x]} ∪ ({[l]} ∪ D) ∖ E = ({[l]} ∪ ({[x]} ∪ D)) ∖ E.
Proof. intros. apply set_eq. intros y. destruct (decide (y = x)); set_solver. Qed.
End sets.

(** ** The flat map under each operation *)

Section flat.
Context {Se K : Type} `{SessionSpec Se K}.
Implicit Types m : gmap SOCKET Se.

Lemma store_fresh s m w :
  m !! session_fd s = None → store_session s (m, w) = (Ret (), (<[session_fd s := s]> m, w)).
Proof. intros Hm. unfold store_session. by rewrite Hm. Qed.

Lemma erase_present c s m w o m' w' :
  m !! c = Some s → session_fd s = c → erase_session c (m, w) = (o, (m', w')) →
  o = Ret () ∧ m' = delete c m ∧ closes c (wview w) (wview w').
Proof.
  intros Hm Hs. unfold erase_session. rewrite Hm.
  destruct (session_destroy s w) as [o1 w1] eqn:Hd. intros [= <- <- <-].
  apply session_destroy_spec in Hd as [-> Hd]. rewrite Hs in Hd. done.
Qed.

Lemma iterate_dom c m w o m' w' :
  iterate_session c (m, w) = (o, (m', w')) →
  dom m' = dom m ∧ io_only (wview w) (wview w').
Proof.
  unfold iterate_session. destruct (m !! c) as [s|] eqn:Hm.
  - destruct (session_iteration (s, w)) as [o1 [s1 w1]] eqn:Hi. intros [= <- <- <-].
    apply session_iteration_spec in Hi as [_ Hi]. split; [|done].
    apply dom_insert_lookup_L. by exists s.
  - intros [= <- <- <-]. done.
Qed.
End flat.

(** ** The invariant *)

Section server.
Context {C P Se K : Type} `{KernelLaws K} `{!ConnectionOps C (world K)}
  `{!SessionOps Se (world K)} `{!SessionSpec Se K} `{!PollerOps P (world K)}
  `{!PollerSpec P K} `{!ServerOps C (world K)} `{!ServerSpec C K} `{!ProtocolOps C Se}
  `{!ProtocolSpec C Se (world K)}.

(** The events still to be handled. *)
Definition batch (p : phase) : list Event :=
  match p with Handling evs => evs | _ => [] end.

(** The descriptors that have a session. *)
Definition clients (s : t P Se) : gset SOCKET := dom (all_sessions (thread_manager_ s)).

(** [base] is what was open when the server was made, with the poller's own
    descriptor. *)
Record inv (base : gset Z) (s : t P Se) (w : world K) (evs : list Event) : Prop := {
  inv_wf : wf (thread_manager_ s);
  inv_listener : poller_listener (poller_ s) = fd_ s;
  inv_base : fd_ s ∈ base ∧ poller_fd (poller_ s) ∈ base;
  inv_open : v_open (wview w) = base ∪ clients s;
  inv_disj : base ## clients s;
  inv_watched : watched (poller_fd (poller_ s)) (wview w) =
    ({[fd_ s]} ∪ clients s) ∖ list_to_set (disconnected evs);
  inv_nodup : NoDup (client_fds evs);
  inv_events : ∀ c, c ∈ client_fds evs → c ∈ clients s;
}.

Lemma disconnected_client evs c : c ∈ disconnected evs → c ∈ client_fds evs.
Proof.
  unfold disconnected, client_fds. rewrite !list_elem_of_omap.
  intros (e & ? & He). exists e. split; [done|]. by destruct (type e).
Qed.

Lemma client_fds_cons e evs :
  client_fds (e :: evs) = match type e with NewClient => [] | _ => [fd e] end ++ client_fds evs.
Proof. unfold client_fds. cbn. by destruct (type e). Qed.
Lemma disconnected_cons e evs :
  disconnected (e :: evs) =
  match type e with ClientDisconnected => [fd e] | _ => [] end ++ disconnected evs.
Proof. unfold disconnected. cbn. by destruct (type e). Qed.

(** A change of the sessions that keeps their descriptors, with no open,
    close or watch, keeps the invariant. *)
Lemma inv_quiet base fd0 p tm r tm' r' w w' evs :
  inv base (Make fd0 p tm r) w evs → wf tm' → io_only (wview w) (wview w') →
  dom (all_sessions tm') = dom (all_sessions tm) →
  inv base (Make fd0 p tm' r') w' evs.
Proof.
  intros [] Hwf Hio Hdom. unfold clients in *. cbn in *.
  split; unfold clients; cbn; rewrite ?Hdom; try done.
  - by rewrite (proj1 Hio).
  - by rewrite (watched_io_only _ _ _ Hio).
Qed.

Lemma inv_stop base s w evs b : inv base s w evs → inv base (set_running b s) w evs.
Proof. intros []. by split. Qed.

(** A handled event leaves the list. *)
Lemma inv_tail base s w e evs :
  inv base s w (e :: evs) → type e ≠ ClientDisconnected → inv base s w evs.
Proof.
  intros [] Hne. rewrite client_fds_cons, disconnected_cons in *. split; try done.
  - rewrite inv_watched0. by destruct (type e).
  - by apply NoDup_app in inv_nodup0 as (_ & _ & ?).
  - intros c Hc. apply inv_events0. apply elem_of_app. by right.
Qed.

Lemma client_session (s : t P Se) c : c ∈ clients s ↔ is_Some (all_sessions (thread_manager_ s) !! c).
Proof. unfold clients. apply elem_of_dom. Qed.

Lemma client_not_listener base s w evs c :
  inv base s w evs → c ∈ clients s → c ≠ poller_listener (poller_ s).
Proof.
  intros Hinv Hc ->. apply (inv_disj _ _ _ _ Hinv _) in Hc; [done|].
  rewrite (inv_listener _ _ _ _ Hinv). apply (inv_base _ _ _ _ Hinv).
Qed.

(** ** Each step keeps it *)

Lemma on_poller_inv {A} (m : M (P * world K) A) (s : t P Se) w o s' w' :
  on_poller m (s, w) = (o, (s', w')) →
  ∃ p', m (poller_ s, w) = (o, (p', w')) ∧
    s' = Make (fd_ s) p' (thread_manager_ s) (running_ s).
Proof.
  unfold on_poller, zoom. destruct (m _) as [o1 [p1 w1]]. intros [= <- <- <-]. eauto.
Qed.
Lemma on_manager_inv {A} (m : M (ThreadManager.t Se * world K) A) (s : t P Se) w o s' w' :
  on_manager m (s, w) = (o, (s', w')) →
  ∃ tm', m (thread_manager_ s, w) = (o, (tm', w')) ∧
    s' = Make (fd_ s) (poller_ s) tm' (running_ s).
Proof.
  unfold on_manager, zoom. destruct (m _) as [o1 [p1 w1]]. intros [= <- <- <-]. eauto.
Qed.

(** The calls of a new client's event. *)
Lemma handle_new_run e (s : t P Se) w s' w' :
  type e = NewClient → handle e (s, w) = (Ret (), (s', w')) →
  ∃ c conn w1 w2 tm' w3 p',
    server_accept (fd_ s) w = (Ret c, w1) ∧ server_create_connection c w1 = (Ret conn, w2) ∧
    ThreadManager.add_session (create_session conn) (thread_manager_ s, w2) = (Ret (), (tm', w3)) ∧
    poller_add_client c (poller_ s, w3) = (Ret (), (p', w')) ∧
    s' = Make (fd_ s) p' tm' (running_ s).
Proof.
  intros He Hh. unfold handle in Hh. rewrite He, run_bind in Hh. cbn in Hh.
  inv_ret Hh. apply on_snd_inv in E as (w1 & Ha & ->).
  inv_ret Hh. apply on_snd_inv in E as (w2 & Hc & ->).
  apply bind_ret_inv in Hh as ([] & [s3 w3] & E & Hh).
  apply on_manager_inv in E as (tm' & Hadd & ->).
  apply on_poller_inv in Hh as (p' & Hp & ->). repeat eexists; eassumption.
Qed.

Lemma wait_inv base s w evs s' w' :
  inv base s w [] → on_poller (poller_wait default_timeout) (s, w) = (Ret evs, (s', w')) →
  inv base s' w' evs.
Proof.
  intros [] (p' & Hw & ->)%on_poller_inv.
  apply poller_wait_spec in Hw as (-> & (Hopen & _ & _) & Hwatch & Hnd & Hall).
  cbn in inv_watched0. rewrite difference_empty_L in inv_watched0.
  split; unfold clients in *; cbn; try done.
  - by rewrite Hopen.
  - by rewrite Hwatch, inv_watched0.
  - intros c Hc. rewrite Forall_forall in Hall. destruct (Hall c Hc) as [Hin Hne].
    rewrite inv_listener0, inv_watched0 in *. set_solver.
Qed.

Lemma data_inv base s w e evs s' w' :
  inv base s w (e :: evs) → type e = ClientDataReady →
  on_manager (ThreadManager.data_available (fd e)) (s, w) = (Ret (), (s', w')) →
  inv base s' w' evs.
Proof.
  intros Hinv He (tm' & Hd & ->)%on_manager_inv.
  apply data_sessions in Hd as [Hwf Hd]; [|apply Hinv].
  apply inv_tail in Hinv; [|by rewrite He]. destruct s as [fd0 p tm r]. cbn in *.
  assert (dom (all_sessions tm') = dom (all_sessions tm) ∧ io_only (wview w) (wview w'))
    as [Hdom Hio].
  { destruct (_ !! _) as [[]|]; [by apply iterate_dom in Hd|by injection Hd as -> ->..]. }
  by eapply inv_quiet.
Qed.

Lemma remove_inv base s w e evs s' w' :
  inv base s w (e :: evs) → type e = ClientDisconnected →
  on_manager (ThreadManager.remove_session (fd e)) (s, w) = (Ret (), (s', w')) →
  inv base s' w' evs.
Proof.
  intros [] He (tm' & Hr & ->)%on_manager_inv.
  apply remove_refines in Hr as [Hwf Hr]; [|done].
  rewrite client_fds_cons, disconnected_cons, He in *. cbn in *.
  assert (fd e ∈ clients s) as Hc by (apply inv_events0; left).
  destruct (proj1 (elem_of_dom _ _) Hc) as [x Hx].
  assert (session_fd x = fd e) as Hfd.
  { apply all_sessions_Some in Hx as (i & y & Hy & Hs). by apply (proj2 inv_wf0 i y (fd e) Hy). }
  apply (erase_present _ x) in Hr as (_ & Hm & Hcl); [|done..].
  apply NoDup_cons in inv_nodup0 as [Hnin Hnd].
  assert (fd e ∉ disconnected evs) by (by intros ?%disconnected_client).
  assert (clients (Make (fd_ s) (poller_ s) tm' (running_ s)) = clients s ∖ {[fd e]}) as Hcs.
  { unfold clients. cbn. by rewrite Hm, dom_delete_L. }
  assert (fd e ∉ base) by (intros Hb; exact (inv_disj0 _ Hb Hc)).
  assert (∀ b, b ∈ base → b ≠ fd e) as Hne by (by intros b ? ->).
  destruct inv_base0. clear Hx. split; cbn; rewrite ?Hcs; try done.
  - destruct Hcl as [-> _]. rewrite inv_open0. by apply remove_open.
  - clear -inv_disj0. set_solver.
  - rewrite (watched_closes _ (fd e) _ _ Hcl) by auto. rewrite inv_watched0.
    apply remove_watched; [by auto|]. by rewrite elem_of_list_to_set.
  - intros c' Hc'. apply elem_of_difference. split; [apply inv_events0; by right|].
    rewrite elem_of_singleton. congruence.
Qed.

Lemma new_inv base s w e evs s' w' :
  inv base s w (e :: evs) → type e = NewClient →
  handle e (s, w) = (Ret (), (s', w')) → inv base s' w' evs.
Proof.
  intros Hinv He Hh. apply inv_tail in Hinv; [|by rewrite He].
  apply handle_new_run in Hh as (v & v0 & w1 & w2 & tm' & w3 & p' & Ha & Hc & Hadd & Hp & ->); [|done].
  destruct Hinv. apply server_accept_spec in Ha as (Hfresh & Hopen1 & Hint1).
  apply server_create_spec in Hc as [Hcfd [Hopen2 Hint2]].
  apply add_refines in Hadd as [Hwf Hadd]; [|done].
  assert (session_fd (create_session v0) = v) as Hsfd by (by rewrite create_session_fd).
  rewrite inv_open0 in Hfresh.
  rewrite store_fresh in Hadd.
  2: { rewrite Hsfd. apply not_elem_of_dom. set_solver. }
  injection Hadd as Hm <-. rewrite Hsfd in Hm.
  apply poller_add_spec in Hp as (-> & (Hopen3 & _ & _) & Hw3). cbn in Hw3.
  set (s' := Make _ _ _ _).
  assert (clients s' = {[v]} ∪ clients s) as Hcs.
  { unfold clients, s'. cbn. by rewrite <-Hm, dom_insert_L. }
  assert ((v ∉ base) ∧ v ∉ clients s) as [Hvb Hvc] by (clear -Hfresh; set_solver).
  clear Hm. split; rewrite ?Hcs; cbn; try done.
  - rewrite Hopen3, Hopen2, Hopen1, inv_open0. apply add_open.
  - clear -inv_disj0 Hvb. set_solver.
  - rewrite Hw3. unfold watched at 1. rewrite Hint2, Hint1. fold (watched (poller_fd (poller_ s)) (wview w)).
    rewrite inv_watched0. apply add_watched. rewrite elem_of_list_to_set.
    intros ?%disconnected_client. by apply Hvc, inv_events0.
  - intros c' Hc'. apply elem_of_union_r. by apply inv_events0.
Qed.

Lemma work_inv base s w i x x' w' evs :
  inv base s w evs → ThreadManager.threads_ (thread_manager_ s) !! i = Some (Thread.Multi x) →
  ThreadMulti.work (x, w) = (Ret (), (x', w')) →
  inv base (Make (fd_ s) (poller_ s)
              (ThreadManager.Make (<[i := Thread.Multi x']>
                 (ThreadManager.threads_ (thread_manager_ s)))) (running_ s)) w' evs.
Proof.
  intros Hinv Hx Hw. destruct (work_refines _ _ _ _ _ _ _ (inv_wf _ _ _ _ Hinv) Hx Hw)
    as [Hwf Hn]. destruct s as [fd0 p tm r]. cbn in *.
  set (tm' := ThreadManager.Make _) in *.
  assert (dom (all_sessions tm') = dom (all_sessions tm) ∧ io_only (wview w) (wview w'))
    as [Hdom Hio].
  { unfold next_work in Hn.
    destruct (ThreadMulti.queue_ x); [by injection Hn as -> ->|by apply iterate_dom in Hn]. }
  by eapply inv_quiet.
Qed.

Definition inv_config (base : gset Z) (c : config P Se (world K)) : Prop :=
  inv base (srv c) (wd c) (batch (ph c)).

Lemma step_inv base c l c' : step c l c' → inv_config base c → inv_config base c'.
Proof.
  unfold inv_config. intros [s w|s w evs s' w' Hw|s w e evs s' w' Hh|s w|s w p i x x' w' Hx Hw|s w p];
    cbn.
  - by destruct (running_ s).
  - intros. by eapply wait_inv.
  - intros. unfold handle in Hh. destruct (type e) eqn:He.
    + eapply new_inv; [done..|]. unfold handle. by rewrite He.
    + by eapply data_inv.
    + by eapply remove_inv.
  - done.
  - intros. by eapply work_inv.
  - apply inv_stop.
Qed.

Lemma steps_inv base c ls c' : steps c ls c' → inv_config base c → inv_config base c'.
Proof. induction 1; eauto using step_inv. Qed.

(** A server just made has no client. *)
Lemma make_clients l p tc : clients (Make l p (ThreadManager.make tc) true) = ∅.
Proof.
  unfold clients. cbn -[all_sessions].
  assert (all_sessions (ThreadManager.make (Se:=Se) tc) = ∅) as ->; [|apply dom_empty_L].
  apply map_eq. intros c. rewrite lookup_empty.
  destruct (all_sessions _ !! c) as [x|] eqn:Hx; [|done].
  apply all_sessions_Some in Hx as (i & y & Hy & Hx).
  destruct tc as [|n]; cbn in Hy; [destruct i; [by injection Hy as <-|done]|].
  by apply lookup_replicate in Hy as [-> _].
Qed.

Lemma made_clients l tc (w : world K) s w' : make l tc w = (Ret s, w') → clients s = ∅.
Proof. intros Hm. apply bind_ret_inv in Hm as (p & w1 & _ & [= <- _]). apply make_clients. Qed.

Lemma make_inv l tc w s w' :
  (∀ n, tc = inr n → (0 < n)%Z) → l ∈ v_open (wview w) → make l tc w = (Ret s, w') →
  inv ({[poller_fd (poller_ s)]} ∪ v_open (wview w)) s w' [].
Proof.
  intros Htc Hl Hm. unfold make in Hm. apply bind_ret_inv in Hm as (p & w1 & Hp & [= <- <-]).
  apply poller_make_spec in Hp as (Hlis & Hfresh & Hopen & Hwatch).
  pose proof (make_clients l p tc) as Hcl.
  split; rewrite ?Hcl; cbn -[clients]; try done.
  - by apply make_wf.
  - set_solver.
  - rewrite Hopen. set_solver.
  - rewrite Hwatch. set_solver.
  - constructor.
  - by intros c ?%elem_of_nil.
Qed.

(** ** Theorems *)

(** C6: With a poller that meets its contract PollerSpec (the epoll and the kqueue poller do,
    the WSAPoll poller does not: PollerSpec.Win32.win32_never_forgets) and a positive number of
    threads, in every interleaving of the server's thread with its workers and with callers of
    stop, started from the constructor on an open listener: the poller watches the listener and
    exactly the clients that have a session and are not about to be removed, the open
    descriptors are those of the start, the poller's and one per session, every session sits
    under its own descriptor in the thread the manager selects, and no event of the batch speaks
    of a client without a session. *)
Theorem server_invariant l tc w s w' ls c :
  (∀ n, tc = inr n → (0 < n)%Z) → l ∈ v_open (wview w) → make l tc w = (Ret s, w') →
  steps (Config s w' AtTest) ls c →
  inv ({[poller_fd (poller_ s)]} ∪ v_open (wview w)) (srv c) (wd c) (batch (ph c)).
Proof. intros Htc Hl Hm Hs. apply (steps_inv _ _ _ _ Hs). by eapply make_inv. Qed.

(** C14: With a poller that meets its contract PollerSpec (epoll and kqueue; WSAPoll reports a
    client again that is gone) and a positive number of threads, no event is lost on a missing
    session: whenever the server's loop handles a ClientDataReady or ClientDisconnected event,
    the descriptor it names has a session, stored under that descriptor. *)
Theorem events_find_sessions l tc w s w' ls s1 w1 e evs :
  (∀ n, tc = inr n → (0 < n)%Z) → l ∈ v_open (wview w) → make l tc w = (Ret s, w') →
  steps (Config s w' AtTest) ls (Config s1 w1 (Handling (e :: evs))) → type e ≠ NewClient →
  ∃ x, all_sessions (thread_manager_ s1) !! fd e = Some x ∧ session_fd x = fd e.
Proof.
  intros Htc Hl Hm Hs He.
  assert (inv_config ({[poller_fd (poller_ s)]} ∪ v_open (wview w))
            (Config s1 w1 (Handling (e :: evs)))) as [].
  { apply (steps_inv _ _ _ _ Hs). by eapply make_inv. }
  cbn [srv wd ph batch] in *. assert (fd e ∈ clients s1) as Hc.
  { apply inv_events0. rewrite client_fds_cons. destruct (type e); [done|left..]. }
  destruct (proj1 (elem_of_dom _ _) Hc) as [x Hx]. exists x. split; [done|].
  apply all_sessions_Some in Hx as (i & y & Hy & Hx). by apply (proj2 inv_wf0 i y (fd e) Hy).
Qed.

(** *** The code of [run] is a run of the machine *)

Lemma steps_app c1 ls1 c2 ls2 c3 :
  steps c1 ls1 c2 → steps c2 ls2 c3 → steps c1 (ls1 ++ ls2) c3.
Proof. induction 1; cbn; eauto using steps. Qed.

Lemma handle_steps s w evs s' w' :
  for_each evs handle (s, w) = (Ret (), (s', w')) →
  steps (Config s w (Handling evs)) (LEvent <$> evs) (Config s' w' (Handling [])).
Proof.
  revert s w. induction evs as [|e evs IH]; intros s w.
  { intros [= <- <-]. constructor. }
  cbn [for_each]. intros ([] & [s1 w1] & He & Hr)%bind_ret_inv.
  cbn. econstructor; [by constructor|]. by apply IH.
Qed.

(** What [iterate] needs to return. *)
Lemma iterate_steps s w s' w' :
  iterate (s, w) = (Ret (), (s', w')) →
  ∃ evs, steps (Config s w AtWait) (LWait :: (LEvent <$> evs)) (Config s' w' (Handling [])).
Proof.
  intros (evs & [s1 w1] & Hw & Hr)%bind_ret_inv. exists evs.
  econstructor; [by constructor|]. by apply handle_steps.
Qed.

Definition is_wait (l : label) : nat := match l with LWait => 1 | _ => 0 end.
Definition is_stop (l : label) : nat := match l with LStop => 1 | _ => 0 end.
(** A step of the server's thread. *)
Definition is_server (l : label) : nat := match l with LWork _ | LStop => 0 | _ => 1 end.

Lemma run_steps stops s w s' w' :
  run stops (s, w) = (Ret (), (s', w')) →
  ∃ ls, steps (Config s w AtTest) ls (Config s' w' Returned) ∧ running_ s' = false.
Proof.
  revert s w. induction stops as [|b stops IH]; intros s w; cbn; rewrite run_bind; cbn;
    destruct (running_ s) eqn:Hrun; cbn; try done.
  1, 3: intros [= <- <-]; exists [LTest]; split; [|done]; (econstructor; [|constructor]);
    pose proof (s_test s w) as Ht; by rewrite Hrun in Ht.
  intros ([] & [s1 w1] & Hi & Hr)%bind_ret_inv.
  apply bind_ret_inv in Hr as ([] & [s2 w2] & Hb & Hr).
  apply IH in Hr as (ls & Hls & Hfalse). apply iterate_steps in Hi as [evs Hi].
  exists (LTest :: (LWait :: (LEvent <$> evs)) ++ LEnd :: (if b then [LStop] else []) ++ ls).
  split; [|done]. econstructor; [apply s_test|]. rewrite Hrun.
  eapply steps_app; [exact Hi|]. econstructor; [apply s_end|].
  destruct b; cbn in *; injection Hb as <- <-; [|done]. econstructor; [apply s_stop|done].
Qed.

(** *** When the loop ends *)

Definition same_running (x y : t P Se * world K) : Prop := running_ y.1 = running_ x.1.

#[local] Instance same_running_preorder : PreOrder same_running.
Proof. split; unfold same_running; repeat intro; congruence. Qed.

Lemma on_poller_running {A} (m : M (P * world K) A) : preserves same_running (on_poller m).
Proof. intros [s w]. unfold on_poller, zoom. by destruct (m _) as [? []]. Qed.
Lemma on_manager_running {A} (m : M (ThreadManager.t Se * world K) A) :
  preserves same_running (on_manager m).
Proof. intros [s w]. unfold on_manager, zoom. by destruct (m _) as [? []]. Qed.
Lemma on_snd_running {A} (m : M (world K) A) :
  preserves same_running (on_snd (S:=t P Se) m).
Proof. intros [s w]. unfold on_snd, zoom. cbn. by destruct (m w). Qed.

#[local] Hint Resolve on_poller_running on_manager_running on_snd_running : preserves.

Lemma iterate_running : preserves same_running iterate.
Proof.
  unfold iterate. preserves_walk. unfold handle. preserves_walk.
Qed.

(** C35: An execution of Server::run that returns is a run of the server machine from the test
    of its loop to its return, with running_ false at the end. *)
Theorem run_is_a_run stops s w s' w' :
  run stops (s, w) = (Ret (), (s', w')) →
  ∃ ls, steps (Config s w AtTest) ls (Config s' w' Returned) ∧ running_ s' = false.
Proof. apply run_steps. Qed.

(** [Server::run] on a running server returns only if someone called [stop]: it makes its passes
    up to and including the first one during which [stop] is called. *)
Theorem run_until_stopped stops s w s' w' :
  running_ s = true → run stops (s, w) = (Ret (), (s', w')) →
  ∃ n rest, stops = replicate n false ++ true :: rest.
Proof.
  revert s w. induction stops as [|b stops IH]; intros s w Hrun; cbn; rewrite run_bind; cbn;
    rewrite Hrun; cbn; [done|].
  intros ([] & [s1 w1] & Hi & Hr)%bind_ret_inv.
  apply bind_ret_inv in Hr as ([] & [s2 w2] & Hb & Hr).
  destruct b; [by exists 0, stops|]. injection Hb as <- <-.
  pose proof (iterate_running (s, w)) as Hsame. rewrite Hi in Hsame.
  unfold same_running in Hsame. cbn in Hsame.
  destruct (IH s1 w1) as (n & rest & ->); [congruence|done|]. by exists (S n), rest.
Qed.

Definition waits (ls : list label) : nat := sum_list_with is_wait ls.
Definition server_steps (ls : list label) : nat := sum_list_with is_server ls.

(** The waits, and outside [AtWait] the steps, left to a stopped server. *)
Definition waits_left (p : phase) : nat := match p with AtWait => 1 | _ => 0 end.
Definition steps_left (p : phase) : nat :=
  match p with AtTest => 1 | AtWait => 0 | Handling evs => length evs + 2 | Returned => 0 end.

Lemma stopped_step (c : config P Se (world K)) l c' :
  step c l c' → running_ (srv c) = false →
  running_ (srv c') = false ∧ is_wait l + waits_left (ph c') ≤ waits_left (ph c) ∧
  (ph c ≠ AtWait → ph c' ≠ AtWait ∧ is_server l + steps_left (ph c') ≤ steps_left (ph c)).
Proof.
  intros [s w|s w evs s' w' Hw|s w e evs s' w' Hh|s w|s w p i x x' w' Hx Hw|s w p]; cbn;
    intros Hrun.
  - rewrite Hrun. cbn. repeat split; lia || done.
  - apply on_poller_inv in Hw as (p' & _ & ->). cbn. repeat split; lia || done.
  - split; [|repeat split; lia || done]. rewrite <-Hrun.
    assert (preserves same_running (handle e)) as Hp by (unfold handle; preserves_walk).
    specialize (Hp (s, w)). by rewrite Hh in Hp.
  - repeat split; lia || done.
  - repeat split; lia || done.
  - repeat split; lia || done.
Qed.

(** C34: Once running_ is false the server's thread polls at most once more, and not at all when
    it was not just about to; while it handles a batch only the events left, the end of the
    batch and the test of run remain before run returns. *)
Theorem stop_bounds_server (c : config P Se (world K)) ls c' :
  running_ (srv c) = false → steps c ls c' →
  waits ls ≤ 1 ∧ (ph c ≠ AtWait → waits ls = 0 ∧ server_steps ls ≤ steps_left (ph c)).
Proof.
  intros Hrun Hs.
  cut (waits ls ≤ waits_left (ph c) ∧ (ph c ≠ AtWait → server_steps ls ≤ steps_left (ph c))).
  { intros [? ?]. unfold waits_left in *. destruct (ph c); cbn in *; (split; [lia|]); intros; try done; split; lia || auto. }
  induction Hs as [c|c1 l c2 ls c3 Hs Hr IH]; [cbn; split; lia|].
  apply stopped_step in Hs as (Hrun' & Hw & Hl); [|done]. destruct (IH Hrun') as [IHw IHl].
  cbn. fold (waits ls) (server_steps ls). split; [lia|].
  intros [Hne ?]%Hl. specialize (IHl Hne). lia.
Qed.

(** An exception in the handling of one event leaves run at once: the events after it in the
    batch are not handled, and what it throws is what run throws. *)
Theorem exception_ends_run s w s1 w1 evs1 e evs2 s2 w2 s3 w3 x b stops :
  running_ s = true →
  on_poller (poller_wait default_timeout) (s, w) = (Ret (evs1 ++ e :: evs2), (s1, w1)) →
  for_each evs1 handle (s1, w1) = (Ret (), (s2, w2)) →
  handle e (s2, w2) = (Throw x, (s3, w3)) →
  run (b :: stops) (s, w) = (Throw x, (s3, w3)).
Proof.
  intros Hrun Hw Hdone He. cbn. rewrite run_bind. cbn. rewrite Hrun. cbn.
  rewrite run_bind. unfold iterate. rewrite run_bind, Hw, for_each_app, run_bind, Hdone.
  cbn [for_each]. by rewrite run_bind, He.
Qed.

(** *** The destructor *)

Lemma destroy_list_open (l : list (SOCKET * Se)) w o w' :
  for_each l (λ p, session_destroy p.2) w = (o, w') →
  o = Ret () ∧ v_open (wview w') = v_open (wview w) ∖ list_to_set (session_fd ∘ snd <$> l).
Proof.
  revert w. induction l as [|[c s] l IH]; intros w; cbn.
  { intros [= <- <-]. split; [done|]. by rewrite difference_empty_L. }
  rewrite run_bind. destruct (session_destroy s w) as [o1 w1] eqn:Hd.
  apply session_destroy_spec in Hd as [-> [Hd _]]. intros [-> Hl]%IH. split; [done|].
  rewrite Hl, Hd. by rewrite difference_difference_l_L.
Qed.

Lemma destroy_sessions_open (m : gmap SOCKET Se) w o w' :
  (∀ c s, m !! c = Some s → session_fd s = c) → ThreadManager.destroy_sessions m w = (o, w') →
  o = Ret () ∧ v_open (wview w') = v_open (wview w) ∖ dom m.
Proof.
  intros Hm [-> Hd]%destroy_list_open. split; [done|]. rewrite Hd. f_equal.
  apply set_eq. intros c. rewrite elem_of_list_to_set, list_elem_of_fmap, elem_of_dom. split.
  - intros ([c' s] & -> & Hs%elem_of_map_to_list). cbn. rewrite (Hm _ _ Hs). by exists s.
  - intros [s Hs]. exists (c, s). cbn. rewrite (Hm _ _ Hs). split; [done|].
    by apply elem_of_map_to_list.
Qed.

(** Of each thread, whether it is a worker, and its descriptors. *)
Definition shape (x : Thread.t Se) : bool * gset SOCKET :=
  (match x with Thread.Single _ => false | Thread.Multi _ => true end, dom (Thread.sessions x)).
Definition keyed (l : list (Thread.t Se)) : Prop :=
  ∀ x c s, x ∈ l → Thread.sessions x !! c = Some s → session_fd s = c.

Lemma iterate_keyed c m (w : world K) o m' w' :
  iterate_session c (m, w) = (o, (m', w')) →
  (∀ c s, m !! c = Some s → session_fd (Se:=Se) s = c) → ∀ c s, m' !! c = Some s → session_fd s = c.
Proof.
  intros Hi Hm. unfold iterate_session in Hi. destruct (m !! c) as [s|] eqn:Hs; [|by injection Hi as _ <- _].
  destruct (session_iteration (s, w)) as [o1 [s1 w1]] eqn:E. injection Hi as _ <- _.
  apply session_iteration_spec in E as [Hfd _]. intros c' s'.
  destruct (decide (c = c')) as [<-|]; [|by rewrite lookup_insert_ne by done; apply Hm].
  rewrite lookup_insert_eq. intros [= <-]. rewrite Hfd. by apply Hm.
Qed.

Lemma thread_work_open (x : ThreadMulti.t Se) (w : world K) o x' w' :
  ThreadMulti.work (x, w) = (o, (x', w')) →
  dom (ThreadMulti.sessions_ x') = dom (ThreadMulti.sessions_ x) ∧ io_only (wview w) (wview w') ∧
  ((∀ c s, ThreadMulti.sessions_ x !! c = Some s → session_fd s = c) →
   ∀ c s, ThreadMulti.sessions_ x' !! c = Some s → session_fd s = c).
Proof.
  unfold ThreadMulti.work. rewrite run_bind. cbn. destruct (ThreadMulti.queue_ x) as [|fd q].
  { by intros [= <- <- <-]. }
  rewrite run_bind. unfold ThreadMulti.on_sessions, zoom. cbn -[iterate_session].
  destruct (iterate_session fd _) as [o1 [m1 w1]] eqn:Hi. intros [= <- <- <-]. cbn.
  pose proof (iterate_keyed _ _ _ _ _ _ Hi). by apply iterate_dom in Hi as [??].
Qed.

(** Bodies that run while the threads are destroyed leave their descriptors. *)
Lemma body_open i l (w : world K) o l' w' :
  ThreadManager.body i (l, w) = (o, (l', w')) → keyed l →
  keyed l' ∧ shape <$> l' = shape <$> l ∧ v_open (wview w') = v_open (wview w) ∧
  (o ≠ Ret () → ∃ x w1 x' w2, ThreadMulti.work (x, w1) = (o, (x', w2))).
Proof.
  unfold ThreadManager.body. destruct (l !! i) as [[x|x]|] eqn:Hx; [by intros [= <- <- <-]| |by intros [= <- <- <-]].
  destruct (ThreadMulti.work (x, w)) as [o1 [x1 w1]] eqn:Hw. intros [= <- <- <-] Hl.
  assert (∃ x w1 x' w2, ThreadMulti.work (x, w1) = (o1, (x', w2))) as Hex by eauto.
  apply thread_work_open in Hw as (Hd & Hio & Hk). split; [|split; [|split; [by apply Hio|done]]].
  - intros y c s Hy. apply list_elem_of_lookup_1 in Hy as [j Hy].
    apply list_lookup_insert_Some in Hy as [(<- & <- & _)|[_ Hy]].
    + apply Hk. intros c' s'. apply (Hl (Thread.Multi x)). by eapply list_elem_of_lookup_2.
    + apply Hl. by eapply list_elem_of_lookup_2.
  - rewrite list_fmap_insert. apply list_insert_id. rewrite list_lookup_fmap, Hx. cbn.
    unfold shape. cbn. by rewrite Hd.
Qed.

Lemma bodies_open js l (w : world K) o l' w' :
  for_each js ThreadManager.body (l, w) = (o, (l', w')) → keyed l →
  keyed l' ∧ shape <$> l' = shape <$> l ∧ v_open (wview w') = v_open (wview w) ∧
  (o ≠ Ret () → js ≠ [] ∧ ∃ x w1 x' w2, ThreadMulti.work (x, w1) = (o, (x', w2))).
Proof.
  revert l w. induction js as [|i js IH]; intros l w; cbn [for_each]; [by intros [= <- <- <-]|].
  rewrite run_bind. destruct (ThreadManager.body i (l, w)) as [o1 [l1 w1]] eqn:Hb. intros Hr Hl.
  apply body_open in Hb as (Hl1 & Hf1 & Ho1 & Hne1); [|done].
  destruct o1 as [[]|e| |]; [|injection Hr as <- <- <-;
    do 3 (split; [done|]); intros Ho; split; [done|by apply Hne1]..].
  apply IH in Hr as (Hl2 & Hf2 & Ho2 & Hne2); [|done].
  split; [done|]. rewrite Hf2, Ho2. do 2 (split; [done|]). intros Ho. split; [done|]. by apply Hne2.
Qed.

(** What a destructor that does not return has run into, with a worker. *)
Definition stuck (ends : nat → ending) (l : list (bool * gset SOCKET)) (o : outcome unit) : Prop :=
  true ∈ l.*1 ∧ ((o = UB ∧ ∃ i, ends i = Races) ∨
    ∃ i js x (w1 : world K) x' w2, ends i = Joins js ∧ js ≠ [] ∧
      ThreadMulti.work (Se:=Se) (x, w1) = (o, (x', w2))).

Lemma destroy_front_open e l (w : world K) o l' w' :
  ThreadManager.destroy_front e (l, w) = (o, (l', w')) → keyed l →
  match o with
  | Ret _ => keyed l' ∧ shape <$> l' = tail (shape <$> l) ∧
      v_open (wview w') = v_open (wview w) ∖ default ∅ (head (shape <$> l).*2)
  | o => stuck (λ _, e) (shape <$> l) o
  end.
Proof.
  intros Hd Hl. destruct l as [|[x|x] l]; cbn in Hd.
  - injection Hd as <- <- <-. cbn. by rewrite difference_empty_L.
  - destruct (ThreadManager.destroy_sessions _ w) as [o1 w1] eqn:E. injection Hd as <- <- <-.
    apply destroy_sessions_open in E as [-> Ho].
    + split; [|done]. intros y c s Hy. apply Hl. by right.
    + intros c s. apply (Hl (Thread.Single x)). by left.
  - destruct e as [|js]; [injection Hd as <- <- <-; split; [left|left; by split; [|exists 0]]|].
    destruct (for_each js _ _) as [o1 [l1 w1]] eqn:E.
    apply bodies_open in E as (Hl1 & Hf & Ho & Hne).
    2: { intros y c s [->|Hy]%elem_of_cons; [apply (Hl (Thread.Multi x)); by left|].
         apply Hl. by right. }
    destruct o1 as [[]|e1| |]; [|injection Hd as <- <- <-; split; [left|right];
      destruct Hne as (Hj & y & v & y' & v' & Hw); [done|];
      exists 0, js, y, v, y', v'; by repeat split..].
    destruct l1 as [|x1 l1]; [done|]. cbn in Hf. injection Hf as Hf0 Hf1 Hf2.
    destruct (ThreadManager.destroy_sessions _ w1) as [o2 w2] eqn:E2. injection Hd as <- <- <-.
    apply destroy_sessions_open in E2 as [-> Ho2].
    + split; [intros y c s Hy; apply Hl1; by right|]. split; [done|]. cbn. by rewrite Ho2, Ho, Hf1.
    + intros c s. apply Hl1. by left.
Qed.

Lemma destroy_fronts_open ends l n k (w : world K) o l' w' :
  for_each (seq k n) (λ i, ThreadManager.destroy_front (ends i)) (l, w) = (o, (l', w')) →
  length l ≤ n → keyed l →
  match o with
  | Ret _ => v_open (wview w') = v_open (wview w) ∖ ⋃ (shape <$> l).*2
  | o => stuck ends (shape <$> l) o
  end.
Proof.
  revert l k w. induction n as [|n IH]; intros l k w; cbn [seq for_each].
  { intros [= <- <- <-] Hn _. destruct l; [|cbn in Hn; lia]. cbn. by rewrite difference_empty_L. }
  rewrite run_bind. destruct (ThreadManager.destroy_front _ _) as [o1 [l1 w1]] eqn:Hd.
  intros Hr Hn Hl. apply destroy_front_open in Hd; [|done].
  assert (∀ o, stuck (λ _, ends k) (shape <$> l) o → stuck ends (shape <$> l) o) as Hst.
  { intros o' [Hm [[-> [_ Hk]]|(_ & js & Hw)]]; (split; [done|]); [left; eauto|right; by exists k, js]. }
  destruct o1 as [[]|e| |]; [|injection Hr as <- <- <-; by apply Hst..].
  destruct Hd as (Hl1 & Hf & Ho). apply IH in Hr; [| |done].
  - destruct o; [rewrite Hr, Ho, Hf, difference_difference_l_L; f_equal;
      by destruct l; cbn; rewrite ?union_empty_r_L|..].
    all: rewrite Hf in Hr; destruct Hr as [Hm Hr]; split; [|done];
      destruct l; [done|cbn in *; by right].
  - apply (f_equal length) in Hf. destruct l; cbn in *; rewrite length_fmap in Hf; [cbn in Hf|rewrite length_fmap in Hf]; lia.
Qed.

Lemma all_fds (tm : ThreadManager.t Se) :
  ⋃ (shape <$> ThreadManager.threads_ tm).*2 = dom (all_sessions tm).
Proof.
  unfold all_sessions. induction (ThreadManager.threads_ tm) as [|x l IH]; cbn.
  - by rewrite dom_empty_L.
  - by rewrite dom_union_L, <-IH.
Qed.

Lemma shape_worker l : true ∈ (shape <$> l).*1 → ∃ x, Thread.Multi x ∈ l.
Proof.
  rewrite <-list_fmap_compose. intros ([x|x] & Hx & Hin)%list_elem_of_fmap; [done|by exists x].
Qed.

Lemma destroy_open base ends s w evs o w' :
  inv base s w evs → destroy ends close_socket s w = (o, w') →
  match o with
  | Ret _ => v_open (wview w') = base ∖ {[fd_ s; poller_fd (poller_ s)]}
  | o => (∃ x, Thread.Multi x ∈ ThreadManager.threads_ (thread_manager_ s)) ∧
      ((o = UB ∧ ∃ i, ends i = Races) ∨
       ∃ i js x (w1 : world K) x' w2, ends i = Joins js ∧ js ≠ [] ∧
         ThreadMulti.work (Se:=Se) (x, w1) = (o, (x', w2)))
  end.
Proof.
  intros []. unfold destroy, close_socket. rewrite run_bind, run_bind, run_sys. cbn [mret M_ret].
  rewrite run_bind. set (w1 := World _ _). unfold ThreadManager.destroy.
  destruct (for_each _ _ _) as [o2 [l2 w2]] eqn:Hd. apply destroy_fronts_open in Hd; [|done|].
  2: { intros x c y [i Hi]%list_elem_of_lookup_1. by apply (proj2 inv_wf0 i x c Hi). }
  destruct o2 as [[]|e| |];
    [|intros [= <- <-]; destruct Hd as [Hm%shape_worker Hd]; by split..].
  intros [-> Hv]%poller_destroy_spec. rewrite Hv. cbn. rewrite Hd, all_fds.
  unfold w1, wview at 1. cbn. rewrite close_law. cbn.
  change (kview (kern w)) with (wview w). rewrite inv_open0.
  fold (clients s). clear -inv_disj0. set_solver.
Qed.

(** C31: From any state of the invariant (which a server with a poller of the contract keeps),
    and whatever bodies its workers run until they are joined, the destructor of Server returns
    with the listener, the poller and every session's descriptor closed, and nothing else -
    unless there is a worker and it does not come to its join: it races with the destruction of
    its members, which is undefined, or a body of a worker throws, which terminates the process,
    or does not return. With a single thread the destructor always returns, and so it does with
    workers that run no body until their join and do not race. *)
Theorem destroy_closes_all base ends s w evs o w' :
  inv base s w evs → destroy ends close_socket s w = (o, w') →
  match o with
  | Ret _ => v_open (wview w') = base ∖ {[fd_ s; poller_fd (poller_ s)]}
  | o => (∃ x, Thread.Multi x ∈ ThreadManager.threads_ (thread_manager_ s)) ∧
      ((o = UB ∧ ∃ i, ends i = Races) ∨
       ∃ i js x (w1 : world K) x' w2, ends i = Joins js ∧ js ≠ [] ∧
         ThreadMulti.work (Se:=Se) (x, w1) = (o, (x', w2)))
  end.
Proof. apply destroy_open. Qed.

(** The listener and the poller outlive every step. *)
Lemma step_fds (c : config P Se (world K)) l c' :
  step c l c' → fd_ (srv c') = fd_ (srv c) ∧ poller_fd (poller_ (srv c')) = poller_fd (poller_ (srv c)).
Proof.
  intros [s w|s w evs s' w' Hw|s w e evs s' w' Hh|s w|s w p i x x' w' Hx Hw|s w p]; cbn; try done.
  - apply on_poller_inv in Hw as (p' & Hw & ->). by apply poller_wait_spec in Hw as [-> _].
  - destruct (type e) eqn:He.
    2-3: unfold handle in Hh; rewrite He in Hh; by apply on_manager_inv in Hh as (tm' & _ & ->).
    apply handle_new_run in Hh as (v & v0 & w1 & w2 & tm' & w3 & p' & _ & _ & _ & Hp & ->); [|done].
    by apply poller_add_spec in Hp as [-> _].
Qed.

Lemma steps_fds (c : config P Se (world K)) ls c' :
  steps c ls c' → fd_ (srv c') = fd_ (srv c) ∧ poller_fd (poller_ (srv c')) = poller_fd (poller_ (srv c)).
Proof.
  induction 1 as [|c1 l c2 ls c3 Hs Hr [IH1 IH2]]; [done|].
  apply step_fds in Hs as [??]. split; congruence.
Qed.

(** The invariant speaks of the kernel's view only. *)
Lemma inv_view base s w w' evs : wview w' = wview w → inv base s w evs → inv base s w' evs.
Proof. intros Hv []. split; rewrite ?Hv; done. Qed.

(** A server that is made, runs until it is stopped and is destroyed leaves
    open what was open before, its listener excepted.  Between these calls the
    world may change in ways the view does not show. *)
Lemma lifetime_open l tc w s w1 w1' stops s2 w2 w2' ends w3 :
  (∀ n, tc = inr n → (0 < n)%Z) → l ∈ v_open (wview w) → make l tc w = (Ret s, w1) →
  wview w1' = wview w1 → run stops (s, w1') = (Ret (), (s2, w2)) →
  wview w2' = wview w2 → destroy ends close_socket s2 w2' = (Ret (), w3) →
  v_open (wview w3) = v_open (wview w) ∖ {[l]}.
Proof.
  intros Htc Hl Hm Hv1 Hr Hv2 Hd. pose proof (make_inv _ _ _ _ _ Htc Hl Hm) as Hinv.
  apply (inv_view _ _ _ _ _ Hv1) in Hinv. apply run_steps in Hr as (ls & Hls & _).
  pose proof (steps_inv _ _ _ _ Hls Hinv) as Hinv2. unfold inv_config in Hinv2. cbn in Hinv2.
  apply (inv_view _ _ _ _ _ Hv2) in Hinv2. apply steps_fds in Hls as [Hf Hp]. cbn in Hf, Hp.
  apply (destroy_open _ _ _ _ _ _ _ Hinv2) in Hd. rewrite Hd, Hf, Hp. unfold make in Hm.
  apply bind_ret_inv in Hm as (p & w0 & Hmk & [= <- <-]). cbn.
  apply poller_make_spec in Hmk as (_ & Hfresh & _). clear -Hfresh. set_solver.
Qed.

(** A worker with nothing queued does nothing. *)
Definition idle (x : Thread.t Se) : Prop := queued x = [].

Lemma bodies_idle js l (w : world K) :
  Forall idle l → for_each js ThreadManager.body (l, w) = (Ret (), (l, w)).
Proof.
  intros Hl. induction js as [|j js IH]; cbn [for_each]; [done|]. rewrite run_bind.
  assert (ThreadManager.body j (l, w) = (Ret (), (l, w))) as ->; [|done].
  unfold ThreadManager.body. destruct (l !! j) as [[x|x]|] eqn:Hx; try done.
  pose proof (Forall_lookup_1 _ _ _ _ Hl Hx) as Hq. unfold idle in Hq. cbn in Hq.
  unfold ThreadMulti.work. rewrite run_bind. cbn. rewrite Hq. cbn.
  by rewrite list_insert_id.
Qed.

Lemma destroy_fronts_idle ends n k l (w : world K) o l' w' :
  (∀ i, ends i ≠ Races) → Forall idle l → keyed l →
  for_each (seq k n) (λ i, ThreadManager.destroy_front (ends i)) (l, w) = (o, (l', w')) → o = Ret ().
Proof.
  intros He. revert k l w. induction n as [|n IH]; intros k l w Hl Hk; cbn [seq for_each].
  { by intros [= <- _ _]. }
  rewrite run_bind. destruct (ThreadManager.destroy_front _ _) as [o1 [l1 w1]] eqn:Hd.
  assert (o1 = Ret () ∧ Forall idle l1 ∧ keyed l1) as (-> & Hl1 & Hk1); [|by apply IH].
  assert (∀ x l0 w0 o0 w0', l = x :: l0 → ThreadManager.destroy_sessions (Thread.sessions x) w0 = (o0, w0') →
    o0 = Ret () ∧ Forall idle l0 ∧ keyed l0) as Hs.
  { intros x l0 w0 o0 w0' -> E. apply Forall_cons in Hl as [_ Hl].
    apply destroy_sessions_open in E as [-> _]; [|intros c s; apply (Hk x); by left].
    split; [done|]. split; [done|]. intros y c s Hy. apply Hk. by right. }
  destruct l as [|[x|x] l]; cbn in Hd.
  - injection Hd as <- <- <-. done.
  - destruct (ThreadManager.destroy_sessions _ w) as [o2 w2] eqn:E. injection Hd as <- <- <-.
    by apply (Hs (Thread.Single x) l w o2 w2).
  - destruct (ends k) as [|js] eqn:Hend; [by destruct (He k)|].
    rewrite bodies_idle in Hd by (apply Forall_cons in Hl as [? ?]; by constructor).
    destruct (ThreadManager.destroy_sessions _ w) as [o2 w2] eqn:E. injection Hd as <- <- <-.
    by apply (Hs (Thread.Multi x) l w o2 w2).
Qed.

(** The same for a server that is destroyed before it runs: whatever the
    workers do, short of the race, the destructor returns. *)
Lemma made_destroyed_open l tc w s w1 w1' ends o w3 :
  (∀ n, tc = inr n → (0 < n)%Z) → l ∈ v_open (wview w) → make l tc w = (Ret s, w1) →
  wview w1' = wview w1 → (∀ i, ends i ≠ Races) → destroy ends close_socket s w1' = (o, w3) →
  o = Ret () ∧ v_open (wview w3) = v_open (wview w) ∖ {[l]}.
Proof.
  intros Htc Hl Hm Hv1 He Hd. pose proof (make_inv _ _ _ _ _ Htc Hl Hm) as Hinv.
  apply (inv_view _ _ _ _ _ Hv1) in Hinv. pose proof (inv_wf _ _ _ _ Hinv) as [_ Hwf].
  pose proof (destroy_open _ _ _ _ _ _ _ Hinv Hd) as Ho.
  unfold make in Hm. apply bind_ret_inv in Hm as (p & w0 & Hmk & [= <- <-]).
  assert (o = Ret ()) as ->.
  { unfold destroy, close_socket in Hd. rewrite run_bind, run_bind, run_sys in Hd.
    cbn [mret M_ret] in Hd. rewrite run_bind in Hd. unfold ThreadManager.destroy in Hd.
    destruct (for_each _ _ _) as [o2 [l2 w2]] eqn:E. apply destroy_fronts_idle in E as ->; [|done| |].
    - by apply poller_destroy_spec in Hd as [-> _].
    - apply Forall_forall. intros x Hx. cbn in Hx. destruct tc as [|n]; cbn in Hx.
      + by apply list_elem_of_singleton in Hx as ->.
      + by apply elem_of_replicate in Hx as [-> _].
    - intros x c y [i Hi]%list_elem_of_lookup_1. by apply (proj1 (Hwf i x c Hi)). }
  split; [done|]. rewrite Ho. cbn.
  apply poller_make_spec in Hmk as (_ & Hfresh & _). clear -Hfresh. set_solver.
Qed.
End server.

(** ** SIGINT *)

(** Only the first server on which [stop_on_SIGINT] was called is stopped. *)
Theorem sigint_stops_first p a b :
  SigInt.global_server p = None → a ≠ b →
  let p' := SigInt.stop_on_SIGINT b (SigInt.stop_on_SIGINT a p) in
  ∃ q, SigInt.deliver p' = Some q ∧
    SigInt.running_of q !! a = Some false ∧
    SigInt.running_of q !! b = SigInt.running_of p !! b.
Proof.
  intros Hg Hne p'. unfold p', SigInt.stop_on_SIGINT, SigInt.deliver. cbn. rewrite Hg. cbn.
  eexists. split; [done|]. cbn. by rewrite lookup_insert_eq, lookup_insert_ne.
Qed.
