(* ===== verification/TCPServer.v ===== *)
(** * server/tcp/tcpserver.cc, server/ssl/sslserver.cc and util/socket.cc

    The listening socket, the accepted ones, and the two concrete servers with
    their connections. *)

From S2P Require Import Prelude Cpp Log OS OpenSSL Connection TCPConnection SSLConnection.
From S2P Require Import Session Threads Poller PollerSpec Server ServerSpec.

(** ** util/socket.cc *)

Section socket.
Context {K : Type} `{Kernel K} `{Platform}.

Definition socket_mark_as_nonblocking (fd : SOCKET) : M (world K) unit :=
  if is_win32 then
    r ← sys (sys_ioctlsocket_fionbio fd 1);
    if negb (r =? 0)%Z
    then raise (NonRecoverableException (lit "error marking socket as non-blocking"))
    else mret ()
  else
    flags ← sys (sys_fcntl_getfl fd);
    if (flags =? -1)%Z then throw_errno NonRecoverableException "fcntl: {}"
    else
      r ← sys (sys_fcntl_setfl fd (Z.lor flags O_NONBLOCK));
      if (r <? 0)%Z
      then raise (NonRecoverableException (lit "error marking socket as non-blocking"))
      else mret ().
End socket.

(** ** TCPServer *)

Module TCPServer.
Section ops.
Context {K : Type} `{Kernel K} `{Platform}.

Definition hints : addrinfo := AddrInfo AI_PASSIVE AF_INET SOCK_STREAM 0 [].

(** The loop over the results: the listener bound to [p], or the end of the
    list. *)
Fixpoint bind_loop (servinfo : list addrinfo) : M (world K) (option SOCKET) :=
  match servinfo with
  | [] => mret None
  | p :: next =>
      listener ← sys (sys_socket (ai_family p) (ai_socktype p) (ai_protocol p));
      if (listener =? INVALID_SOCKET)%Z
      then throw_errno NonRecoverableException "socket error: "
      else
        r ← sys (sys_setsockopt_reuseaddr listener);
        if (r =? SOCKET_ERROR)%Z
        then throw_errno NonRecoverableException "setsocket error: "
        else
          r ← sys (sys_bind listener (ai_addr p));
          if (r =? SOCKET_ERROR)%Z then sys (sys_close listener) ;; bind_loop next
          else mret (Some listener)
  end.

Definition create_listener (port : Z) (open_to_world : bool) : M (world K) SOCKET :=
  let listen_to := if open_to_world then None else Some (lit "localhost") in
  '(rv, servinfo) ← sys (sys_getaddrinfo listen_to (snprintf_d 15 port) hints);
  if negb (rv =? 0)%Z
  then raise (NonRecoverableException
                (lit "getaddrinfo error: " ++ gai_strerror (K:=K) rv))
  else
    p ← bind_loop servinfo;
    sys sys_freeaddrinfo ;;
    match p with
    | None => throw_errno NonRecoverableException "failed to bind: "
    | Some listener =>
        r ← sys (sys_listen listener SOMAXCONN);
        if (r =? SOCKET_ERROR)%Z
        then throw_errno NonRecoverableException "listen error: "
        else
          logging (LOG "listening in port {}" [to_string port]) ;;
          logging (DBG "with fd {}" [to_string listener]) ;;
          mret listener
    end.

Definition accept (fd_ : SOCKET) : M (world K) SOCKET :=
  '(client_fd, remoteaddr) ← sys (sys_accept fd_);
  if (client_fd =? INVALID_SOCKET)%Z
  then throw_errno NonRecoverableException "listen error: "
  else
    '(r, (hoststr, portstr)) ← sys (sys_getnameinfo remoteaddr);
    when (r =? 0)%Z
      (logging (DBG "New connection from {}:{} as fd {}"
                  [c_str hoststr; c_str portstr; to_string client_fd])) ;;
    socket_mark_as_nonblocking client_fd ;;
    mret client_fd.

Definition create_connection (fd_ : SOCKET) : M (world K) TCPConnection.t :=
  mret (TCPConnection.Make fd_).

#[export] Instance ops : ServerOps TCPConnection.t (world K) := {|
  server_accept := accept;
  server_create_connection := create_connection;
|}.

(** The constructor. *)
Definition make {P Se} `{!PollerOps P (world K)} (port : Z) (open_to_world : bool)
    (thread_count : ThreadCount) : M (world K) (Server.t P Se) :=
  fd ← create_listener port open_to_world;
  Server.make fd thread_count.
End ops.
End TCPServer.

(** ** SSLServer *)

Module SSLServer.
Section ops.
Context {K : Type} `{Kernel K} `{!OpenSSL K} `{Platform}.

Definition err (str : bytes) : M (world K) unit :=
  logging (ERR "ssl server: {}" [str]) ;;
  raise (NonRecoverableException (lit "ssl server: {}" ++ str)).

(** The base object and [ctx_]. *)
Definition t (P Se : Type) : Type := Server.t P Se * Z.

(** The body of the constructor; it returns [ctx_]. *)
Definition load_keys (certificate private_key : bytes) : M (world K) Z :=
  ctx ← sys (SSL_CTX_new TLS_server_method);
  certbio ← sys (BIO_new_mem_buf (c_str certificate));
  if (certbio =? 0)%Z then raise (NonRecoverableException (lit "Invalid certificate key."))
  else
    cert ← sys (PEM_read_bio_X509 certbio);
    if (cert =? 0)%Z
    then raise (NonRecoverableException (lit "Invalid certificate key."))
    else
      _ ← sys (SSL_CTX_use_certificate ctx cert);
      sys (X509_free cert) ;;
      _ ← sys (BIO_free certbio);
      keybio ← sys (BIO_new_mem_buf (c_str private_key));
      when (keybio =? 0)%Z (ERR_print_errors_cb err) ;;
      pkey ← sys (PEM_read_bio_PrivateKey keybio);
      when (pkey =? 0)%Z (ERR_print_errors_cb err) ;;
      _ ← sys (SSL_CTX_use_PrivateKey ctx pkey);
      sys (EVP_PKEY_free pkey) ;;
      _ ← sys (BIO_free keybio);
      r ← sys (SSL_CTX_check_private_key ctx);
      when (r =? 0)%Z (ERR_print_errors_cb err) ;;
      mret ctx.

Definition create_connection (ctx : Z) (fd_ : SOCKET) : M (world K) SSLConnection.t :=
  SSLConnection.make fd_ ctx.

#[export] Instance ops ctx : ServerOps SSLConnection.t (world K) := {|
  server_accept := TCPServer.accept;
  server_create_connection := create_connection ctx;
|}.

(** The constructor: an exception of its body unwinds the [TCPServer], whose
    workers run already ([ends]), and
    the destructor of [SSLServer], which frees [ctx_], does not run. *)
Definition make {P Se} `{!PollerOps P (world K)} `{!SessionOps Se (world K)}
    (ends : nat → ending) (port : Z) (open_to_world : bool) (thread_count : ThreadCount)
    (certificate private_key : bytes) : M (world K) (t P Se) :=
  s ← TCPServer.make port open_to_world thread_count;
  ctx ← unwinding (load_keys certificate private_key)
          (Server.destroy ends close_socket s);
  mret (s, ctx).

Definition destroy {P Se} `{!PollerOps P (world K)} `{!SessionOps Se (world K)}
    (ends : nat → ending) (s : t P Se) : M (world K) unit :=
  when (negb (s.2 =? 0)%Z) (sys (SSL_CTX_free s.2) ;; mret ()) ;;
  Server.destroy ends close_socket s.1.
End ops.
End SSLServer.
