(* ===== verification/TCPServerSpec.v ===== *)
(** * What the concrete servers guarantee

    Both implement [ServerSpec]; descriptors across the construction of the
    listener, the acceptance of a client and the TLS handshake. *)

From S2P Require Import Prelude Cpp Log OS OpenSSL Sim Connection TCPConnection SSLConnection.
From S2P Require Import Session Threads Poller PollerSpec Server ServerSpec TCPServer.

(** A call that leaves the kernel's view alone. *)
Lemma run_quiet {K A} `{KernelLaws K} (m : M (world K) A) w o w' :
  preserves same_view m → m w = (o, w') → wview w' = wview w.
Proof. intros Hp Hm. specialize (Hp w). rewrite Hm in Hp. by unfold same_view in Hp. Qed.

Lemma same_view_io_only {K} `{KernelLaws K} (w w' : world K) :
  wview w' = wview w → io_only (wview w) (wview w').
Proof. by intros ->. Qed.

Section tcp.
Context {K : Type} `{KernelLaws K} `{Platform}.

Lemma mark_view fd : preserves same_view (socket_mark_as_nonblocking fd).
Proof. unfold socket_mark_as_nonblocking. preserves_walk. Qed.

(** *** The listener *)

(** What happens to the open descriptors. *)
Definition opens_one (v v' : view) (fd : SOCKET) : Prop :=
  (fd ∉ v_open v) ∧ v_open v' = {[fd]} ∪ v_open v.

Lemma bind_loop_open l w o w' :
  TCPServer.bind_loop l w = (o, w') →
  match o with
  | Ret (Some fd) => opens_one (wview w) (wview w') fd
  | Ret None => v_open (wview w') = v_open (wview w)
  | Throw _ => v_open (wview w') = v_open (wview w) ∨ ∃ fd, opens_one (wview w) (wview w') fd
  | _ => False
  end.
Proof.
  revert w. induction l as [|p l IH]; intros w; cbn; [by intros [= <- <-]|].
  run_call. destruct (sys_socket _ _ _ _) as [r k] eqn:Hs. cbn [fst snd].
  apply socket_law in Hs as [[-> Hv]|(Hb & Hfresh & Hv)].
  { change (-1 =? INVALID_SOCKET)%Z with true. run_raise. intros [= <- <-]. left.
    unfold wview. cbn. by rewrite Hv. }
  unfold INVALID_SOCKET. rewrite (proj2 (Z.eqb_neq r (-1))) by lia.
  run_call. pose proof (setsockopt_law r k) as Hv1.
  destruct (sys_setsockopt_reuseaddr r k) as [r1 k1]. cbn in *.
  assert (opens_one (wview w) (kview k1) r) as Hone.
  { rewrite Hv1, Hv. by split. }
  destruct (r1 =? SOCKET_ERROR)%Z; [run_raise; intros [= <- <-]; right; by exists r|].
  run_call. pose proof (bind_law r (ai_addr p) k1) as Hv2.
  destruct (sys_bind _ _ _) as [r2 k2]. cbn in *.
  assert (opens_one (wview w) (kview k2) r) as Hone2 by (by rewrite Hv2).
  destruct (r2 =? SOCKET_ERROR)%Z; [|by intros [= <- <-]].
  run_call. cbn. set (w3 := World _ _).
  assert (v_open (wview w3) = v_open (wview w)) as Hw3.
  { unfold w3, wview. cbn. rewrite close_law. cbn. destruct Hone2 as [? ->].
    clear -Hfresh. set_solver. }
  intros Hl%IH. unfold opens_one in *. by rewrite Hw3 in Hl.
Qed.

Lemma create_listener_open port ow w o w' :
  TCPServer.create_listener port ow w = (o, w') →
  match o with
  | Ret fd => opens_one (wview w) (wview w') fd
  | Throw _ => v_open (wview w') = v_open (wview w) ∨ ∃ fd, opens_one (wview w) (wview w') fd
  | _ => False
  end.
Proof.
  unfold TCPServer.create_listener. run_call.
  pose proof (getaddrinfo_law (if ow then None else Some (lit "localhost")) (snprintf_d 15 port)
                TCPServer.hints (kern w)) as Hv.
  destruct (sys_getaddrinfo _ _ _ _) as [[rv info] k]. cbn [fst snd] in *.
  destruct (rv =? 0)%Z; cbn [negb].
  2: { intros [= <- <-]. left. unfold wview. cbn. by rewrite Hv. }
  rewrite run_bind. destruct (TCPServer.bind_loop info _) as [o1 w1] eqn:Hb.
  apply bind_loop_open in Hb. unfold wview at 1 in Hb. cbn in Hb.
  assert (∀ v, opens_one (kview k) v = opens_one (wview w) v) as Hone by (by rewrite Hv).
  change (wview (World k (logs w))) with (kview k) in Hb. rewrite Hv in Hb.
  change (kview (kern w)) with (wview w) in Hb. clear Hone.
  destruct o1 as [p| | |]; [|by intros [= <- <-]|done..].
  run_call. cbn. set (w2 := World _ _).
  assert (wview w2 = wview w1) as Hv2 by (unfold w2, wview; cbn; by rewrite freeaddrinfo_law).
  destruct p as [listener|]; [|run_raise; intros [= <- <-]; left; by rewrite Hv2].
  run_call. pose proof (listen_law listener SOMAXCONN (kern w2)) as Hv3.
  destruct (sys_listen _ _ _) as [r3 k3]. cbn in *.
  assert (opens_one (wview w) (kview k3) listener) as Hone.
  { rewrite Hv3. change (kview (kern w1)) with (wview w1). 
    unfold w2 in *. cbn in *. by rewrite freeaddrinfo_law. }
  destruct (r3 =? SOCKET_ERROR)%Z; [run_raise; intros [= <- <-]; right; by exists listener|].
  rewrite run_bind. destruct (run_logging_LOG "listening in port {}" [to_string port]
    (World k3 (logs w1))) as [l4 ->]. cbn [kern].
  rewrite run_bind. destruct (run_logging_DBG "with fd {}" [to_string listener]
    (World k3 l4)) as [l5 ->]. intros [= <- <-]. done.
Qed.

(** *** Accepting *)

(** What a returning [accept] leaves: the fresh descriptor, and no other change. *)
Lemma accept_open_run l w c w' :
  TCPServer.accept l w = (Ret c, w') →
  (c ∉ v_open (wview w)) ∧ wview w' = open_fd c (wview w).
Proof.
  unfold TCPServer.accept. run_call.
  destruct (sys_accept _ _) as [[r addr] k] eqn:Ha. cbn [fst snd].
  destruct (r =? INVALID_SOCKET)%Z eqn:Hr; [done|].
  match goal with |- ?m _ = _ → _ => set (tail := m) end.
  assert (preserves same_view tail) as Htail.
  { unfold tail. preserves_walk. apply mark_view. }
  intros Hm. pose proof (run_quiet _ _ _ _ Htail Hm) as Hw'.
  change (wview (World k (logs w))) with (kview k) in Hw'. rewrite Hw'. unfold tail in Hm.
  apply bind_ret_inv in Hm as ([r1 [h p]] & ? & _ & Hm).
  apply bind_ret_inv in Hm as (? & ? & _ & Hm).
  apply bind_ret_inv in Hm as (? & ? & _ & Hm). injection Hm as <- _.
  apply accept_law in Ha as [[-> _]|(_ & Hfresh & Hv)]; [done|]. by rewrite Hv.
Qed.

Lemma accept_open l w o w' :
  TCPServer.accept l w = (o, w') →
  match o with
  | Ret fd => opens_one (wview w) (wview w') fd
  | _ => v_open (wview w') = v_open (wview w) ∨ ∃ fd, opens_one (wview w) (wview w') fd
  end ∧ v_interest (wview w') = v_interest (wview w).
Proof.
  unfold TCPServer.accept. run_call.
  destruct (sys_accept _ _) as [[r addr] k] eqn:Ha. cbn [fst snd].
  apply accept_law in Ha as [[-> Hv]|(Hb & Hfresh & Hv)].
  { change (-1 =? INVALID_SOCKET)%Z with true. run_raise. intros [= <- <-].
    unfold wview. cbn. rewrite Hv. split; [by left|done]. }
  unfold INVALID_SOCKET. rewrite (proj2 (Z.eqb_neq r (-1))) by lia.
  match goal with |- ?m _ = _ → _ => set (tail := m) end.
  assert (preserves same_view tail) as Htail.
  { unfold tail. preserves_walk. apply mark_view. }
  intros Hm. pose proof (run_quiet _ _ _ _ Htail Hm) as Hw'.
  change (wview (World k (logs w))) with (kview k) in Hw'. rewrite Hw', Hv. split; [|done].
  assert (opens_one (wview w) (open_fd r (kview (kern w))) r) as Hone by done.
  destruct o as [fd| | |].
  - assert (fd = r) as ->; [|done]. unfold tail in Hm.
    apply bind_ret_inv in Hm as ([r1 [h p]] & ? & _ & Hm).
    apply bind_ret_inv in Hm as (? & ? & _ & Hm).
    apply bind_ret_inv in Hm as (? & ? & _ & Hm). by injection Hm as -> _.
  - right. by exists r.
  - right. by exists r.
  - right. by exists r.
Qed.

#[export] Instance tcp_server fuel :
  @ServerSpec TCPConnection.t K _ _ (TCPConnection.ops fuel) TCPServer.ops.
Proof.
  split.
  - intros l w c w' [[? ?] ?]%accept_open. done.
  - intros c w conn w' [= <- <-]. done.
Qed.

(** ** Theorems *)

(** C38: TCPServer::create_listener returns a descriptor that was not open before and is the
    only one it leaves open; when it throws it leaves nothing open, or the one socket it failed
    on. *)
Theorem create_listener_owns_fd port ow w o w' :
  TCPServer.create_listener port ow w = (o, w') →
  match o with
  | Ret fd => opens_one (wview w) (wview w') fd
  | Throw _ => v_open (wview w') = v_open (wview w) ∨ ∃ fd, opens_one (wview w) (wview w') fd
  | _ => False
  end.
Proof. apply create_listener_open. Qed.

(** [accept] returns a fresh descriptor and watches nothing; when it throws it leaves at most
    the one it accepted open. *)
Theorem accept_owns_fd l w o w' :
  TCPServer.accept l w = (o, w') →
  match o with
  | Ret fd => opens_one (wview w) (wview w') fd
  | _ => v_open (wview w') = v_open (wview w) ∨ ∃ fd, opens_one (wview w) (wview w') fd
  end ∧ v_interest (wview w') = v_interest (wview w).
Proof. apply accept_open. Qed.

(** When the flags of an accepted socket cannot be read, [accept] throws and the socket stays
    open. *)
Theorem accept_fcntl_failure_leaks l w fd addr k1 :
  is_win32 = false → sys_accept l (kern w) = ((fd, addr), k1) → fd ≠ INVALID_SOCKET →
  (∀ k, (sys_fcntl_getfl fd k).1 = (-1)%Z) →
  ∃ e w', TCPServer.accept l w = (Throw e, w') ∧ opens_one (wview w) (wview w') fd.
Proof.
  intros Hp Ha Hne Hf. destruct (TCPServer.accept l w) as [o w'] eqn:Hacc.
  unfold TCPServer.accept in Hacc. revert Hacc. run_call. rewrite Ha. cbn [fst snd].
  pose proof (accept_law _ _ _ _ _ Ha) as [[-> _]|(Hb & Hfresh & Hv)]; [done|].
  rewrite (proj2 (Z.eqb_neq fd INVALID_SOCKET)) by done. run_call.
  pose proof (getnameinfo_law addr k1) as Hv1.
  destruct (sys_getnameinfo addr k1) as [[r [h pt]] k2]. cbn [fst snd] in *.
  rewrite run_bind. destruct (run_logging_DBG "New connection from {}:{} as fd {}"
    [c_str h; c_str pt; to_string fd] (World k2 (logs w))) as [lg Hlg].
  assert (∃ lg', when (r =? 0)%Z (logging (DBG "New connection from {}:{} as fd {}"
    [c_str h; c_str pt; to_string fd])) (World k2 (logs w)) = (Ret (), World k2 lg')) as [lg' ->].
  { destruct (r =? 0)%Z; eexists; [exact Hlg|done]. }
  rewrite run_bind. unfold socket_mark_as_nonblocking. rewrite Hp. run_call.
  pose proof (getfl_law fd k2) as Hv3. specialize (Hf k2).
  destruct (sys_fcntl_getfl fd k2) as [fl k3]. cbn in *. subst fl. cbn.
  intros [= <- <-]. eexists _, _. split; [done|]. unfold wview. cbn.
  rewrite Hv3, Hv1, Hv. done.
Qed.

(** socket_mark_as_nonblocking sets the descriptor's flags to the old ones with exactly the
    O_NONBLOCK bit added, and throws when that fails. *)
Theorem mark_as_nonblocking fd w flags k1 r k2 :
  is_win32 = false → sys_fcntl_getfl fd (kern w) = (flags, k1) → flags ≠ (-1)%Z →
  sys_fcntl_setfl fd (Z.lor flags O_NONBLOCK) k1 = (r, k2) →
  socket_mark_as_nonblocking fd w =
    (if (r <? 0)%Z
     then Throw (NonRecoverableException (lit "error marking socket as non-blocking"))
     else Ret (), World k2 (logs w)) ∧
  Z.testbit (Z.lor flags O_NONBLOCK) 11 = true ∧
  ∀ i, i ≠ 11%Z → Z.testbit (Z.lor flags O_NONBLOCK) i = Z.testbit flags i.
Proof.
  intros Hp Hg Hne Hs. split; [|split].
  - unfold socket_mark_as_nonblocking. rewrite Hp. run_call. rewrite Hg. cbn [fst snd].
    rewrite (proj2 (Z.eqb_neq _ _)) by done. run_call. rewrite Hs. cbn [fst snd].
    by destruct (r <? 0)%Z.
  - rewrite Z.lor_spec. apply orb_true_iff. by right.
  - intros i Hi. rewrite Z.lor_spec. unfold O_NONBLOCK. change 2048%Z with (2 ^ 11)%Z.
    rewrite Z.pow2_bits_false by done. by rewrite orb_false_r.
Qed.
End tcp.

(** ** TLS *)

Section ssl.
Context {K : Type} `{OpenSSLLaws K} `{Platform}.

(** The outcome of the handshake decides what the constructor does: an
    unfinished one is accepted, and only a queued error is noticed. *)
Definition handshake_result (fd ssl r : Z) (e : option bytes) : outcome SSLConnection.t :=
  if (r <=? 0)%Z then
    match e with
    | Some str => Throw (runtime_error (lit "ssl server: {}" ++ str))
    | None => Ret (SSLConnection.Make fd ssl)
    end
  else Ret (SSLConnection.Make fd ssl).

Lemma ssl_make_run fd ctx w o w' :
  SSLConnection.make fd ctx w = (o, w') →
  ∃ k ssl r e, o = handshake_result fd ssl r e ∧ io_only (wview w) (kview k) ∧
    if is_ret o then io_only (wview w) (wview w') else closes fd (wview w) (wview w').
Proof.
  unfold SSLConnection.make, unwinding. run_call.
  pose proof (SSL_new_law ctx (kern w)) as (ssl & Hssl & Hv).
  destruct (SSL_new ctx (kern w)) as [ssl' k1]. cbn in Hssl, Hv. subst ssl'. cbn [fst snd].
  run_call. pose proof (SSL_set_fd_law ssl fd k1) as Hv2.
  destruct (SSL_set_fd ssl fd k1) as [r2 k2]. cbn [fst snd] in *. run_call.
  pose proof (SSL_accept_law ssl k2) as Hv3.
  destruct (SSL_accept ssl k2) as [r3 k3]. cbn [fst snd] in *.
  assert (io_only (wview w) (kview k3)) as Hio.
  { rewrite Hv3, Hv2. destruct Hv as [[_ ->]|[_ ->]]; done. }
  rewrite run_bind. unfold when, handshake_result.
  destruct (r3 <=? 0)%Z eqn:Hr3; cbn [negb].
  2: { intros [= <- <-]. exists k3, ssl, r3, None. rewrite Hr3. done. }
  unfold ERR_print_errors_cb. run_call. pose proof (ERR_take_error_law k3) as Hv4.
  destruct (ERR_take_error k3) as [[str|] k4]; cbn [fst snd] in *.
  2: { intros [= <- <-]. exists k3, ssl, r3, None. rewrite Hr3. cbn.
       unfold wview. cbn. by rewrite Hv4. }
  unfold SSLConnection.err. rewrite run_bind.
  destruct (run_logging_ERR "ssl server connection: {}" [str] (World k4 (logs w))) as [l5 ->].
  cbn. unfold SSLConnection.base_destroy. rewrite run_bind, run_bind, run_sys. cbn.
  intros [= <- <-]. exists k3, ssl, r3, (Some str). rewrite Hr3. split; [done|].
  split; [done|]. cbn. unfold wview. cbn. rewrite close_law, Hv4.
  destruct Hio as [Ho Hi]. split; cbn; [by rewrite Ho|by rewrite Hi].
Qed.

#[export] Instance ssl_server ctx fuel :
  @ServerSpec SSLConnection.t K _ _ (SSLConnection.ops fuel) (SSLServer.ops ctx).
Proof.
  split.
  - intros l w c w' [[? ?] ?]%accept_open. done.
  - intros c w conn w' (k & ssl & r & e & Ho & _ & Hv)%ssl_make_run. split; [|done].
    unfold handshake_result in Ho. repeat case_match; by simplify_eq.
Qed.

Lemma load_keys_view cert key : preserves same_view (SSLServer.load_keys (K:=K) cert key).
Proof.
  unfold SSLServer.load_keys, ERR_print_errors_cb, SSLServer.err. preserves_walk.
Qed.

Lemma print_errors_ends : ends (ERR_print_errors_cb (K:=K) SSLServer.err).
Proof.
  unfold ERR_print_errors_cb, SSLServer.err. apply ends_bind; [auto with ends|].
  intros []; auto with ends.
Qed.

Lemma load_keys_ends cert key : ends (SSLServer.load_keys (K:=K) cert key).
Proof.
  pose proof print_errors_ends. unfold SSLServer.load_keys.
  repeat first [apply ends_bind; [auto with ends|intros ?] | case_match | auto with ends].
Qed.

(** The constructor of SSLConnection owns the descriptor it is given: it returns a connection on
    it with nothing opened or closed, or throws and closes that descriptor and no other. *)
Theorem ssl_make_owns_fd fd ctx w o w' :
  SSLConnection.make fd ctx w = (o, w') →
  match o with
  | Ret c => SSLConnection.fd_ c = fd ∧ io_only (wview w) (wview w')
  | Throw _ => closes fd (wview w) (wview w')
  | _ => False
  end.
Proof.
  intros (k & ssl & r & e & -> & _ & Hv)%ssl_make_run. unfold handshake_result in *.
  repeat case_match; simplify_eq; done.
Qed.
End ssl.
