(* ===== verification/Network.v ===== *)
(** * The network behind the sockets

    What the [view] of [OS] leaves out and the delivery of data depends on: the
    bytes that have arrived on a descriptor and are not yet received, and the
    edges an epoll instance has not yet reported.  [NetworkLaws], [EpollNet] and
    [KqueueNet] state recv(2), epoll(7) and kqueue(2) in these terms;
    [ConnectionNet], [SessionNet], [ServerNet] and [PollerNet] are what the
    server's parts promise, with the instances of the TCP server. *)

From S2P Require Import Prelude Cpp Log OS Connection TCPConnection Session LineSession Poller.
From S2P Require Import PollerSpec Server ServerSpec TCPServer TCPServerSpec.

(** ** The state of the network *)

Record net := Net {
  unread : SOCKET → bytes;
  (** an instance and a descriptor it will report *)
  edges : gset (Z * Z);
  (** an instance and a descriptor it watches with [EPOLLET] *)
  edge_mode : gset (Z * Z) }.

Class Network (K : Type) := knet : K → net.

Definition same_net (n n' : net) : Prop :=
  (∀ c, unread n' c = unread n c) ∧ edges n' = edges n ∧ edge_mode n' = edge_mode n.

#[export] Instance same_net_equivalence : Equivalence same_net.
Proof.
  unfold same_net. split; [done|by intros n n' (? & ? & ?)|].
  intros n1 n2 n3 (H1 & ? & ?) (H2 & ? & ?). split_and!; [|congruence..]. intros c. by rewrite H2.
Qed.

(** On [fd] only [r] is left to read. *)
Definition net_read (fd : SOCKET) (r : bytes) (n n' : net) : Prop :=
  (∀ c, unread n' c = if decide (c = fd) then r else unread n c) ∧
  edges n' = edges n ∧ edge_mode n' = edge_mode n.

(** [fd] has been closed. *)
Definition net_close (fd : SOCKET) (n n' : net) : Prop :=
  (∀ c, c ≠ fd → unread n' c = unread n c) ∧
  edges n' = filter (λ p, p.1 ≠ fd ∧ p.2 ≠ fd) (edges n) ∧
  edge_mode n' = filter (λ p, p.1 ≠ fd ∧ p.2 ≠ fd) (edge_mode n).

(** [fd] is a new connection, on which something may have arrived. *)
Definition net_accept (fd : SOCKET) (n n' : net) : Prop :=
  (∀ c, c ≠ fd → unread n' c = unread n c) ∧ edges n' = edges n ∧ edge_mode n' = edge_mode n.

(** The peer of [fd] does something: the bytes [d] arrive, none for a hang-up.
    Every instance that watches [fd] gets an edge. *)
Definition net_arrive (fd : SOCKET) (d : bytes) (v : view) (n n' : net) : Prop :=
  (∀ c, unread n' c = if decide (c = fd) then unread n fd ++ d else unread n c) ∧
  edges n' = filter (λ p, p.2 = fd) (v_interest v) ∪ edges n ∧ edge_mode n' = edge_mode n.

Lemma same_read fd r n n' n'' : net_read fd r n n' → same_net n' n'' → net_read fd r n n''.
Proof.
  intros (Hu & ? & ?) (Hu' & ? & ?). split_and!; [|congruence..]. intros c. by rewrite Hu', Hu.
Qed.

Lemma same_accept fd n n' n'' : net_accept fd n n' → same_net n' n'' → net_accept fd n n''.
Proof.
  intros (Hu & ? & ?) (Hu' & ? & ?). split_and!; [|congruence..]. intros c ?. by rewrite Hu', Hu.
Qed.

Lemma net_read_nothing fd n n' : unread n fd = [] → same_net n n' → net_read fd [] n n'.
Proof. intros Hn (Hu & ? & ?). split_and!; [|done..]. intros c. rewrite Hu. case_decide; by subst. Qed.

(** ** The system calls *)

Class NetworkLaws (K : Type) `{KernelLaws K} `{!Network K} := {
  (** [recv] returns what is there, up to the size asked for *)
  recv_net fd n k r d k' :
    sys_recv fd n k = ((r, d), k') →
    r = (-1)%Z ∧ same_net (knet k) (knet k') ∧
      (errno k' = EAGAIN ∨ WSAGetLastError k' = WSAEWOULDBLOCK → unread (knet k) fd = []) ∨
    (0 ≤ r)%Z ∧ d = take n (unread (knet k) fd) ∧
      net_read fd (drop n (unread (knet k) fd)) (knet k) (knet k');
  send_net fd d k : same_net (knet k) (knet (sys_send fd d k).2);
  close_net fd k : net_close fd (knet k) (knet (sys_close fd k).2);
  accept_net l k r a k' :
    sys_accept l k = ((r, a), k') →
    r = (-1)%Z ∧ same_net (knet k) (knet k') ∨ net_accept r (knet k) (knet k');
  getnameinfo_net a k : same_net (knet k) (knet (sys_getnameinfo a k).2);
  getfl_net fd k : same_net (knet k) (knet (sys_fcntl_getfl fd k).2);
  setfl_net fd fl k : same_net (knet k) (knet (sys_fcntl_setfl fd fl k).2);
  ioctlsocket_net fd m k : same_net (knet k) (knet (sys_ioctlsocket_fionbio fd m k).2);
}.

(** epoll(7), of descriptors watched for input: an edge is made when bytes
    arrive, and when a descriptor with unread bytes is added; a wait takes back
    the edges it reports, and those of descriptors with nothing to read.  With
    [EPOLLET] nothing is reported without an edge. *)
Class EpollNet (K : Type) `{NetworkLaws K} `{!Epoll K} := {
  epoll_add_net ep fd ev k k' :
    epoll_ctl_add ep fd ev k = (0%Z, k') →
    (∀ c, unread (knet k') c = unread (knet k) c) ∧
    edges (knet k) ⊆ edges (knet k') ∧ edges (knet k') ⊆ {[(ep, fd)]} ∪ edges (knet k) ∧
    (has ev EPOLLIN = true → unread (knet k) fd ≠ [] → (ep, fd) ∈ edges (knet k')) ∧
    edge_mode (knet k') =
      if has ev EPOLLET then {[(ep, fd)]} ∪ edge_mode (knet k) else edge_mode (knet k) ∖ {[(ep, fd)]};
  epoll_del_net ep fd k k' :
    epoll_ctl_del ep fd k = (0%Z, k') →
    (∀ c, unread (knet k') c = unread (knet k) c) ∧
    edges (knet k') = edges (knet k) ∖ {[(ep, fd)]} ∧
    edge_mode (knet k') = edge_mode (knet k) ∖ {[(ep, fd)]};
  epoll_wait_net ep n t k r evs k' :
    epoll_wait ep n t k = ((r, evs), k') →
    (∀ c, unread (knet k') c = unread (knet k) c) ∧ edges (knet k') ⊆ edges (knet k) ∧
    edge_mode (knet k') = edge_mode (knet k) ∧
    (∀ q, q ∈ edges (knet k) → q ∈ edges (knet k') ∨
       q.1 = ep ∧ (q.2 ∈ evs.*1 ∨ unread (knet k) q.2 = [])) ∧
    Forall (λ e, (unread (knet k) e.1 ≠ [] → has e.2 EPOLLIN = true) ∧
      ((ep, e.1) ∈ edge_mode (knet k) → (ep, e.1) ∈ edges (knet k) ∧ (ep, e.1) ∉ edges (knet k')))
      evs ∧
    (n ≠ 0 → r = 0%Z → ∀ fd, fd ∈ watched ep (kview k) → (ep, fd) ∈ edges (knet k) →
       unread (knet k) fd = []);
}.

(** kqueue(2) without [EV_CLEAR]: a descriptor is reported as long as it has
    unread bytes. *)
Class KqueueNet (K : Type) `{NetworkLaws K} `{!Kqueue K} := {
  kevent_add_net kq fd k : same_net (knet k) (knet (kevent_add kq fd k).2);
  kevent_delete_net kq fd k : same_net (knet k) (knet (kevent_delete kq fd k).2);
  kevent_wait_net kq n t k r evs k' :
    kevent_wait kq n t k = ((r, evs), k') →
    same_net (knet k) (knet k') ∧
    (r = 0%Z → ∀ fd, fd ∈ watched kq (kview k) → unread (knet k) fd = []);
}.

(** ** The parts of the server *)

Section interfaces.
Context {K : Type} `{KernelLaws K} `{!Network K}.

Definition wnet (w : world K) : net := knet (kern w).

(** A [recv] takes one buffer of what is there. *)
Definition one_buffer (fd : SOCKET) (n n' : net) : Prop :=
  net_read fd (drop RECV_BUF_SZ (unread n fd)) n n'.

Class ConnectionNet (C : Type) `{!ConnectionOps C (world K)} := {
  conn_recv_net c w d w' :
    conn_recv c w = (Ret d, w') → one_buffer (conn_fd c) (wnet w) (wnet w');
  conn_send_net c d w w' :
    conn_send c d w = (Ret (), w') → same_net (wnet w) (wnet w');
  conn_destroy_net c w w' :
    conn_destroy c w = (Ret (), w') → net_close (conn_fd c) (wnet w) (wnet w');
}.

Class SessionNet (Se : Type) `{!SessionOps Se (world K)} := {
  session_iteration_net s w s' w' :
    session_iteration (s, w) = (Ret (), (s', w')) →
    one_buffer (session_fd s) (wnet w) (wnet w');
  session_destroy_net s w w' :
    session_destroy s w = (Ret (), w') → net_close (session_fd s) (wnet w) (wnet w');
}.

Class ServerNet (C : Type) `{!ServerOps C (world K)} := {
  server_accept_net l w c w' :
    server_accept l w = (Ret c, w') → net_accept c (wnet w) (wnet w');
  server_create_net c w conn w' :
    server_create_connection c w = (Ret conn, w') → same_net (wnet w) (wnet w');
}.

(** [owes p c n]: should [c] have unread bytes, the poller will report it.
    [level] pollers go on reporting until everything is read. *)
Class PollerNet (P : Type) `{!PollerOps P (world K)} `{!PollerSpec P K} := {
  level : Prop;
  owes : P → SOCKET → net → Prop;
  timed_out : Z → P → world K → Prop;
  owes_same p c n n' : same_net n n' → owes p c n → owes p c n';
  owes_other p c fd r n n' : net_read fd r n n' → c ≠ fd → owes p c n → owes p c n';
  owes_emptied p fd r n n' : net_read fd r n n' → level ∨ r = [] → owes p fd n';
  owes_close p c fd n n' :
    net_close fd n n' → c ≠ fd → poller_fd p ≠ fd → owes p c n → owes p c n';
  owes_accept p c fd n n' : net_accept fd n n' → c ≠ fd → owes p c n → owes p c n';
  owes_arrive p c fd d v n n' :
    net_arrive fd d v n n' → c ∈ watched (poller_fd p) v → owes p c n → owes p c n';
  poller_wait_net t p w evs p' w' :
    poller_wait t (p, w) = (Ret evs, (p', w')) →
    (∀ c, unread (wnet w') c = unread (wnet w) c) ∧
    ∀ c, c ≠ poller_listener p → owes p c (wnet w) → c ∈ client_fds evs ∨ owes p c (wnet w');
  poller_add_net c0 p w p' w' :
    poller_add_client c0 (p, w) = (Ret (), (p', w')) →
    (∀ c, unread (wnet w') c = unread (wnet w) c) ∧
    owes p c0 (wnet w') ∧ ∀ c, owes p c (wnet w) → owes p c (wnet w');
  timed_out_spec t p w : timed_out t p w →
    (∃ w', poller_wait t (p, w) = (Ret [], (p, w'))) ∧
    ∀ c, c ∈ watched (poller_fd p) (wview w) → owes p c (wnet w) → unread (wnet w) c = [];
}.

(** An edge-triggered poller reports a client it watches with [EPOLLET] only
    with an edge, which it takes back. *)
Class PollerEdges (P : Type) `{!PollerOps P (world K)} `{!PollerSpec P K} := {
  poller_wait_edges t p w evs p' w' :
    poller_wait t (p, w) = (Ret evs, (p', w')) →
    edges (wnet w') ⊆ edges (wnet w) ∧
    (∀ c, (poller_fd p, c) ∈ edge_mode (wnet w) →
       c ∈ disconnected evs ∨ (poller_fd p, c) ∈ edge_mode (wnet w')) ∧
    (∀ c, c ∈ client_fds evs → (poller_fd p, c) ∈ edge_mode (wnet w) →
       (poller_fd p, c) ∈ edges (wnet w) ∧ (poller_fd p, c) ∉ edges (wnet w'));
  poller_add_edges c0 p w p' w' :
    poller_add_client c0 (p, w) = (Ret (), (p', w')) →
    edges (wnet w') ⊆ {[(poller_fd p, c0)]} ∪ edges (wnet w) ∧
    edge_mode (wnet w') = {[(poller_fd p, c0)]} ∪ edge_mode (wnet w);
}.

(** *** What is not reported *)

Section silence.
Context {P : Type} `{!PollerOps P (world K)} `{!PollerSpec P K}.

(** Without a new edge the poller will not report [c]. *)
Definition silent (p : P) (c : SOCKET) (n : net) : Prop :=
  (poller_fd p, c) ∈ edge_mode n ∧ (poller_fd p, c) ∉ edges n.

Lemma silent_same p c n n' : same_net n n' → silent p c n → silent p c n'.
Proof. unfold silent. by intros (_ & -> & ->). Qed.

Lemma silent_read p c fd r n n' : net_read fd r n n' → silent p c n → silent p c n'.
Proof. unfold silent. by intros (_ & -> & ->). Qed.

Lemma silent_close p c fd n n' :
  net_close fd n n' → c ≠ fd → poller_fd p ≠ fd → silent p c n → silent p c n'.
Proof. unfold silent. intros (_ & -> & ->) Hne Hp [??]. rewrite !elem_of_filter. naive_solver. Qed.

Lemma silent_accept p c fd n n' : net_accept fd n n' → silent p c n → silent p c n'.
Proof. unfold silent. by intros (_ & -> & ->). Qed.

Lemma silent_arrive p c fd d v n n' : net_arrive fd d v n n' → c ≠ fd → silent p c n → silent p c n'.
Proof.
  unfold silent. intros (_ & -> & ->) Hne [??]. rewrite elem_of_union, elem_of_filter. naive_solver.
Qed.

Context `{!PollerEdges P}.

Lemma silent_wait t p w evs p' w' c :
  poller_wait t (p, w) = (Ret evs, (p', w')) → silent p c (wnet w) →
  (c ∉ client_fds evs) ∧ silent p c (wnet w').
Proof.
  intros (He & Hm & Hc)%poller_wait_edges [Hmode Hedge].
  assert (c ∉ client_fds evs) as Hn by (intros Hin; by destruct (Hc c Hin Hmode)).
  split; [done|]. split; [|by intros ?%He]. destruct (Hm c Hmode) as [Hd|]; [|done].
  exfalso. apply Hn. unfold disconnected, client_fds in *. rewrite list_elem_of_omap in Hd |- *.
  destruct Hd as (e & ? & He'). exists e. split; [done|]. by destruct (type e).
Qed.

Lemma silent_add c0 p w p' w' c :
  poller_add_client c0 (p, w) = (Ret (), (p', w')) → c ≠ c0 →
  silent p c (wnet w) → silent p c (wnet w').
Proof.
  intros [He Hm]%poller_add_edges Hne [Hmode Hedge]. split; [rewrite Hm; set_solver|].
  intros Hin%He. set_solver.
Qed.
End silence.
End interfaces.

(** ** The plain socket and its sessions *)

Section instances.
Context {K : Type} `{NetworkLaws K} `{Platform}.

(** [same_net] as a relation of worlds, for calls that leave the network alone. *)
Definition net_kept (w w' : world K) : Prop := same_net (wnet w) (wnet w').

#[local] Instance net_kept_preorder : PreOrder net_kept.
Proof. unfold net_kept. split; [by intros w|]. intros w1 w2 w3 ? ?. by etrans. Qed.

Lemma sys_net_kept {A} (f : K → A * K) :
  (∀ k, same_net (knet k) (knet (f k).2)) → preserves net_kept (sys f).
Proof. intros Hf w. rewrite run_sys. apply Hf. Qed.

Lemma logging_net_kept {A} (m : M LogState A) : preserves net_kept (logging (K:=K) m).
Proof. intros w. unfold logging, zoom. by destruct (m (logs w)). Qed.

Lemma throw_errno_kept {A} e what : preserves net_kept (throw_errno (A:=A) (K:=K) e what).
Proof. intros w. by rewrite run_throw_errno. Qed.
#[local] Hint Resolve logging_net_kept throw_errno_kept : preserves.

Lemma kept_run {A} (m : M (world K) A) w o w' :
  preserves net_kept m → m w = (o, w') → same_net (wnet w) (wnet w').
Proof. intros Hm Hr. specialize (Hm w). by rewrite Hr in Hm. Qed.

Lemma send_loop_kept call data fuel pos :
  (∀ k, same_net (knet k) (knet (call k).2)) →
  preserves net_kept (send_loop (K:=K) call data fuel pos).
Proof.
  intros Hc. revert pos. induction fuel as [|fuel IH]; intros pos; cbn [send_loop]; preserves_walk.
  by apply sys_net_kept.
Qed.

#[export] Instance tcp_net fuel :
  @ConnectionNet K _ TCPConnection.t (TCPConnection.ops fuel).
Proof.
  split.
  - intros c w d w'. change conn_recv with (TCPConnection.recv (K:=K)).
    destruct (sys_recv (TCPConnection.fd_ c) RECV_BUF_SZ (kern w)) as [[r data] k] eqn:Hr.
    rewrite (TCPConnection.tcp_recv_run _ _ _ _ _ Hr). intros [= Ho <-].
    apply recv_net in Hr as [(-> & Hn & Hblock)|(Hr & _ & Hn)]; [|exact Hn].
    cbn in Ho. unfold recv_failure in Ho. cbn in Ho.
    assert (unread (wnet w) (TCPConnection.fd_ c) = []) as He.
    { apply Hblock. destruct (is_win32 && _).
      - destruct (Z.eqb_spec (WSAGetLastError k) WSAEWOULDBLOCK); [by right|done].
      - destruct (Z.eqb_spec (errno k) EAGAIN); [by left|done]. }
    unfold one_buffer. cbn. rewrite He, drop_nil. by apply net_read_nothing.
  - intros c d w w' Hs. refine (kept_run _ _ _ _ (send_loop_kept _ _ _ _ _) Hs).
    intros k. apply send_net.
  - intros c w w'. change conn_destroy with (TCPConnection.destroy (K:=K)).
    unfold TCPConnection.destroy. rewrite run_bind, run_sys. intros [= <-]. apply close_net.
Qed.

Section sessions.
Context {C PS : Type} `{!ConnectionOps C (world K)} `{!ConnectionSpec C K} `{!ConnectionNet C}.
Variable process : bytes → M PS bytes.

Lemma recv_send_net c d resp w w1 w2 :
  conn_recv c w = (Ret d, w1) → conn_send c resp w1 = (Ret (), w2) →
  one_buffer (conn_fd c) (wnet w) (wnet w2).
Proof. intros Hr%conn_recv_net Hs%conn_send_net. by eapply same_read. Qed.

#[export] Instance session_net : @SessionNet K _ (Session.t C PS) (Session.ops process).
Proof.
  split.
  - intros s w s' w'. change session_iteration with (Session.iteration process).
    rewrite Session.session_iteration_run.
    destruct (conn_recv _ w) as [[d| | |] w1] eqn:Hr; [|done..].
    destruct d as [|b d]; [intros [= <- <-]; exact (conn_recv_net _ _ _ _ Hr)|].
    destruct (process _ _) as [[resp| | |] p]; [|done..].
    destruct (conn_send _ resp w1) as [[[]| | |] w2] eqn:Hs; [|done..]. intros [= <- <-].
    exact (recv_send_net _ _ _ _ _ _ Hr Hs).
  - intros s w w'. apply conn_destroy_net.
Qed.

#[export] Instance line_session_net fuel :
  @SessionNet K _ (LineSession.t C PS) (LineSession.ops process fuel).
Proof.
  split.
  - intros s w s' w'. change session_iteration with (LineSession.iteration process fuel).
    rewrite LineSession.line_iteration_run.
    destruct (conn_recv _ w) as [[d| | |] w1] eqn:Hr; [|done..].
    set (s0 := LineSession.set_buffer _ s).
    pose proof (LineSession.line_loop_setup process fuel 0 [] s0) as (Hc & _).
    destruct (LineSession.line_loop _ _ _ _ _) as [[resp| | |] s1]; [|done..]. cbn in Hc.
    destruct (conn_send _ resp w1) as [[[]| | |] w2] eqn:Hs; [|done..]. intros [= <- <-].
    cbn. unfold LineSession.fd, Session.fd. rewrite Hc in Hs. exact (recv_send_net _ _ _ _ _ _ Hr Hs).
  - intros s w w'. apply conn_destroy_net.
Qed.
End sessions.

#[export] Instance tcp_server_net : @ServerNet K _ TCPConnection.t TCPServer.ops.
Proof.
  split.
  - intros l w c w'. change server_accept with (TCPServer.accept (K:=K)).
    unfold TCPServer.accept. run_call. destruct (sys_accept l (kern w)) as [[r a] k] eqn:Ha.
    cbn [fst snd]. destruct (r =? INVALID_SOCKET)%Z eqn:Hr; [done|]. intros Hm.
    assert (net_accept r (wnet w) (knet k)) as Hn.
    { apply accept_net in Ha as [[-> _]|Hn]; [done|exact Hn]. }
    match type of Hm with ?m _ = _ => set (tail := m) in Hm end.
    assert (preserves net_kept tail) as Htail.
    { unfold tail, socket_mark_as_nonblocking. preserves_walk.
      all: apply sys_net_kept; intros.
      - apply getnameinfo_net.
      - apply ioctlsocket_net.
      - apply getfl_net.
      - apply setfl_net. }
    pose proof (kept_run _ _ _ _ Htail Hm) as Hk. cbn in Hk.
    unfold tail in Hm. apply bind_ret_inv in Hm as ([r1 [h p]] & ? & _ & Hm).
    apply bind_ret_inv in Hm as (? & ? & _ & Hm). apply bind_ret_inv in Hm as (? & ? & _ & Hm).
    injection Hm as <- _. by eapply same_accept.
  - intros c w conn w' [= <- <-]. done.
Qed.
End instances.
