(* ===== verification/PollerNet.v ===== *)
(** * What the pollers report of what arrives

    The epoll poller adds its clients with [EPOLLET]: it reports a client once
    for what has arrived, and is silent about what is left unread.  The kqueue
    poller is level triggered: it owes nothing it has already reported, because
    it reports again. *)

From S2P Require Import Prelude Cpp Log OS Poller PollerSpec Server ServerSpec Network.

Section entries.
Context {K : Type} `{NetworkLaws K}.
Variables (ep server : Z) (well_formed : SOCKET * Z → Prop).
Variable classify : SOCKET * Z → list Event.
Variable del : SOCKET → K → Z * K.
Variables (failed : Z → bool) (message : string).
Variable scan : list (SOCKET * Z) → list Event → M (world K) (list Event).
Hypothesis loop : entry_loop ep server well_formed classify del failed message scan.

(** The removal of [fd] loses at most the edges of [fd]. *)
Hypothesis del_net : ∀ fd k r k', del fd k = (r, k') → failed r = false →
  (∀ c, unread (knet k') c = unread (knet k) c) ∧
  edges (knet k') ⊆ edges (knet k) ∧ (∀ q, q ∈ edges (knet k) → q.2 = fd ∨ q ∈ edges (knet k')) ∧
  (∀ q, q ∈ edge_mode (knet k) → q.2 = fd ∨ q ∈ edge_mode (knet k')).

Lemma scan_net entries evs w res w' :
  scan entries evs w = (Ret res, w') →
  let D := disconnected (entries ≫= classify) in
  (∀ c, unread (wnet w') c = unread (wnet w) c) ∧
  edges (wnet w') ⊆ edges (wnet w) ∧ (∀ q, q ∈ edges (wnet w) → q.2 ∈ D ∨ q ∈ edges (wnet w')) ∧
  (∀ q, q ∈ edge_mode (wnet w) → q.2 ∈ D ∨ q ∈ edge_mode (wnet w')).
Proof.
  destruct loop as [Hone _ _ _ Hnil Hcons]. revert evs w.
  induction entries as [|e entries IH]; intros evs w.
  { rewrite Hnil. intros [= <- <-]. cbn. auto. }
  rewrite Hcons. cbn [mbind list_bind]. rewrite disconnected_app.
  destruct (disconnected (classify e)) as [|fd l]; [apply IH|].
  destruct (del fd (kern w)) as [r k] eqn:Hr. destruct (failed r) eqn:Hf; [done|].
  intros Hs. destruct (IH _ _ Hs) as (Hu & He & Hq & Hm). destruct (del_net _ _ _ _ Hr Hf) as (Hu1 & He1 & Hq1 & Hm1).
  unfold wnet in *. cbn in Hu, He, Hq, Hm. split_and!.
  - intros c. by rewrite Hu, Hu1.
  - by etrans.
  - intros q [->|[?|?]%Hq]%Hq1; [left; left|left; right; set_solver|by right].
  - intros q [->|[?|?]%Hm]%Hm1; [left; left|left; right; set_solver|by right].
Qed.
End entries.

(** ** Linux *)

Section linux.
Context {K : Type} `{EpollNet K} `{!EpollLaws K}.
Import PollerLinux Linux.

Lemma epoll_del_keeps p fd k r k' :
  epoll_ctl_del (epoll_fd p) fd k = (r, k') → (r <? 0)%Z = false →
  (∀ c, unread (knet k') c = unread (knet k) c) ∧
  edges (knet k') ⊆ edges (knet k) ∧ (∀ q, q ∈ edges (knet k) → q.2 = fd ∨ q ∈ edges (knet k')) ∧
  (∀ q, q ∈ edge_mode (knet k) → q.2 = fd ∨ q ∈ edge_mode (knet k')).
Proof.
  intros Hd Hr. assert (r = 0%Z) as -> by by apply epoll_del_law in Hd as [[-> _]|[-> _]].
  apply epoll_del_net in Hd as (Hu & -> & ->). split_and!; [done|set_solver| |].
  all: intros [e c] Hq; destruct (decide (c = fd)); [by left|right; set_solver].
Qed.

(** What a wait that returns events has asked of the kernel. *)
Lemma linux_wait_run t p w evs w' :
  wait t p w = (Ret evs, w') →
  ∃ n entries k, epoll_wait (epoll_fd p) EVENT_BUFFER_SZ (to_int t) (kern w) = ((n, entries), k) ∧
    ((n < 0)%Z ∧ entries = [] ∧ evs = [] ∧ w' = World k (logs w) ∨
     (0 ≤ n)%Z ∧ scan p entries [] (World k (logs w)) = (Ret evs, w')).
Proof.
  unfold wait. rewrite run_bind, run_sys.
  destruct (epoll_wait _ _ _ _) as [[n entries] k] eqn:He. cbn. intros Hw.
  exists n, entries, k. split; [done|].
  apply epoll_wait_law in He as (_ & [[-> ->]|(Hb & Hlen & _)]).
  - left. cbn in Hw. rewrite run_bind in Hw. cbn in Hw. destruct (_ =? EINTR)%Z; [|done]. by injection Hw as <- <-.
  - right. rewrite (proj2 (Z.ltb_ge n 0)), <-Hlen, firstn_all in Hw by lia. split; [lia|done].
Qed.

Lemma classify_reported p entries c bits :
  (c, bits) ∈ entries → c ≠ server_fd_ p → has bits EPOLLIN = true →
  c ∈ client_fds (entries ≫= classify p).
Proof.
  intros Hc Hne Hb. apply list_elem_of_omap.
  assert (∃ e, e ∈ classify p (c, bits) ∧
    match type e with NewClient => None | _ => Some (fd e) end = Some c) as (e & He & Hfd).
  { unfold classify. cbn [fst snd]. rewrite (proj2 (Z.eqb_neq _ _)) by done.
    destruct (has bits (Z.lor EPOLLERR _)); [eexists; split; [left|done]|].
    assert (has bits (Z.lor EPOLLIN EPOLLET) = true) as ->; [|eexists; split; [left|done]].
    unfold has in *. rewrite negb_true_iff, Z.eqb_neq in *. intros Hz. apply Hb.
    rewrite Z.land_lor_distr_r, Z.lor_eq_0_iff in Hz. tauto. }
  exists e. split; [|done]. apply list_elem_of_bind. eauto.
Qed.

Lemma client_fds_reported p entries c :
  c ∈ client_fds (entries ≫= classify p) → c ∈ entries.*1.
Proof.
  unfold client_fds. rewrite list_elem_of_omap. intros (e & He & Hc).
  apply list_elem_of_bind in He as ([c' bits] & He & Hin). apply list_elem_of_fmap. exists (c', bits).
  split; [|done]. cbn. unfold classify in He. cbn [fst snd] in He.
  repeat case_match; set_solver.
Qed.

#[export] Instance linux_net : PollerNet t.
Proof.
  refine {| level := False;
            owes p c n := unread n c ≠ [] → (epoll_fd p, c) ∈ edges n;
            timed_out t p w := ∃ k,
              epoll_wait (epoll_fd p) EVENT_BUFFER_SZ (to_int t) (kern w) = ((0%Z, []), k) |}.
  - intros p c n n' (Hu & -> & _) Ho. by rewrite Hu.
  - intros p c fd r n n' (Hu & -> & _) Hne Ho. by rewrite Hu, decide_False.
  - intros p fd r n n' (Hu & _) [[]| ->]. by rewrite Hu, decide_True.
  - intros p c fd n n' (Hu & -> & _) Hne Hp Ho. rewrite Hu by done. intros Hc. cbn in Hp.
    apply elem_of_filter. auto.
  - intros p c fd n n' (Hu & -> & _) Hne Ho. by rewrite Hu.
  - intros p c fd d v n n' (Hu & -> & _) Hw Ho. rewrite Hu. apply elem_of_watched in Hw.
    case_decide as Hc; [intros _; apply elem_of_union_l, elem_of_filter; by subst|].
    intros Hne. apply elem_of_union_r. auto.
  - intros t p w evs p' w'. change poller_wait with (on_self (wait t)) || cbn. unfold on_self.
    destruct (wait t p w) as [o1 w1] eqn:Hw. intros [= -> <- <-].
    apply linux_wait_run in Hw as (n & entries & k & He & Hrun).
    apply epoll_wait_net in He as (Hu & _ & _ & Hq & Hall & _).
    destruct Hrun as [(_ & -> & -> & ->)|[_ Hs]].
    + split; [exact Hu|]. intros c _ Ho. right. unfold wnet in *. cbn. rewrite Hu. intros Hc.
      destruct (Hq _ (Ho Hc)) as [?|[_ [Hin|?]]]; [done|by apply elem_of_nil in Hin|done].
    + pose proof (entries_events _ _ _ _ _ _ _ _ (linux_loop p) _ _ _ _ Hs) as (-> & _ & _).
      apply (scan_net _ _ _ _ _ _ _ _ (linux_loop p) (epoll_del_keeps p)) in Hs as (Hu1 & _ & Hq1 & _).
      unfold wnet in *. cbn in Hu1, Hq1. split; [intros c; by rewrite Hu1, Hu|].
      intros c Hne Ho. destruct (decide (unread (knet (kern w)) c = [])) as [Hc|Hc].
      { right. rewrite Hu1, Hu. done. }
      destruct (Hq _ (Ho Hc)) as [Hin|[_ [Hin|?]]]; [| |done].
      * destruct (Hq1 _ Hin) as [Hd|Hin1]; [left; by apply disconnected_client|by right].
      * left. apply list_elem_of_fmap in Hin as ([c' bits] & Heq & Hin). cbn in Heq. subst c'.
        rewrite Forall_forall in Hall. destruct (Hall _ Hin) as [Hb _].
        by eapply classify_reported; [|done|apply Hb].
  - intros c0 p w p' w'. cbn. unfold on_self, add_client. rewrite run_bind, run_sys.
    destruct (epoll_ctl_add _ _ _ _) as [r k] eqn:Ha. cbn. destruct (Z.ltb_spec r 0); [done|].
    intros [= <- <-]. assert (r = 0%Z) as ->.
    { by apply epoll_add_law in Ha as [[-> _]|[-> _]]. }
    apply epoll_add_net in Ha as (Hu & He & _ & Hnew & _). unfold wnet. cbn. split; [exact Hu|].
    split; [intros Hc; apply Hnew; [done|by rewrite <-Hu]|].
    intros c Ho Hc. apply He, Ho. by rewrite <-Hu.
  - intros t p w [k Hk]. split.
    + exists (World k (logs w)). cbn. unfold on_self, wait. rewrite run_bind, run_sys, Hk. done.
    + apply epoll_wait_net in Hk as (_ & _ & _ & _ & _ & Hz). intros c Hc Ho.
      destruct (decide (unread (wnet w) c = [])); [done|]. apply Hz; auto.
Defined.

#[export] Instance linux_edges : PollerEdges t.
Proof.
  split.
  - intros t p w evs p' w'. cbn. unfold on_self.
    destruct (wait t p w) as [o1 w1] eqn:Hw. intros [= -> <- <-].
    apply linux_wait_run in Hw as (n & entries & k & Hk & Hrun).
    apply epoll_wait_net in Hk as (_ & Hsub & Hmode & _ & Hall & _). cbn.
    destruct Hrun as [(_ & -> & -> & ->)|[_ Hs]].
    { unfold wnet in *. cbn. rewrite Hmode. split_and!; [done|auto|by intros c ?%elem_of_nil]. }
    pose proof (entries_events _ _ _ _ _ _ _ _ (linux_loop p) _ _ _ _ Hs) as (-> & _ & _).
    apply (scan_net _ _ _ _ _ _ _ _ (linux_loop p) (epoll_del_keeps p)) in Hs as (_ & Hsub1 & _ & Hm1).
    unfold wnet in *. cbn in Hsub1, Hm1. rewrite Hmode in Hm1. split_and!.
    + by etrans.
    + intros c Hc. apply (Hm1 _ Hc).
    + intros c ([c' b] & Heq & Hin)%client_fds_reported%list_elem_of_fmap Hm. cbn in Heq. subst c'.
      rewrite Forall_forall in Hall. destruct (Hall _ Hin) as [_ He]. destruct (He Hm) as [??].
      split; [done|]. by intros ?%Hsub1.
  - intros c0 p w p' w'. cbn. unfold on_self, add_client. rewrite run_bind, run_sys.
    destruct (epoll_ctl_add _ _ _ _) as [r k] eqn:Ha. cbn. destruct (Z.ltb_spec r 0); [done|].
    intros [= <- <-]. assert (r = 0%Z) as ->.
    { by apply epoll_add_law in Ha as [[-> _]|[-> _]]. }
    apply epoll_add_net in Ha as (_ & _ & Hsub & _ & Hmode). unfold wnet. cbn. split; [exact Hsub|].
    rewrite Hmode. reflexivity.
Defined.
End linux.

(** ** BSD and macOS *)

Section bsd.
Context {K : Type} `{KqueueNet K} `{!KqueueLaws K}.
Import PollerBsd Bsd.

Lemma kevent_del_keeps p fd k r k' :
  kevent_delete (kqueue_fd p) fd k = (r, k') → same_net (knet k) (knet k').
Proof. intros Hd. pose proof (kevent_delete_net (kqueue_fd p) fd k) as Hn. by rewrite Hd in Hn. Qed.

#[export] Instance bsd_net : PollerNet t.
Proof.
  refine {| level := True; owes _ _ _ := True;
            timed_out t p w := ∃ k,
              kevent_wait (kqueue_fd p) EVENT_BUFFER_SZ (timespec t) (kern w) = ((0%Z, []), k) |};
    try done.
  - intros t p w evs p' w'. cbn. unfold on_self.
    destruct (wait t p w) as [o1 w1] eqn:Hw. intros [= -> <- <-]. split; [|by right].
    unfold wait in Hw. rewrite run_bind, run_sys in Hw.
    destruct (kevent_wait _ _ _ _) as [[n entries] k] eqn:He. cbn [fst snd] in Hw.
    rewrite run_bind in Hw. cbn in Hw. destruct (_ && _) in Hw; [done|].
    apply kevent_wait_net in He as [(Hu & _) _].
    apply (scan_net _ _ _ _ _ _ _ _ (bsd_loop p)) in Hw as (Hu1 & _).
    + intros c. rewrite Hu1. apply Hu.
    + intros fd0 k0 r0 k0' (? & -> & ->)%kevent_del_keeps _. auto.
  - intros c0 p w p' w'. cbn. unfold on_self, add_client. rewrite run_bind, run_sys.
    pose proof (kevent_add_net (kqueue_fd p) c0 (kern w)) as (Hu & _).
    destruct (kevent_add _ _ _) as [r k]. cbn in *. destruct (Z.ltb_spec r 0); [done|].
    by intros [= <- <-].
  - intros t p w [k Hk]. split.
    + exists (World k (logs w)). cbn. unfold on_self, wait. rewrite run_bind, run_sys, Hk. done.
    + apply kevent_wait_net in Hk as [_ Hz]. intros c Hc _. by apply (Hz eq_refl).
Defined.
End bsd.
