(* ===== verification/Delivery.v ===== *)
(** * Is everything that arrives read?

    [System] is the machine of [Server] with the network's own steps between
    those of the program: bytes arrive on a connection, a peer hangs up.  While
    a client has unread bytes, the poller owes a report of it, or the batch at
    hand speaks of it, or a worker has it in its queue - as long as no more than
    one buffer of bytes waits at a time, or the poller is level triggered.  With
    the edge-triggered poller, what exceeds the buffer stays unread until the
    client does something else. *)

From S2P Require Import Prelude Cpp Log OS Connection Session Threads ThreadsSpec Poller.
From S2P Require Import PollerSpec Server ServerSpec Network PollerNet.
Import Server Machine.

Module System.
Inductive label :=
  | Inner (l : Machine.label)
  (** the peer of a connection sends, or hangs up *)
  | Arrives (fd : SOCKET) (d : bytes)
  (** what concerns no accepted connection *)
  | Elsewhere.

Section system.
Context {C P Se K : Type} `{KernelLaws K} `{!Network K} `{!PollerOps P (world K)}
  `{!SessionOps Se (world K)} `{!ServerOps C (world K)} `{!ProtocolOps C Se}.

Inductive step : config P Se (world K) → label → config P Se (world K) → Prop :=
  | sys_inner c l c' : Machine.step c l c' → step c (Inner l) c'
  | sys_arrives s w p fd d k' :
      kview k' = wview w → net_arrive fd d (wview w) (wnet w) (knet k') →
      step (Config s w p) (Arrives fd d) (Config s (World k' (logs w)) p)
  | sys_elsewhere s w p k' :
      kview k' = wview w → same_net (wnet w) (knet k') →
      step (Config s w p) Elsewhere (Config s (World k' (logs w)) p).

(** Runs whose states before each step are all in [Q]. *)
Inductive steps (Q : config P Se (world K) → Prop) :
    config P Se (world K) → list label → config P Se (world K) → Prop :=
  | steps_refl c : steps Q c [] c
  | steps_step c1 l c2 ls c3 : Q c1 → step c1 l c2 → steps Q c2 ls c3 → steps Q c1 (l :: ls) c3.

Lemma system_steps_app Q c1 ls1 c2 ls2 c3 :
  steps Q c1 ls1 c2 → steps Q c2 ls2 c3 → steps Q c1 (ls1 ++ ls2) c3.
Proof. induction 1; cbn; eauto using steps. Qed.

Lemma system_steps_any (Q : config P Se (world K) → Prop) c ls c' :
  steps Q c ls c' → steps (λ _, True) c ls c'.
Proof. induction 1; eauto using steps. Qed.

(** *** The server's own steps, by what its calls return *)

Definition at_test (x : t P Se * world K) : config P Se (world K) := Config x.1 x.2 AtTest.
Definition at_wait (x : t P Se * world K) : config P Se (world K) := Config x.1 x.2 AtWait.
Definition handling (evs : list Event) (x : t P Se * world K) : config P Se (world K) :=
  Config x.1 x.2 (Handling evs).

Lemma test_step x : running_ x.1 = true → step (at_test x) (Inner LTest) (at_wait x).
Proof.
  destruct x as [s w]. cbn. intros Hr. constructor. pose proof (s_test s w) as Ht. by rewrite Hr in Ht.
Qed.

Lemma wait_step x evs x1 :
  on_poller (poller_wait default_timeout) x = (Ret evs, x1) →
  step (at_wait x) (Inner LWait) (handling evs x1).
Proof. destruct x, x1. by do 2 constructor. Qed.

Lemma event_step e evs x x1 :
  handle e x = (Ret (), x1) → Machine.step (handling (e :: evs) x) (LEvent e) (handling evs x1).
Proof. destruct x, x1. by constructor. Qed.

Lemma end_step x : step (handling [] x) (Inner LEnd) (at_test x).
Proof. destruct x. by do 2 constructor. Qed.

(** One pass of the loop over a single event. *)
Lemma system_iteration Q e x x1 x2 :
  on_poller (poller_wait default_timeout) x = (Ret [e], x1) → handle e x1 = (Ret (), x2) →
  running_ x.1 = true →
  Q (at_test x) → Q (at_wait x) → Q (handling [e] x1) → Q (handling [] x2) →
  steps Q (at_test x) (Inner <$> [LTest; LWait; LEvent e; LEnd]) (at_test x2).
Proof.
  intros Hw Hh Hrun Q1 Q2 Q3 Q4.
  eapply steps_step; [done|by apply test_step|].
  eapply steps_step; [done|by apply wait_step|].
  eapply steps_step; [done|constructor; by apply event_step|].
  eapply steps_step; [done|apply end_step|constructor].
Qed.
End system.
End System.

(** ** What the threads do to the network *)

Section threads.
Context {Se K : Type} `{KernelLaws K} `{!Network K} `{!SessionOps Se (world K)}
  `{!SessionSpec Se K} `{!SessionNet Se}.
Import ThreadManager.

(** [c] waits in the queue of its thread. *)
Definition waiting (tm : t Se) (c : SOCKET) : Prop :=
  ∃ x, threads_ tm !! index tm c = Some x ∧ c ∈ queued x.

Lemma iterate_net c m w m' w' :
  (∀ s, m !! c = Some s → session_fd s = c) →
  iterate_session c (m, w) = (Ret (), (m', w')) →
  one_buffer c (wnet w) (wnet w') ∨ m !! c = None ∧ w' = w.
Proof.
  intros Hfd. unfold iterate_session. destruct (m !! c) as [s|].
  - destruct (session_iteration (s, w)) as [[[]| | |] [s1 w1]] eqn:Hi; [|done..]. intros [= <- <-].
    left. rewrite <-(Hfd s eq_refl). by eapply session_iteration_net.
  - intros [= <- <-]. auto.
Qed.

Lemma all_sessions_fd (tm : t Se) c s :
  wf tm → all_sessions tm !! c = Some s → session_fd s = c.
Proof. intros [_ Hwf] (i & x & Hx & Hs)%all_sessions_Some. by apply (proj1 (Hwf i x c Hx) s). Qed.

(** The descriptors that have a session, across each operation. *)
Definition session_fds (tm : t Se) : gset SOCKET := dom (all_sessions tm).

Lemma data_fds fd (tm : t Se) (w : world K) o tm' w' :
  wf tm → data_available fd (tm, w) = (o, (tm', w')) → session_fds tm' = session_fds tm.
Proof.
  intros Hwf Hd. apply data_sessions in Hd as [_ Hv]; [|done].
  unfold session_fds.
  destruct (_ !! _) as [[]|]; [by apply iterate_dom in Hv as [? _]|by injection Hv as _ ->..].
Qed.

Lemma remove_fds fd (tm : t Se) (w : world K) o tm' w' :
  wf tm → is_Some (all_sessions tm !! fd) → remove_session fd (tm, w) = (o, (tm', w')) →
  session_fds tm' = session_fds tm ∖ {[fd]}.
Proof.
  intros Hwf [x Hx] Hr. apply remove_refines in Hr as [_ Hr]; [|done].
  apply (erase_present _ x) in Hr as (_ & Hm & _); [|done|by eapply all_sessions_fd].
  unfold session_fds. by rewrite Hm, dom_delete_L.
Qed.

Lemma add_fds s (tm : t Se) (w : world K) o tm' w' :
  wf tm → session_fd s ∉ session_fds tm → add_session s (tm, w) = (o, (tm', w')) →
  session_fds tm' = {[session_fd s]} ∪ session_fds tm ∧ w' = w.
Proof.
  intros Hwf Hs Ha. apply add_refines in Ha as [_ Ha]; [|done].
  rewrite store_fresh in Ha by by apply not_elem_of_dom. injection Ha as _ Hm <-.
  split; [|done]. unfold session_fds. by rewrite <-Hm, dom_insert_L.
Qed.

Lemma work_fds i x (tm : t Se) (w : world K) o x' w' :
  wf tm → threads_ tm !! i = Some (Thread.Multi x) → ThreadMulti.work (x, w) = (o, (x', w')) →
  session_fds (Make (<[i := Thread.Multi x']> (threads_ tm))) = session_fds tm.
Proof.
  intros Hwf Hx Hw. destruct (work_refines _ _ _ _ _ _ _ Hwf Hx Hw) as [_ Hn].
  unfold next_work in Hn. unfold session_fds.
  destruct (ThreadMulti.queue_ x); [by injection Hn as _ ->|by apply iterate_dom in Hn as [? _]].
Qed.

Lemma at_thread_waiting fd op (tm : t Se) (w : world K) o tm' w' :
  at_thread fd op (tm, w) = (o, (tm', w')) →
  (∀ x w1 o1 x' w1', op (x, w1) = (o1, (x', w1')) → queued x ⊆ queued x') →
  ∀ c, waiting tm c → waiting tm' c.
Proof.
  intros Ha Hop c (x & Hx & Hc). unfold at_thread in Ha.
  destruct (threads_ tm) as [|x0 l] eqn:Htm; [done|]. rewrite <-Htm in *.
  destruct (threads_ tm !! index tm fd) as [y|] eqn:Hy.
  2: { injection Ha as _ <- _. by exists x. }
  destruct (op (y, w)) as [o1 [y' w1]] eqn:Ho. injection Ha as _ <- _.
  assert (index (Make (<[index tm fd:=y']> (threads_ tm))) c = index tm c) as Hi.
  { unfold index. cbn. by rewrite length_insert. }
  unfold waiting. rewrite Hi. cbn. destruct (decide (index tm fd = index tm c)) as [He|Hne].
  - rewrite He in *. simplify_eq. exists y'. rewrite list_lookup_insert_eq by by eapply lookup_lt_Some.
    split; [done|]. by eapply Hop.
  - exists x. by rewrite list_lookup_insert_ne by done.
Qed.

(** A session operation queues nothing and takes nothing from a queue. *)
Lemma dispatch_queued mop (x : Thread.t Se) (w : world K) o x' w' :
  Thread.dispatch (ThreadSingle.on_sessions mop) (ThreadMulti.on_sessions mop) (x, w) = (o, (x', w')) →
  queued x' = queued x.
Proof.
  destruct x as [x|x]; unfold Thread.dispatch, ThreadSingle.on_sessions, ThreadMulti.on_sessions, zoom;
    cbn; destruct (mop _) as [o1 [m1 w1]]; by intros [= _ <- _].
Qed.

Lemma add_waiting s (tm : t Se) (w : world K) o tm' w' c :
  add_session s (tm, w) = (o, (tm', w')) → waiting tm c → waiting tm' c.
Proof. intros Ha. apply (at_thread_waiting _ _ _ _ _ _ _ Ha). by intros ????? ->%dispatch_queued. Qed.

Lemma remove_waiting fd (tm : t Se) (w : world K) o tm' w' c :
  remove_session fd (tm, w) = (o, (tm', w')) → waiting tm c → waiting tm' c.
Proof. intros Ha. apply (at_thread_waiting _ _ _ _ _ _ _ Ha). by intros ????? ->%dispatch_queued. Qed.

Lemma data_waiting fd (tm : t Se) (w : world K) o tm' w' c :
  data_available fd (tm, w) = (o, (tm', w')) → waiting tm c → waiting tm' c.
Proof.
  intros Ha. apply (at_thread_waiting _ _ _ _ _ _ _ Ha). intros [x|x] w1 o1 x' w1' Hd.
  - cbn. set_solver.
  - injection Hd as _ <- _. cbn. set_solver.
Qed.

(** An event of [fd] is read from at once, or queued. *)
Lemma data_net fd (tm : t Se) (w : world K) tm' w' :
  wf tm → is_Some (all_sessions tm !! fd) →
  data_available fd (tm, w) = (Ret (), (tm', w')) →
  one_buffer fd (wnet w) (wnet w') ∨ w' = w ∧ waiting tm' fd.
Proof.
  intros Hwf [s Hs] Hd. pose proof (data_sessions _ _ _ _ _ _ Hwf Hd) as [_ Hv].
  destruct (index_lookup tm fd (proj1 Hwf)) as [[x|x] Hx]; rewrite Hx in Hv.
  - apply iterate_net in Hv as [?|[Hn _]]; [by left|congruence|].
    intros s' Hs'. by eapply all_sessions_fd.
  - injection Hv as _ <-. right. split; [done|]. unfold data_available, at_thread in Hd. rewrite Hx in Hd.
    destruct (threads_ tm) as [|x0 l] eqn:Htm; [done|]. rewrite <-Htm in *. injection Hd as <-.
    assert (∀ y, index (Make (<[index tm fd:=y]> (threads_ tm))) fd = index tm fd) as Hi.
    { intros y. unfold index. cbn. by rewrite length_insert. }
    eexists. rewrite Hi. cbn. rewrite list_lookup_insert_eq by by eapply lookup_lt_Some.
    split; [done|]. cbn. set_solver.
Qed.

Lemma remove_net fd (tm : t Se) (w : world K) tm' w' :
  wf tm → is_Some (all_sessions tm !! fd) →
  remove_session fd (tm, w) = (Ret (), (tm', w')) → net_close fd (wnet w) (wnet w').
Proof.
  intros Hwf [s Hs] Hr. apply remove_refines in Hr as [_ He]; [|done].
  unfold erase_session in He. rewrite Hs in He.
  destruct (session_destroy s w) as [[[]| | |] w1] eqn:Hd; [|done..]. injection He as _ <-.
  rewrite <-(all_sessions_fd tm fd s) by done. by apply session_destroy_net.
Qed.

Lemma work_queue (x : ThreadMulti.t Se) (w : world K) o x' w' :
  ThreadMulti.work (x, w) = (o, (x', w')) → ThreadMulti.queue_ x' = tail (ThreadMulti.queue_ x).
Proof.
  unfold ThreadMulti.work. rewrite run_bind. cbn.
  destruct (ThreadMulti.queue_ x) as [|fd q] eqn:Hq; [by intros [= <- <- <-]|].
  rewrite run_bind. unfold ThreadMulti.on_sessions, zoom. cbn -[iterate_session].
  destruct (iterate_session fd _) as [? [m2 w2]]. by intros [= _ <- _].
Qed.

(** The body of a worker reads from the descriptor it takes. *)
Lemma work_net i x (tm : t Se) (w : world K) x' w' :
  wf tm → threads_ tm !! i = Some (Thread.Multi x) →
  ThreadMulti.work (x, w) = (Ret (), (x', w')) →
  let tm' := Make (<[i := Thread.Multi x']> (threads_ tm)) in
  (w' = w ∧ (∀ c, is_Some (all_sessions tm !! c) → waiting tm c → waiting tm' c)) ∨
  ∃ fd, one_buffer fd (wnet w) (wnet w') ∧ fd ∈ ThreadMulti.queue_ x ∧
    (∀ c, c ≠ fd → waiting tm c → waiting tm' c).
Proof.
  intros Hwf Hx Hw tm'. destruct (work_refines _ _ _ _ _ _ _ Hwf Hx Hw) as [_ Hn].
  pose proof (work_queue _ _ _ _ _ Hw) as Hq.
  assert (∀ c, c ∉ take 1 (ThreadMulti.queue_ x) → waiting tm c → waiting tm' c) as Hkeep.
  { intros c Hc (y & Hy & Hyc).
    assert (index tm' c = index tm c) as Hi by (unfold index, tm'; cbn; by rewrite length_insert).
    unfold waiting. rewrite Hi. cbn. destruct (decide (i = index tm c)) as [He|Hne].
    - subst i. simplify_eq. exists (Thread.Multi x').
      rewrite list_lookup_insert_eq by by eapply lookup_lt_Some. split; [done|]. cbn in *. rewrite Hq.
      destruct (ThreadMulti.queue_ x); [done|]. cbn in *. set_solver.
    - exists y. by rewrite list_lookup_insert_ne by done. }
  unfold next_work in Hn. destruct (ThreadMulti.queue_ x) as [|fd q].
  - left. injection Hn as _ <-. split; [done|]. intros c _. apply Hkeep. apply not_elem_of_nil.
  - apply iterate_net in Hn as [Hone|[Hnone ->]]; [| |intros; by eapply all_sessions_fd].
    + right. exists fd. split; [done|]. split; [left|]. intros c Hne. apply Hkeep. cbn. set_solver.
    + left. split; [done|]. intros c [s Hs]. apply Hkeep. cbn.
      intros ->%list_elem_of_singleton. congruence.
Qed.
End threads.

(** ** Nothing is forgotten *)

Section delivery.
Context {C P Se K : Type} `{KernelLaws K} `{!Network K} `{!ConnectionOps C (world K)}
  `{!SessionOps Se (world K)} `{!SessionSpec Se K} `{!SessionNet Se} `{!PollerOps P (world K)}
  `{!PollerSpec P K} `{!PollerNet P} `{!ServerOps C (world K)} `{!ServerSpec C K} `{!ServerNet C}
  `{!ProtocolOps C Se} `{!ProtocolSpec C Se (world K)}.

(** Whoever has unread bytes will be read from. *)
Definition delivered (s : t P Se) (w : world K) (evs : list Event) : Prop :=
  ∀ c, c ∈ clients s →
    owes (poller_ s) c (wnet w) ∨ c ∈ client_fds evs ∨ waiting (thread_manager_ s) c.

Definition delivered_config (c : config P Se (world K)) : Prop :=
  delivered (srv c) (wd c) (batch (ph c)).

(** At most one buffer is unread, or the poller reports what is left. *)
Definition fits (c : config P Se (world K)) : Prop :=
  level (P:=P) ∨ ∀ fd, length (unread (wnet (wd c)) fd) ≤ RECV_BUF_SZ.

Lemma owes_one_buffer (p : P) fd n n' c :
  one_buffer fd n n' → level (P:=P) ∨ length (unread n fd) ≤ RECV_BUF_SZ →
  owes p c n ∨ c = fd → owes p c n'.
Proof.
  intros Hone Hfit Ho. destruct (decide (c = fd)) as [->|Hne].
  - eapply owes_emptied; [exact Hone|]. destruct Hfit; [by left|right]. by apply drop_ge.
  - destruct Ho as [Ho|]; [|done]. by eapply owes_other.
Qed.

Lemma delivered_tail s w e evs :
  delivered s w (e :: evs) → type e = NewClient ∨ owes (poller_ s) (fd e) (wnet w) ∨
    waiting (thread_manager_ s) (fd e) ∨ fd e ∉ clients s → delivered s w evs.
Proof.
  intros Hd He c Hc. destruct (Hd c Hc) as [?|[Hin|?]]; [by left| |by right; right].
  rewrite client_fds_cons in Hin. apply elem_of_app in Hin as [Hin|?]; [|by right; left].
  destruct (type e) eqn:Ht; [by apply elem_of_nil in Hin|..]; apply list_elem_of_singleton in Hin as ->.
  all: destruct He as [?|[?|[?|?]]]; naive_solver.
Qed.

Lemma wait_delivered base s w evs s' w' :
  inv base s w [] → on_poller (poller_wait default_timeout) (s, w) = (Ret evs, (s', w')) →
  delivered s w [] → delivered s' w' evs.
Proof.
  intros Hinv (p' & Hw & ->)%on_poller_inv Hd c Hc. cbn.
  pose proof (poller_wait_spec _ _ _ _ _ _ Hw) as [-> _].
  apply poller_wait_net in Hw as [_ Hnet].
  destruct (Hd c Hc) as [Ho|[Hin|?]]; [|by apply elem_of_nil in Hin|by right; right].
  destruct (Hnet c) as [?|?]; [by eapply client_not_listener|done|by right; left|by left].
Qed.

Lemma data_delivered base s w e evs s' w' :
  inv base s w (e :: evs) → type e = ClientDataReady →
  level (P:=P) ∨ length (unread (wnet w) (fd e)) ≤ RECV_BUF_SZ →
  on_manager (ThreadManager.data_available (fd e)) (s, w) = (Ret (), (s', w')) →
  delivered s w (e :: evs) → delivered s' w' evs.
Proof.
  intros Hinv He Hfit (tm' & Hdata & ->)%on_manager_inv Hd.
  assert (fd e ∈ clients s) as Hc.
  { apply (inv_events _ _ _ _ Hinv). rewrite client_fds_cons, He. left. }
  pose proof (inv_wf _ _ _ _ Hinv) as Hwf. pose proof (proj1 (client_session _ _) Hc) as Hsome.
  pose proof (data_fds _ _ _ _ _ _ Hwf Hdata : clients (Make (fd_ s) (poller_ s) tm' (running_ s)) = clients s)
    as Hcl.
  intros c Hcc. rewrite Hcl in Hcc. cbn.
  pose proof (λ c, data_waiting _ _ _ _ _ _ c Hdata) as Hwait.
  destruct (data_net _ _ _ _ _ Hwf Hsome Hdata) as [Hone|[-> Hq]].
  - assert (owes (poller_ s) c (wnet w) ∨ c = fd e → owes (poller_ s) c (wnet w')) as Ho
      by by apply owes_one_buffer.
    destruct (Hd c Hcc) as [?|[Hin|?]]; [by left; auto| |by right; right; auto].
    rewrite client_fds_cons, He in Hin. apply elem_of_app in Hin as [->%list_elem_of_singleton|?]; auto.
  - destruct (Hd c Hcc) as [?|[Hin|?]]; [by left| |by right; right; auto].
    rewrite client_fds_cons, He in Hin. apply elem_of_app in Hin as [->%list_elem_of_singleton|?]; auto.
Qed.

Lemma remove_delivered base s w e evs s' w' :
  inv base s w (e :: evs) → type e = ClientDisconnected →
  on_manager (ThreadManager.remove_session (fd e)) (s, w) = (Ret (), (s', w')) →
  delivered s w (e :: evs) → delivered s' w' evs.
Proof.
  intros Hinv He (tm' & Hr & ->)%on_manager_inv Hd.
  assert (fd e ∈ clients s) as Hc.
  { apply (inv_events _ _ _ _ Hinv). rewrite client_fds_cons, He. left. }
  pose proof (inv_wf _ _ _ _ Hinv) as Hwf. pose proof (proj1 (client_session _ _) Hc) as Hsome.
  pose proof (remove_fds _ _ _ _ _ _ Hwf Hsome Hr :
    clients (Make (fd_ s) (poller_ s) tm' (running_ s)) = clients s ∖ {[fd e]}) as Hcl.
  pose proof (λ c, remove_waiting _ _ _ _ _ _ c Hr) as Hwait.
  apply remove_net in Hr; [|done..]. intros c Hcc. rewrite Hcl in Hcc. cbn.
  apply elem_of_difference in Hcc as [Hcc Hne]. rewrite elem_of_singleton in Hne.
  destruct (Hd c Hcc) as [?|[Hin|?]]; [| |by right; right; auto].
  - left. eapply owes_close; [done|done| |done]. intros Hp.
    apply (inv_disj _ _ _ _ Hinv (fd e)); [|done]. rewrite <-Hp. apply (inv_base _ _ _ _ Hinv).
  - rewrite client_fds_cons, He in Hin. apply elem_of_app in Hin as [->%list_elem_of_singleton|?]; auto.
    done.
Qed.

Lemma new_delivered base s w e evs s' w' :
  inv base s w (e :: evs) → type e = NewClient →
  handle e (s, w) = (Ret (), (s', w')) →
  delivered s w (e :: evs) → delivered s' w' evs.
Proof.
  intros Hinv He Hh Hd.
  apply handle_new_run in Hh as (v & conn & w1 & w2 & tm' & w3 & p' & Ha & Hc & Hadd & Hp & ->); [|done].
  pose proof (server_accept_spec _ _ _ _ Ha) as (Hfresh & _).
  pose proof (server_create_spec _ _ _ _ Hc) as [Hcfd _].
  apply server_accept_net in Ha. apply server_create_net in Hc. pose proof (same_accept _ _ _ _ Ha Hc) as Hn.
  assert (v ∉ clients s) as Hv.
  { rewrite (inv_open _ _ _ _ Hinv) in Hfresh. set_solver. }
  assert (session_fd (create_session conn) = v) as Hsfd by (by rewrite create_session_fd).
  pose proof (λ c, add_waiting _ _ _ _ _ _ c Hadd) as Hwait.
  apply add_fds in Hadd as [Hm ->]; [|apply Hinv|by rewrite Hsfd]. rewrite Hsfd in Hm.
  change (session_fds (thread_manager_ s)) with (clients s) in Hm.
  pose proof (poller_add_spec _ _ _ _ _ _ Hp) as [-> _]. apply poller_add_net in Hp as (_ & Hnew & Hkeep).
  intros c Hcc. cbn. destruct (decide (c = v)) as [->|Hne]; [by left|].
  assert (c ∈ clients s) as Hcs.
  { change (c ∈ session_fds tm') in Hcc. rewrite Hm in Hcc. set_solver. }
  destruct (Hd c Hcs) as [?|[Hin|?]]; [|by rewrite client_fds_cons, He in Hin; auto|by right; right; auto].
  left. apply Hkeep. by eapply owes_accept.
Qed.

Lemma work_delivered base s w i x x' w' evs :
  inv base s w evs → ThreadManager.threads_ (thread_manager_ s) !! i = Some (Thread.Multi x) →
  ThreadMulti.work (x, w) = (Ret (), (x', w')) →
  level (P:=P) ∨ (∀ fd, length (unread (wnet w) fd) ≤ RECV_BUF_SZ) →
  delivered s w evs →
  delivered (Make (fd_ s) (poller_ s) (ThreadManager.Make (<[i := Thread.Multi x']>
    (ThreadManager.threads_ (thread_manager_ s)))) (running_ s)) w' evs.
Proof.
  intros Hinv Hx Hw Hfit Hd. pose proof (inv_wf _ _ _ _ Hinv) as Hwf. set (s' := Make _ _ _ _).
  pose proof (work_fds _ _ _ _ _ _ _ Hwf Hx Hw : clients s' = clients s) as Hcl.
  intros c Hc. rewrite Hcl in Hc. specialize (Hd c Hc). apply client_session in Hc.
  destruct (work_net _ _ _ _ _ _ Hwf Hx Hw) as [[-> Hwait]|(c0 & Hone & _ & Hwait)].
  - destruct Hd as [?|[?|?]]; [by left|by right; left|right; right]. by apply Hwait.
  - assert (owes (poller_ s) c (wnet w) ∨ c = c0 → owes (poller_ s') c (wnet w')) as Ho.
    { apply owes_one_buffer; [done|]. destruct Hfit; auto. }
    destruct (decide (c = c0)); [by left; auto|].
    destruct Hd as [?|[?|?]]; [by left; auto|by right; left|right; right]. by apply Hwait.
Qed.

Lemma arrives_delivered base s w fd d k' evs :
  inv base s w evs → net_arrive fd d (wview w) (wnet w) (knet k') →
  delivered s w evs → delivered s (World k' (logs w)) evs.
Proof.
  intros Hinv Hn Hd c Hc. destruct (Hd c Hc) as [Ho|?]; [|by right].
  destruct (decide (c ∈ disconnected evs)) as [Hdis|Hdis]; [by right; left; apply disconnected_client|].
  left. eapply owes_arrive; [exact Hn| |done]. rewrite (inv_watched _ _ _ _ Hinv). set_solver.
Qed.

Lemma inner_delivered base c l c' :
  Machine.step c l c' → inv_config base c → fits c → delivered_config c → delivered_config c'.
Proof.
  unfold inv_config, fits, delivered_config.
  intros [s w|s w evs s' w' Hw|s w e evs s' w' Hh|s w|s w p i x x' w' Hx Hw|s w p]; cbn.
  - by destruct (running_ s).
  - intros. by eapply wait_delivered.
  - intros Hinv Hfit. unfold handle in Hh. destruct (type e) eqn:He.
    + eapply new_delivered; [done..|]. unfold handle. by rewrite He.
    + eapply data_delivered; [done|done| |done]. destruct Hfit; auto.
    + by eapply remove_delivered.
  - done.
  - intros. by eapply work_delivered.
  - done.
Qed.

(** The invariant of the server and the delivery, in every step of the system. *)
Definition system_inv (base : gset Z) (c : config P Se (world K)) : Prop :=
  inv_config base c ∧ delivered_config c.

Lemma system_step_inv base c l c' :
  System.step c l c' → fits c → system_inv base c → system_inv base c'.
Proof.
  intros [c0 l0 c0' Hs|s w p fd d k' Hv Hn|s w p k' Hv Hn] Hfit [Hinv Hd].
  - split; [by eapply step_inv|by eapply inner_delivered].
  - split; [by eapply (inv_view _ _ _ (World k' (logs w)))|by eapply arrives_delivered].
  - split; [by eapply (inv_view _ _ _ (World k' (logs w)))|].
    intros c1 Hc. destruct (Hd c1 Hc) as [Ho|?]; [left|by right]. by eapply owes_same.
Qed.

Lemma system_steps_inv base c ls c' :
  System.steps fits c ls c' → system_inv base c → system_inv base c'.
Proof. induction 1; eauto using system_step_inv. Qed.

(** A server just made has no client. *)
Lemma make_system_inv l tc w s w' :
  (∀ n, tc = inr n → (0 < n)%Z) → l ∈ v_open (wview w) → make l tc w = (Ret s, w') →
  system_inv ({[poller_fd (poller_ s)]} ∪ v_open (wview w)) (Config s w' AtTest).
Proof.
  intros Htc Hl Hm. pose proof (make_inv _ _ _ _ _ Htc Hl Hm) as Hinv. split; [done|].
  intros c Hc. cbn in Hc. rewrite (made_clients _ _ _ _ _ Hm) in Hc. set_solver.
Qed.

(** At rest, nothing is unread. *)
Lemma unread_at_rest base s w c :
  system_inv base (Config s w AtWait) → timed_out default_timeout (poller_ s) w →
  Forall (λ x, queued x = []) (ThreadManager.threads_ (thread_manager_ s)) →
  c ∈ clients s → unread (wnet w) c = [].
Proof.
  intros [Hinv Hd] Ht Hq Hc. destruct (Hd c Hc) as [Ho|[Hin|(x & Hx & Hin)]]; cbn in *.
  - apply timed_out_spec in Ht as [_ Ht]. apply Ht; [|done].
    pose proof (inv_watched _ _ _ _ Hinv) as Hwt. cbn in Hwt. rewrite Hwt. set_solver.
  - by apply elem_of_nil in Hin.
  - rewrite Forall_forall in Hq. rewrite Hq in Hin by by eapply list_elem_of_lookup_2.
    by apply elem_of_nil in Hin.
Qed.

(** C7: What arrives is read, over connections and pollers with the laws of the network: plain
    TCP (over TLS the records behind the first stay unread), epoll and kqueue (there is no such
    law for WSAPoll). In every run of the server with a positive number of threads, with callers
    of stop and with a network on which bytes arrive at any moment, started from the
    constructor, whenever the server waits and its poller has nothing to report, with the queues
    of the workers empty, no client has an unread byte - for kqueue, which is level triggered,
    always, for epoll, which is edge triggered, as long as no descriptor ever has more than one
    receive buffer of 16 KiB waiting. *)
Theorem nothing_left_unread l tc w s w0 ls s1 w1 :
  (∀ n, tc = inr n → (0 < n)%Z) → l ∈ v_open (wview w) → make l tc w = (Ret s, w0) →
  System.steps fits (Config s w0 AtTest) ls (Config s1 w1 AtWait) →
  timed_out default_timeout (poller_ s1) w1 →
  Forall (λ x, queued x = []) (ThreadManager.threads_ (thread_manager_ s1)) →
  ∀ c, c ∈ clients s1 → unread (wnet w1) c = [].
Proof.
  intros Htc Hl Hm Hs Ht Hq c Hc. eapply unread_at_rest; [|done..].
  eapply system_steps_inv; [exact Hs|by eapply make_system_inv].
Qed.
End delivery.

(** ** What is not read in time is not read *)

Section stall.
Context {C P Se K : Type} `{KernelLaws K} `{!Network K} `{!ConnectionOps C (world K)}
  `{!SessionOps Se (world K)} `{!SessionSpec Se K} `{!SessionNet Se} `{!PollerOps P (world K)}
  `{!PollerSpec P K} `{!PollerNet P} `{!PollerEdges P} `{!ServerOps C (world K)}
  `{!ServerSpec C K} `{!ServerNet C} `{!ProtocolOps C Se} `{!ProtocolSpec C Se (world K)}.

(** Some thread has [c] in its queue. *)
Definition in_queues (tm : ThreadManager.t Se) (c : SOCKET) : Prop :=
  ∃ y, y ∈ ThreadManager.threads_ tm ∧ c ∈ queued y.

Lemma at_thread_queues fd op (tm : ThreadManager.t Se) (w : world K) o tm' w' :
  ThreadManager.at_thread fd op (tm, w) = (o, (tm', w')) →
  (∀ x w1 o1 x' w1' c, op (x, w1) = (o1, (x', w1')) → c ∈ queued x' → c ∈ queued x ∨ c = fd) →
  ∀ c, in_queues tm' c → in_queues tm c ∨ c = fd.
Proof.
  intros Ha Hop c (y & Hy & Hc). unfold ThreadManager.at_thread in Ha.
  destruct (ThreadManager.threads_ tm) as [|x0 l] eqn:Htm.
  { injection Ha as _ <- _. left. by exists y. }
  rewrite <-Htm in *. destruct (_ !! _) as [x|] eqn:Hx.
  2: { injection Ha as _ <- _. left. by exists y. }
  destruct (op (x, w)) as [o1 [x' w1]] eqn:Ho. injection Ha as _ <- _. cbn in Hy.
  apply list_elem_of_lookup_1 in Hy as [j Hj].
  apply list_lookup_insert_Some in Hj as [(<- & <- & _)|[_ Hj]].
  - destruct (Hop _ _ _ _ _ _ Ho Hc); [left|by right]. exists x. split; [|done].
    by eapply list_elem_of_lookup_2.
  - left. exists y. split; [|done]. by eapply list_elem_of_lookup_2.
Qed.

Lemma data_queued fd (x : Thread.t Se) (w : world K) o x' w' c :
  Thread.data_available fd (x, w) = (o, (x', w')) → c ∈ queued x' → c ∈ queued x ∨ c = fd.
Proof.
  destruct x as [x|x]; unfold Thread.data_available, Thread.dispatch; cbn.
  - destruct (ThreadSingle.data_available _ _) as [? [? ?]]. intros [= _ <- _]. auto.
  - intros [= _ <- _]. cbn. rewrite elem_of_app, list_elem_of_singleton. auto.
Qed.

(** What a step of the program does to a client the poller is silent about. *)
Record untouched (c : SOCKET) (x x' : config P Se (world K)) : Prop := {
  un_client : c ∈ clients (srv x');
  un_silent : silent (poller_ (srv x')) c (wnet (wd x'));
  un_unread : unread (wnet (wd x')) c = unread (wnet (wd x)) c ∨
    unread (wnet (wd x')) c = drop RECV_BUF_SZ (unread (wnet (wd x)) c) ∧
    (c ∈ client_fds (batch (ph x)) ∨ in_queues (thread_manager_ (srv x)) c);
  un_batch : c ∈ client_fds (batch (ph x')) → c ∈ client_fds (batch (ph x));
  un_queues : in_queues (thread_manager_ (srv x')) c →
    in_queues (thread_manager_ (srv x)) c ∨ c ∈ client_fds (batch (ph x)) }.

Lemma one_buffer_unread fd n n' c :
  one_buffer fd n n' → unread n' c = unread n c ∨ c = fd ∧ unread n' c = drop RECV_BUF_SZ (unread n c).
Proof. intros [Hu _]. rewrite Hu. case_decide; [right; by subst|by left]. Qed.

Lemma data_untouched base s w e evs s' w' c :
  inv base s w (e :: evs) → type e = ClientDataReady →
  on_manager (ThreadManager.data_available (fd e)) (s, w) = (Ret (), (s', w')) →
  c ∈ clients s → silent (poller_ s) c (wnet w) →
  untouched c (Config s w (Handling (e :: evs))) (Config s' w' (Handling evs)).
Proof.
  intros Hinv He (tm' & Hdata & ->)%on_manager_inv Hc Hs.
  assert (fd e ∈ client_fds (e :: evs)) as Hin by (rewrite client_fds_cons, He; left).
  pose proof (inv_events _ _ _ _ Hinv _ Hin) as Hfd. apply client_session in Hfd.
  pose proof (inv_wf _ _ _ _ Hinv) as Hwf.
  pose proof (data_fds _ _ _ _ _ _ Hwf Hdata : clients (Make (fd_ s) (poller_ s) tm' (running_ s)) = clients s)
    as Hcl.
  destruct (data_net _ _ _ _ _ Hwf Hfd Hdata) as [Hone|[-> _]].
  all: split; cbn -[client_fds clients]; rewrite ?Hcl; try done; auto.
  - by eapply silent_read.
  - destruct (one_buffer_unread _ _ _ c Hone) as [?|[-> ?]]; auto.
  - rewrite client_fds_cons. intros ?. apply elem_of_app. by right.
  - intros Hq. apply (at_thread_queues _ _ _ _ _ _ _ Hdata) in Hq as [?| ->]; auto.
    intros ??????. apply data_queued.
  - rewrite client_fds_cons. intros ?. apply elem_of_app. by right.
  - intros Hq. apply (at_thread_queues _ _ _ _ _ _ _ Hdata) in Hq as [?| ->]; auto.
    intros ??????. apply data_queued.
Qed.

Lemma remove_untouched base s w e evs s' w' c :
  inv base s w (e :: evs) → type e = ClientDisconnected → c ≠ fd e →
  on_manager (ThreadManager.remove_session (fd e)) (s, w) = (Ret (), (s', w')) →
  c ∈ clients s → silent (poller_ s) c (wnet w) →
  untouched c (Config s w (Handling (e :: evs))) (Config s' w' (Handling evs)).
Proof.
  intros Hinv He Hne (tm' & Hr & ->)%on_manager_inv Hc Hs.
  assert (fd e ∈ client_fds (e :: evs)) as Hin by (rewrite client_fds_cons, He; left).
  pose proof (inv_events _ _ _ _ Hinv _ Hin) as Hfd. pose proof (proj1 (client_session _ _) Hfd) as Hsome.
  pose proof (inv_wf _ _ _ _ Hinv) as Hwf.
  pose proof (at_thread_queues _ _ _ _ _ _ _ Hr) as Hq.
  pose proof (remove_fds _ _ _ _ _ _ Hwf Hsome Hr :
    clients (Make (fd_ s) (poller_ s) tm' (running_ s)) = clients s ∖ {[fd e]}) as Hcl.
  apply remove_net in Hr; [|done..].
  split; cbn -[client_fds clients]; rewrite ?Hcl.
  - set_solver.
  - eapply silent_close; [done|done| |done]. intros Hp.
    apply (inv_disj _ _ _ _ Hinv (fd e)); [|done]. rewrite <-Hp. apply (inv_base _ _ _ _ Hinv).
  - left. by apply (proj1 Hr).
  - rewrite client_fds_cons. intros ?. apply elem_of_app. by right.
  - intros [?| ->]%Hq; [by left|done|]. intros ?????? ->%dispatch_queued. auto.
Qed.

Lemma new_untouched base s w e evs s' w' c :
  inv base s w (e :: evs) → type e = NewClient → handle e (s, w) = (Ret (), (s', w')) →
  c ∈ clients s → silent (poller_ s) c (wnet w) →
  untouched c (Config s w (Handling (e :: evs))) (Config s' w' (Handling evs)).
Proof.
  intros Hinv He Hh Hc Hs.
  apply handle_new_run in Hh as (v & conn & w1 & w2 & tm' & w3 & p' & Ha & Hcr & Hadd & Hp & ->); [|done].
  pose proof (server_accept_spec _ _ _ _ Ha) as (Hfresh & _).
  pose proof (server_create_spec _ _ _ _ Hcr) as [Hcfd _].
  apply server_accept_net in Ha. apply server_create_net in Hcr.
  pose proof (same_accept _ _ _ _ Ha Hcr) as Hn.
  assert (c ≠ v ∧ v ∉ clients s) as [Hne Hv].
  { rewrite (inv_open _ _ _ _ Hinv) in Hfresh. clear -Hfresh Hc. set_solver. }
  assert (session_fd (create_session conn) = v) as Hsfd by (by rewrite create_session_fd).
  pose proof (at_thread_queues _ _ _ _ _ _ _ Hadd) as Hq.
  apply add_fds in Hadd as [Hm ->]; [|apply Hinv|by rewrite Hsfd]. rewrite Hsfd in Hm.
  change (session_fds (thread_manager_ s)) with (clients s) in Hm.
  pose proof (poller_add_spec _ _ _ _ _ _ Hp) as [-> _].
  pose proof (poller_add_net _ _ _ _ _ Hp) as (Hu & _).
  apply (silent_add _ _ _ _ _ c) in Hp; [|done|by eapply silent_accept].
  split; cbn -[client_fds clients]; try done.
  - change (c ∈ session_fds tm'). rewrite Hm. by apply elem_of_union_r.
  - left. rewrite Hu. by apply (proj1 Hn).
  - rewrite client_fds_cons, He. done.
  - intros [?|Hx]%Hq; [by left|congruence|]. intros ?????? ->%dispatch_queued. auto.
Qed.

Lemma work_untouched base s w p i x x' w' c :
  inv base s w (batch p) →
  ThreadManager.threads_ (thread_manager_ s) !! i = Some (Thread.Multi x) →
  ThreadMulti.work (x, w) = (Ret (), (x', w')) →
  c ∈ clients s → silent (poller_ s) c (wnet w) →
  untouched c (Config s w p) (Config (Make (fd_ s) (poller_ s) (ThreadManager.Make
    (<[i := Thread.Multi x']> (ThreadManager.threads_ (thread_manager_ s)))) (running_ s)) w' p).
Proof.
  intros Hinv Hx Hw Hc Hs. pose proof (inv_wf _ _ _ _ Hinv) as Hwf. set (s' := Make _ _ _ _).
  pose proof (work_fds _ _ _ _ _ _ _ Hwf Hx Hw : clients s' = clients s) as Hcl.
  assert (in_queues (thread_manager_ s') c → in_queues (thread_manager_ s) c) as Hq.
  { intros (y & [j Hj]%list_elem_of_lookup_1 & Hy). cbn in Hj.
    apply list_lookup_insert_Some in Hj as [(<- & <- & _)|[_ Hj]].
    - exists (Thread.Multi x). split; [by eapply list_elem_of_lookup_2|]. cbn in *.
      rewrite (work_queue _ _ _ _ _ Hw) in Hy. destruct (ThreadMulti.queue_ x); [done|by right].
    - exists y. split; [|done]. by eapply list_elem_of_lookup_2. }
  destruct (work_net _ _ _ _ _ _ Hwf Hx Hw) as [[-> _]|(fd & Hone & Hfd & _)].
  all: split; cbn -[client_fds clients]; rewrite ?Hcl; auto.
  - by eapply silent_read.
  - destruct (one_buffer_unread _ _ _ c Hone) as [?|[-> ?]]; [by left|right; split; [done|right]].
    exists (Thread.Multi x). split; [by eapply list_elem_of_lookup_2|done].
Qed.

Lemma inner_untouched base x l x' c :
  Machine.step x l x' → inv_config base x → c ∈ clients (srv x) →
  silent (poller_ (srv x)) c (wnet (wd x)) →
  (∀ e, l = LEvent e → type e = ClientDisconnected → c ≠ fd e) →
  untouched c x x'.
Proof.
  unfold inv_config.
  intros [s w|s w evs s' w' Hw|s w e evs s' w' Hh|s w|s w p i y y' w' Hy Hw|s w p]; cbn;
    intros Hinv Hc Hs Hl.
  - split; cbn; auto. by destruct (running_ s).
  - apply on_poller_inv in Hw as (p' & Hw & ->).
    pose proof (poller_wait_spec _ _ _ _ _ _ Hw) as [-> _].
    pose proof (poller_wait_net _ _ _ _ _ _ Hw) as [Hu _].
    apply (silent_wait _ _ _ _ _ _ c) in Hw as [Hnin Hs']; [|done].
    split; cbn; auto. by intros ?%Hnin.
  - unfold handle in Hh. destruct (type e) eqn:He.
    + eapply new_untouched; [done..| |done|done]. unfold handle. by rewrite He.
    + by eapply data_untouched.
    + eapply remove_untouched; [done|done|by eapply Hl|exact Hh|done|done].
  - by split; auto.
  - by eapply work_untouched.
  - by split; auto.
Qed.

(** The client [c] has the unread bytes [u], of which nobody will hear. *)
Record stalled (c : SOCKET) (u : bytes) (x : config P Se (world K)) : Prop := {
  st_client : c ∈ clients (srv x);
  st_unread : unread (wnet (wd x)) c = u;
  st_silent : silent (poller_ (srv x)) c (wnet (wd x));
  st_batch : c ∉ client_fds (batch (ph x));
  st_queues : ¬ in_queues (thread_manager_ (srv x)) c }.

Lemma stalled_step base c u x l x' :
  System.step x l x' → inv_config base x → (∀ d, l ≠ System.Arrives c d) →
  stalled c u x → stalled c u x'.
Proof.
  intros [x0 l0 x0' Hs|s w p fd d k' Hv (Hu & Hn)|s w p k' Hv Hn] Hinv Hl [Hc Hu0 Hsil Hb Hq].
  - destruct (inner_untouched _ _ _ _ c Hs Hinv Hc Hsil) as [Hc' Hsil' Hu' Hb' Hq'].
    + intros e -> He ->. inversion Hs; subst. cbn [ph batch] in Hb. apply Hb. rewrite client_fds_cons, He. left.
    + split; auto. { by destruct Hu' as [->|[_ [?|?]]]. } by intros [?|?]%Hq'.
  - assert (c ≠ fd) by (intros ->; by apply (Hl d)). split; cbn in *; try done.
    + by rewrite Hu, decide_False.
    + eapply silent_arrive; [by split|done|done].
  - split; cbn in *; try done; [by rewrite (proj1 Hn)|by eapply silent_same].
Qed.

Lemma system_inv_along Q base x ls x' :
  System.steps Q x ls x' → inv_config base x → inv_config base x'.
Proof.
  induction 1 as [|x1 l x2 ls x3 _ Hs _ IH]; [done|]. intros Hinv. apply IH. clear IH.
  destruct Hs as [x1 l x2 Hs|s w p fd d k' Hv _|s w p k' Hv _]; [by eapply step_inv|..].
  all: by eapply (inv_view _ _ _ (World k' (logs w))).
Qed.

Lemma stalled_steps Q base c u x ls x' :
  System.steps Q x ls x' → inv_config base x → (∀ d, System.Arrives c d ∉ ls) →
  stalled c u x → stalled c u x'.
Proof.
  induction 1 as [|x1 l x2 ls x3 Hq Hs Hr IH]; [done|]. intros Hinv Hl Hst. apply IH.
  - eapply (system_inv_along Q); [|done]. econstructor; [done..|constructor].
  - intros d Hd. apply (Hl d). by right.
  - eapply stalled_step; [done..| |done]. intros d ->. apply (Hl d). left.
Qed.

Lemma burst_stalled base x l x' c :
  Machine.step x l x' → inv_config base x → c ∈ clients (srv x) →
  silent (poller_ (srv x)) c (wnet (wd x)) →
  (∀ e, l = LEvent e → type e = ClientDisconnected → c ≠ fd e) →
  c ∉ client_fds (batch (ph x')) → ¬ in_queues (thread_manager_ (srv x')) c →
  ∃ n, (n = 0 ∨ n = RECV_BUF_SZ) ∧ stalled c (drop n (unread (wnet (wd x)) c)) x'.
Proof.
  intros Hs Hinv Hc Hsil Hl Hb Hq.
  destruct (inner_untouched _ _ _ _ c Hs Hinv Hc Hsil Hl) as [Hc' Hsil' [Hu|[Hu _]] _ _].
  - exists 0. split; [by left|]. by split.
  - exists RECV_BUF_SZ. split; [by right|]. by split.
Qed.

(** C17: With an edge-triggered poller, what exceeds the receive buffer stays unread: in any run
    from the constructor, a client that has more than 16 KiB waiting, of which the poller has
    already spoken and no event or queue entry is left after the step at hand, still has the
    bytes behind the first 16 KiB unread after any further steps of the server, its workers and
    the other peers, until its own peer does something. *)
Theorem burst_never_read l tc w s w0 Q ls x lb x1 c ls' x' :
  (∀ n, tc = inr n → (0 < n)%Z) → l ∈ v_open (wview w) → make l tc w = (Ret s, w0) →
  System.steps Q (Config s w0 AtTest) ls x → Machine.step x lb x1 →
  c ∈ clients (srv x) → silent (poller_ (srv x)) c (wnet (wd x)) →
  (∀ e, lb = LEvent e → type e = ClientDisconnected → c ≠ fd e) →
  c ∉ client_fds (batch (ph x1)) → ¬ in_queues (thread_manager_ (srv x1)) c →
  RECV_BUF_SZ < length (unread (wnet (wd x)) c) →
  System.steps Q x1 ls' x' → (∀ d, System.Arrives c d ∉ ls') →
  c ∈ clients (srv x') ∧
  drop RECV_BUF_SZ (unread (wnet (wd x)) c) `suffix_of` unread (wnet (wd x')) c ∧
  unread (wnet (wd x')) c ≠ [].
Proof.
  intros Htc Hl Hm Hs0 Hs Hc Hsil Hlb Hb Hq Hlen Hs' Hno.
  pose proof (system_inv_along _ _ _ _ _ Hs0 (make_inv _ _ _ _ _ Htc Hl Hm)) as Hinv.
  pose proof (step_inv _ _ _ _ Hs Hinv) as Hinv1.
  destruct (burst_stalled _ _ _ _ _ Hs Hinv Hc Hsil Hlb Hb Hq) as (n & Hn & Hst).
  destruct (stalled_steps _ _ _ _ _ _ _ Hs' Hinv1 Hno Hst) as [Hc' -> _ _ _]. split; [done|].
  assert (n ≤ RECV_BUF_SZ) by (destruct Hn; lia). split.
  - replace RECV_BUF_SZ with (n + (RECV_BUF_SZ - n)) by lia. rewrite <-drop_drop. apply suffix_drop.
  - intros Hnil. apply (f_equal length) in Hnil. rewrite length_drop in Hnil. cbn in Hnil. lia.
Qed.
End stall.
