(* ===== verification/Conversation.v ===== *)
(** * What the server says to its clients

    A contract of a session with its own connection - what it has sent, given
    what it has received - holds of every session of a server in every
    interleaving: connections do not mix, and a descriptor that is used again
    starts anew.  With [Delivery], all that arrives at a client is part of that
    contract once the server is at rest.  For the line sessions of a TCP server
    the contract is the conversation: the lines, answered in order. *)

From Stdlib Require Import Sorted.
From S2P Require Import Prelude Cpp Log OS Connection TCPConnection Session LineSession.
From S2P Require Import LineCuts.
From S2P Require Import Threads ThreadsSpec Poller PollerSpec Server ServerSpec TCPServer.
From S2P Require Import TCPServerSpec Network PollerNet Delivery.
Import Server Machine.

(** ** The interfaces *)

(** What has crossed the plain connection [c]: received, and sent. *)
Definition stream (c : SOCKET) (v : view) : bytes * bytes := (v_received (inl c) v, v_sent (inl c) v).

Lemma stream_step_own fd i o v v' :
  stream_step (inl fd) i o v v' → stream fd v' = ((stream fd v).1 ++ i, (stream fd v).2 ++ o).
Proof. intros []. unfold stream. cbn. congruence. Qed.

Lemma stream_step_others fd i o v v' c :
  stream_step (inl fd) i o v v' → c ≠ fd → stream c v' = stream c v.
Proof.
  intros Hs Hne. unfold stream. destruct (ss_other _ _ _ _ _ Hs (inl c)) as [-> ->]; [congruence|done].
Qed.

Section interfaces.
Context {K : Type} `{KernelLaws K} `{!Network K}.

(** All that has arrived on [c], received or not. *)
Definition arrived (c : SOCKET) (w : world K) : bytes := (stream c (wview w)).1 ++ unread (wnet w) c.

Class ConnectionStream (C : Type) `{!ConnectionOps C (world K)} `{!ConnectionSpec C K} := {
  conn_end_plain c : conn_end c = inl (conn_fd c);
  conn_recv_stream c w d w' :
    conn_recv c w = (Ret d, w') → d = take RECV_BUF_SZ (unread (wnet w) (conn_fd c));
  conn_destroy_stream c w o w' fd :
    conn_destroy c w = (o, w') → stream fd (wview w') = stream fd (wview w);
}.

(** An iteration receives one buffer of what is there, and sends something. *)
Class SessionStream (Se : Type) `{!SessionOps Se (world K)} := {
  session_iteration_stream s w s' w' :
    session_iteration (s, w) = (Ret (), (s', w')) →
    ∃ resp, stream_step (inl (session_fd s)) (take RECV_BUF_SZ (unread (wnet w) (session_fd s)))
      resp (wview w) (wview w');
  session_destroy_stream s w o w' fd :
    session_destroy s w = (o, w') → stream fd (wview w') = stream fd (wview w);
}.

(** What a session owes its peer: [good s (i, o)] when [i] has been received
    and [o] sent. *)
Class SessionContract (Se : Type) `{!SessionOps Se (world K)} (good : Se → bytes * bytes → Prop) :=
  good_iteration s w s' w' :
    session_iteration (s, w) = (Ret (), (s', w')) →
    good s (stream (session_fd s) (wview w)) → good s' (stream (session_fd s) (wview w')).

(** A new connection has received and sent nothing. *)
Class ServerStream (C : Type) `{!ServerOps C (world K)} := {
  server_accept_stream l w c w' :
    server_accept l w = (Ret c, w') →
    stream c (wview w') = ([], []) ∧ ∀ c', c' ≠ c → stream c' (wview w') = stream c' (wview w);
  server_create_stream c w conn w' fd :
    server_create_connection c w = (Ret conn, w') → stream fd (wview w') = stream fd (wview w);
}.
End interfaces.

(** ** Over a plain socket *)

Section instances.
Context {K : Type} `{NetworkLaws K} `{Platform}.

#[export] Instance tcp_stream fuel :
  @ConnectionStream K _ _ _ TCPConnection.t (TCPConnection.ops fuel) (TCPConnection.connection fuel).
Proof.
  split.
  - done.
  - intros c w d w'. change conn_recv with (TCPConnection.recv (K:=K)).
    destruct (sys_recv (TCPConnection.fd_ c) RECV_BUF_SZ (kern w)) as [[r data] k] eqn:Hr.
    rewrite (TCPConnection.tcp_recv_run _ _ _ _ _ Hr).
    apply recv_net in Hr as [(-> & _ & Hblock)|(Hr & -> & _)]; intros [= Ho _].
    + cbn in Ho. unfold recv_failure in Ho. cbn in Ho. cbn [conn_fd TCPConnection.ops].
      destruct (is_win32 && _).
      * destruct (Z.eqb_spec (WSAGetLastError k) WSAEWOULDBLOCK); [|done].
        injection Ho as <-. unfold wnet. rewrite Hblock by by right. done.
      * destruct (Z.eqb_spec (errno k) EAGAIN); [|done].
        injection Ho as <-. unfold wnet. rewrite Hblock by by left. done.
    + rewrite (proj2 (Z.ltb_ge r 0)) in Ho by done. by injection Ho as <-.
  - intros c w o w' fd. change conn_destroy with (TCPConnection.destroy (K:=K)).
    unfold TCPConnection.destroy. rewrite run_bind, run_sys. intros [= <- <-].
    unfold wview. cbn. by rewrite close_law.
Qed.

#[export] Instance tcp_server_stream : @ServerStream K _ _ TCPConnection.t TCPServer.ops.
Proof.
  split.
  - intros l w c w' (_ & Hc)%accept_open_run. rewrite Hc. split.
    + unfold stream, v_received, v_sent. cbn. by rewrite !lookup_total_delete_eq.
    + intros c' Hne. unfold stream, v_received, v_sent. cbn.
      by rewrite !lookup_total_delete_ne by congruence.
  - by intros c w conn w' fd [= <- <-].
Qed.

Section sessions.
Context {C PS : Type} `{!ConnectionOps C (world K)} `{!ConnectionSpec C K}.
Variable process : bytes → M PS bytes.

(** A [recv] that is followed by the [send] of [resp]. *)
Lemma recv_send_stream `{!ConnectionStream C} c d resp w w1 w2 :
  conn_recv c w = (Ret d, w1) → conn_send c resp w1 = (Ret (), w2) →
  ∃ out, stream_step (inl (conn_fd c)) (take RECV_BUF_SZ (unread (wnet w) (conn_fd c))) out
    (wview w) (wview w2).
Proof.
  intros Hr (ns & _ & Hs & _)%conn_send_spec. pose proof (conn_recv_stream _ _ _ _ Hr) as <-.
  apply conn_recv_spec in Hr. rewrite conn_end_plain in Hr, Hs.
  eexists. rewrite <-(app_nil_r d). by eapply stream_step_trans.
Qed.

#[export] Instance plain_stream `{!ConnectionStream C} :
  @SessionStream K _ _ _ (Session.t C PS) (Session.ops process).
Proof.
  split; [|intros s w o w' fd; apply conn_destroy_stream].
  intros s w s' w'. change session_iteration with (Session.iteration process).
  rewrite Session.session_iteration_run. change (session_fd s) with (conn_fd (Session.connection_ s)).
  destruct (conn_recv _ w) as [[d| | |] w1] eqn:Hr; [|done..].
  pose proof (conn_recv_stream _ _ _ _ Hr) as Hd. destruct d as [|b d].
  - intros [= <- <-]. apply conn_recv_spec in Hr. rewrite conn_end_plain in Hr. rewrite <-Hd. by eexists.
  - destruct (process _ _) as [[resp| | |] p]; [|done..].
    destruct (conn_send _ resp w1) as [[[]| | |] w2] eqn:Hs; [|done..]. intros [= <- <-].
    by eapply recv_send_stream.
Qed.

#[export] Instance line_stream `{!ConnectionStream C} fuel :
  @SessionStream K _ _ _ (LineSession.t C PS) (LineSession.ops process fuel).
Proof.
  split; [|intros s w o w' fd; apply conn_destroy_stream].
  intros s w s' w'. change session_iteration with (LineSession.iteration process fuel).
  rewrite LineSession.line_iteration_run.
  change (session_fd s) with (conn_fd (Session.connection_ (LineSession.base s))).
  destruct (conn_recv _ w) as [[d| | |] w1] eqn:Hr; [|done..].
  pose proof (LineSession.line_loop_setup process fuel 0 []
    (LineSession.set_buffer (LineSession.buffer_ s ++ d) s)) as (Hc & _).
  destruct (LineSession.line_loop _ _ _ _ _) as [[resp| | |] s1]; [|done..]. cbn in Hc.
  destruct (conn_send _ resp w1) as [[[]| | |] w2] eqn:Hs; [|done..]. intros [= <- <-].
  rewrite Hc in Hs. by eapply recv_send_stream.
Qed.

(** ** The contract of a line session

    Everything received is lines with their separators and then the buffer, and
    what was sent are the answers of [process] to these lines, in order, from
    the protocol's first state [p0] on.  Every line ends at the first separator
    behind where its search began; a complete line that is still in the buffer
    is shorter than the last one answered. *)
Section conversation.
Context (sep : bytes) (incl : bool) (p0 : PS).

Definition line_of (l : bytes) : bytes := l ++ (if incl then sep else []).

Definition conversation (s : LineSession.t C PS) (io : bytes * bytes) : Prop :=
  LineSession.separator_ s = sep ∧ LineSession.separator_len_ s = length sep ∧
  LineSession.include_separator_ s = incl ∧
  ∃ ls, io.1 = LineSession.unlines sep ls ++ LineSession.buffer_ s ∧
    LineSession.answer process line_of ls [] p0 =
      (Ret io.2, Session.protocol_state (LineSession.base s), []) ∧
    cuts sep 0 ls ∧ string_find (LineSession.buffer_ s) sep (last_length 0 ls) = None.

Hypothesis Hsep : sep ≠ [].

Lemma conversation_new c : conversation (LineSession.make c p0 incl sep) ([], []).
Proof.
  split_and!; try done. exists []. split_and!; try done. apply string_find_None; [done|].
  intros k _ Hp. cbn in Hp. rewrite drop_nil in Hp. by apply prefix_nil_inv in Hp.
Qed.

#[export] Instance line_contract `{!ConnectionStream C} `{!ConnectionWhole C K} fuel :
  @SessionContract K _ _ (LineSession.t C PS) (LineSession.ops process fuel) conversation.
Proof.
  intros s w s' w' Hit (Hs & Hlen & Hincl & ls0 & Hin & Hout & Hcuts & _). revert Hit.
  change session_iteration with (LineSession.iteration process fuel).
  change (session_fd s) with (conn_fd (Session.connection_ (LineSession.base s))) in *.
  rewrite LineSession.line_iteration_run.
  destruct (conn_recv _ w) as [[d| | |] w1] eqn:Hr; [|done..].
  set (s0 := LineSession.set_buffer _ s).
  destruct (LineSession.line_loop _ _ _ _ _) as [[resp| | |] s1] eqn:Hl; [|done..].
  assert (LineSession.wf s0) as Hwf by (unfold s0; split; cbn; congruence).
  apply LineSession.line_loop_returned in Hl as (ls & rest & p & He & Ha & ->); [|done].
  pose proof (LineSession.extract_unlines _ _ _ _ _ _ He) as Hbuf. apply extract_cuts in He as [Hc Hrest].
  destruct (conn_send _ resp w1) as [[[]| | |] w2] eqn:Hsnd; [|done..]. intros [= <- <-].
  assert (LineSession.arg_of s0 = line_of) as Harg
    by (unfold LineSession.arg_of, line_of; cbn; by rewrite Hincl, Hs).
  apply conn_recv_spec in Hr. apply conn_send_whole in Hsnd. rewrite Harg in Ha. cbn in Hsnd, Hbuf, Ha, Hc, Hrest.
  rewrite conn_end_plain in Hr, Hsnd.
  rewrite (stream_step_own _ _ _ _ _ Hsnd), (stream_step_own _ _ _ _ _ Hr). cbn [fst snd].
  rewrite !app_nil_r. split; [done|]. split; [done|]. split; [done|]. exists (ls0 ++ ls).
  rewrite Hin, LineSession.unlines_app, <-!app_assoc. rewrite Hbuf, Hs. split; [done|].
  rewrite (LineSession.answer_app _ _ _ _ _ _ _ _ Hout). rewrite Hs in Hc, Hrest.
  split; [|by apply cuts_continue].
  apply LineSession.answer_behind with 
    (r0 := (stream (conn_fd (Session.connection_ (LineSession.base s))) (wview w)).2) in Ha.
  rewrite app_nil_r in Ha. exact Ha.
Qed.
End conversation.
End sessions.
End instances.

(** ** Every session of a server *)

Section server.
Context {C P Se K : Type} `{KernelLaws K} `{!Network K} `{!ConnectionOps C (world K)}
  `{!SessionOps Se (world K)} `{!SessionSpec Se K} `{!SessionNet Se} `{!SessionStream Se}
  `{!PollerOps P (world K)} `{!PollerSpec P K} `{!PollerNet P} `{!ServerOps C (world K)}
  `{!ServerSpec C K} `{!ServerNet C} `{!ServerStream C} `{!ProtocolOps C Se}
  `{!ProtocolSpec C Se (world K)}.
Context (good : Se → bytes * bytes → Prop) `{!SessionContract Se good}.
Hypothesis good_new : ∀ conn : C, good (create_session conn) ([], []).

(** The sessions of a map with what crossed their connections. *)
Definition served (m : gmap SOCKET Se) (w : world K) : Prop :=
  ∀ c x, m !! c = Some x → good x (stream c (wview w)).

Definition served_config (x : config P Se (world K)) : Prop :=
  served (all_sessions (thread_manager_ (srv x))) (wd x).

Lemma served_same m w w' :
  (∀ c, stream c (wview w') = stream c (wview w)) → served m w → served m w'.
Proof. intros Hs Hm c x Hx. rewrite Hs. by apply Hm. Qed.

Lemma same_but_interest_stream c v v' : same_but_interest v v' → stream c v' = stream c v.
Proof. intros (_ & Hi & Ho). unfold stream, v_received, v_sent. by rewrite Hi, Ho. Qed.

(** What an iteration keeps: the contract, and all that has arrived anywhere. *)
Lemma iterate_served c m (w : world K) m' w' :
  (∀ s, m !! c = Some s → session_fd s = c) →
  iterate_session c (m, w) = (Ret (), (m', w')) →
  (served m w → served m' w') ∧ ∀ c', arrived c' w' = arrived c' w.
Proof.
  intros Hfd. unfold iterate_session. destruct (m !! c) as [s|] eqn:Hm; [|by intros [= <- <-]].
  destruct (session_iteration (s, w)) as [[[]| | |] [s1 w1]] eqn:Hi; [|done..]. intros [= <- <-].
  specialize (Hfd s eq_refl). subst c.
  pose proof (session_iteration_stream _ _ _ _ Hi) as [resp Hs].
  pose proof (session_iteration_net _ _ _ _ Hi) as (Hu & _). split.
  - intros Hgood c x [(<- & <-)|[Hne Hx]]%lookup_insert_Some.
    + eapply good_iteration; [done|by apply Hgood].
    + rewrite (stream_step_others _ _ _ _ _ _ Hs) by done. by apply Hgood.
  - intros c'. unfold arrived. rewrite Hu. case_decide as Hc.
    + subst c'. rewrite (stream_step_own _ _ _ _ _ Hs). cbn [fst]. by rewrite <-app_assoc, take_drop.
    + by rewrite (stream_step_others _ _ _ _ _ _ Hs).
Qed.

(** The client [c] stays, with all that has arrived on it. *)
Definition stays (c : SOCKET) (s : t P Se) (w : world K) (s' : t P Se) (w' : world K) : Prop :=
  c ∈ clients s → c ∈ clients s' ∧ arrived c w' = arrived c w.

Lemma wait_serves s (w : world K) evs s' w' :
  on_poller (poller_wait default_timeout) (s, w) = (Ret evs, (s', w')) →
  (served (all_sessions (thread_manager_ s)) w → served (all_sessions (thread_manager_ s')) w') ∧
  ∀ c, stays c s w s' w'.
Proof.
  intros (p' & Hw & ->)%on_poller_inv. pose proof (poller_wait_spec _ _ _ _ _ _ Hw) as (_ & Hv & _).
  apply poller_wait_net in Hw as [Hu _]. cbn. split.
  - apply served_same. intros c. by apply same_but_interest_stream.
  - intros c Hc. split; [done|]. unfold arrived. by rewrite Hu, (same_but_interest_stream _ _ _ Hv).
Qed.

Lemma data_serves base s (w : world K) e evs s' w' :
  inv base s w (e :: evs) →
  on_manager (ThreadManager.data_available (fd e)) (s, w) = (Ret (), (s', w')) →
  (served (all_sessions (thread_manager_ s)) w → served (all_sessions (thread_manager_ s')) w') ∧
  ∀ c, stays c s w s' w'.
Proof.
  intros Hinv (tm' & Hd & ->)%on_manager_inv. pose proof (inv_wf _ _ _ _ Hinv) as Hwf.
  pose proof (data_fds _ _ _ _ _ _ Hwf Hd : clients (Make (fd_ s) (poller_ s) tm' (running_ s)) = clients s)
    as Hcl.
  apply data_sessions in Hd as [_ Hv]; [|done].
  assert ((served (all_sessions (thread_manager_ s)) w → served (all_sessions tm') w') ∧
    ∀ c, arrived c w' = arrived c w) as [Hs Ha].
  { destruct (_ !! _) as [[]|]; [|by injection Hv as <- <-..].
    eapply iterate_served; [|exact Hv]. intros y. by apply all_sessions_fd. }
  split; [exact Hs|]. intros c. unfold stays. by rewrite Hcl.
Qed.

Lemma work_serves base s (w : world K) i x x' w' evs :
  inv base s w evs → ThreadManager.threads_ (thread_manager_ s) !! i = Some (Thread.Multi x) →
  ThreadMulti.work (x, w) = (Ret (), (x', w')) →
  let s' := Make (fd_ s) (poller_ s) (ThreadManager.Make
    (<[i := Thread.Multi x']> (ThreadManager.threads_ (thread_manager_ s)))) (running_ s) in
  (served (all_sessions (thread_manager_ s)) w → served (all_sessions (thread_manager_ s')) w') ∧
  ∀ c, stays c s w s' w'.
Proof.
  intros Hinv Hx Hw s'. pose proof (inv_wf _ _ _ _ Hinv) as Hwf.
  pose proof (work_fds _ _ _ _ _ _ _ Hwf Hx Hw : clients s' = clients s) as Hcl.
  destruct (work_refines _ _ _ _ _ _ _ Hwf Hx Hw) as [_ Hn].
  assert ((served (all_sessions (thread_manager_ s)) w → served (all_sessions (thread_manager_ s')) w') ∧
    ∀ c, arrived c w' = arrived c w) as [Hs Ha].
  { unfold next_work in Hn. destruct (ThreadMulti.queue_ x).
    { injection Hn as Hm <-. unfold s'. cbn -[all_sessions]. by rewrite <-Hm. }
    eapply iterate_served; [|exact Hn]. intros y. by apply all_sessions_fd. }
  split; [exact Hs|]. intros c. unfold stays. by rewrite Hcl.
Qed.

Lemma remove_serves base s (w : world K) e evs s' w' :
  inv base s w (e :: evs) → type e = ClientDisconnected →
  on_manager (ThreadManager.remove_session (fd e)) (s, w) = (Ret (), (s', w')) →
  (served (all_sessions (thread_manager_ s)) w → served (all_sessions (thread_manager_ s')) w') ∧
  ∀ c, c ≠ fd e → stays c s w s' w'.
Proof.
  intros Hinv He (tm' & Hr & ->)%on_manager_inv. pose proof (inv_wf _ _ _ _ Hinv) as Hwf.
  assert (fd e ∈ client_fds (e :: evs)) as Hin by (rewrite client_fds_cons, He; left).
  pose proof (inv_events _ _ _ _ Hinv _ Hin) as Hfd. pose proof (proj1 (client_session _ _) Hfd) as Hsome.
  pose proof (remove_fds _ _ _ _ _ _ Hwf Hsome Hr :
    clients (Make (fd_ s) (poller_ s) tm' (running_ s)) = clients s ∖ {[fd e]}) as Hcl.
  pose proof (remove_net _ _ _ _ _ Hwf Hsome Hr) as (Hu & _).
  apply remove_refines in Hr as [_ Hr]; [|done]. destruct Hsome as [x Hx].
  unfold erase_session in Hr. rewrite Hx in Hr.
  destruct (session_destroy x w) as [o w1] eqn:Hd. injection Hr as _ Hm <-.
  pose proof (λ c, session_destroy_stream _ _ _ _ c Hd) as Hs. split; cbn.
  - intros Hg c y Hy. rewrite <-Hm in Hy. apply lookup_delete_Some in Hy as [_ Hy]. rewrite Hs. by apply Hg.
  - intros c Hne Hc. rewrite Hcl. split; [set_solver|]. unfold arrived. by rewrite Hs, Hu.
Qed.

Lemma new_serves base s (w : world K) e evs s' w' :
  inv base s w (e :: evs) → type e = NewClient → handle e (s, w) = (Ret (), (s', w')) →
  (served (all_sessions (thread_manager_ s)) w → served (all_sessions (thread_manager_ s')) w') ∧
  ∀ c, stays c s w s' w'.
Proof.
  intros Hinv He Hh.
  apply handle_new_run in Hh as (v & conn & w1 & w2 & tm' & w3 & p' & Ha & Hc & Hadd & Hp & ->); [|done].
  pose proof (server_accept_spec _ _ _ _ Ha) as (Hfresh & _).
  pose proof (server_create_spec _ _ _ _ Hc) as [Hcfd _].
  pose proof (server_accept_stream _ _ _ _ Ha) as [Hnew Hold].
  pose proof (λ c, server_create_stream _ _ _ _ c Hc) as Hcs.
  pose proof (same_accept _ _ _ _ (server_accept_net _ _ _ _ Ha) (server_create_net _ _ _ _ Hc)) as (Hu & _).
  assert (v ∉ clients s) as Hv.
  { rewrite (inv_open _ _ _ _ Hinv) in Hfresh. set_solver. }
  assert (session_fd (create_session conn) = v) as Hsfd by (by rewrite create_session_fd).
  apply add_refines in Hadd as [_ Hadd]; [|apply Hinv].
  rewrite store_fresh in Hadd by (rewrite Hsfd; by apply not_elem_of_dom). injection Hadd as Hm <-.
  rewrite Hsfd in Hm. pose proof (poller_add_spec _ _ _ _ _ _ Hp) as (_ & Hps & _).
  apply poller_add_net in Hp as (Hpu & _). unfold stays, clients. cbn -[arrived].
  rewrite <-Hm. split.
  - intros Hg c x Hx. rewrite (same_but_interest_stream _ _ _ Hps), Hcs.
    apply lookup_insert_Some in Hx as [(<- & <-)|[Hne Hx]]; [rewrite Hnew; apply good_new|].
    rewrite Hold by done. by apply Hg.
  - intros c Hcc. assert (c ≠ v) by (intros ->; done). split; [rewrite dom_insert_L; set_solver|].
    unfold arrived. by rewrite (same_but_interest_stream _ _ _ Hps), Hcs, Hold, Hpu, Hu.
Qed.

(** ** Every step *)

(** The server takes the client [c] for gone. *)
Definition hangs_up (c : SOCKET) (l : System.label) : Prop :=
  match l with System.Inner (LEvent e) => type e = ClientDisconnected ∧ fd e = c | _ => False end.

(** The bytes that arrive on [c]. *)
Definition arrival (c : SOCKET) (l : System.label) : bytes :=
  match l with System.Arrives fd d => if decide (fd = c) then d else [] | _ => [] end.
Definition arrivals (c : SOCKET) (ls : list System.label) : bytes := concat (arrival c <$> ls).

Definition stays_config (c : SOCKET) (x x' : config P Se (world K)) : Prop :=
  stays c (srv x) (wd x) (srv x') (wd x').

Lemma inner_serves base x l x' :
  Machine.step x l x' → inv_config base x →
  (served_config x → served_config x') ∧
  ∀ c, ¬ hangs_up c (System.Inner l) → stays_config c x x'.
Proof.
  unfold inv_config, served_config, stays_config.
  intros [s w|s w evs s' w' Hw|s w e evs s' w' Hh|s w|s w p i y y' w' Hy Hw|s w p]; cbn;
    intros Hinv; try by split.
  - apply wait_serves in Hw as [? Hs]. by split.
  - unfold handle in Hh. destruct (type e) eqn:He.
    + destruct (new_serves base s w e evs s' w') as [? Hs]; [done|done|by unfold handle; rewrite He|].
      by split.
    + destruct (data_serves base s w e evs s' w') as [? Hs]; [done..|]. by split.
    + destruct (remove_serves base s w e evs s' w') as [? Hs]; [done..|]. split; [done|].
      intros c Hne. apply Hs. intros ->. by apply Hne.
  - destruct (work_serves base s w i y y' w' (batch p)) as [? Hs]; [done..|]. by split.
Qed.

Lemma system_serves base x l x' c :
  System.step x l x' → inv_config base x →
  (served_config x → served_config x') ∧
  (¬ hangs_up c l → c ∈ clients (srv x) →
   c ∈ clients (srv x') ∧ arrived c (wd x') = arrived c (wd x) ++ arrival c l).
Proof.
  intros [x0 l0 x0' Hs|s w p fd d k' Hv (Hu & _)|s w p k' Hv (Hu & _)] Hinv.
  - destruct (inner_serves _ _ _ _ Hs Hinv) as [? Hst]. split; [done|]. cbn [arrival].
    rewrite app_nil_r. intros Hne. by apply Hst.
  - split; [by apply served_same; intros c'; unfold wview in *; cbn; rewrite Hv|]. intros _ Hc.
    split; [done|]. unfold arrived, arrival, wview, wnet in *. cbn. rewrite Hv, Hu.
    repeat case_decide; subst; rewrite ?app_nil_r, ?app_assoc; done.
  - split; [by apply served_same; intros c'; unfold wview in *; cbn; rewrite Hv|]. intros _ Hc.
    split; [done|]. unfold arrived, wview, wnet in *. cbn. by rewrite Hv, Hu, app_nil_r.
Qed.

Lemma system_serves_along Q base x ls x' c :
  System.steps Q x ls x' → inv_config base x →
  (served_config x → served_config x') ∧
  (Forall (λ l, ¬ hangs_up c l) ls → c ∈ clients (srv x) →
   c ∈ clients (srv x') ∧ arrived c (wd x') = arrived c (wd x) ++ arrivals c ls).
Proof.
  induction 1 as [x|x l x1 ls x2 Hq Hs Hr IH]; intros Hinv.
  { split; [done|]. intros _ Hc. split; [done|]. unfold arrivals. cbn. by rewrite app_nil_r. }
  destruct (system_serves _ _ _ _ c Hs Hinv) as [Hg Ha].
  destruct IH as [Hg' Ha'].
  { refine (system_inv_along Q base x [l] x1 _ Hinv). econstructor; [done|done|constructor]. }
  split; [by auto|]. intros [Hne Hl]%Forall_cons Hc. destruct (Ha Hne Hc) as [Hc1 H1].
  destruct (Ha' Hl Hc1) as [Hc2 H2]. split; [done|]. rewrite H2, H1. unfold arrivals. cbn.
  by rewrite app_assoc.
Qed.

Lemma make_served l tc w s w' :
  make l tc w = (Ret s, w') → served_config (Config s w' AtTest).
Proof.
  intros Hm c x Hx. assert (c ∈ clients s) as Hc by (apply client_session; by eexists).
  rewrite (made_clients _ _ _ _ _ Hm) in Hc. set_solver.
Qed.

(** A state that a server gets to from its constructor. *)
Definition reaches (l : SOCKET) (tc : ThreadCount) (w : world K) (x : config P Se (world K)) : Prop :=
  (∀ n, tc = inr n → (0 < n)%Z) ∧ l ∈ v_open (wview w) ∧
  ∃ s w0 ls, make l tc w = (Ret s, w0) ∧ System.steps (λ _, True) (Config s w0 AtTest) ls x.

Lemma reaches_serves l tc w x c ses :
  reaches l tc w x → all_sessions (thread_manager_ (srv x)) !! c = Some ses →
  good ses (stream c (wview (wd x))).
Proof.
  intros (Htc & Hl & s & w0 & ls & Hm & Hs) Hses. pose proof (make_inv _ _ _ _ _ Htc Hl Hm) as Hinv.
  destruct (system_serves_along _ _ _ _ _ c Hs Hinv) as [Hg _].
  by apply (Hg (make_served _ _ _ _ _ Hm)).
Qed.

(** C8: Connections do not mix: over plain sockets and with a poller that meets its contract
    (epoll, kqueue) and a positive number of threads, a contract between what a session has
    received and what it has sent on its own connection, established by the session's
    constructor and kept by its iterations, holds of every session in every reachable state of a
    server, whatever arrives elsewhere and whoever comes and goes, also for descriptors used
    again. *)
Theorem sessions_serve l tc w x c ses :
  reaches l tc w x → all_sessions (thread_manager_ (srv x)) !! c = Some ses →
  good ses (stream c (wview (wd x))).
Proof. apply reaches_serves. Qed.

(** A run from the constructor to a state in which nothing is left to do: over
    [x], where [c] is a client, and from there by [ls], while [c] stays. *)
Record rests (l : SOCKET) (tc : ThreadCount) (w : world K) (x : config P Se (world K)) (c : SOCKET)
    (ls : list System.label) (s1 : t P Se) (w1 : world K) : Prop := {
  r_threads : ∀ n, tc = inr n → (0 < n)%Z;
  r_listener : l ∈ v_open (wview w);
  r_before : ∃ s w0 ls0, make l tc w = (Ret s, w0) ∧ System.steps fits (Config s w0 AtTest) ls0 x;
  r_client : c ∈ clients (srv x);
  r_after : System.steps fits x ls (Config s1 w1 AtWait);
  r_stays : Forall (λ l, ¬ hangs_up c l) ls;
  r_timeout : timed_out default_timeout (poller_ s1) w1;
  r_queues : Forall (λ x, queued x = []) (ThreadManager.threads_ (thread_manager_ s1)) }.

(** At rest, all that has arrived is part of the contract. *)
Lemma served_at_rest l tc w x c ls s1 w1 :
  rests l tc w x c ls s1 w1 →
  ∃ ses sent, all_sessions (thread_manager_ s1) !! c = Some ses ∧
    stream c (wview w1) = (arrived c (wd x) ++ arrivals c ls, sent) ∧
    good ses (arrived c (wd x) ++ arrivals c ls, sent).
Proof.
  intros [Htc Hl (s & w0 & ls0 & Hm & Hs) Hc Hs' Hne Ht Hq].
  pose proof (make_inv _ _ _ _ _ Htc Hl Hm) as Hinv.
  pose proof (make_system_inv _ _ _ _ _ Htc Hl Hm) as Hsinv.
  pose proof (system_inv_along _ _ _ _ _ Hs Hinv) as Hinv1.
  destruct (system_serves_along _ _ _ _ _ c Hs Hinv) as [Hg _].
  destruct (system_serves_along _ _ _ _ _ c Hs' Hinv1) as [Hg' Hkeep].
  destruct (Hkeep Hne Hc) as [Hc1 Harr]. pose proof (Hg' (Hg (make_served _ _ _ _ _ Hm))) as Hserved.
  assert (unread (wnet w1) c = []) as Hu.
  { eapply unread_at_rest; [|done..]. by do 2 (eapply system_steps_inv; [done|]). }
  destruct (proj1 (client_session _ _) Hc1) as [ses Hses]. exists ses, (stream c (wview w1)).2.
  assert (stream c (wview w1) = (arrived c (wd x) ++ arrivals c ls, (stream c (wview w1)).2)) as Heq.
  { rewrite <-Harr. unfold arrived. cbn [wd]. by rewrite Hu, app_nil_r. }
  split; [done|]. split; [done|]. rewrite <-Heq. by apply (Hserved c ses).
Qed.
End server.

(** ** A TCP server of line sessions *)

Section tcp_lines.
Context {P PS K : Type} `{NetworkLaws K} `{!WholeKernel K} `{Platform}
  `{!PollerOps P (world K)} `{!PollerSpec P K} `{!PollerNet P}.
Variable process : bytes → M PS bytes.
Context (sep : bytes) (incl : bool) (p0 : PS) (send_fuel line_fuel : nat).

#[local] Instance conns : ConnectionOps TCPConnection.t (world K) := TCPConnection.ops send_fuel.
#[local] Instance conns_spec : ConnectionSpec TCPConnection.t K := TCPConnection.connection send_fuel.
#[local] Instance conns_whole : ConnectionWhole TCPConnection.t K :=
  TCPConnection.connection_whole send_fuel.
#[local] Instance conns_close : ConnectionCloses TCPConnection.t K :=
  TCPConnection.connection_closes send_fuel.
#[local] Instance conns_net : ConnectionNet TCPConnection.t := tcp_net send_fuel.
#[local] Instance lines : SessionOps (LineSession.t TCPConnection.t PS) (world K) :=
  LineSession.ops process line_fuel.
#[local] Instance lines_spec : SessionSpec (LineSession.t TCPConnection.t PS) K :=
  LineSession.session process line_fuel.
#[local] Instance tcp_server_ops : ServerOps TCPConnection.t (world K) := TCPServer.ops.
#[local] Instance tcp_server_spec : ServerSpec TCPConnection.t K := tcp_server send_fuel.
(** [create_session] of the protocols of the repository *)
#[local] Instance line_protocol : ProtocolOps TCPConnection.t (LineSession.t TCPConnection.t PS) :=
  λ conn, LineSession.make conn p0 incl sep.
#[local] Instance line_protocol_spec :
  ProtocolSpec TCPConnection.t (LineSession.t TCPConnection.t PS) (world K).
Proof. by intros conn. Qed.

(** What a conversation is, at rest. *)
Lemma conversation_at_rest l tc w (x : config P (LineSession.t TCPConnection.t PS) (world K)) c ls s1 w1 :
  sep ≠ [] → rests l tc w x c ls s1 w1 →
  ∃ lines buffer p,
    arrived c (wd x) ++ arrivals c ls = LineSession.unlines sep lines ++ buffer ∧
    LineSession.answer process (line_of sep incl) lines [] p0 =
      (Ret (v_sent (inl c) (wview w1)), p, []) ∧
    cuts sep 0 lines ∧ string_find buffer sep (last_length 0 lines) = None.
Proof.
  intros Hsep Hr. pose proof (line_contract process sep incl p0 Hsep line_fuel) as Hcon.
  destruct (served_at_rest (C:=TCPConnection.t) (K:=K) (conversation process sep incl p0)
    (conversation_new process sep incl p0 Hsep) _ _ _ _ _ _ _ _ Hr)
    as (ses & sent & _ & Hst & _ & _ & _ & lines0 & Hin & Hans & Hcuts).
  assert (v_sent (inl c) (wview w1) = sent) as -> by (unfold stream in Hst; congruence).
  by exists lines0, (LineSession.buffer_ ses), (Session.protocol_state (LineSession.base ses)).
Qed.

(** C1: A TCP server of line sessions answers what it is sent, over plain TCP, with a poller
    that meets its contract (epoll and kqueue, not WSAPoll), a non-empty separator and a
    positive number of threads; provided that the kernel takes every send whole (if it does not,
    TransportSpec.tcp_partial_write_duplicates) and that, with epoll, no descriptor ever has
    more than one receive buffer of 16 KiB unread (if one has, Delivery.burst_never_read): in
    every run from the constructor, with a protocol that may keep a state, and bytes that arrive
    in any pieces at any moment within that bound, whenever the server waits with nothing to
    report and nothing queued, all that has ever arrived on a client that stays - what had
    arrived when it was first seen, then every later piece - is a list of lines with their
    separators and the session's buffer; what was sent to it is exactly the answers of process
    to these lines, in order; every line ends at the first separator from a position not behind
    the length of the line before it, and so does the search that left the buffer. *)
Theorem lines_answered l tc w (x : config P (LineSession.t TCPConnection.t PS) (world K)) c ls s1 w1 :
  sep ≠ [] → rests l tc w x c ls s1 w1 →
  ∃ lines buffer p,
    arrived c (wd x) ++ arrivals c ls = LineSession.unlines sep lines ++ buffer ∧
    LineSession.answer process (line_of sep incl) lines [] p0 =
      (Ret (v_sent (inl c) (wview w1)), p, []) ∧
    cuts sep 0 lines ∧ string_find buffer sep (last_length 0 lines) = None.
Proof. apply conversation_at_rest. Qed.

(** Lines that do not get shorter are all answered. *)
Lemma ordered_at_rest l tc w (x : config P (LineSession.t TCPConnection.t PS) (world K)) c ls s1 w1 L tail :
  sep ≠ [] → rests l tc w x c ls s1 w1 →
  arrived c (wd x) ++ arrivals c ls = LineSession.unlines sep L ++ tail →
  Forall (whole_line sep) L → string_find tail sep 0 = None → Sorted le (length <$> L) →
  ∃ p, LineSession.answer process (line_of sep incl) L [] p0 =
    (Ret (v_sent (inl c) (wview w1)), p, []).
Proof.
  intros Hsep Hr HL Hwhole Htail Hs.
  destruct (conversation_at_rest _ _ _ _ _ _ _ _ Hsep Hr) as (lines0 & buffer & p & Heq & Ha & Hc & Hf).
  rewrite HL in Heq. destruct (cuts_ordered sep Hsep 0 L tail lines0 buffer) as [-> _]; try done.
  - constructor; [done|]. destruct L; constructor. lia.
  - by exists p.
Qed.

(** C2: In a server of line sessions over plain TCP, with a poller that meets its contract
    (epoll and kqueue, not WSAPoll), a non-empty separator and a positive number of threads;
    provided that the kernel takes every send whole (if it does not,
    TransportSpec.tcp_partial_write_duplicates) and that, with epoll, no descriptor ever has
    more than one receive buffer of 16 KiB unread (if one has, Delivery.burst_never_read): when
    the lines that have arrived on a client never get shorter, exactly these lines are answered,
    each once and in order, however they were cut into pieces on the way and whatever incomplete
    line follows them: at rest the bytes sent to the client are the answers of process to them
    and nothing else. *)
Theorem ordered_lines_answered l tc w (x : config P (LineSession.t TCPConnection.t PS) (world K)) c ls s1 w1 L tail :
  sep ≠ [] → rests l tc w x c ls s1 w1 →
  arrived c (wd x) ++ arrivals c ls = LineSession.unlines sep L ++ tail →
  Forall (whole_line sep) L → string_find tail sep 0 = None → Sorted le (length <$> L) →
  ∃ p, LineSession.answer process (line_of sep incl) L [] p0 =
    (Ret (v_sent (inl c) (wview w1)), p, []).
Proof. apply ordered_at_rest. Qed.
End tcp_lines.
