(* ===== verification/Idle.v ===== *)
(** * The server does no idle work

    With an edge-triggered poller every event of a client has a cause: an
    arrival on it, or its acceptance.  The events handled, those of the batch
    and the clients with an edge are never more than the arrivals and
    acceptances so far, so a server left alone comes to rest. *)

From S2P Require Import Prelude Cpp Log OS Connection Session Threads ThreadsSpec Poller.
From S2P Require Import PollerSpec Server ServerSpec Network PollerNet Delivery.
Import Server Machine.

(** The descriptors an instance has an edge of. *)
Definition due (ep : Z) (n : net) : gset SOCKET := set_map snd (filter (λ q, q.1 = ep) (edges n)).

Lemma elem_of_due ep c n : c ∈ due ep n ↔ (ep, c) ∈ edges n.
Proof.
  unfold due. rewrite elem_of_map. setoid_rewrite elem_of_filter. split.
  - by intros ([ep' c'] & -> & <- & ?).
  - intros ?. by exists (ep, c).
Qed.

Lemma due_fewer ep n n' (C C' : gset SOCKET) :
  edges n' ⊆ edges n → C' ⊆ C → size (due ep n' ∩ C') ≤ size (due ep n ∩ C).
Proof.
  intros He HC. apply subseteq_size. intros c. rewrite !elem_of_intersection, !elem_of_due.
  intros [?%He ?%HC]. done.
Qed.

Lemma due_one_more ep n n' (C C' : gset SOCKET) v :
  (∀ c, (ep, c) ∈ edges n' → c ∈ C' → c = v ∨ (ep, c) ∈ edges n ∧ c ∈ C) →
  size (due ep n' ∩ C') ≤ S (size (due ep n ∩ C)).
Proof.
  intros Hv. etrans; [apply (subseteq_size _ ({[v]} ∪ due ep n ∩ C))|].
  - intros c. rewrite !elem_of_union, !elem_of_intersection, !elem_of_due, elem_of_singleton. naive_solver.
  - rewrite size_union_alt, size_singleton.
    assert (size ((due ep n ∩ C) ∖ {[v]}) ≤ size (due ep n ∩ C)) by (apply subseteq_size; set_solver).
    lia.
Qed.

Section idle.
Context {C P Se K : Type} `{KernelLaws K} `{!Network K} `{!ConnectionOps C (world K)}
  `{!SessionOps Se (world K)} `{!SessionSpec Se K} `{!SessionNet Se} `{!PollerOps P (world K)}
  `{!PollerSpec P K} `{!PollerEdges P} `{!ServerOps C (world K)}
  `{!ServerSpec C K} `{!ServerNet C} `{!ProtocolOps C Se} `{!ProtocolSpec C Se (world K)}.

(** The clients the poller has an edge of. *)
Definition pending (s : t P Se) (w : world K) : nat :=
  size (due (poller_fd (poller_ s)) (wnet w) ∩ clients s).

(** Every client is watched with [EPOLLET], or about to be removed. *)
Definition tamed (s : t P Se) (w : world K) (evs : list Event) : Prop :=
  ∀ c, c ∈ clients s → (poller_fd (poller_ s), c) ∈ edge_mode (wnet w) ∨ c ∈ disconnected evs.

(** The events of clients still to come, if nothing more arrives. *)
Definition upcoming (x : config P Se (world K)) : nat :=
  length (client_fds (batch (ph x))) + pending (srv x) (wd x).

(** The events of clients that are handled, and what causes events. *)
Definition is_client (e : Event) : nat := match type e with NewClient => 0 | _ => 1 end.
Definition events_of (l : System.label) : nat :=
  match l with System.Inner (LEvent e) => is_client e | _ => 0 end.
Definition causes_of (l : System.label) : nat :=
  match l with System.Inner (LEvent e) => 1 - is_client e | System.Arrives _ _ => 1 | _ => 0 end.

Lemma client_fds_length e evs :
  length (client_fds (e :: evs)) = is_client e + length (client_fds evs).
Proof. rewrite client_fds_cons, length_app. unfold is_client. by destruct (type e). Qed.

(** A step that reads at most: no client more, no edge more. *)
Lemma pending_fewer s w s' w' :
  poller_ s' = poller_ s → edges (wnet w') ⊆ edges (wnet w) → clients s' ⊆ clients s →
  pending s' w' ≤ pending s w.
Proof. unfold pending. intros -> He Hc. by apply due_fewer. Qed.

Lemma tamed_same s w evs s' w' :
  poller_ s' = poller_ s → edge_mode (wnet w') = edge_mode (wnet w) → clients s' ⊆ clients s →
  tamed s w evs → tamed s' w' evs.
Proof. unfold tamed. intros -> -> Hc Ht c ?%Hc. by apply Ht. Qed.

Lemma tamed_tail s w e evs :
  tamed s w (e :: evs) → type e ≠ ClientDisconnected ∨ fd e ∉ clients s → tamed s w evs.
Proof.
  intros Ht He c Hc. destruct (Ht c Hc) as [?|Hd]; [by left|right].
  rewrite disconnected_cons in Hd. destruct (type e); try done.
  apply elem_of_app in Hd as [->%list_elem_of_singleton|?]; [|done]. by destruct He.
Qed.

Lemma one_buffer_edges fd n n' :
  one_buffer fd n n' → edges n' = edges n ∧ edge_mode n' = edge_mode n.
Proof. by intros (_ & ? & ?). Qed.

Lemma wait_idle base s w evs s' w' :
  inv base s w [] → tamed s w [] →
  on_poller (poller_wait default_timeout) (s, w) = (Ret evs, (s', w')) →
  length (client_fds evs) + pending s' w' ≤ pending s w ∧ tamed s' w' evs.
Proof.
  intros Hinv Ht Hw. pose proof (inv_nodup _ _ _ _ (wait_inv _ _ _ _ _ _ Hinv Hw)) as Hnd.
  pose proof (inv_events _ _ _ _ (wait_inv _ _ _ _ _ _ Hinv Hw)) as Hevs.
  apply on_poller_inv in Hw as (p' & Hw & ->). pose proof (poller_wait_spec _ _ _ _ _ _ Hw) as [-> _].
  apply poller_wait_edges in Hw as (He & Hm & Hc).
  assert (∀ c, c ∈ clients s → (poller_fd (poller_ s), c) ∈ edge_mode (wnet w)) as Hmode.
  { intros c Hc'. by destruct (Ht c Hc') as [|?%elem_of_nil]. }
  split.
  - unfold pending. change (clients (Make _ _ _ _)) with (clients s). cbn.
    rewrite <-(size_list_to_set (C:=gset SOCKET)) by done. rewrite <-size_union.
    + apply subseteq_size. intros c. rewrite elem_of_union, !elem_of_intersection, elem_of_list_to_set, !elem_of_due.
      intros [Hin|[?%He ?]]; [|done]. pose proof (Hevs c Hin : c ∈ clients s) as Hcl.
      split; [|done]. by apply Hc, Hmode.
    + intros c. rewrite elem_of_intersection, elem_of_list_to_set, elem_of_due. intros Hin [Hedge Hcl].
      by destruct (Hc c Hin (Hmode c Hcl)).
  - intros c Hcl. destruct (Hm c (Hmode c Hcl)); [by right|by left].
Qed.

Lemma data_idle base s w e evs s' w' :
  inv base s w (e :: evs) → type e = ClientDataReady → tamed s w (e :: evs) →
  on_manager (ThreadManager.data_available (fd e)) (s, w) = (Ret (), (s', w')) →
  pending s' w' ≤ pending s w ∧ tamed s' w' evs.
Proof.
  intros Hinv He Ht (tm' & Hdata & ->)%on_manager_inv. pose proof (inv_wf _ _ _ _ Hinv) as Hwf.
  assert (fd e ∈ client_fds (e :: evs)) as Hin by (rewrite client_fds_cons, He; left).
  pose proof (proj1 (client_session _ _) (inv_events _ _ _ _ Hinv _ Hin)) as Hsome.
  pose proof (data_fds _ _ _ _ _ _ Hwf Hdata : clients (Make (fd_ s) (poller_ s) tm' (running_ s)) = clients s)
    as Hcl.
  apply tamed_tail in Ht; [|left; by rewrite He].
  assert (edges (wnet w') = edges (wnet w) ∧ edge_mode (wnet w') = edge_mode (wnet w)) as [Hed Hmo].
  { destruct (data_net _ _ _ _ _ Hwf Hsome Hdata) as [Hone|[-> _]]; [by eapply one_buffer_edges|done]. }
  split; [apply pending_fewer; [done|by rewrite Hed|by rewrite Hcl]|].
  apply (tamed_same s w); [done|done|by rewrite Hcl|done].
Qed.

Lemma remove_idle base s w e evs s' w' :
  inv base s w (e :: evs) → type e = ClientDisconnected → tamed s w (e :: evs) →
  on_manager (ThreadManager.remove_session (fd e)) (s, w) = (Ret (), (s', w')) →
  pending s' w' ≤ pending s w ∧ tamed s' w' evs.
Proof.
  intros Hinv He Ht (tm' & Hr & ->)%on_manager_inv. pose proof (inv_wf _ _ _ _ Hinv) as Hwf.
  assert (fd e ∈ client_fds (e :: evs)) as Hin by (rewrite client_fds_cons, He; left).
  pose proof (inv_events _ _ _ _ Hinv _ Hin) as Hfd. pose proof (proj1 (client_session _ _) Hfd) as Hsome.
  pose proof (remove_fds _ _ _ _ _ _ Hwf Hsome Hr :
    clients (Make (fd_ s) (poller_ s) tm' (running_ s)) = clients s ∖ {[fd e]}) as Hcl.
  apply remove_net in Hr as (_ & Hed & Hmo); [|done..].
  assert (poller_fd (poller_ s) ≠ fd e) as Hp.
  { intros Hp. apply (inv_disj _ _ _ _ Hinv (fd e)); [|done]. rewrite <-Hp. apply (inv_base _ _ _ _ Hinv). }
  split; [apply pending_fewer; [done|rewrite Hed; set_solver|rewrite Hcl; set_solver]|].
  intros c. rewrite Hcl. intros [Hc Hne%not_elem_of_singleton]%elem_of_difference. cbn.
  destruct (Ht c Hc) as [Hm|Hd]; [left; rewrite Hmo; by apply elem_of_filter|right].
  rewrite disconnected_cons, He in Hd. by apply elem_of_app in Hd as [->%list_elem_of_singleton|?].
Qed.

Lemma new_idle base s w e evs s' w' :
  inv base s w (e :: evs) → type e = NewClient → tamed s w (e :: evs) →
  handle e (s, w) = (Ret (), (s', w')) →
  pending s' w' ≤ S (pending s w) ∧ tamed s' w' evs.
Proof.
  intros Hinv He Ht Hh. apply tamed_tail in Ht; [|left; by rewrite He].
  apply handle_new_run in Hh as (v & conn & w1 & w2 & tm' & w3 & p' & Ha & Hc & Hadd & Hp & ->); [|done].
  pose proof (server_accept_spec _ _ _ _ Ha) as (Hfresh & _).
  pose proof (server_create_spec _ _ _ _ Hc) as [Hcfd _].
  pose proof (same_accept _ _ _ _ (server_accept_net _ _ _ _ Ha) (server_create_net _ _ _ _ Hc))
    as (_ & Hed & Hmo).
  assert (v ∉ clients s) as Hv.
  { rewrite (inv_open _ _ _ _ Hinv) in Hfresh. set_solver. }
  assert (session_fd (create_session conn) = v) as Hsfd by (by rewrite create_session_fd).
  apply add_fds in Hadd as [Hm ->]; [|apply Hinv|by rewrite Hsfd]. rewrite Hsfd in Hm.
  change (session_fds (thread_manager_ s)) with (clients s) in Hm.
  pose proof (poller_add_spec _ _ _ _ _ _ Hp) as [-> _].
  apply poller_add_edges in Hp as [Hpe Hpm]. rewrite Hed in Hpe. rewrite Hmo in Hpm.
  set (s' := Make _ _ _ _). assert (clients s' = {[v]} ∪ clients s) as Hcl by exact Hm. split.
  - unfold pending. apply (due_one_more _ _ _ _ _ v). rewrite Hcl. cbn [poller_ s'].
    intros c Hin%Hpe. rewrite !elem_of_union, !elem_of_singleton in *. naive_solver.
  - intros c. rewrite Hcl, Hpm. cbn [poller_ s']. intros [->%elem_of_singleton|Hcs]%elem_of_union; [set_solver|].
    destruct (Ht c Hcs); [left; set_solver|by right].
Qed.

Lemma work_idle base s w i x x' w' evs :
  inv base s w evs → tamed s w evs →
  ThreadManager.threads_ (thread_manager_ s) !! i = Some (Thread.Multi x) →
  ThreadMulti.work (x, w) = (Ret (), (x', w')) →
  let s' := Make (fd_ s) (poller_ s) (ThreadManager.Make
    (<[i := Thread.Multi x']> (ThreadManager.threads_ (thread_manager_ s)))) (running_ s) in
  pending s' w' ≤ pending s w ∧ tamed s' w' evs.
Proof.
  intros Hinv Ht Hx Hw s'. pose proof (inv_wf _ _ _ _ Hinv) as Hwf.
  pose proof (work_fds _ _ _ _ _ _ _ Hwf Hx Hw : clients s' = clients s) as Hcl.
  assert (edges (wnet w') = edges (wnet w) ∧ edge_mode (wnet w') = edge_mode (wnet w)) as [Hed Hmo].
  { destruct (work_net _ _ _ _ _ _ Hwf Hx Hw) as [[-> _]|(c & Hone & _)]; [done|by eapply one_buffer_edges]. }
  split; [apply pending_fewer; [done|by rewrite Hed|by rewrite Hcl]|].
  apply (tamed_same s w); [done|done|by rewrite Hcl|done].
Qed.

Definition tamed_config (x : config P Se (world K)) : Prop := tamed (srv x) (wd x) (batch (ph x)).

Lemma inner_idle base x l x' :
  Machine.step x l x' → inv_config base x → tamed_config x →
  events_of (System.Inner l) + upcoming x' ≤ causes_of (System.Inner l) + upcoming x ∧ tamed_config x'.
Proof.
  unfold inv_config, tamed_config, upcoming.
  intros [s w|s w evs s' w' Hw|s w e evs s' w' Hh|s w|s w p i y y' w' Hy Hw|s w p];
    cbn [srv wd ph batch events_of causes_of]; intros Hinv Ht; try by split.
  - by destruct (running_ s).
  - destruct (wait_idle _ _ _ _ _ _ Hinv Ht Hw). split; [cbn; lia|done].
  - rewrite client_fds_length. unfold handle in Hh. unfold is_client. destruct (type e) eqn:He.
    + destruct (new_idle _ _ _ _ _ s' w' Hinv He Ht) as [? ?]; [by unfold handle; rewrite He|]. split; [lia|done].
    + destruct (data_idle _ _ _ _ _ _ _ Hinv He Ht Hh). split; [lia|done].
    + destruct (remove_idle _ _ _ _ _ _ _ Hinv He Ht Hh). split; [lia|done].
  - destruct (work_idle _ _ _ _ _ _ _ _ Hinv Ht Hy Hw). split; [lia|done].
Qed.

Lemma system_idle base x l x' :
  System.step x l x' → inv_config base x → tamed_config x →
  events_of l + upcoming x' ≤ causes_of l + upcoming x ∧ tamed_config x'.
Proof.
  intros [x0 l0 x0' Hs|s w p fd d k' Hv (_ & He & Hm)|s w p k' Hv (_ & He & Hm)] Hinv Ht.
  - by eapply inner_idle.
  - split; [|by apply (tamed_same s w)]. unfold upcoming. cbn.
    assert (pending s (World k' (logs w)) ≤ S (pending s w)); [|lia].
    apply (due_one_more _ _ _ _ _ fd). unfold wnet in *. cbn. rewrite He. intros c.
    rewrite elem_of_union, elem_of_filter. naive_solver.
  - split; [|by apply (tamed_same s w)]. unfold upcoming. cbn.
    assert (pending s (World k' (logs w)) ≤ pending s w); [|lia].
    apply pending_fewer; [done| |done]. unfold wnet in *. cbn. by rewrite He.
Qed.

Lemma system_idle_along Q base x ls x' :
  System.steps Q x ls x' → inv_config base x → tamed_config x →
  sum_list (events_of <$> ls) + upcoming x' ≤ sum_list (causes_of <$> ls) + upcoming x.
Proof.
  induction 1 as [x|x l x1 ls x2 Hq Hs Hr IH]; intros Hinv Ht; [done|].
  destruct (system_idle _ _ _ _ Hs Hinv Ht) as [Hle Ht1]. cbn.
  assert (inv_config base x1) as Hinv1.
  { refine (system_inv_along Q base x [l] x1 _ Hinv). econstructor; [done|done|constructor]. }
  specialize (IH Hinv1 Ht1). lia.
Qed.

(** C16: The server does no idle work with an edge-triggered poller: in every run from the
    constructor, the events of clients handled so far, those left in the batch and the clients
    the poller still has an edge of are together never more than the arrivals on connections and
    the acceptances of clients, so a server to which nothing more arrives soon only waits. *)
Theorem no_idle_work l tc w s w0 Q ls x :
  (∀ n, tc = inr n → (0 < n)%Z) → l ∈ v_open (wview w) → make l tc w = (Ret s, w0) →
  System.steps Q (Config s w0 AtTest) ls x →
  sum_list (events_of <$> ls) + upcoming x ≤ sum_list (causes_of <$> ls).
Proof.
  intros Htc Hl Hm Hs. pose proof (make_inv _ _ _ _ _ Htc Hl Hm) as Hinv.
  assert (clients s = ∅) as Hcl by by eapply made_clients.
  pose proof (system_idle_along _ _ _ _ _ Hs Hinv) as Hle.
  assert (upcoming (Config s w0 AtTest) = 0) as Hzero.
  { unfold upcoming, pending. cbn -[clients]. rewrite Hcl, intersection_empty_r_L. apply size_empty. }
  rewrite Hzero, Nat.add_0_r in Hle. apply Hle. intros c. cbn -[clients]. rewrite Hcl. set_solver.
Qed.
End idle.
