(* ===== verification/SimNet.v ===== *)
(** * A concrete network for the witnesses

    A kernel whose connections receive what [wire_arrive] puts there, with an
    epoll that keeps edges: it satisfies the laws of [OS], [Poller] and
    [Network].  It models nothing of the repository. *)

From S2P Require Import Prelude Cpp Log OS Poller Network.

Record wire := Wire {
  w_errno : Z;
  w_view : view;
  w_unread : gmap Z bytes;
  w_edges : gset (Z * Z);
  w_mode : gset (Z * Z);
  (** connections to accept, with what has arrived on them *)
  w_backlog : list bytes }.

Definition wire_unread (k : wire) (fd : Z) : bytes := w_unread k !!! fd.
Definition wire_view (v : view) (k : wire) : wire :=
  Wire (w_errno k) v (w_unread k) (w_edges k) (w_mode k) (w_backlog k).
Definition wire_fail (e : Z) (k : wire) : wire :=
  Wire e (w_view k) (w_unread k) (w_edges k) (w_mode k) (w_backlog k).
Definition wire_store (fd : Z) (u : bytes) (k : wire) : wire :=
  Wire (w_errno k) (w_view k) (<[fd := u]> (w_unread k)) (w_edges k) (w_mode k) (w_backlog k).
Definition wire_edges (e m : gset (Z * Z)) (k : wire) : wire :=
  Wire (w_errno k) (w_view k) (w_unread k) e m (w_backlog k).
Definition wire_backlog (l : list bytes) (k : wire) : wire :=
  Wire (w_errno k) (w_view k) (w_unread k) (w_edges k) (w_mode k) l.

#[export] Instance wire_network : Network wire := λ k,
  Net (wire_unread k) (w_edges k) (w_mode k).

Definition wire_fresh (k : wire) : option Z :=
  let fd := (1 + set_fold Z.max 2 (v_open (w_view k)))%Z in
  if decide ((0 ≤ fd < 2 ^ 31)%Z ∧ fd ∉ v_open (w_view k)) then Some fd else None.

Definition wire_open (open : Z → view → view) (k : wire) : Z * wire :=
  match wire_fresh k with
  | Some fd => (fd, wire_view (open fd (w_view k)) k)
  | None => ((-1)%Z, wire_fail 24 k)
  end.

Definition wire_recv (fd : Z) (n : nat) (k : wire) : (Z * bytes) * wire :=
  match wire_unread k fd with
  | [] => (((-1)%Z, []), wire_fail EAGAIN k)
  | u => ((Z.of_nat (length (take n u)), take n u),
          wire_view (push_in (inl fd) (take n u) (w_view k)) (wire_store fd (drop n u) k))
  end.

Definition wire_close (fd : Z) (k : wire) : Z * wire :=
  (0%Z, wire_view (close_fd fd (w_view k))
          (wire_edges (filter (λ p, p.1 ≠ fd ∧ p.2 ≠ fd) (w_edges k))
             (filter (λ p, p.1 ≠ fd ∧ p.2 ≠ fd) (w_mode k)) k)).

Definition wire_accept (k : wire) : (Z * bytes) * wire :=
  match w_backlog k with
  | [] => (((-1)%Z, []), wire_fail EAGAIN k)
  | b :: l =>
      match wire_open open_fd (wire_backlog l k) with
      | (fd, k') => ((fd, lit "peer"), if (fd =? -1)%Z then k' else wire_store fd b k')
      end
  end.

#[export] Instance wire_kernel : Kernel wire := {|
  errno := w_errno;
  WSAGetLastError _ := 0%Z;
  strerror e := lit "error " ++ to_string e;
  gai_strerror e := lit "address error " ++ to_string e;
  sys_recv := wire_recv;
  sys_send fd d k := (Z.of_nat (length d), wire_view (push_out (inl fd) d (w_view k)) k);
  sys_close := wire_close;
  sys_socket _ _ _ := wire_open open_fd;
  sys_setsockopt_reuseaddr _ k := (0%Z, k);
  sys_bind _ _ k := (0%Z, k);
  sys_listen _ _ k := (0%Z, k);
  sys_accept _ := wire_accept;
  sys_connect _ _ k := ((-1)%Z, k);
  sys_getnameinfo a k := ((0%Z, (a, lit "0")), k);
  sys_inet_ntop _ a k := (a, k);
  sys_getaddrinfo _ _ _ k := ((0%Z, []), k);
  sys_freeaddrinfo k := ((), k);
  sys_fcntl_getfl _ k := (0%Z, k);
  sys_fcntl_setfl _ _ k := (0%Z, k);
  sys_ioctlsocket_fionbio _ _ k := (0%Z, k);
|}.

(** A descriptor an instance has something to report of: an edge, or a
    connection to accept for those not edge triggered. *)
Definition wire_ready (ep : Z) (k : wire) (fd : Z) : Prop :=
  (ep, fd) ∈ w_edges k ∧ wire_unread k fd ≠ [] ∨ ((ep, fd) ∉ w_mode k) ∧ w_backlog k ≠ [].

#[export] Instance wire_ready_dec ep k fd : Decision (wire_ready ep k fd).
Proof. unfold wire_ready. apply _. Defined.

Definition wire_report (ep : Z) (n : nat) (k : wire) : list Z :=
  take n (filter (wire_ready ep k) (elements (watched ep (w_view k)))).

#[export] Instance wire_epoll : Epoll wire := {|
  epoll_create1 := wire_open open_poll;
  epoll_ctl_add ep fd ev k :=
    (0%Z, wire_view (watch ep fd (w_view k))
       (wire_edges (if decide (wire_unread k fd = []) then w_edges k else {[(ep, fd)]} ∪ w_edges k)
          (if has ev EPOLLET then {[(ep, fd)]} ∪ w_mode k else w_mode k ∖ {[(ep, fd)]}) k));
  epoll_ctl_del ep fd k :=
    (0%Z, wire_view (unwatch ep fd (w_view k))
       (wire_edges (w_edges k ∖ {[(ep, fd)]}) (w_mode k ∖ {[(ep, fd)]}) k));
  epoll_wait ep n _ k :=
    let fds := wire_report ep n k in
    ((Z.of_nat (length fds), (λ fd, (fd, EPOLLIN)) <$> fds),
     wire_edges (filter (λ q, ¬ (q.1 = ep ∧ (q.2 ∈ fds ∨ wire_unread k q.2 = []))) (w_edges k))
       (w_mode k) k);
|}.

(** [d] arrives on [fd]. *)
Definition wire_arrive (fd : Z) (d : bytes) (k : wire) : wire :=
  wire_edges (filter (λ p, p.2 = fd) (v_interest (w_view k)) ∪ w_edges k) (w_mode k)
    (wire_store fd (wire_unread k fd ++ d) k).

Lemma wire_store_unread fd u k c :
  wire_unread (wire_store fd u k) c = if decide (c = fd) then u else wire_unread k c.
Proof.
  unfold wire_unread. cbn. case_decide; subst.
  - by rewrite lookup_total_insert_eq.
  - by rewrite lookup_total_insert_ne.
Qed.

Lemma wire_arrive_net fd d k : net_arrive fd d (w_view k) (knet k) (knet (wire_arrive fd d k)).
Proof. split; [intros c; apply wire_store_unread|done]. Qed.

Lemma wire_open_view open k r k' :
  wire_open open k = (r, k') →
  (r = (-1)%Z ∧ w_view k' = w_view k) ∨
  ((0 ≤ r < 2 ^ 31)%Z ∧ (r ∉ v_open (w_view k)) ∧ w_view k' = open r (w_view k)).
Proof.
  unfold wire_open, wire_fresh. case_decide as Hd; intros [= <- <-]; [right|by left].
  destruct Hd. done.
Qed.

#[export] Instance wire_laws : KernelLaws wire.
Proof.
  refine {| kview := w_view |}; try done.
  - intros fd n k r d k'. cbn. unfold wire_recv. destruct (wire_unread k fd) as [|b u].
    + intros [= <- <- <-]. by left.
    + intros [= <- <- <-]. right. split; [rewrite length_take; lia|]. split; [lia|done].
  - intros fd d k r k' [= <- <-]. right. split; [lia|]. by rewrite Nat2Z.id, firstn_all.
  - intros f t p k r k'. apply wire_open_view.
  - intros fd k r a k'. cbn. unfold wire_accept. destruct (w_backlog k) as [|b l].
    + intros [= <- <- <-]. by left.
    + destruct (wire_open _ _) as [fd' k1] eqn:Ho. apply wire_open_view in Ho. intros [= <- <- <-].
      destruct Ho as [[-> Hv]|(Hb & Hf & Hv)]; [by left|right].
      rewrite (proj2 (Z.eqb_neq _ _)) by lia. done.
Defined.

#[export] Instance wire_net_laws : NetworkLaws wire.
Proof.
  split; try done.
  - intros fd n k r d k'. cbn. unfold wire_recv. destruct (wire_unread k fd) as [|b u] eqn:Hu.
    + intros [= <- <- <-]. left. split; [done|]. split; [done|]. intros _. by cbn.
    + intros [= <- <- <-]. right. split; [lia|]. split; [done|]. split; [|done].
      intros c. apply wire_store_unread.
  - intros l k r a k'. cbn. unfold wire_accept. destruct (w_backlog k) as [|b bl].
    + intros [= <- <- <-]. by left.
    + destruct (wire_open _ _) as [fd k1] eqn:Ho. intros [= <- <- <-].
      assert (same_net (knet k) (knet k1)) as Hs.
      { revert Ho. unfold wire_open. by destruct (wire_fresh _) as [?|]; intros [= <- <-]. }
      destruct (Z.eqb_spec fd (-1)); [by left|right]. split; [|apply Hs].
      intros c Hc. cbn. rewrite wire_store_unread, decide_False by done. apply Hs.
Qed.

#[export] Instance wire_epoll_laws : EpollLaws wire.
Proof.
  split.
  - apply wire_open_view.
  - intros ep fd ev k r k' [= <- <-]. by right.
  - intros ep fd k r k' [= <- <-]. by right.
  - intros ep n t k r evs k' [= <- <- <-]. split; [done|right].
    assert (wire_report ep n k `sublist_of` elements (watched ep (w_view k))) as Hsub.
    { unfold wire_report. etrans; [apply sublist_take|apply sublist_filter]. }
    rewrite length_fmap, <-list_fmap_compose. cbn. split_and!.
    + lia.
    + unfold wire_report. rewrite length_take. lia.
    + lia.
    + rewrite list_fmap_id. eapply sublist_NoDup; [apply (NoDup_elements (C:=gset Z))|exact Hsub].
    + apply Forall_fmap, Forall_forall. intros c Hc. cbn.
      pose proof (elem_of_sublist _ _ _ Hc Hsub) as Hin. by apply elem_of_elements.
Qed.

#[export] Instance wire_epoll_net : EpollNet wire.
Proof.
  split.
  - intros ep fd ev k k' [= <-]. cbn. case_decide as Hu; split_and!; try done; try set_solver.
  - intros ep fd k k' [= <-]. done.
  - intros ep n t k r evs k' [= <- <- <-]. cbn. rewrite <-list_fmap_compose. cbn.
    rewrite list_fmap_id. split_and!; try done.
    + set_solver.
    + intros q Hq. destruct (decide (q.1 = ep ∧ (q.2 ∈ wire_report ep n k ∨ wire_unread k q.2 = [])));
        [by right|left]. by apply elem_of_filter.
    + apply Forall_fmap, Forall_forall. intros c Hc. cbn. split; [done|]. intros Hm.
      assert (wire_ready ep k c) as Hr.
      { unfold wire_report in Hc. apply elem_of_take in Hc as (i & Hi & _).
        apply list_elem_of_lookup_2, list_elem_of_filter in Hi. by destruct Hi. }
      destruct Hr as [[? _]|[? _]]; [|done]. split; [done|]. rewrite elem_of_filter. cbn. tauto.
    + intros Hn Hz fd Hw He. destruct (decide (wire_unread k fd = [])) as [|Hne]; [done|exfalso].
      assert (fd ∈ filter (wire_ready ep k) (elements (watched ep (w_view k)))) as Hin.
      { apply list_elem_of_filter. split; [by left|by apply elem_of_elements]. }
      unfold wire_report in Hz. rewrite length_take in Hz.
      destruct (filter _ _) as [|x l]; [by apply elem_of_nil in Hin|]. cbn in Hz. lia.
Qed.
