(* ===== verification/Client.v ===== *)
(** * client/: the TCP and TLS clients

    [ClientOps] is the abstract class Client; [recv_spinlock] and [recv_future]
    are written against it.  The send loop and the tail of [recv] are those of
    the server's connections, repeated by the sources. *)

From S2P Require Import Prelude Cpp Log OS OpenSSL Connection TCPServer.

Class ClientOps (C W : Type) := {
  client_send : C → bytes → M W unit;
  client_recv : C → nat → M W bytes;
  (** the virtual destructor *)
  client_destroy : C → M W unit;
}.

(** [std::chrono::steady_clock::now], in nanoseconds. *)
Class Clock (K : Type) := now : K → Z * K.

(** ** client.cc *)

Module Client.
Section ops.
Context {C K : Type} `{!ClientOps C (world K)} `{!Clock K}.

(** [while (sc::now() < (start + timeout))], with the [buffer] so far. *)
Fixpoint spin (fuel : nat) (c : C) (n_bytes : nat) (deadline : Z) (buffer : bytes) :
    M (world K) (option bytes) :=
  match fuel with
  | 0 => out_of_fuel
  | S fuel =>
      t ← sys now;
      if (t <? deadline)%Z then
        r ← client_recv c (n_bytes - length buffer);
        if bool_decide (r = []) then spin fuel c n_bytes deadline buffer
        else
          let buffer := buffer ++ r in
          if decide (n_bytes ≤ length buffer) then mret (Some buffer)
          else spin fuel c n_bytes deadline buffer
      else mret None
  end.

(** [timeout] in milliseconds. *)
Definition recv_spinlock (fuel : nat) (c : C) (n_bytes : nat) (timeout : Z) :
    M (world K) (option bytes) :=
  start ← sys now;
  spin fuel c n_bytes (start + timeout * 1000000) [].

Definition BUF_SZ : nat := 16 * 1024.

(** What the future is fulfilled with. *)
Definition recv_future (fuel : nat) (c : C) (ms : Z) : M (world K) bytes :=
  r ← recv_spinlock fuel c BUF_SZ ms;
  mret (match r with Some s => s | None => [] end).
End ops.
End Client.

(** ** tcpclient.cc *)

Module TCPClient.
Record t := Make { fd_ : SOCKET }.

Section ops.
Context {K : Type} `{Kernel K} `{Platform}.

Definition hints : addrinfo := AddrInfo 0 AF_UNSPEC SOCK_STREAM 0 [].

(** The loop over the results: the connected socket with its [p]. *)
Fixpoint connect_loop (sport : bytes) (servinfo : list addrinfo) :
    M (world K) (option (SOCKET * addrinfo)) :=
  match servinfo with
  | [] => mret None
  | p :: next =>
      sockfd ← sys (sys_socket (ai_family p) (ai_socktype p) (ai_protocol p));
      if (sockfd =? -1)%Z then connect_loop sport next
      else
        address ← sys (sys_inet_ntop (ai_family p) (ai_addr p));
        logging (DBG "client: attempting connection to {}:{}" [address; sport]) ;;
        r ← sys (sys_connect sockfd (ai_addr p));
        if (r =? -1)%Z then
          e ← get_errno;
          logging (DBG "connect() to {}:{} failed: {}" [address; sport; strerror e]) ;;
          sys (sys_close sockfd) ;;
          connect_loop sport next
        else mret (Some (sockfd, p))
  end.

Definition open_connection (host : bytes) (port : Z) : M (world K) SOCKET :=
  let sport := to_string port in
  '(rv, servinfo) ← sys (sys_getaddrinfo (Some (c_str host)) sport hints);
  if negb (rv =? 0)%Z then
    e ← get_errno;
    raise (runtime_error
             (format (lit "getaddrinfo: {} // {}") [strerror e; gai_strerror (K:=K) rv]))
  else
    found ← connect_loop sport servinfo;
    match found with
    | None => raise (runtime_error (lit "client: Failed to connect."))
    | Some (sockfd, p) =>
        address ← sys (sys_inet_ntop (ai_family p) (ai_addr p));
        logging (DBG "client: connected to {}:{}" [address; sport]) ;;
        sys sys_freeaddrinfo ;;
        socket_mark_as_nonblocking sockfd ;;
        mret sockfd
    end.

Definition make (host : bytes) (port : Z) : M (world K) t :=
  fd ← open_connection host port;
  mret (Make fd).

Definition send (fuel : nat) (c : t) (data : bytes) : M (world K) unit :=
  send_loop (sys_send (fd_ c) data) data fuel 0.

Definition recv (c : t) (n_bytes : nat) : M (world K) bytes :=
  '(r, data) ← sys (sys_recv (fd_ c) n_bytes);
  recv_tail r (overwrite (string_buffer n_bytes) data).

(** [~Client] *)
Definition destroy (c : t) : M (world K) unit := sys (sys_close (fd_ c)) ;; mret ().

#[export] Instance ops fuel : ClientOps t (world K) := {|
  client_send := send fuel;
  client_recv := recv;
  client_destroy := destroy;
|}.
End ops.
End TCPClient.

(** ** sslclient.cc *)

Module SSLClient.
Record t := Make { base : TCPClient.t; ssl_ : Z }.

Section ops.
Context {K : Type} `{Kernel K} `{!OpenSSL K} `{Platform}.

(** The static member [ctx_] beside the world: null is [0]. *)
Definition initialize_ctx : M (Z * world K) unit :=
  ctx ← gets fst;
  if (ctx =? 0)%Z then
    c ← on_snd (sys (SSL_CTX_new TLS_client_method));
    on_fst (modify (λ _, c)) ;;
    r ← on_snd (sys (SSL_CTX_set_default_verify_paths c));
    if (r =? 0)%Z
    then raise (NonRecoverableException (lit "Failed to load system CA store"))
    else mret ()
  else mret ().

(** [try_again:], as long as the handshake wants to read. *)
Fixpoint connect_loop (fuel : nat) (ssl : Z) : M (world K) unit :=
  match fuel with
  | 0 => out_of_fuel
  | S fuel =>
      r ← sys (SSL_connect ssl);
      if (r <? 0)%Z then
        err ← sys (SSL_get_error ssl r);
        if (err =? SSL_ERROR_WANT_READ)%Z then connect_loop fuel ssl else mret ()
      else mret ()
  end.

(** The constructor: an exception of its body unwinds the [TCPClient]. *)
Definition make (fuel : nat) (host : bytes) (port : Z) : M (Z * world K) t :=
  base ← on_snd (TCPClient.make host port);
  unwinding
    (initialize_ctx ;;
     ctx ← gets fst;
     ssl ← on_snd (sys (SSL_new ctx));
     _ ← on_snd (sys (SSL_set_tlsext_host_name ssl (c_str host)));
     _ ← on_snd (sys (SSL_set_fd ssl (TCPClient.fd_ base)));
     on_snd (connect_loop fuel ssl) ;;
     mret (Make base ssl))
    (on_snd (TCPClient.destroy base)).

Definition send (fuel : nat) (c : t) (data : bytes) : M (world K) unit :=
  send_loop (SSL_write (ssl_ c) data (to_int (Z.of_nat (length data)))) data fuel 0.

(** The count is narrowed by the cast [(int) n_bytes]; a negative count
    reads nothing. *)
Definition recv (c : t) (n_bytes : nat) : M (world K) bytes :=
  '(r, data) ← sys (SSL_read (ssl_ c) (Z.to_nat (to_int (Z.of_nat n_bytes))));
  recv_tail r (overwrite (string_buffer n_bytes) data).

Definition destroy (c : t) : M (world K) unit :=
  when (negb (ssl_ c =? 0)%Z) (sys (SSL_free (ssl_ c))) ;;
  TCPClient.destroy (base c).

#[export] Instance ops fuel : ClientOps t (world K) := {|
  client_send := send fuel;
  client_recv := recv;
  client_destroy := destroy;
|}.
End ops.
End SSLClient.
