(* ===== verification/ClientSpec.v ===== *)
(** * What the clients guarantee

    [recv_spinlock] against the interface of the clients and of the clock, the
    descriptors of the constructors, and the clients against the connections. *)

From S2P Require Import Prelude Cpp Log OS OpenSSL Sim Connection TCPConnection SSLConnection.
From S2P Require Import Session Threads Poller PollerSpec Server ServerSpec TCPServer.
From S2P Require Import TCPServerSpec Client.

Class ClientSpec (C K : Type) `{KernelLaws K} `{!ClientOps C (world K)} := {
  client_end : C → endpoint;
  client_recv_spec c n w o w' :
    client_recv c n w = (o, w') →
    stream_step (client_end c) (match o with Ret d => d | _ => [] end) [] (wview w) (wview w') ∧
    match o with Ret d => length d ≤ n | _ => True end;
}.

(** The clock is steady: no call sets it back.  Readings may be equal. *)
Class ClockLaws (K : Type) `{KernelLaws K} `{!Clock K} := {
  time : K → Z;
  now_law k t k' : now k = (t, k') → kview k' = kview k ∧ t = time k' ∧ (time k ≤ time k')%Z;
}.

(** What [std::chrono::steady_clock] adds: its reading is a function of the
    physical time, and [tick] units of physical time, the constant period of its
    ticks, move it on.  A reading of the clock takes a unit; no call takes less
    than none. *)
Class ClockTicks (K : Type) `{ClockLaws K} := {
  elapsed : K → Z;
  reading : Z → Z;
  tick : Z;
  tick_pos : (0 < tick)%Z;
  time_reading k : time k = reading (elapsed k);
  reading_mono e1 e2 : (e1 ≤ e2)%Z → (reading e1 ≤ reading e2)%Z;
  reading_tick e : (reading e + 1 ≤ reading (e + tick))%Z;
  now_elapsed k t k' : now k = (t, k') → (elapsed k + 1 ≤ elapsed k')%Z;
  recv_elapsed fd n k : (elapsed k ≤ elapsed (sys_recv fd n k).2)%Z;
}.

(** A client whose [recv] always comes back, not before it is called. *)
Class ClientTimed (C K : Type) `{ClockTicks K} `{!ClientOps C (world K)} :=
  client_recv_timed c n w : (client_recv c n w).1 ≠ NoFuel ∧
    (elapsed (kern w) ≤ elapsed (kern (client_recv c n w).2))%Z.

(** As many ticks as the clock has to move on. *)
Lemma reading_ticks {K} `{ClockTicks K} m e :
  (0 ≤ m)%Z → (reading e + m ≤ reading (e + m * tick))%Z.
Proof.
  intros Hm. pattern m. apply natlike_ind; [|intros x Hx IH|done].
  - rewrite Z.add_0_r, Z.mul_0_l, Z.add_0_r. lia.
  - pose proof (reading_tick (e + x * tick)) as Ht.
    replace (e + Z.succ x * tick)%Z with (e + x * tick + tick)%Z by lia. lia.
Qed.

Section spinlock.
Context {C K : Type} `{ClockLaws K} `{!ClientOps C (world K)}.
Import Client.

(** One pass, by the reading of the clock. *)
Lemma spin_pass fuel (c : C) n deadline buffer w t k :
  now (kern w) = (t, k) →
  spin (S fuel) c n deadline buffer w =
  if (t <? deadline)%Z then
    match client_recv c (n - length buffer) (World k (logs w)) with
    | (Ret [], w') => spin fuel c n deadline buffer w'
    | (Ret d, w') =>
        if decide (n ≤ length (buffer ++ d)) then (Ret (Some (buffer ++ d)), w')
        else spin fuel c n deadline (buffer ++ d) w'
    | (Throw e, w') => (Throw e, w')
    | (UB, w') => (UB, w')
    | (NoFuel, w') => (NoFuel, w')
    end
  else (Ret None, World k (logs w)).
Proof.
  intros Ht. cbn [spin]. run_call. rewrite Ht. cbn [fst snd].
  destruct (t <? deadline)%Z; [|done]. rewrite run_bind.
  destruct (client_recv _ _ _) as [[d| | |] w']; [|done..].
  case_bool_decide; [by subst|]. destruct d; [done|]. by case_decide.
Qed.

(** The bytes a spin takes from the connection. *)
Lemma spin_streams `{!ClientSpec C K} fuel (c : C) n deadline buffer w o w' :
  length buffer ≤ n → (n ≠ 0 → length buffer < n) →
  spin fuel c n deadline buffer w = (o, w') →
  ∃ d, stream_step (client_end c) d [] (wview w) (wview w') ∧
    match o with
    | Ret (Some b) => b = buffer ++ d ∧ length b = n ∧ n ≠ 0
    | _ => length (buffer ++ d) ≤ n ∧ (n ≠ 0 → length (buffer ++ d) < n)
    end.
Proof.
  revert buffer w. induction fuel as [|fuel IH]; intros buffer w Hb Hlt.
  { intros [= <- <-]. exists []. rewrite app_nil_r. auto with view. }
  destruct (now (kern w)) as [t k] eqn:Ht. rewrite (spin_pass _ _ _ _ _ _ _ _ Ht).
  apply now_law in Ht as (Hv & _ & _).
  destruct (t <? deadline)%Z.
  2: { intros [= <- <-]. exists []. rewrite app_nil_r. unfold wview. cbn. rewrite Hv.
       auto with view. }
  destruct (client_recv c (n - length buffer) (World k (logs w))) as [o1 w1] eqn:Hr.
  apply client_recv_spec in Hr as [Hs Hl]. unfold wview in Hs at 1. cbn in Hs. rewrite Hv in Hs.
  destruct o1 as [d| | |].
  2-4: intros [= <- <-]; exists []; rewrite app_nil_r; auto.
  destruct d as [|x d]; [|set (dd := x :: d) in *].
  { intros (d' & Hs' & Ho)%IH; [|done..]. exists d'. split; [|done].
    apply (stream_step_trans _ [] [] d' [] _ _ _ Hs Hs'). }
  assert (length (buffer ++ dd) ≤ n ∧ n ≠ 0) as [Hle Hn0].
  { rewrite length_app. unfold dd in *. cbn in *. lia. }
  case_decide.
  - intros [= <- <-]. exists dd. split; [done|]. split; [done|]. split; [lia|done].
  - intros (d' & Hs' & Ho)%IH; [|lia..]. exists (dd ++ d'). rewrite <-app_assoc in Ho.
    split; [|done]. apply (stream_step_trans _ dd [] d' [] _ _ _ Hs Hs').
Qed.

Lemma spin_terminates `{!ClockTicks K, !ClientTimed C K} fuel (c : C) n deadline buffer w :
  (deadline ≤ reading (elapsed (kern w) + Z.of_nat fuel))%Z → 0 < fuel →
  (spin fuel c n deadline buffer w).1 ≠ NoFuel.
Proof.
  revert buffer w. induction fuel as [|fuel IH]; intros buffer w Hf Hpos; [lia|].
  destruct (now (kern w)) as [t k] eqn:Ht. rewrite (spin_pass _ _ _ _ _ _ _ _ Ht).
  pose proof (now_elapsed _ _ _ Ht) as He. apply now_law in Ht as (_ & -> & _).
  destruct (Z.ltb_spec (time k) deadline) as [Hlt|]; [|done]. rewrite time_reading in Hlt.
  destruct (client_recv_timed c (n - length buffer) (World k (logs w))) as [Hn Htime].
  destruct (client_recv _ _ _) as [[d| | |] w1]; cbn in Hn, Htime |- *; [|done..].
  assert ((deadline ≤ reading (elapsed (kern w1) + Z.of_nat fuel))%Z ∧ 0 < fuel) as [? ?].
  { pose proof (reading_mono (elapsed (kern w) + Z.of_nat (S fuel))
      (elapsed (kern w1) + Z.of_nat fuel)). split; [lia|]. destruct fuel; [|lia].
    pose proof (reading_mono (elapsed (kern w) + Z.of_nat 1) (elapsed k)). lia. }
  destruct d as [|x d]; [apply IH; lia|]. case_decide; [done|]. apply IH; lia.
Qed.

Lemma recv_spinlock_streams `{!ClientSpec C K} fuel (c : C) n timeout w o w' :
  recv_spinlock fuel c n timeout w = (o, w') →
  ∃ d, stream_step (client_end c) d [] (wview w) (wview w') ∧
    match o with
    | Ret (Some b) => b = d ∧ length b = n ∧ n ≠ 0
    | _ => length d ≤ n ∧ (n ≠ 0 → length d < n)
    end.
Proof.
  unfold recv_spinlock. run_call. destruct (now (kern w)) as [t k] eqn:Ht.
  apply now_law in Ht as (Hv & _ & _). cbn [fst snd].
  intros (d & Hs & Ho)%spin_streams; [|cbn; lia..]. exists d. split; [|done].
  unfold wview in Hs at 1. cbn in Hs. by rewrite Hv in Hs.
Qed.

(** ** Theorems *)

(** C29: Client::recv_spinlock returns a string only with exactly the requested number of bytes,
    and it is what arrived on the connection during the call; on a timeout or an exception fewer
    bytes than requested arrived, and they are gone. *)
Theorem recv_spinlock_exact `{!ClientSpec C K} fuel (c : C) n timeout w o w' :
  recv_spinlock fuel c n timeout w = (o, w') →
  ∃ d, stream_step (client_end c) d [] (wview w) (wview w') ∧
    match o with
    | Ret (Some b) => b = d ∧ length b = n ∧ n ≠ 0
    | _ => length d ≤ n ∧ (n ≠ 0 → length d < n)
    end.
Proof. apply recv_spinlock_streams. Qed.

(** C37: Client::recv_spinlock comes back when its recv does: on a clock that is never set back,
    whose readings may be equal but are a function of the physical time that moves on once in
    every period of its ticks, and takes a unit of that time to read, as many passes as the
    timeout has nanoseconds, times the period, are enough. *)
Theorem recv_spinlock_terminates `{!ClockTicks K, !ClientTimed C K} fuel (c : C) n timeout w :
  (timeout * 1000000 * tick ≤ Z.of_nat fuel)%Z → 0 < fuel →
  (recv_spinlock fuel c n timeout w).1 ≠ NoFuel.
Proof.
  intros Hf Hpos. unfold recv_spinlock. run_call. destruct (now (kern w)) as [t k] eqn:Ht.
  apply now_law in Ht as (_ & -> & _). cbn [fst snd]. apply spin_terminates; [cbn|done].
  rewrite time_reading. destruct (Z.le_ge_cases 0 (timeout * 1000000)) as [Hto|Hto].
  - pose proof (reading_ticks _ (elapsed k) Hto).
    pose proof (reading_mono (elapsed k + timeout * 1000000 * tick) (elapsed k + Z.of_nat fuel)). lia.
  - pose proof (reading_mono (elapsed k) (elapsed k + Z.of_nat fuel)). lia.
Qed.

(** With no time at all, nothing is read. *)
Theorem recv_spinlock_no_time fuel (c : C) n timeout w :
  (timeout ≤ 0)%Z → 0 < fuel →
  ∃ w', recv_spinlock fuel c n timeout w = (Ret None, w') ∧ wview w' = wview w.
Proof.
  intros Hto Hf. unfold recv_spinlock. run_call. destruct (now (kern w)) as [t k] eqn:Ht.
  apply now_law in Ht as (Hv & -> & _). cbn [fst snd]. destruct fuel as [|fuel]; [lia|].
  destruct (now k) as [t2 k2] eqn:Ht2. rewrite (spin_pass _ _ _ _ _ _ t2 k2) by done.
  apply now_law in Ht2 as (Hv2 & -> & Hle).
  rewrite (proj2 (Z.ltb_ge (time k2) _)) by lia.
  eexists. split; [done|]. unfold wview. cbn. by rewrite Hv2, Hv.
Qed.

(** The future is fulfilled with exactly 16 KiB, or with nothing while what arrived is gone. *)
Theorem recv_future_all_or_nothing `{!ClientSpec C K} fuel (c : C) ms w b w' :
  recv_future fuel c ms w = (Ret b, w') →
  ∃ d, stream_step (client_end c) d [] (wview w) (wview w') ∧
    (b = d ∧ length b = BUF_SZ ∨ b = [] ∧ length d < BUF_SZ).
Proof.
  unfold recv_future. rewrite run_bind. destruct (recv_spinlock _ _ _ _ _) as [o w1] eqn:Hspin.
  apply recv_spinlock_streams in Hspin as (d & Hs & Ho).
  assert (BUF_SZ ≠ 0) as Hpos by (unfold BUF_SZ; lia).
  destruct o as [[s|]| | |]; [| |done..]; intros [= <- <-]; exists d; (split; [exact Hs|]).
  - left. by destruct Ho as (-> & ? & _).
  - right. split; [done|]. by apply Ho.
Qed.
End spinlock.

(** ** The TCP client *)

Section tcp_client.
Context {K : Type} `{KernelLaws K} `{Platform}.

(** The client repeats the code of the connection. *)
Lemma client_is_connection fuel fd data :
  TCPClient.send fuel (TCPClient.Make fd) data =
    TCPConnection.send fuel (TCPConnection.Make fd) data ∧
  TCPClient.recv (TCPClient.Make fd) RECV_BUF_SZ = TCPConnection.recv (TCPConnection.Make fd).
Proof. by split. Qed.

#[export] Instance tcp_client_spec fuel : @ClientSpec TCPClient.t K _ _ (TCPClient.ops fuel).
Proof.
  refine {| client_end c := inl (TCPClient.fd_ c) |}.
  intros c n w o w'. change (client_recv c n) with (TCPClient.recv c n).
  unfold TCPClient.recv. run_call.
  destruct (sys_recv (TCPClient.fd_ c) n (kern w)) as [[r data] k'] eqn:Hr. cbn [fst snd].
  destruct (recv_law _ _ _ _ _ _ Hr) as [[-> Hv]|(Hb & Hl & Hv)].
  - rewrite recv_tail_failed by lia. intros [= <- <-]. unfold wview. cbn [kern]. rewrite Hv.
    pose proof (recv_failure_empty (-1) (World k' (logs w))).
    destruct (recv_failure _ _) as [d| | |]; subst; cbn; auto with view lia.
  - rewrite (recv_tail_ok r data n) by done. intros [= <- <-]. unfold wview. cbn [kern].
    rewrite Hv. auto with view lia.
Defined.

(** *** Connecting *)

Lemma connect_loop_open sport l w o w' :
  TCPClient.connect_loop sport l w = (o, w') →
  match o with
  | Ret (Some (fd, _)) => opens_one (wview w) (wview w') fd
  | Ret None => v_open (wview w') = v_open (wview w)
  | _ => False
  end.
Proof.
  revert w. induction l as [|p l IH]; intros w; cbn [TCPClient.connect_loop].
  { by intros [= <- <-]. }
  run_call. destruct (sys_socket _ _ _ _) as [r k] eqn:Hs. cbn [fst snd].
  apply socket_law in Hs as [[-> Hv]|(Hb & Hfresh & Hv)].
  { change (-1 =? -1)%Z with true. cbv iota. intros Hl%IH. unfold opens_one in *.
    change (wview (World k (logs w))) with (kview k) in Hl. by rewrite Hv in Hl. }
  rewrite (proj2 (Z.eqb_neq r (-1))) by lia. run_call.
  pose proof (inet_ntop_law (ai_family p) (ai_addr p) k) as Hv1.
  destruct (sys_inet_ntop _ _ k) as [address k1]. cbn [fst snd] in *. rewrite run_bind.
  destruct (run_logging_DBG "client: attempting connection to {}:{}" [address; sport]
    (World k1 (logs w))) as [l2 ->]. cbn [kern]. run_call.
  pose proof (connect_law r (ai_addr p) k1) as Hv3.
  destruct (sys_connect _ _ k1) as [r3 k3]. cbn [fst snd] in *.
  assert (opens_one (wview w) (kview k3) r) as Hone by (by rewrite Hv3, Hv1, Hv).
  destruct (r3 =? -1)%Z; [|by intros [= <- <-]].
  rewrite run_bind. cbn [get_errno gets]. rewrite run_bind.
  match goal with |- context [logging (DBG ?f ?a)] =>
    destruct (run_logging_DBG f a (World k3 l2)) as [l4 ->] end. cbn [kern]. run_call.
  set (w4 := World _ _).
  assert (v_open (wview w4) = v_open (wview w)) as Hw4.
  { unfold w4, wview. cbn [kern]. rewrite close_law. cbn. destruct Hone as [Hnin ->].
    clear -Hnin. set_solver. }
  intros Hl%IH. unfold opens_one in *. by rewrite Hw4 in Hl.
Qed.

Lemma open_connection_open host port w o w' :
  TCPClient.open_connection host port w = (o, w') →
  match o with
  | Ret fd => opens_one (wview w) (wview w') fd
  | _ => v_open (wview w') = v_open (wview w) ∨ ∃ fd, opens_one (wview w) (wview w') fd
  end.
Proof.
  unfold TCPClient.open_connection. run_call.
  pose proof (getaddrinfo_law (Some (c_str host)) (to_string port) TCPClient.hints (kern w)) as Hv.
  destruct (sys_getaddrinfo _ _ _ _) as [[rv info] k]. cbn [fst snd] in *.
  destruct (rv =? 0)%Z; cbn [negb].
  2: { intros [= <- <-]. left. unfold wview. cbn [kern]. by rewrite Hv. }
  rewrite run_bind. destruct (TCPClient.connect_loop _ _ _) as [o1 w1] eqn:Hc.
  apply connect_loop_open in Hc. unfold opens_one in Hc.
  change (wview (World k (logs w))) with (kview k) in Hc. rewrite Hv in Hc.
  change (kview (kern w)) with (wview w) in Hc.
  destruct o1 as [[[fd p]|]| | |]; [|by intros [= <- <-]; left|done..].
  match goal with |- ?m _ = _ → _ => set (tail := m) end.
  assert (preserves same_view tail) as Htail.
  { unfold tail. preserves_walk. apply mark_view. }
  intros Hm. pose proof (run_quiet _ _ _ _ Htail Hm) as Hw'. rewrite Hw'.
  destruct o as [fd'| | |]; try (right; by exists fd).
  assert (fd' = fd) as ->; [|done]. unfold tail in Hm.
  apply bind_ret_inv in Hm as (? & ? & _ & Hm). apply bind_ret_inv in Hm as (? & ? & _ & Hm).
  apply bind_ret_inv in Hm as (? & ? & _ & Hm). apply bind_ret_inv in Hm as (? & ? & _ & Hm).
  by injection Hm as -> _.
Qed.

(** TCPClient::open_connection returns a descriptor that was not open before and is the only one
    it leaves open, with the sockets of refused addresses closed; when it throws it leaves at
    most one socket open. *)
Theorem open_connection_owns_fd host port w o w' :
  TCPClient.open_connection host port w = (o, w') →
  match o with
  | Ret fd => opens_one (wview w) (wview w') fd
  | _ => v_open (wview w') = v_open (wview w) ∨ ∃ fd, opens_one (wview w) (wview w') fd
  end.
Proof. apply open_connection_open. Qed.
End tcp_client.

(** ** The TLS client *)

Section ssl_client.
Context {K : Type} `{OpenSSLLaws K} `{Platform}.

#[export] Instance ssl_client_spec fuel : @ClientSpec SSLClient.t K _ _ (SSLClient.ops fuel).
Proof.
  refine {| client_end c := inr (SSLClient.ssl_ c) |}.
  intros c n w o w'. change (client_recv c n) with (SSLClient.recv c n).
  unfold SSLClient.recv. run_call. set (m := Z.to_nat _).
  assert (m ≤ n) as Hmn.
  { unfold m, to_int. assert (Z.of_nat n + 2 ^ 31 < 2 ^ 32 ∨ 2 ^ 32 ≤ Z.of_nat n + 2 ^ 31)%Z
      as [?|?] by lia; [rewrite Z.mod_small by lia; lia|].
    pose proof (Z.mod_le (Z.of_nat n + 2 ^ 31) (2 ^ 32)). lia. }
  destruct (SSL_read (SSLClient.ssl_ c) m (kern w)) as [[r data] k'] eqn:Hr. cbn [fst snd].
  destruct (SSL_read_law _ _ _ _ _ _ Hr) as [(Hn & -> & Hv)|(Hb & Hl & Hv)].
  - destruct (Z.ltb_spec r 0).
    + rewrite recv_tail_failed by lia. intros [= <- <-]. unfold wview. cbn [kern]. rewrite Hv.
      pose proof (recv_failure_empty r (World k' (logs w))).
      destruct (recv_failure _ _) as [d| | |]; subst; cbn; auto with view lia.
    + rewrite (recv_tail_ok r [] n) by (cbn; lia). intros [= <- <-]. unfold wview. cbn [kern].
      rewrite Hv. cbn. auto with view lia.
  - rewrite (recv_tail_ok r data n) by lia. intros [= <- <-]. unfold wview. cbn [kern].
    rewrite Hv. auto with view lia.
Defined.

(** After a failed [initialize_ctx] the context is kept, and the next call succeeds without the
    CA store. *)
Theorem failed_initialize_ctx_forgotten w c k1 k2 :
  SSL_CTX_new TLS_client_method (kern w) = (c, k1) → c ≠ 0%Z →
  SSL_CTX_set_default_verify_paths c k1 = (0%Z, k2) →
  let after := (c, World k2 (logs w)) in
  SSLClient.initialize_ctx (0%Z, w) =
    (Throw (NonRecoverableException (lit "Failed to load system CA store")), after) ∧
  SSLClient.initialize_ctx after = (Ret (), after).
Proof.
  intros Hn Hc Hv after. unfold SSLClient.initialize_ctx. split.
  - rewrite run_bind. cbn. rewrite run_bind. unfold on_snd, zoom. rewrite run_sys. cbn. rewrite Hn.
    rewrite run_bind. cbn. rewrite run_bind, run_sys. cbn. by rewrite Hv.
  - rewrite run_bind. cbn. by rewrite (proj2 (Z.eqb_neq _ _)).
Qed.

(** A handshake that fails for good is not noticed by the constructor. *)
Theorem failed_handshake_ignored fuel ssl w r k1 err k2 :
  SSL_connect ssl (kern w) = (r, k1) → SSL_get_error ssl r k1 = (err, k2) →
  err ≠ SSL_ERROR_WANT_READ →
  ∃ w', SSLClient.connect_loop (S fuel) ssl w = (Ret (), w').
Proof.
  intros Hc Hg Hne. cbn. run_call. rewrite Hc. cbn [fst snd].
  destruct (r <? 0)%Z; [|by eexists]. run_call. rewrite Hg. cbn [fst snd].
  rewrite (proj2 (Z.eqb_neq _ _)) by done. by eexists.
Qed.

(** The handshake loop runs as long as the peer is silent. *)
Lemma connect_loop_waits fuel ssl w :
  (∀ k, ((SSL_connect ssl k).1 < 0)%Z) → (∀ r k, (SSL_get_error ssl r k).1 = SSL_ERROR_WANT_READ) →
  (SSLClient.connect_loop fuel ssl w).1 = NoFuel.
Proof.
  intros Hc Hg. revert w. induction fuel as [|fuel IH]; intros w; [done|].
  cbn. run_call. specialize (Hc (kern w)). destruct (SSL_connect ssl (kern w)) as [r k].
  cbn [fst snd] in *. rewrite (proj2 (Z.ltb_lt r 0)) by done. run_call.
  specialize (Hg r k). destruct (SSL_get_error ssl r k) as [e k2]. cbn [fst snd] in *.
  subst e. cbn. apply IH.
Qed.
End ssl_client.
