(* ===== verification/Apps.v ===== *)
(** * main.cc, demo/, loadtest/server.cc and tests/: the programs

    The echo protocols the repository's programs serve, and their [main]
    functions: a server is made, runs until it is stopped, and is destroyed. *)

From S2P Require Import Prelude Cpp Log OS OpenSSL Sim Connection TCPConnection SSLConnection.
From S2P Require Import Session LineSession LineSessionSpec Threads ThreadsSpec Poller SimPoll.
From S2P Require Import PollerSpec Server ServerSpec TCPServer TCPServerSpec.

(** ** The protocols *)

(** main.cc and demo/echo.cc. *)
Module EchoProtocol.
Definition process (data : bytes) : M () bytes := mret (lit "|" ++ data ++ lit "|" ++ crlf).
Definition create_session {C} (c : C) : LineSession.t C () := LineSession.make c () false crlf.
End EchoProtocol.

(** demo/echossl.cc: its lines end in LF alone, its answers in CRLF. *)
Module EchoSSLProtocol.
Definition process (data : bytes) : M () bytes := mret (lit "|" ++ data ++ lit "|" ++ crlf).
Definition create_session {C} (c : C) : LineSession.t C () := LineSession.make c () false [LF].
End EchoSSLProtocol.

(** loadtest/server.cc. *)
Module LoadTestProtocol.
Definition process (data : bytes) : M () bytes := mret data.
Definition create_session {C} (c : C) : LineSession.t C () := LineSession.make c () true [LF].
End LoadTestProtocol.

(** tests/tcpserver.cc and tests/sslserver.cc: a plain Session. *)
Module TestProtocol.
Definition process (data : bytes) : M () bytes := mret data.
Definition create_session {C} (c : C) : Session.t C () := Session.Make c ().
End TestProtocol.

(** ** The programs *)

Section serve.
Context {C P Se K : Type} `{Kernel K} `{!PollerOps P (world K)} `{!SessionOps Se (world K)}
  `{!ServerOps C (world K)} `{!ProtocolOps C Se}.

(** [run] on a local server and, when it returns, its destructor.  An
    exception that leaves [run] leaves [main]. *)
Definition run_and_destroy (destroy : Server.t P Se → M (world K) unit) (stops : list bool)
    (s : Server.t P Se) : M (world K) unit := λ w,
  match Server.run stops (s, w) with
  | (Ret _, (s', w')) => destroy s' w'
  | (Throw e, (_, w')) => (Throw e, w')
  | (UB, (_, w')) => (UB, w')
  | (NoFuel, (_, w')) => (NoFuel, w')
  end.

Definition serve (ends : nat → ending) (make : M (world K) (Server.t P Se)) (stops : list bool) :
    M (world K) unit :=
  s ← make;
  run_and_destroy (Server.destroy ends close_socket) stops s.
End serve.

(** The same with an SSLServer, whose virtual methods use its [ctx_]. *)
Definition serve_ssl {P Se K} `{Kernel K} `{!OpenSSL K} `{Platform} `{!PollerOps P (world K)}
    `{!SessionOps Se (world K)} `{!ProtocolOps SSLConnection.t Se}
    (ends : nat → ending) (make : M (world K) (Server.t P Se * Z)) (stops : list bool) :
    M (world K) unit :=
  '(s, ctx) ← make;
  run_and_destroy (ServerOps0:=SSLServer.ops ctx) (λ s', SSLServer.destroy ends (s', ctx)) stops s.

(** A program with a single thread has no worker to join. *)
Definition no_workers : nat → ending := λ _, Joins [].

Section programs.
Context {P K : Type} `{Kernel K} `{Platform} `{!PollerOps P (world K)}.
(** the fuel of the send loops and of the line loops *)
Variables send_fuel line_fuel : nat.

#[local] Instance tcp_ops : ConnectionOps TCPConnection.t (world K) := TCPConnection.ops send_fuel.

(** The SIGINT handler is what the [true] of [stops] stands for. *)
Definition main (stops : list bool) : M (world K) unit :=
  serve (C:=TCPConnection.t) (P:=P) (K:=K) (ServerOps0:=TCPServer.ops)
    (SessionOps0:=LineSession.ops EchoProtocol.process line_fuel)
    (ProtocolOps0:=EchoProtocol.create_session) no_workers
    (TCPServer.make 23456 false (inl Threads_Single)) stops.

(** loadtest/server.cc: what the arguments ask for; [None] exits with the
    help text. *)
Inductive server_type := Tcp | Ssl.
Definition parse_argv (argv : list bytes) : option server_type :=
  match argv with
  | [_; a] => if bool_decide (a = lit "-t") then Some Tcp
              else if bool_decide (a = lit "-s") then Some Ssl else None
  | _ => None
  end.

Definition loadtest_tcp_server (ends : nat → ending) (stops : list bool) : M (world K) unit :=
  serve (C:=TCPConnection.t) (P:=P) (K:=K) (ServerOps0:=TCPServer.ops)
    (SessionOps0:=LineSession.ops LoadTestProtocol.process line_fuel)
    (ProtocolOps0:=LoadTestProtocol.create_session) ends
    (TCPServer.make 23456 false (inr 8%Z)) stops.

(** The TLS programs; the texts of the keys are arguments. *)
Context `{!OpenSSL K}.
Variables certificate_key private_key : bytes.

#[local] Instance ssl_ops : ConnectionOps SSLConnection.t (world K) := SSLConnection.ops send_fuel.

Definition echossl_main (stops : list bool) : M (world K) unit :=
  serve_ssl (P:=P) (K:=K)
    (SessionOps0:=LineSession.ops EchoSSLProtocol.process line_fuel)
    (ProtocolOps0:=EchoSSLProtocol.create_session) no_workers
    (SSLServer.make (SessionOps0:=LineSession.ops EchoSSLProtocol.process line_fuel)
       no_workers 23457 false (inl Threads_Single) certificate_key private_key) stops.

Definition loadtest_ssl_server (ends : nat → ending) (stops : list bool) : M (world K) unit :=
  serve_ssl (P:=P) (K:=K)
    (SessionOps0:=LineSession.ops LoadTestProtocol.process line_fuel)
    (ProtocolOps0:=LoadTestProtocol.create_session) ends
    (SSLServer.make (SessionOps0:=LineSession.ops LoadTestProtocol.process line_fuel)
       ends 23457 false (inr 8%Z) certificate_key private_key) stops.

(** [main] of loadtest/server.cc; [None] is [exit(EXIT_FAILURE)]. *)
Definition loadtest_server_main (argv : list bytes) (ends : nat → ending) (stops : list bool) :
    option (M (world K) unit) :=
  (λ t, match t with
        | Tcp => loadtest_tcp_server ends stops
        | Ssl => loadtest_ssl_server ends stops
        end)
    <$> parse_argv argv.
End programs.

(** ** What they guarantee *)

(** [l] has no CRLF, also not across its end. *)
Definition one_line (sep l : bytes) : Prop := string_find (l ++ sep) sep 0 = Some (length l).

Lemma one_line_extract sep l n :
  sep ≠ [] → one_line sep l → LineSession.extract sep (S (S n)) 0 (l ++ sep) = Some ([l], []).
Proof.
  intros Hsep Hl. unfold one_line in Hl. cbn [LineSession.extract]. rewrite Hl.
  assert (string_erase (l ++ sep) (length l + length sep) = []) as ->.
  { unfold string_erase. apply drop_ge. rewrite length_app. lia. }
  rewrite take_app_length.
  assert (string_find [] sep (length l) = None) as ->; [|done].
  apply string_find_None; [done|]. intros k _ Hp. rewrite drop_nil in Hp.
  destruct sep; [done|]. by apply prefix_nil_not in Hp.
Qed.

Section echo.
Context {C K : Type} `{ConnectionWhole C K}.

(** A whole line in one read, on a fresh session. *)
Lemma fresh_line f (c : C) incl sep fuel l w w1 o s' w' :
  sep ≠ [] → 2 ≤ fuel → one_line sep l → conn_recv c w = (Ret (l ++ sep), w1) →
  LineSession.iteration (pure_process f) fuel (LineSession.make c () incl sep, w) =
    (o, (s', w')) →
  o = Ret () →
  LineSession.buffer_ s' = [] ∧
  stream_step (conn_end c) (l ++ sep) (f (l ++ if incl then sep else [])) (wview w) (wview w').
Proof.
  intros Hsep Hf Hl Hr. destruct fuel as [|[|fuel]]; [lia|lia|].
  rewrite (pure_iteration f _ (LineSession.make c () incl sep) w (l ++ sep) w1 [l] []).
  - destruct (conn_send _ _ _) as [os w2] eqn:Hs. intros [= <- <- <-] ->.
    split; [done|]. apply conn_recv_spec in Hr. apply conn_send_whole in Hs.
    cbn in Hs. rewrite app_nil_r in Hs.
    pose proof (stream_step_trans _ _ _ _ _ _ _ _ Hr Hs) as Hst.
    by rewrite app_nil_r in Hst.
  - by split.
  - done.
  - exact (one_line_extract sep l fuel Hsep Hl).
Qed.

(** The echo of main.cc: one line in one read is answered between bars. *)
Theorem main_echoes_line (c : C) fuel l w w1 s' w' :
  2 ≤ fuel → one_line crlf l → conn_recv c w = (Ret (l ++ crlf), w1) →
  LineSession.iteration EchoProtocol.process fuel (EchoProtocol.create_session c, w) =
    (Ret (), (s', w')) →
  LineSession.buffer_ s' = [] ∧
  stream_step (conn_end c) (l ++ crlf) (lit "|" ++ l ++ lit "|" ++ crlf) (wview w) (wview w').
Proof.
  intros Hf Hl Hr Hi.
  destruct (fresh_line (λ d, lit "|" ++ d ++ lit "|" ++ crlf) c false crlf fuel l w w1 (Ret ()) s' w')
    as [? Hs]; [done..|]. rewrite app_nil_r in Hs. done.
Qed.

(** The protocol of the load-test server answers a request that is one line in one read with
    that same line, newline included, and keeps nothing in the buffer. *)
Theorem loadtest_echoes_request (c : C) fuel l w w1 s' w' :
  2 ≤ fuel → one_line [LF] l → conn_recv c w = (Ret (l ++ [LF]), w1) →
  LineSession.iteration LoadTestProtocol.process fuel (LoadTestProtocol.create_session c, w) =
    (Ret (), (s', w')) →
  LineSession.buffer_ s' = [] ∧
  stream_step (conn_end c) (l ++ [LF]) (l ++ [LF]) (wview w) (wview w').
Proof.
  intros Hf Hl Hr Hi. by apply (fresh_line (λ d, d) c true [LF] fuel l w w1 (Ret ()) s' w').
Qed.
End echo.

Section closing.
Context {P K : Type} `{KernelLaws K} `{Platform} `{!PollerOps P (world K)} `{!PollerSpec P K}.
Variables send_fuel line_fuel : nat.

#[local] Existing Instance TCPServer.ops.
#[local] Instance tcp_ops' : ConnectionOps TCPConnection.t (world K) := TCPConnection.ops send_fuel.
#[local] Instance tcp_spec' : ConnectionSpec TCPConnection.t K := TCPConnection.connection send_fuel.
#[local] Instance tcp_closes' : ConnectionCloses TCPConnection.t K :=
  TCPConnection.connection_closes send_fuel.

Lemma serve_closes {Se} `{!SessionOps Se (world K)} `{!SessionSpec Se K}
    `{!ProtocolOps TCPConnection.t Se} `{!ProtocolSpec TCPConnection.t Se (world K)}
    ends port ow tc stops w w' :
  (∀ n, tc = inr n → (0 < n)%Z) →
  serve (C:=TCPConnection.t) (P:=P) (Se:=Se) ends (TCPServer.make port ow tc) stops w = (Ret (), w') →
  v_open (wview w') = v_open (wview w).
Proof.
  intros Htc. unfold serve. intros (s & w1 & Hm & Hr)%bind_ret_inv. unfold run_and_destroy in Hr.
  unfold TCPServer.make in Hm. apply bind_ret_inv in Hm as (l & w0 & Hl & Hm).
  apply create_listener_open in Hl as [Hnin Hopen].
  destruct (Server.run stops (s, w1)) as [[[]| | |] [s2 w2]] eqn:Hrun; [|done..].
  eapply (lifetime_open (C:=TCPConnection.t)) in Hr;
    [|exact Htc| |exact Hm|done|exact Hrun|done].
  - rewrite Hr, Hopen. clear -Hnin. set_solver.
  - rewrite Hopen. set_solver.
Qed.

Lemma main_open stops w w' :
  main (P:=P) send_fuel line_fuel stops w = (Ret (), w') →
  v_open (wview w') = v_open (wview w).
Proof.
  pose proof (LineSession.session (C:=TCPConnection.t) EchoProtocol.process line_fuel) as Hs.
  unfold main.
  by apply (serve_closes (SessionOps0:=LineSession.ops EchoProtocol.process line_fuel)
    (ProtocolOps0:=EchoProtocol.create_session) (SessionSpec0:=Hs)
    (ProtocolSpec0:=λ c, eq_refl (TCPConnection.fd_ c))).
Qed.
End closing.

Section ssl_closing.
Context {P K : Type} `{OpenSSLLaws K} `{Platform} `{!PollerOps P (world K)} `{!PollerSpec P K}.
Variables send_fuel line_fuel : nat.

#[local] Instance ssl_ops' : ConnectionOps SSLConnection.t (world K) := SSLConnection.ops send_fuel.
#[local] Instance ssl_spec' : ConnectionSpec SSLConnection.t K := SSLConnection.connection send_fuel.
#[local] Instance ssl_closes' : ConnectionCloses SSLConnection.t K :=
  SSLConnection.connection_closes send_fuel.

Lemma serve_ssl_closes {Se} `{!SessionOps Se (world K)} `{!SessionSpec Se K}
    `{!ProtocolOps SSLConnection.t Se} `{!ProtocolSpec SSLConnection.t Se (world K)}
    ends port ow tc cert key stops w w' :
  (∀ n, tc = inr n → (0 < n)%Z) →
  serve_ssl (P:=P) (Se:=Se) ends (SSLServer.make ends port ow tc cert key) stops w = (Ret (), w') →
  v_open (wview w') = v_open (wview w).
Proof.
  intros Htc. unfold serve_ssl. intros ([s ctx] & w1 & Hm & Hr)%bind_ret_inv.
  unfold run_and_destroy in Hr. unfold SSLServer.make, TCPServer.make in Hm.
  apply bind_ret_inv in Hm as (s' & wm & Hm & Hk).
  apply bind_ret_inv in Hm as (l & w0 & Hl & Hm).
  apply bind_ret_inv in Hk as (ctx' & wk & Hk & [= -> -> ->]).
  apply unwinding_inv in Hk. apply (run_quiet _ _ _ _ (load_keys_view cert key)) in Hk.
  apply create_listener_open in Hl as [Hnin Hopen].
  destruct (Server.run (ServerOps0:=SSLServer.ops ctx) stops (s, w1))
    as [[[]| | |] [s2 w2]] eqn:Hrun; [|done..].
  unfold SSLServer.destroy in Hr. apply bind_ret_inv in Hr as ([] & w2' & Hf & Hr).
  assert (wview w2' = wview w2) as Hv.
  { apply (run_quiet (when (negb (ctx =? 0)%Z) (sys (SSL_CTX_free ctx) ;; mret ())) _ (Ret ())); [|exact Hf].
    preserves_walk. }
  eapply (lifetime_open (C:=SSLConnection.t) (ServerOps0:=SSLServer.ops ctx)) in Hr;
    [|exact Htc| |exact Hm|exact Hk|exact Hrun|exact Hv].
  - rewrite Hr, Hopen. clear -Hnin. set_solver.
  - rewrite Hopen. set_solver.
Qed.

(** C19: A run of the main of main.cc or of demo/echossl.cc that comes to its end, for any
    clients and any moment of the SIGINT, leaves open exactly the descriptors that were open
    before: listener, epoll instance and every client, TCP or TLS, are closed. *)
Theorem programs_close_everything certificate private_key stops w w' :
  main (P:=P) send_fuel line_fuel stops w = (Ret (), w') ∨
  echossl_main (P:=P) send_fuel line_fuel certificate private_key stops w = (Ret (), w') →
  v_open (wview w') = v_open (wview w).
Proof.
  intros [Hm|Hm].
  - exact (main_open send_fuel line_fuel stops w w' Hm).
  - pose proof (LineSession.session (C:=SSLConnection.t) EchoSSLProtocol.process line_fuel) as Hs.
    unfold echossl_main in Hm. revert Hm. apply (serve_ssl_closes
      (SessionOps0:=LineSession.ops EchoSSLProtocol.process line_fuel) (SessionSpec0:=Hs)
      (ProtocolOps0:=EchoSSLProtocol.create_session) (ProtocolSpec0:=λ c, eq_refl (SSLConnection.fd_ c))). done.
Qed.

(** Once its TCPServer is made, the constructor of SSLServer returns that server with nothing
    opened or closed, or throws for a bad certificate or key and leaves open exactly what was
    open before the TCPServer: the unwinding closes the listener and the poller, unless the race
    of ~ThreadMulti strikes. *)
Theorem ssl_server_make_owns_fd {Se} `{!SessionOps Se (world K)} `{!SessionSpec Se K}
    `{!ProtocolOps SSLConnection.t Se} `{!ProtocolSpec SSLConnection.t Se (world K)}
    ends port ow tc cert key w (s : Server.t P Se) w1 o w' :
  (∀ n, tc = inr n → (0 < n)%Z) → (∀ i, ends i ≠ Races) →
  TCPServer.make port ow tc w = (Ret s, w1) → SSLServer.make ends port ow tc cert key w = (o, w') →
  match o with
  | Ret (s', _) => s' = s ∧ wview w' = wview w1
  | Throw _ => v_open (wview w') = v_open (wview w)
  | _ => False
  end.
Proof.
  intros Htc He Hm. unfold SSLServer.make. rewrite run_bind, Hm. unfold unwinding. rewrite run_bind.
  unfold TCPServer.make in Hm. apply bind_ret_inv in Hm as (l & w0 & [Hnin Hopen]%create_listener_open & Hm).
  destruct (SSLServer.load_keys cert key w1) as [ok wk] eqn:Hk.
  pose proof (load_keys_ends cert key w1) as Hends. rewrite Hk in Hends.
  apply (run_quiet _ _ _ _ (load_keys_view cert key)) in Hk.
  destruct ok as [ctx|e| |]; [by intros [= <- <-]| |done..]. rewrite run_bind.
  destruct (Server.destroy _ _ s wk) as [od wd] eqn:Hd.
  eapply (made_destroyed_open (C:=SSLConnection.t) (ServerOps0:=SSLServer.ops 0)) in Hd as [-> Hd];
    [|exact Htc| |exact Hm|exact Hk|exact He].
  - intros [= <- <-]. rewrite Hd, Hopen. clear -Hnin. set_solver.
  - rewrite Hopen. set_solver.
Qed.
End ssl_closing.
