(* ===== verification/EchoServers.v ===== *)
(** * The servers of the repository, at rest

    What the contract of [Conversation] comes to for the protocol of the load
    test's server: the requests of its clients, which all have the same length,
    come back byte for byte, in whatever pieces they arrive. *)

From Stdlib Require Import Sorted.
From S2P Require Import Prelude Cpp Log OS Connection TCPConnection Session LineSession.
From S2P Require Import LineSessionSpec LineCuts Threads ThreadsSpec Poller PollerSpec Server ServerSpec.
From S2P Require Import TCPServer TCPServerSpec Network PollerNet Delivery Conversation Apps.
Import Server Machine.

Section load.
Context {P K : Type} `{NetworkLaws K} `{!WholeKernel K} `{Platform}
  `{!PollerOps P (world K)} `{!PollerSpec P K} `{!PollerNet P}.
Context (send_fuel line_fuel : nat).

#[local] Existing Instances conns conns_spec conns_whole conns_close conns_net tcp_server_ops.
#[local] Instance load_conns : ConnectionOps TCPConnection.t (world K) := conns send_fuel.
#[local] Instance load_lines : SessionOps (LineSession.t TCPConnection.t ()) (world K) :=
  lines LoadTestProtocol.process send_fuel line_fuel.
#[local] Instance load_lines_spec : SessionSpec (LineSession.t TCPConnection.t ()) K :=
  lines_spec LoadTestProtocol.process send_fuel line_fuel.
#[local] Instance load_server_spec : ServerSpec TCPConnection.t K := tcp_server_spec send_fuel.
#[local] Instance load_protocol : ProtocolOps TCPConnection.t (LineSession.t TCPConnection.t ()) :=
  LoadTestProtocol.create_session.
#[local] Instance load_protocol_spec :
  ProtocolSpec TCPConnection.t (LineSession.t TCPConnection.t ()) (world K) :=
  line_protocol_spec (K:=K) LoadTestProtocol.process [LF] true () send_fuel line_fuel.

Lemma load_answers ls :
  LineSession.answer LoadTestProtocol.process (line_of [LF] true) ls [] () =
  (Ret (LineSession.unlines [LF] ls), (), []).
Proof. apply (answer_pure id). Qed.

Lemma equal_lengths_sorted n (L : list bytes) : Forall (λ r, length r = n) L → Sorted le (length <$> L).
Proof.
  induction 1 as [|r L Hr HL IH]; [constructor|]. constructor; [done|].
  destruct HL as [|r' L Hr' _]; constructor. cbn. lia.
Qed.

(** In every state, what a client has been sent is a beginning of what was
    received from it. *)
Lemma load_prefix l tc w (x : config P (LineSession.t TCPConnection.t ()) (world K)) c ses :
  reaches l tc w x → all_sessions (thread_manager_ (srv x)) !! c = Some ses →
  v_received (inl c) (wview (wd x)) =
    v_sent (inl c) (wview (wd x)) ++ LineSession.buffer_ ses.
Proof.
  intros Hr Hses. assert ([LF] ≠ []) as Hsep by done.
  pose proof (line_contract LoadTestProtocol.process [LF] true () Hsep line_fuel) as Hcon.
  destruct (reaches_serves (C:=TCPConnection.t) (K:=K) (conversation LoadTestProtocol.process [LF] true ())
    (conversation_new LoadTestProtocol.process [LF] true () Hsep) _ _ _ _ _ _ Hr Hses)
    as (_ & _ & _ & ls & Hin & Hans & _).
  rewrite load_answers in Hans. injection Hans as Hout _. cbn in Hin. by rewrite Hin, Hout.
Qed.

Lemma requests_at_rest n l tc w (x : config P (LineSession.t TCPConnection.t ()) (world K))
    c ls s1 w1 requests :
  rests l tc w x c ls s1 w1 →
  arrived c (wd x) ++ arrivals c ls = concat ((λ r, r ++ [LF]) <$> requests) →
  Forall (λ r, length r = n ∧ LF ∉ r) requests →
  v_sent (inl c) (wview w1) = arrived c (wd x) ++ arrivals c ls.
Proof.
  intros Hr Harr Hreq. rewrite Harr.
  destruct (ordered_at_rest LoadTestProtocol.process [LF] true () send_fuel line_fuel
    _ _ _ _ _ _ _ _ requests [] ltac:(done) Hr) as [p Ha].
  - by rewrite Harr, app_nil_r.
  - eapply Forall_impl; [exact Hreq|]. intros r [_ Hlf]. by eapply whole_line_fresh.
  - done.
  - eapply equal_lengths_sorted, Forall_impl; [exact Hreq|]. by intros r [? _].
  - rewrite load_answers in Ha. by injection Ha as <- _.
Qed.

(** C3: The server of the load test sends every request back, over plain TCP, with a poller that
    meets its contract (epoll and kqueue, not WSAPoll) and any positive number of threads;
    provided that the kernel takes every send whole (if it does not,
    TransportSpec.tcp_partial_write_duplicates) and that, with epoll, no descriptor ever has
    more than one receive buffer of 16 KiB unread (if one has, Delivery.burst_never_read) - on
    this client or on any other: at rest, a client whose requests are lines of one length has
    been sent exactly the bytes that have arrived on it, however they were cut into pieces and
    whatever the other clients send within that bound. *)
Theorem load_server_echoes n l tc w (x : config P (LineSession.t TCPConnection.t ()) (world K))
    c ls s1 w1 requests :
  rests l tc w x c ls s1 w1 →
  arrived c (wd x) ++ arrivals c ls = concat ((λ r, r ++ [LF]) <$> requests) →
  Forall (λ r, length r = n ∧ LF ∉ r) requests →
  v_sent (inl c) (wview w1) = arrived c (wd x) ++ arrivals c ls.
Proof. apply requests_at_rest. Qed.
End load.
