(* ===== verification/Init.v ===== *)
(** * init.cc: what runs before main

    The constructor of the static object [init]: the defaults of the logger and
    the limit of open files, over the calls of the class [Limits]. *)

From S2P Require Import Prelude Cpp Log OS Connection.

Class Limits (K : Type) := {
  (** [getrlimit(RLIMIT_NOFILE, &rl)] on a zeroed [rl]: [rlim_cur, rlim_max] *)
  getrlimit : K → (Z * Z) * K;
  setrlimit : Z * Z → K → Z * K;
  OPENSSL_init_ssl : K → Z * K;
  WSAStartup : K → Z * K;
  WSACleanup : K → Z * K;
}.

Module Init.
Section ops.
Context {K : Type} `{Kernel K} `{!Limits K} `{Platform}.

Definition desired_rl : Z := 65535.

(** [logging_color = "0"; ...]: the four globals of the logger. *)
Definition set_defaults : M LogState unit :=
  modify (λ l, MkLog (lit "0") (lit "(undefined)") false stdout (written l)).

Definition raise_limit : M (world K) unit :=
  '(cur, max) ← sys getrlimit;
  if (cur <? desired_rl)%Z then
    r ← sys (setrlimit (desired_rl, max));
    if negb (r =? 0)%Z then
      e ← get_errno;
      logging (LOG "Could not set file limit: {}" [strerror e])
    else mret ()
  else mret ().

(** The constructor. *)
Definition make : M (world K) unit :=
  logging set_defaults ;;
  (if is_win32 then
     r ← sys WSAStartup;
     if negb (r =? 0)%Z
     then raise (NonRecoverableException (lit "WSAStartup failed: " ++ to_string r))
     else mret ()
   else raise_limit) ;;
  sys OPENSSL_init_ssl ;;
  mret ().

(** [~Init] *)
Definition destroy : M (world K) unit :=
  if is_win32 then sys WSACleanup ;; mret () else mret ().
End ops.

(** On POSIX the constructor always returns, whatever the limits, with the
  defaults in place; a limit that is high enough is left alone, and a failure
  to raise it is one line in the log. *)
Section spec.
Context {K : Type} `{Kernel K} `{!Limits K} `{Platform}.

Lemma raise_limit_run w cur max k1 r k2 :
  getrlimit (kern w) = ((cur, max), k1) → setrlimit (desired_rl, max) k1 = (r, k2) →
  ∃ l, raise_limit w = (Ret (), World (if (cur <? desired_rl)%Z then k2 else k1) l) ∧
    written l = written (logs w) ++
      (if (cur <? desired_rl)%Z && negb (r =? 0)%Z then
         [(logging_dest (logs w), c_str (log_line (logs w)
             (format (lit "Could not set file limit: {}") [strerror (errno k2)])))]
       else []) ∧
    logging_color l = logging_color (logs w) ∧ service_name l = service_name (logs w) ∧
    logging_verbose l = logging_verbose (logs w) ∧ logging_dest l = logging_dest (logs w).
Proof.
  intros Hg Hs. unfold raise_limit. run_call. rewrite Hg. cbn [fst snd].
  destruct (cur <? desired_rl)%Z; cbn [andb].
  2: { exists (logs w). rewrite app_nil_r. done. }
  run_call. rewrite Hs. cbn [fst snd]. destruct (r =? 0)%Z; cbn [negb].
  { exists (logs w). rewrite app_nil_r. done. }
  rewrite run_bind. cbn. eexists. split; [reflexivity|]. done.
Qed.

(** On POSIX the constructor of [Init] returns with the defaults of the logger in place,
    whatever the limits; a failure to raise them is one line in the log. *)
Theorem init_sets_defaults w cur max k1 r k2 :
  is_win32 = false → getrlimit (kern w) = ((cur, max), k1) →
  setrlimit (desired_rl, max) k1 = (r, k2) →
  ∃ w', make w = (Ret (), w') ∧
    kern w' = (OPENSSL_init_ssl (if (cur <? desired_rl)%Z then k2 else k1)).2 ∧
    logging_color (logs w') = lit "0" ∧ service_name (logs w') = lit "(undefined)" ∧
    logging_verbose (logs w') = false ∧ logging_dest (logs w') = stdout ∧
    length (written (logs w')) = length (written (logs w)) +
      (if (cur <? desired_rl)%Z && negb (r =? 0)%Z then 1 else 0).
Proof.
  intros Hp Hg Hs. unfold make. rewrite Hp, run_bind. unfold logging, zoom. cbn.
  rewrite run_bind. set (w1 := World _ _).
  destruct (raise_limit_run w1 cur max k1 r k2 Hg Hs) as (l & -> & Hw & Hc & Hn & Hv & Hd).
  rewrite run_bind, run_sys. cbn. eexists. split; [reflexivity|].
  cbn. rewrite Hc, Hn, Hv, Hd, Hw, length_app. split_and!; [done..|]. by case_match.
Qed.
End spec.
End Init.
