(* ===== verification/Getopt.v ===== *)
(** * loadtest/ya_getopt.c: the option parser of the load generator

    The five functions of the file over its globals and the statics of
    [ya_getopt_internal].  A C string is the list of its characters before the
    terminating NUL, and a pointer into it is the suffix it points at: the
    strings themselves are never written.  The array [argv] is written, when the
    operands are moved behind the options; an access outside its [argc] entries
    is undefined. *)

From S2P Require Import Prelude Cpp.

Module Getopt.

Definition ya_no_argument : Z := 0.
Definition ya_required_argument : Z := 1.
Definition ya_optional_argument : Z := 2.

(** [struct option]; [flag] is an address of the caller, or null. *)
Record option_t := MkOption { name : bytes; has_arg : Z; flag : option nat; val : Z }.

(** The globals, the statics, and what the caller's pointers reach: the array,
    the [int]s behind the flags, [*longindex], and what went to [stderr]. *)
Record t := Make {
  ya_optarg : option bytes;
  ya_optind : Z;
  ya_opterr : Z;
  ya_optopt : Z;
  ya_optnext : option bytes;
  posixly_correct : Z;
  handle_nonopt_argv : Z;
  start : Z;
  end_ : Z;
  argv : list bytes;
  flags : gmap nat Z;
  longidx : option Z;
  errors : list bytes }.

(** The globals as the program starts. *)
Definition init (argv : list bytes) : t :=
  Make None 1 1 63 None (-1) 0 0 0 argv ∅ None [].

Definition set_optarg (x : option bytes) (s : t) : t :=
  Make x (ya_optind s) (ya_opterr s) (ya_optopt s) (ya_optnext s) (posixly_correct s)
    (handle_nonopt_argv s) (start s) (end_ s) (argv s) (flags s) (longidx s) (errors s).
Definition set_optind (x : Z) (s : t) : t :=
  Make (ya_optarg s) x (ya_opterr s) (ya_optopt s) (ya_optnext s) (posixly_correct s)
    (handle_nonopt_argv s) (start s) (end_ s) (argv s) (flags s) (longidx s) (errors s).
Definition set_optopt (x : Z) (s : t) : t :=
  Make (ya_optarg s) (ya_optind s) (ya_opterr s) x (ya_optnext s) (posixly_correct s)
    (handle_nonopt_argv s) (start s) (end_ s) (argv s) (flags s) (longidx s) (errors s).
Definition set_optnext (x : option bytes) (s : t) : t :=
  Make (ya_optarg s) (ya_optind s) (ya_opterr s) (ya_optopt s) x (posixly_correct s)
    (handle_nonopt_argv s) (start s) (end_ s) (argv s) (flags s) (longidx s) (errors s).
Definition set_mode (posix nonopt : Z) (s : t) : t :=
  Make (ya_optarg s) (ya_optind s) (ya_opterr s) (ya_optopt s) (ya_optnext s) posix
    nonopt (start s) (end_ s) (argv s) (flags s) (longidx s) (errors s).
Definition set_start (x : Z) (s : t) : t :=
  Make (ya_optarg s) (ya_optind s) (ya_opterr s) (ya_optopt s) (ya_optnext s) (posixly_correct s)
    (handle_nonopt_argv s) x (end_ s) (argv s) (flags s) (longidx s) (errors s).
Definition set_end (x : Z) (s : t) : t :=
  Make (ya_optarg s) (ya_optind s) (ya_opterr s) (ya_optopt s) (ya_optnext s) (posixly_correct s)
    (handle_nonopt_argv s) (start s) x (argv s) (flags s) (longidx s) (errors s).
Definition set_argv (x : list bytes) (s : t) : t :=
  Make (ya_optarg s) (ya_optind s) (ya_opterr s) (ya_optopt s) (ya_optnext s) (posixly_correct s)
    (handle_nonopt_argv s) (start s) (end_ s) x (flags s) (longidx s) (errors s).
Definition set_outputs (f : gmap nat Z) (i : option Z) (s : t) : t :=
  Make (ya_optarg s) (ya_optind s) (ya_opterr s) (ya_optopt s) (ya_optnext s) (posixly_correct s)
    (handle_nonopt_argv s) (start s) (end_ s) (argv s) f i (errors s).
Definition add_error (e : bytes) (s : t) : t :=
  Make (ya_optarg s) (ya_optind s) (ya_opterr s) (ya_optopt s) (ya_optnext s) (posixly_correct s)
    (handle_nonopt_argv s) (start s) (end_ s) (argv s) (flags s) (longidx s) (errors s ++ [e]).

(** [char] is signed, and converted to [int]. *)
Definition char_int (c : ascii) : Z :=
  let n := Z.of_nat (nat_of_ascii c) in if (n <? 128)%Z then n else (n - 256)%Z.

(** [s[i]] of a C string, for an index up to its length. *)
Definition at_ (s : bytes) (i : nat) : ascii := default NUL (s !! i).

(** [strchr(s, c)] of a character, one past where it points. *)
Fixpoint strchr_next (s : bytes) (c : ascii) : option bytes :=
  match s with
  | [] => None
  | x :: s => if bool_decide (x = c) then Some s else strchr_next s c
  end.

Definition is_option (arg : bytes) : bool :=
  match arg with
  | c :: _ :: _ => bool_decide (c = "-"%char)
  | _ => false
  end.

(** [optstring++] past a leading [+] or [-]. *)
Definition skip_mode (optstring : bytes) : bytes :=
  match optstring with
  | c :: s => if bool_decide (c = "+"%char) || bool_decide (c = "-"%char) then s else optstring
  | [] => []
  end.

Definition question : Z := char_int "?"%char.
Definition colon : Z := char_int ":"%char.

Section getopt.
(** The arguments of a call; [posix_env] is whether [POSIXLY_CORRECT] is in the
    environment and [has_longindex] whether [longindex] is not null. *)
Variable argc : Z.
Variable posix_env : bool.
Variable has_longindex : bool.

(** [argv[i]], read and written. *)
Definition argv_get (i : Z) : M t bytes := λ s,
  if ((0 <=? i) && (i <? argc))%Z then
    match argv s !! Z.to_nat i with Some a => (Ret a, s) | None => (UB, s) end
  else (UB, s).
Definition argv_set (i : Z) (a : bytes) : M t unit := λ s,
  if ((0 <=? i) && (i <? argc))%Z
  then (Ret (), set_argv (<[Z.to_nat i := a]> (argv s)) s) else (UB, s).

Definition ya_getopt_error (optstring : bytes) (message : bytes) : M t unit :=
  s ← get;
  when (negb (ya_opterr s =? 0)%Z && negb (bool_decide (at_ optstring 0 = ":"%char)))
    (modify (add_error message)).

Definition check_gnu_extension (optstring : bytes) : M t unit :=
  modify (set_mode
    (if bool_decide (at_ optstring 0 = "+"%char) || posix_env then 1 else 0)
    (if bool_decide (at_ optstring 0 = "-"%char) then 1 else 0)).

Definition incr_optind : M t unit := modify (λ s, set_optind (ya_optind s + 1) s).

(** [ya_getopt_shortopts]; [optstring] has lost its mode character. *)
Definition ya_getopt_shortopts (optstring : bytes) (long_only : bool) : M t Z :=
  s ← get;
  match ya_optnext s with
  | None | Some [] => undefined
  | Some (c :: rest) =>
      let opt := char_int c in
      match strchr_next optstring c with
      | None =>
          modify (set_optarg None) ;;
          (if long_only then
             prog ← argv_get 0;
             ya_getopt_error optstring
               (prog ++ lit ": unrecognized option '-" ++ c :: rest ++ lit "'" ++ [LF]) ;;
             incr_optind ;;
             modify (set_optnext None)
           else
             modify (set_optopt opt) ;;
             prog ← argv_get 0;
             ya_getopt_error optstring (prog ++ lit ": invalid option -- '" ++ [c] ++ lit "'" ++ [LF]) ;;
             modify (set_optnext (Some rest)) ;;
             when (bool_decide (rest = [])) (incr_optind ;; modify (set_optnext None))) ;;
          mret question
      | Some os =>
          if bool_decide (at_ os 0 = ":"%char) then
            (if bool_decide (rest = []) then
               incr_optind ;;
               modify (set_optnext None) ;;
               if bool_decide (at_ os 1 = ":"%char) then
                 modify (set_optarg None) ;;
                 modify (set_optnext None) ;;
                 mret opt
               else
                 s ← get;
                 if (ya_optind s =? argc)%Z then
                   modify (set_optarg None) ;;
                   modify (set_optopt opt) ;;
                   prog ← argv_get 0;
                   ya_getopt_error optstring
                     (prog ++ lit ": option requires an argument -- '" ++ [c] ++ lit "'" ++ [LF]) ;;
                   mret (if bool_decide (at_ optstring 0 = ":"%char) then colon else question)
                 else
                   a ← argv_get (ya_optind s);
                   modify (set_optarg (Some a)) ;;
                   incr_optind ;;
                   modify (set_optnext None) ;;
                   mret opt
             else
               modify (set_optarg (Some rest)) ;;
               incr_optind ;;
               modify (set_optnext None) ;;
               mret opt)
          else
            modify (set_optarg None) ;;
            (if bool_decide (rest = []) then modify (set_optnext None) ;; incr_optind
             else modify (set_optnext (Some rest))) ;;
            mret opt
      end
  end.

(** The label [found]. *)
Definition found (idx : Z) (opt : option_t) (v : option bytes) : M t Z :=
  modify (set_optarg v) ;;
  incr_optind ;;
  modify (λ s, set_outputs (match flag opt with
                            | Some p => <[p := val opt]> (flags s)
                            | None => flags s
                            end) (longidx s) s) ;;
  when has_longindex (modify (λ s, set_outputs (flags s) (Some idx) s)) ;;
  mret (match flag opt with Some _ => 0 | None => val opt end)%Z.

(** The loop of [ya_getopt_longopts] from the option [idx] on; [has_flag] is
    whether [long_only_flag] is not null, and the second result whether it is
    set. *)
Fixpoint ya_getopt_longopts (arg : bytes) (optstring : bytes) (idx : Z)
    (longopts : list option_t) (has_flag : bool) : M t (Z * bool) :=
  match longopts with
  | [] =>
      if has_flag then mret (question, true)
      else
        prog ← argv_get 0;
        s ← get;
        a ← argv_get (ya_optind s);
        ya_getopt_error optstring (prog ++ lit ": unrecognized option '" ++ a ++ lit "'" ++ [LF]) ;;
        incr_optind ;;
        mret (question, false)
  | opt :: longopts =>
      let next := ya_getopt_longopts arg optstring (idx + 1) longopts has_flag in
      if bool_decide (name opt `prefix_of` arg) then
        match drop (length (name opt)) arg with
        | [] =>
            if (has_arg opt =? ya_required_argument)%Z then
              incr_optind ;;
              s ← get;
              if (ya_optind s =? argc)%Z then
                modify (set_optarg None) ;;
                modify (set_optopt (val opt)) ;;
                prog ← argv_get 0;
                ya_getopt_error optstring
                  (prog ++ lit ": option '--" ++ name opt ++ lit "' requires an argument" ++ [LF]) ;;
                mret (if bool_decide (at_ optstring 0 = ":"%char) then colon else question, false)
              else
                v ← argv_get (ya_optind s);
                r ← found idx opt (Some v);
                mret (r, false)
            else
              r ← found idx opt None;
              mret (r, false)
        | c :: v =>
            if bool_decide (c = "="%char) then
              if (has_arg opt =? ya_no_argument)%Z then
                s ← get;
                a ← argv_get (ya_optind s);
                incr_optind ;;
                modify (set_optarg None) ;;
                modify (set_optopt (val opt)) ;;
                prog ← argv_get 0;
                ya_getopt_error optstring
                  (prog ++ lit ": option '" ++
                   (if bool_decide (at_ a 1 = "-"%char) then lit "--" else lit "-") ++
                   name opt ++ lit "' doesn't allow an argument" ++ [LF]) ;;
                mret (question, false)
              else
                r ← found idx opt (Some v);
                mret (r, false)
            else next
        end
      else next
  end.

(** [for (i = end; i < last_pos; i++) argv[i] = argv[i + 1];], with what is
    left of the count; it returns [i]. *)
Fixpoint shift (n : nat) (i : Z) : M t Z :=
  match n with
  | 0 => mret i
  | S n => a ← argv_get (i + 1); argv_set i a ;; shift n (i + 1)
  end.

(** [while (start < end--)]: [n] passes are left. *)
Fixpoint rotate (n : nat) (last_pos : Z) : M t unit :=
  modify (λ s, set_end (end_ s - 1) s) ;;
  match n with
  | 0 => mret ()
  | S n =>
      s ← get;
      arg ← argv_get (end_ s);
      i ← shift (Z.to_nat (last_pos - end_ s)) (end_ s);
      argv_set i arg ;;
      rotate n (last_pos - 1)
  end.

Definition permute : M t unit :=
  s ← get;
  let last_pos := (ya_optind s - 1)%Z in
  modify (λ s, set_optind (ya_optind s - (end_ s - start s)) s) ;;
  modify (λ s, if (ya_optind s <=? 0)%Z then set_optind 1 s else s) ;;
  rotate (Z.to_nat (end_ s - start s)) last_pos ;;
  modify (set_start 0).

(** [for (i = ya_optind + 1; i < argc; i++)], with the [n] entries left. *)
Fixpoint scan (n : nat) (i : Z) : M t Z :=
  match n with
  | 0 => mret i
  | S n =>
      a ← argv_get i;
      if is_option a then modify (set_end i) ;; mret i else scan n (i + 1)
  end.

(** An early [return], or the word the parser goes on with. *)
Definition pick_word : M t (Z + bytes) :=
  s ← get;
  arg ← argv_get (ya_optind s);
  if is_option arg then mret (inr arg)
  else if negb (handle_nonopt_argv s =? 0)%Z then
    modify (set_optarg (Some arg)) ;;
    incr_optind ;;
    modify (set_start 0) ;;
    mret (inl 1%Z)
  else if negb (posixly_correct s =? 0)%Z then
    modify (set_optarg None) ;;
    mret (inl (-1)%Z)
  else
    modify (set_start (ya_optind s)) ;;
    i ← scan (Z.to_nat (argc - (ya_optind s + 1))) (ya_optind s + 1);
    if (i =? argc)%Z then
      modify (set_optarg None) ;;
      mret (inl (-1)%Z)
    else
      modify (set_optind i) ;;
      arg ← argv_get i;
      mret (inr arg).

(** The rest of [ya_getopt_internal] when no early [return] was taken. *)
Definition short_word (optstring : bytes) (longopts : option (list option_t)) (long_only : bool) :
    M t Z :=
  s ← get;
  match ya_optnext s with
  | Some _ => mret ()
  | None => a ← argv_get (ya_optind s); modify (set_optnext (Some (drop 1 a)))
  end ;;
  if long_only then
    s ← get;
    match ya_optnext s, longopts with
    | Some arg, Some longopts =>
        '(rv, flag) ← ya_getopt_longopts arg optstring 0 longopts true;
        if negb flag then modify (set_optnext None) ;; mret rv
        else ya_getopt_shortopts optstring long_only
    | _, _ => undefined
    end
  else ya_getopt_shortopts optstring long_only.

Definition next_word (optstring : bytes) (longopts : option (list option_t)) (long_only : bool) :
    M t Z :=
  w ← pick_word;
  match w with
  | inl rv => mret rv
  | inr arg =>
      if bool_decide (arg = lit "--") then incr_optind ;; mret (-1)%Z
      else match longopts with
           | Some longopts' =>
               if bool_decide (at_ arg 1 = "-"%char) then
                 s ← get;
                 a ← argv_get (ya_optind s);
                 '(rv, _) ← ya_getopt_longopts (drop 2 a) optstring 0 longopts' false;
                 mret rv
               else short_word optstring longopts long_only
           | None => short_word optstring longopts long_only
           end
  end.

(** From [if (ya_optind >= argc)] on. *)
Definition parse_word (optstring : bytes) (longopts : option (list option_t)) (long_only : bool) :
    M t Z :=
  s ← get;
  if (argc <=? ya_optind s)%Z then modify (set_optarg None) ;; mret (-1)%Z
  else match ya_optnext s with
       | None => next_word optstring longopts long_only
       | Some _ => short_word optstring longopts long_only
       end.

Definition finish_block : M t unit :=
  s ← get;
  when (bool_decide (ya_optnext s = None) && negb (start s =? 0)%Z) permute.

(** The updates of the globals before the [switch]. *)
Definition prologue (optstring : bytes) : M t unit :=
  modify (λ s, if (ya_optopt s =? question)%Z then set_optopt 0 s else s) ;;
  s ← get;
  when (posixly_correct s =? -1)%Z (check_gnu_extension optstring) ;;
  when (ya_optind s =? 0)%Z
    (check_gnu_extension optstring ;; modify (set_optind 1) ;; modify (set_optnext None)).

Definition ya_getopt_internal (optstring : bytes) (longopts : option (list option_t))
    (long_only : bool) : M t Z :=
  prologue optstring ;;
  finish_block ;;
  parse_word (skip_mode optstring) longopts long_only.

Definition ya_getopt (optstring : bytes) : M t Z :=
  ya_getopt_internal optstring None false.
Definition ya_getopt_long (optstring : bytes) (longopts : list option_t) : M t Z :=
  ya_getopt_internal optstring (Some longopts) false.
Definition ya_getopt_long_only (optstring : bytes) (longopts : list option_t) : M t Z :=
  ya_getopt_internal optstring (Some longopts) true.

End getopt.
End Getopt.
