(* ===== verification/GetoptSpec.v ===== *)
(** * What ya_getopt guarantees

    The rotation of [argv], and the safety of every call: [argv] is accessed in
    its bounds and stays a permutation, and the value returned is one the
    declaration allows. *)

From S2P Require Import Prelude Cpp Getopt.
Import Getopt.

(** ** The rotation *)

Section rotation.
Variable argc : Z.
Implicit Types (s : t) (A B X Y : list bytes).

Lemma wp_argv_get i a s Q :
  (0 ≤ i < argc)%Z → argv s !! Z.to_nat i = Some a → Q a s → wp (argv_get argc i) Q s.
Proof.
  intros Hi Ha HQ. unfold wp, argv_get. rewrite (proj2 (Z.leb_le 0 i)), (proj2 (Z.ltb_lt i argc)) by lia.
  cbn [andb]. by rewrite Ha.
Qed.

Lemma wp_argv_set i a s Q :
  (0 ≤ i < argc)%Z → Q () (set_argv (<[Z.to_nat i := a]> (argv s)) s) →
  wp (argv_set argc i a) Q s.
Proof.
  intros Hi HQ. unfold wp, argv_set.
  by rewrite (proj2 (Z.leb_le 0 i)), (proj2 (Z.ltb_lt i argc)) by lia.
Qed.

Lemma set_argv_set_argv l1 l2 s : set_argv l1 (set_argv l2 s) = set_argv l1 s.
Proof. done. Qed.

(** The inner loop moves [Y] one place to the front and leaves the last of it
    twice. *)
Lemma shift_spec Y A B z i s :
  argv s = A ++ z :: Y ++ B → i = Z.of_nat (length A) → argc = Z.of_nat (length (argv s)) →
  wp (shift argc (length Y) i)
    (λ i' s', i' = (i + Z.of_nat (length Y))%Z ∧ ∃ z', s' = set_argv (A ++ Y ++ z' :: B) s) s.
Proof.
  revert A z i s. induction Y as [|y Y IH]; intros A z i s Hs -> Hargc; cbn [shift length].
  { wp_steps. split; [lia|]. exists z. destruct s; cbn in *. by rewrite Hs. }
  assert (argv s !! Z.to_nat (Z.of_nat (length A) + 1) = Some y) as Hy.
  { rewrite Hs, lookup_app_r by lia. by replace (_ - _) with 1 by lia. }
  pose proof (lookup_lt_Some _ _ _ Hy) as Hlt.
  refine (wp_bind _ _ _ _ _). eapply wp_argv_get; [lia|exact Hy|].
  refine (wp_bind _ _ _ _ _). apply wp_argv_set; [lia|].
  rewrite Nat2Z.id, Hs, insert_app_r_alt, Nat.sub_diag by lia. cbn [insert list_insert].
  eapply wp_mono; [apply (IH (A ++ [y]) y)|].
  - cbn. by rewrite <-app_assoc.
  - rewrite length_app. cbn. lia.
  - cbn. rewrite Hargc, Hs, !length_app. cbn. rewrite !length_app. done.
  - intros i' s' (-> & z' & ->). split; [lia|]. exists z'. by rewrite set_argv_set_argv, <-app_assoc.
Qed.

(** The whole rotation: the block [X] goes behind [Y]. *)
Lemma rotate_spec X A Y B last_pos s :
  argv s = A ++ X ++ Y ++ B → end_ s = Z.of_nat (length A + length X) →
  last_pos = (Z.of_nat (length A + length X + length Y) - 1)%Z →
  argc = Z.of_nat (length (argv s)) →
  wp (rotate argc (length X) last_pos)
    (λ _ s', s' = set_end (Z.of_nat (length A) - 1) (set_argv (A ++ Y ++ X ++ B) s)) s.
Proof.
  revert B last_pos s. induction X as [|x X IH] using rev_ind; intros B last_pos s Hs He -> Hargc.
  { cbn [rotate length]. wp_steps. destruct s; cbn in *. subst. f_equal. lia. }
  rewrite length_app in *. cbn [length] in *.
  replace (length X + 1) with (S (length X)) by lia. cbn [rotate]. wp_steps.
  assert (argv s = A ++ X ++ x :: Y ++ B) as Hs1 by (rewrite Hs, <-!app_assoc; done).
  assert (argv s !! Z.to_nat (end_ s - 1) = Some x) as Hx.
  { rewrite Hs1, He, lookup_app_r, lookup_app_r by lia. by replace (_ - _ - _) with 0 by lia. }
  pose proof (lookup_lt_Some _ _ _ Hx) as Hlt.
  eapply wp_argv_get; [cbn; lia|exact Hx|]. cbn [end_ set_end].
  refine (wp_bind _ _ _ _ _).
  replace (Z.to_nat _) with (length Y) by lia.
  eapply wp_mono; [apply (shift_spec Y (A ++ X) B x)|].
  - cbn. by rewrite Hs1, <-app_assoc.
  - rewrite length_app. lia.
  - done.
  - intros i s' (-> & z & ->). refine (wp_bind _ _ _ _ _).
    assert (length (argv s) = length A + length X + S (length Y) + length B) as Hlen.
    { rewrite Hs1, !length_app. cbn. rewrite length_app. lia. }
    apply wp_argv_set; [lia|]. cbn [argv set_argv]. rewrite set_argv_set_argv.
    assert (Z.to_nat (end_ s - 1 + Z.of_nat (length Y)) = length ((A ++ X) ++ Y) + 0) as ->.
    { rewrite !length_app. lia. }
    rewrite (app_assoc (A ++ X) Y), insert_app_r. cbn [insert list_insert].
    eapply wp_mono; [apply (IH (x :: B))|].
    + cbn. by rewrite <-!app_assoc.
    + cbn. lia.
    + lia.
    + cbn. rewrite !length_app. cbn. lia.
    + intros _ s' ->. rewrite <-!app_assoc. done.
Qed.

Lemma permute_spec A X Y B s :
  argv s = A ++ X ++ Y ++ B → 0 < length A → start s = Z.of_nat (length A) →
  end_ s = Z.of_nat (length A + length X) →
  ya_optind s = Z.of_nat (length A + length X + length Y) →
  argc = Z.of_nat (length (argv s)) →
  wp (permute argc)
    (λ _ s', s' = set_start 0 (set_end (Z.of_nat (length A) - 1)
       (set_optind (Z.of_nat (length A + length Y)) (set_argv (A ++ Y ++ X ++ B) s)))) s.
Proof.
  intros Hs Hpos Hst He Hi Hargc. unfold permute. wp_steps. cbn [end_ start set_optind ya_optind].
  replace (Z.to_nat _) with (length X) by lia.
  destruct (Z.leb_spec (ya_optind s - (end_ s - start s)) 0); [lia|].
  eapply wp_mono; [apply (rotate_spec X A Y B)|]; cbn; [done|done|lia|done|].
  intros _ s' ->. wp_steps.
  by replace (ya_optind s - (end_ s - start s))%Z with (Z.of_nat (length A + length Y)) by lia.
Qed.

(** Without a block to move it only adjusts [ya_optind]. *)
Lemma permute_idle s :
  (end_ s ≤ start s ≤ ya_optind s)%Z → (1 ≤ ya_optind s)%Z →
  wp (permute argc)
    (λ _ s', s' = set_start 0 (set_end (end_ s - 1)
       (set_optind (ya_optind s + (start s - end_ s)) s))) s.
Proof.
  intros He Hi. unfold permute. wp_steps. cbn [end_ start set_optind ya_optind].
  replace (Z.to_nat _) with 0 by lia.
  destruct (Z.leb_spec (ya_optind s - (end_ s - start s)) 0); [lia|].
  cbn [rotate]. wp_steps.
  by replace (ya_optind s - (end_ s - start s))%Z with (ya_optind s + (start s - end_ s))%Z by lia.
Qed.
End rotation.

(** ** The search for the next option *)

Abbreviation operand w := (is_option w = false) (only parsing).

(** No word, or an option first. *)
Definition option_first (R : list bytes) : Prop :=
  match R with [] => True | w :: _ => is_option w = true end.

Lemma split_words ws :
  ∃ X R, ws = X ++ R ∧ Forall (λ w, operand w) X ∧ option_first R.
Proof.
  induction ws as [|w ws (X & R & -> & HX & HR)]; [by exists [], []|].
  destruct (is_option w) eqn:Hw; [by exists [], (w :: X ++ R)|]. exists (w :: X), R. auto.
Qed.

Lemma scan_spec argc P X R i s :
  argv s = P ++ X ++ R → argc = Z.of_nat (length (argv s)) → i = Z.of_nat (length P) →
  Forall (λ w, operand w) X → option_first R →
  wp (scan argc (Z.to_nat (argc - i)) i)
    (λ i' s', i' = Z.of_nat (length P + length X) ∧
       s' = match R with [] => s | _ => set_end i' s end) s.
Proof.
  intros Hs Hargc -> HX HR.
  assert (Z.to_nat (argc - Z.of_nat (length P)) = length X + length R) as ->.
  { rewrite Hargc, Hs, !length_app. lia. }
  revert P Hs. induction HX as [|x X Hx HX IH]; intros P Hs.
  - destruct R as [|w R]; cbn [length Nat.add scan]; wp_steps; [split; [lia|done]|].
    assert (argv s !! Z.to_nat (Z.of_nat (length P)) = Some w) as Hw.
    { rewrite Nat2Z.id, Hs, lookup_app_r, Nat.sub_diag by lia. done. }
    pose proof (lookup_lt_Some _ _ _ Hw).
    eapply wp_argv_get; [lia|exact Hw|]. rewrite HR. wp_steps. by rewrite Nat.add_0_r.
  - cbn [length Nat.add scan]. wp_steps.
    assert (argv s !! Z.to_nat (Z.of_nat (length P)) = Some x) as Hw.
    { rewrite Nat2Z.id, Hs, lookup_app_r, Nat.sub_diag by lia. done. }
    pose proof (lookup_lt_Some _ _ _ Hw).
    eapply wp_argv_get; [lia|exact Hw|]. rewrite Hx.
    replace (Z.of_nat (length P) + 1)%Z with (Z.of_nat (length (P ++ [x])))
      by (rewrite length_app; cbn; lia).
    eapply wp_mono; [apply IH; by rewrite Hs, <-app_assoc|].
    intros i' s' [-> ->]. rewrite length_app. cbn. split; [lia|]. destruct R; [done|]. by replace (length P + 1 + length X) with (length P + S (length X)) by lia.
Qed.

(** ** Safety *)

Section safety.
Variable argc : Z.
Variables posix_env has_longindex : bool.
Implicit Types (s : t).

(** What every call finds and leaves: [ya_optnext] points into the word at
    [ya_optind], and the block to move ends before the words just parsed. *)
Definition good_fields (l : list bytes) (ind : Z) (next : option bytes) (st en : Z) : Prop :=
  (1 ≤ argc)%Z ∧ argc = Z.of_nat (length l) ∧ (0 ≤ ind)%Z ∧
  match next with
  | None =>
      st = 0%Z ∧ (en ≤ Z.max 1 ind)%Z ∨ (1 ≤ st)%Z ∧ (en ≤ st)%Z ∧ (st ≤ ind)%Z ∨
      (1 ≤ st < en)%Z ∧ (en < ind ≤ argc)%Z
  | Some cs =>
      cs ≠ [] ∧ (1 ≤ ind < argc)%Z ∧
      (st = 0%Z ∧ (en ≤ ind)%Z ∨ (1 ≤ st < en)%Z ∧ en = ind)
  end.
Definition good s : Prop :=
  good_fields (argv s) (ya_optind s) (ya_optnext s) (start s) (end_ s).

Lemma init_good l : argc = Z.of_nat (length l) → (1 ≤ argc)%Z → good (init l).
Proof. intros ??. split_and!; cbn; try done. left. lia. Qed.

(** What a call may return. *)
Inductive returns (optstring : bytes) (longopts : list option_t) : Z → Prop :=
  | ret_end : returns optstring longopts (-1)
  | ret_nonopt : returns optstring longopts 1
  | ret_flag : returns optstring longopts 0
  | ret_error : returns optstring longopts question
  | ret_missing : returns optstring longopts colon
  | ret_short c : c ∈ optstring → returns optstring longopts (char_int c)
  | ret_long o : o ∈ longopts → returns optstring longopts (val o).
#[local] Hint Constructors returns : core.

Lemma wp_prog s Q :
  (1 ≤ argc)%Z → argc = Z.of_nat (length (argv s)) → (∀ a, Q a s) → wp (argv_get argc 0) Q s.
Proof.
  intros Hpos Hargc HQ. destruct (argv s) as [|a l] eqn:Hl; [cbn in *; lia|].
  apply (wp_argv_get argc 0 a); [lia|by rewrite Hl|done].
Qed.

Definition set_errors (e : list bytes) s : t :=
  Make (ya_optarg s) (ya_optind s) (ya_opterr s) (ya_optopt s) (ya_optnext s) (posixly_correct s)
    (handle_nonopt_argv s) (start s) (end_ s) (argv s) (flags s) (longidx s) e.

Lemma wp_error os m s Q : (∀ e, Q () (set_errors e s)) → wp (ya_getopt_error os m) Q s.
Proof.
  intros HQ. unfold ya_getopt_error. wp_steps. case_match; wp_steps.
  - apply (HQ (errors s ++ [m])).
  - specialize (HQ (errors s)). by destruct s.
Qed.

Lemma wp_word i s Q :
  (0 ≤ i < argc)%Z → argc = Z.of_nat (length (argv s)) →
  (∀ a, argv s !! Z.to_nat i = Some a → Q a s) → wp (argv_get argc i) Q s.
Proof.
  intros Hi Hargc HQ. destruct (argv s !! Z.to_nat i) as [a|] eqn:Ha.
  - by apply (wp_argv_get argc i a); auto.
  - apply lookup_ge_None in Ha. lia.
Qed.

Lemma strchr_next_elem os c x : strchr_next os c = Some x → c ∈ os.
Proof.
  induction os as [|y os IH]; cbn; [done|]. case_bool_decide; subst; [by left|]. intros ?. right. auto.
Qed.

(** Walk down the reads of words and the error messages too. *)
Ltac safe_step :=
  lazymatch goal with
  | |- wp (ya_getopt_error _ _) _ _ => apply wp_error; intros ?
  | |- wp (argv_get _ 0) _ _ => apply wp_prog; [lia|cbn in *; lia|intros ?]
  | |- wp (argv_get _ _) _ _ => apply wp_word; [cbn in *; lia|cbn in *; lia|intros ? ?]
  | |- wp (if (?a =? ?b)%Z then _ else _) _ _ => destruct (Z.eqb_spec a b)
  | |- wp (if (?a <=? ?b)%Z then _ else _) _ _ => destruct (Z.leb_spec a b)
  | |- wp (if negb (?a =? ?b)%Z then _ else _) _ _ => destruct (Z.eqb_spec a b); cbn [negb]
  | |- wp (if bool_decide _ then _ else _) _ _ => case_bool_decide
  | |- wp (if ?b then _ else _) _ _ => destruct b eqn:?
  | |- if bool_decide _ then _ else _ => case_bool_decide
  | |- if ?b then wp _ _ _ else _ => destruct b eqn:?
  | _ => wp_step
  end.
Ltac safe_steps := unfold incr_optind; repeat safe_step.

Lemma shortopts_safe os longopts long_only s :
  good s → ya_optnext s ≠ None →
  wp (ya_getopt_shortopts argc os long_only)
    (λ rv s', good s' ∧ argv s' = argv s ∧ returns os longopts rv) s.
Proof.
  intros (Hpos & Hargc & Hind & Hnext) Hn. unfold ya_getopt_shortopts.
  wp_steps. destruct (ya_optnext s) as [[|c rest]|] eqn:Hopt; [naive_solver| |done].
  destruct Hnext as (_ & Hin & Hst).
  assert (∀ x, strchr_next os c = Some x → returns os longopts (char_int c)).
  { intros x ?%strchr_next_elem. auto. }
  destruct (strchr_next os c) as [x|] eqn:Hc; safe_steps.
  all: split; [|split; [done|try case_bool_decide; eauto]].
  all: unfold good, good_fields; cbn in *; split_and!; done || lia.
Qed.

(** What [ya_getopt_longopts] does: a word, perhaps two, are taken, or the short
    options are to be asked. *)
Definition long_post os all has_flag s (rf : Z * bool) (s' : t) : Prop :=
  argv s' = argv s ∧ start s' = start s ∧ end_ s' = end_ s ∧ ya_optnext s' = ya_optnext s ∧
  returns os all rf.1 ∧
  if rf.2 then has_flag = true ∧ s' = s else (ya_optind s < ya_optind s' ≤ argc)%Z.

Lemma found_safe os all has_flag idx o v s s0 :
  returns os all (val o) → argv s0 = argv s → start s0 = start s → end_ s0 = end_ s →
  ya_optnext s0 = ya_optnext s → (ya_optind s ≤ ya_optind s0 < argc)%Z →
  wp (found has_longindex idx o v) (λ rv s', long_post os all has_flag s (rv, false) s') s0.
Proof.
  intros Ho Ha Hs He Hn Hi. unfold found, long_post.
  safe_steps; split_and!; cbn; try assumption; try lia; by case_match.
Qed.

Lemma longopts_safe arg os longopts idx all has_flag s :
  (1 ≤ argc)%Z → argc = Z.of_nat (length (argv s)) → (0 ≤ ya_optind s < argc)%Z →
  (∀ o, o ∈ longopts → o ∈ all) →
  wp (ya_getopt_longopts argc has_longindex arg os idx longopts has_flag)
    (long_post os all has_flag s) s.
Proof.
  intros Hpos Hargc Hin. revert idx. induction longopts as [|o longopts IH]; intros idx Hall;
    cbn [ya_getopt_longopts].
  { safe_steps; split_and!; cbn in *; auto; lia. }
  assert (returns os all (val o)) as Ho by (apply ret_long, Hall; by left).
  assert (∀ o, o ∈ longopts → o ∈ all) as Hall' by (intros; apply Hall; by right).
  case_bool_decide; [|by apply IH].
  destruct (drop (length (name o)) arg) as [|c v].
  - destruct (Z.eqb_spec (has_arg o) ya_required_argument); safe_steps.
    + split_and!; cbn; auto; [by case_bool_decide|lia].
    + eapply wp_mono; [apply (found_safe os all has_flag _ _ _ s); cbn in *; auto; lia|].
      intros. by wp_steps.
    + eapply wp_mono; [apply (found_safe os all has_flag _ _ _ s); cbn in *; auto; lia|].
      intros. by wp_steps.
  - case_bool_decide; [|by apply IH]. safe_steps; [split_and!; cbn; auto; lia|].
    eapply wp_mono; [apply (found_safe os all has_flag _ _ _ s); cbn in *; auto; lia|].
    intros. by wp_steps.
Qed.

(** A word has been chosen: it is an option, at [ya_optind]. *)
Definition word_fields (l : list bytes) (ind : Z) (next : option bytes) (st en : Z) (w : bytes) : Prop :=
  (1 ≤ argc)%Z ∧ argc = Z.of_nat (length l) ∧ next = None ∧ (1 ≤ ind < argc)%Z ∧
  l !! Z.to_nat ind = Some w ∧ is_option w = true ∧
  (st = 0%Z ∧ (en ≤ ind)%Z ∨ (1 ≤ st < en)%Z ∧ en = ind).
Definition at_word s (w : bytes) : Prop :=
  word_fields (argv s) (ya_optind s) (ya_optnext s) (start s) (end_ s) w.

Lemma pick_word_safe s :
  good s → ya_optnext s = None → start s = 0%Z → (1 ≤ ya_optind s < argc)%Z →
  wp (pick_word argc)
    (λ w s', argv s' = argv s ∧
       match w with
       | inl rv => good s' ∧ (rv = 1%Z ∨ rv = (-1)%Z)
       | inr w => at_word s' w
       end) s.
Proof.
  intros (Hpos & Hargc & Hind & Hnext) Hn Hst Hin. rewrite Hn in Hnext. unfold pick_word.
  safe_steps.
  - split; [done|]. split_and!; auto; try lia.
  - destruct (split_words (drop (Z.to_nat (ya_optind s + 1)) (argv s))) as (X & R & Hd & HX & HR).
    set (s1 := set_start (ya_optind s) s).
    eapply wp_mono; [apply (scan_spec argc (take (Z.to_nat (ya_optind s + 1)) (argv s)) X R _ s1)|];
      [by cbn; rewrite <-Hd, take_drop|done|rewrite length_take; lia|done|done|].
    assert (argc = ya_optind s + 1 + Z.of_nat (length X + length R))%Z as Hlen.
    { apply (f_equal length) in Hd. rewrite length_drop, length_app in Hd. lia. }
    intros i s2 [-> ->]. rewrite length_take, Nat.min_l by lia. safe_steps.
    + destruct R; [|cbn in *; lia]. split; [done|]. split; [|by right].
      split_and!; cbn; try lia. rewrite Hn. cbn in *. lia.
    + destruct R as [|w R]; [cbn in *; lia|]. apply wp_word; [cbn in *; lia|done|].
      intros a' Ha. wp_steps. split; [done|]. cbn in *. split_and!; cbn; auto; try lia.
      assert (argv s !! (Z.to_nat (ya_optind s + 1) + length X) = Some w) as Hw.
      { rewrite <-lookup_drop, Hd, lookup_app_r, Nat.sub_diag by lia. done. }
      rewrite Nat2Z.id, Hw in Ha. by injection Ha as <-.
  - split; [done|]. split; [|by right]. split_and!; cbn; try lia. rewrite Hn. left. lia.
  - split; [done|]. split; [|by left]. split_and!; cbn; try lia. rewrite Hn. left. lia.
Qed.

Lemma short_word_safe os longopts lo long_only s :
  good s ∧ ya_optnext s ≠ None ∨ (∃ w, at_word s w) →
  (long_only = true → ∃ l, longopts = Some l ∧ ∀ o, o ∈ l → o ∈ lo) →
  wp (short_word argc has_longindex os longopts long_only)
    (λ rv s', good s' ∧ argv s' = argv s ∧ returns os lo rv) s.
Proof.
  intros Hs Hlo. unfold short_word. wp_steps.
  assert (∀ s1, good s1 → ya_optnext s1 ≠ None → argv s1 = argv s → wp (if long_only
    then s0 ← get;
      match ya_optnext s0, longopts with
      | Some arg, Some longopts =>
          '(rv, flag) ← ya_getopt_longopts argc has_longindex arg os 0 longopts true;
          if negb flag then modify (set_optnext None) ;; mret rv
          else ya_getopt_shortopts argc os long_only
      | _, _ => undefined
      end
    else ya_getopt_shortopts argc os long_only)
    (λ rv s', good s' ∧ argv s' = argv s ∧ returns os lo rv) s1) as Hrest.
  { intros s1 Hg Hn Ha. rewrite <-Ha. pose proof (shortopts_safe os lo long_only s1 Hg Hn) as Hshort.
    destruct long_only; [|done]. destruct (Hlo eq_refl) as (l & -> & Hl). wp_steps.
    pose proof Hg as (Hpos & Hargc & Hind & Hnext).
    destruct (ya_optnext s1) as [arg|] eqn:Hnx; [|done]. destruct Hnext as (Hne & Hin & Hst).
    wp_steps. eapply wp_mono; [apply (longopts_safe arg os l 0 lo true s1); auto; lia|].
    intros [rv []] s2 (Ha2 & Hs2 & He2 & Hn2 & Hr & Hf); cbn [negb].
    - destruct Hf as [_ ->]. exact Hshort.
    - wp_steps. split; [|by rewrite <-Ha2]. cbn in Hf. split_and!; cbn; rewrite ?Ha2, ?Hs2, ?He2; lia. }
  destruct Hs as [[Hg Hn]|[w (Hpos & Hargc & Hn & Hin & Hw & Ho & Hst)]].
  - destruct (ya_optnext s) as [cs|] eqn:Hnx; [|done]. wp_steps. apply Hrest; [done|by rewrite Hnx|done].
  - rewrite Hn. wp_steps. eapply wp_argv_get; [lia|exact Hw|]. wp_steps.
    apply Hrest; [|done|done]. split_and!; cbn; try lia. by destruct w as [|? [|]].
Qed.

Lemma next_word_safe os longopts lo long_only s :
  good s → ya_optnext s = None → start s = 0%Z → (1 ≤ ya_optind s < argc)%Z →
  (long_only = true → longopts ≠ None) →
  (∀ l o, longopts = Some l → o ∈ l → o ∈ lo) →
  wp (next_word argc has_longindex os longopts long_only)
    (λ rv s', good s' ∧ argv s' = argv s ∧ returns os lo rv) s.
Proof.
  intros Hg Hn Hst Hin Hlong Hlo. unfold next_word. wp_steps.
  eapply wp_mono; [by apply pick_word_safe|]. intros [rv|w] s1 [Ha Hw]; wp_steps.
  { destruct Hw as [Hg1 [-> | ->]]; auto. }
  pose proof Hw as (Hpos & Hargc & Hn1 & Hin1 & Hw1 & Ho & Hst1).
  assert (wp (short_word argc has_longindex os longopts long_only)
    (λ rv s', good s' ∧ argv s' = argv s ∧ returns os lo rv) s1) as Hshort.
  { rewrite <-Ha. apply short_word_safe; [by right; exists w|].
    intros H. specialize (Hlong H). destruct longopts as [l|]; [|done]. exists l. eauto. }
  case_bool_decide.
  - unfold incr_optind. wp_steps. split; [|by rewrite <-Ha]. split_and!; cbn; try lia.
    rewrite Hn1. lia.
  - destruct longopts as [l|] eqn:Hl; [|done]. case_bool_decide; [|done]. wp_steps.
    eapply wp_argv_get; [lia|exact Hw1|]. wp_steps.
    eapply wp_mono; [apply (longopts_safe (drop 2 w) os l 0 lo false s1); eauto; lia|].
    intros [rv f] s2 (Ha2 & Hs2 & He2 & Hn2 & Hr & Hf). wp_steps. cbn in *.
    destruct f; [by destruct Hf|]. split; [|by rewrite <-Ha, <-Ha2].
    split_and!; cbn; try congruence; try lia. rewrite Hn2, Hn1. lia.
Qed.

(** The same words, the program's name first. *)
Definition permuted s s' : Prop := argv s' ≡ₚ argv s ∧ argv s' !! 0 = argv s !! 0.

Lemma permute_safe s :
  good s → ya_optnext s = None → start s ≠ 0%Z →
  wp (permute argc)
    (λ _ s', good s' ∧ permuted s s' ∧ ya_optnext s' = None ∧ start s' = 0%Z ∧
       (1 ≤ ya_optind s')%Z) s.
Proof.
  intros (Hpos & Hargc & Hind & Hnext) Hn Hst. rewrite Hn in Hnext.
  destruct Hnext as [[? _]|[(? & ? & ?)|[? ?]]]; [done| |].
  - eapply wp_mono; [apply permute_idle; lia|]. intros _ s' ->. split.
    + split_and!; cbn; try lia. rewrite Hn. left. lia.
    + cbn. split_and!; try done. lia.
  - set (A := take (Z.to_nat (start s)) (argv s)).
    set (X := take (Z.to_nat (end_ s - start s)) (drop (Z.to_nat (start s)) (argv s))).
    set (YB := drop (Z.to_nat (end_ s)) (argv s)).
    set (Y := take (Z.to_nat (ya_optind s - end_ s)) YB).
    set (B := drop (Z.to_nat (ya_optind s - end_ s)) YB).
    assert (length A = Z.to_nat (start s)) as HA by (unfold A; rewrite length_take; lia).
    assert (length X = Z.to_nat (end_ s - start s)) as HX.
    { unfold X. rewrite length_take, length_drop. lia. }
    assert (length Y = Z.to_nat (ya_optind s - end_ s)) as HY.
    { unfold Y, YB. rewrite length_take, length_drop. lia. }
    assert (argv s = A ++ X ++ Y ++ B) as Hs.
    { unfold Y, B. rewrite (take_drop _ YB). unfold A, X, YB.
      replace (Z.to_nat (end_ s)) with (Z.to_nat (start s) + Z.to_nat (end_ s - start s)) by lia.
      by rewrite <-drop_drop, take_drop, take_drop. }
    eapply wp_mono; [apply (permute_spec argc A X Y B); try lia; done|].
    intros _ s' ->. split; [|split; [split|cbn; split_and!; [done..|lia]]]; cbn.
    + split_and!; cbn; try lia; [rewrite Hargc, Hs, !length_app; lia|]. rewrite Hn. left. lia.
    + rewrite Hs. apply Permutation_app_head. rewrite !app_assoc.
      apply Permutation_app_tail, Permutation_app_comm.
    + rewrite Hs, !lookup_app_l by lia. done.
Qed.

Lemma prologue_safe optstring s :
  good s →
  wp (prologue posix_env optstring)
    (λ _ s', good s' ∧ argv s' = argv s ∧ (1 ≤ ya_optind s')%Z) s.
Proof.
  intros (Hpos & Hargc & Hind & Hnext).
  assert (∀ s1, argv s1 = argv s → ya_optind s1 = ya_optind s → ya_optnext s1 = ya_optnext s →
    start s1 = start s → end_ s1 = end_ s →
    wp (when (ya_optind s =? 0)%Z
         (check_gnu_extension posix_env optstring ;; modify (set_optind 1) ;; modify (set_optnext None)))
      (λ _ s', good s' ∧ argv s' = argv s ∧ (1 ≤ ya_optind s')%Z) s1) as Hrest.
  { intros s1 Ha Hi Hn Hs He. wp_steps. destruct (Z.eqb_spec (ya_optind s) 0).
    - unfold check_gnu_extension. wp_steps. split; [|done]. split_and!; cbn; rewrite ?Ha; try lia.
      rewrite Hs, He. left. destruct (ya_optnext s); lia.
    - split; [|split; [done|lia]]. split_and!; rewrite ?Ha, ?Hi, ?Hn, ?Hs, ?He; auto. }
  unfold prologue. destruct (ya_optopt s =? question)%Z eqn:Hq.
  all: repeat first [by apply Hrest | wp_step | rewrite Hq | progress unfold check_gnu_extension at 1
                    | case_match].
Qed.

Lemma finish_block_safe s :
  good s → (1 ≤ ya_optind s)%Z →
  wp (finish_block argc)
    (λ _ s', good s' ∧ permuted s s' ∧ (1 ≤ ya_optind s')%Z ∧
       (ya_optnext s' = None → start s' = 0%Z)) s.
Proof.
  intros Hg Hi. unfold finish_block. wp_steps. case_bool_decide; cbn [andb];
    [|split; [done|split; [by split|split; [done|by intros]]]].
  destruct (Z.eqb_spec (start s) 0); cbn [negb]; [by split_and!|].
  eapply wp_mono; [by apply permute_safe|]. naive_solver.
Qed.

Lemma internal_safe optstring longopts lo long_only s :
  good s → (long_only = true → longopts ≠ None) →
  (∀ l o, longopts = Some l → o ∈ l → o ∈ lo) →
  wp (ya_getopt_internal argc posix_env has_longindex optstring longopts long_only)
    (λ rv s', good s' ∧ permuted s s' ∧ returns (skip_mode optstring) lo rv) s.
Proof.
  intros Hg Hlong Hlo. unfold ya_getopt_internal. wp_steps.
  eapply wp_mono; [by apply prologue_safe|]. intros _ s1 (Hg1 & Ha1 & Hi1). wp_steps.
  eapply wp_mono; [by apply finish_block_safe|]. intros _ s2 (Hg2 & Hp2 & Hi2 & Hst2).
  unfold permuted in *. rewrite Ha1 in Hp2. unfold parse_word. wp_steps.
  destruct (Z.leb_spec argc (ya_optind s2)); [wp_steps; split; [done|split; [done|constructor]]|].
  assert (∀ m, wp m (λ rv s', good s' ∧ argv s' = argv s2 ∧ returns (skip_mode optstring) lo rv) s2 →
    wp m (λ rv s', good s' ∧ (argv s' ≡ₚ argv s ∧ argv s' !! 0 = argv s !! 0) ∧
      returns (skip_mode optstring) lo rv) s2) as Hmono.
  { intros m Hm. eapply wp_mono; [exact Hm|]. intros rv s' (? & -> & ?). done. }
  apply Hmono. destruct (ya_optnext s2) as [cs|] eqn:Hn.
  - apply short_word_safe; [left; by rewrite Hn|]. intros Hl. specialize (Hlong Hl).
    destruct longopts as [l|]; [|done]. exists l. eauto.
  - by apply next_word_safe; auto.
Qed.
End safety.
