(* ===== verification/GetoptRef.v ===== *)
(** * A reference parser for ya_getopt, ya_getopt_long and ya_getopt_long_only

    [parse] reads the words of a command line once, without state: it gives the
    options in order, the words they take, the operands, and what follows [--],
    for each of the three functions and in each of the three modes of the
    program's parser. The words are partitioned, and every option has an
    argument as its declaration says. *)

From S2P Require Import Prelude Cpp Getopt GetoptSpec.
Import Getopt.

(** ** The reference *)

(** What a call does to [ya_optarg]: it sets it, or leaves what the call before
    it had set. *)
Inductive arg := Sets (a : option bytes) | Kept.

(** What a call returns, with what it does to [ya_optarg]. *)
Abbreviation reading := (Z * arg)%type (only parsing).
Definition gives (rv : Z) (a : option bytes) : reading := (rv, Sets a).

(** The value and the argument a caller sees, when [prev] is the argument of the
    call before. *)
Definition seen (prev : option bytes) (r : reading) : Z * option bytes :=
  (r.1, match r.2 with Sets a => a | Kept => prev end).
Fixpoint deliver (prev : option bytes) (rs : list reading) : list (Z * option bytes) :=
  match rs with
  | [] => []
  | r :: rs => seen prev r :: deliver (seen prev r).2 rs
  end.

(** Without a call that keeps the argument, the readings are what is seen. *)
Lemma deliver_gives prev rs : deliver prev ((λ x, gives x.1 x.2) <$> rs) = rs.
Proof. revert prev. induction rs as [|[v a] rs IH]; intros prev; cbn; [done|]. by rewrite IH. Qed.

Inductive kind := NoArg | ReqArg | OptArg.

(** What becomes of an operand: it is moved behind the options, it ends the
    options, or it is delivered as an option with the value 1. *)
Inductive mode := Permute | Posix | InOrder.

Definition mode_of (optstring : bytes) (posix_env : bool) : mode :=
  if bool_decide (at_ optstring 0 = "-"%char) then InOrder
  else if bool_decide (at_ optstring 0 = "+"%char) || posix_env then Posix else Permute.

(** The function that is called: letters only, long options behind two hyphens,
    or behind one as well. *)
Inductive variant := LettersOnly | TwoHyphens | OneHyphen.

Record parsed := Parsed {
  results : list reading;
  words : list bytes;
  operands : list bytes;
  (** the words behind [--] *)
  rest : option (list bytes) }.

Section reference.
Variable md : mode.
Variable vr : variant.
Variable os : bytes.
Variable lo : list option_t.

Definition short_kind (c : ascii) : option kind :=
  match strchr_next os c with
  | None => None
  | Some x => Some (if bool_decide (at_ x 0 = ":"%char)
                    then if bool_decide (at_ x 1 = ":"%char) then OptArg else ReqArg
                    else NoArg)
  end.

Definition missing : Z := if bool_decide (at_ os 0 = ":"%char) then colon else question.

Definition long_value (o : option_t) : Z :=
  match flag o with Some _ => 0 | None => val o end.

(** The first long option whose name fits [arg], with whether the next word is
    taken as its argument. *)
Fixpoint long (arg : bytes) (lo : list option_t) (next : option bytes) :
    option (reading * bool) :=
  match lo with
  | [] => None
  | o :: lo =>
      if bool_decide (name o `prefix_of` arg) then
        match drop (length (name o)) arg with
        | [] =>
            if (has_arg o =? ya_required_argument)%Z then
              match next with
              | Some v => Some (gives (long_value o) (Some v), true)
              | None => Some (gives missing None, false)
              end
            else Some (gives (long_value o) None, false)
        | c :: v =>
            if bool_decide (c = "="%char) then
              if (has_arg o =? ya_no_argument)%Z then Some (gives question None, false)
              else Some (gives (long_value o) (Some v), false)
            else long arg lo next
        end
      else long arg lo next
  end.

(** Whether the letters of a word may be the name of a long option, at every
    position of the word. *)
Definition one_hyphen : bool := match vr with OneHyphen => true | _ => false end.
Definition name_in_word (cs : bytes) (next : option bytes) : option (reading * bool) :=
  if one_hyphen then long cs lo next else None.

(** The letters of one word; the second component is whether the next word is
    taken as an argument. With names among the letters, an unknown letter takes
    the rest of its word with it. *)
Fixpoint cluster (cs : bytes) (next : option bytes) : list reading * bool :=
  match cs with
  | [] => ([], false)
  | c :: rest =>
      match name_in_word cs next, short_kind c with
      | Some (r, b), _ => ([r], b)
      | None, None =>
          if one_hyphen then ([gives question None], false)
          else let '(rs, b) := cluster rest next in (gives question None :: rs, b)
      | None, Some NoArg =>
          let '(rs, b) := cluster rest next in (gives (char_int c) None :: rs, b)
      | None, Some OptArg =>
          ([gives (char_int c) (match rest with [] => None | _ => Some rest end)], false)
      | None, Some ReqArg =>
          match rest, next with
          | _ :: _, _ => ([gives (char_int c) (Some rest)], false)
          | [], Some v => ([gives (char_int c) (Some v)], true)
          | [], None => ([gives missing None], false)
          end
      end
  end.

Definition word_results (w : bytes) (next : option bytes) : list reading * bool :=
  match vr with
  | LettersOnly => cluster (drop 1 w) next
  | _ =>
      if bool_decide (at_ w 1 = "-"%char)
      then let '(r, b) := default ((question, Kept), false) (long (drop 2 w) lo next) in ([r], b)
      else cluster (drop 1 w) next
  end.

Definition add_option (rs : list reading) (ws : list bytes) (p : parsed) : parsed :=
  Parsed (rs ++ results p) (ws ++ words p) (operands p) (rest p).
Definition add_operand (w : bytes) (p : parsed) : parsed :=
  Parsed (results p) (words p) (w :: operands p) (rest p).

Fixpoint parse (ws : list bytes) : parsed :=
  match ws with
  | [] => Parsed [] [] [] None
  | w :: ws =>
      if negb (is_option w) then
        match md with
        | Permute => add_operand w (parse ws)
        | Posix => Parsed [] [] (w :: ws) None
        | InOrder => add_option [gives 1 (Some w)] [w] (parse ws)
        end
      else if bool_decide (w = lit "--") then Parsed [] [] [] (Some ws)
      else
        let '(rs, takes) := word_results w (head ws) in
        match takes, ws with
        | true, v :: ws' => add_option rs [w; v] (parse ws')
        | _, _ => add_option rs [w] (parse ws)
        end
  end.

(** ** Laws *)

(** The words an option took. *)
Definition taken (w : bytes) (takes : bool) (R : list bytes) : list bytes :=
  w :: (if takes then option_list (head R) else []).

Lemma parse_operands X ws :
  md = Permute → Forall (λ w, operand w) X →
  parse (X ++ ws) =
    Parsed (results (parse ws)) (words (parse ws))
      (X ++ operands (parse ws)) (rest (parse ws)).
Proof.
  intros Hmd. induction 1 as [|x X Hx _ IH]; cbn [app parse]; [by destruct (parse ws)|].
  by rewrite Hx, IH, Hmd.
Qed.

(** The last word of a command line takes none. *)
Lemma long_alone arg l r : long arg l None = Some r → r.2 = false.
Proof.
  induction l as [|o l IH]; cbn [long]; [done|]. intros H. repeat case_match; by simplify_eq; auto.
Qed.

Lemma cluster_alone cs : (cluster cs None).2 = false.
Proof.
  induction cs as [|c cs IH]; cbn [cluster]; [done|]. unfold name_in_word.
  destruct (cluster cs None) as [rs b]. cbn in IH. subst b.
  destruct (if one_hyphen then _ else _) as [[r b]|] eqn:Hr.
  - destruct one_hyphen; [|done]. by apply long_alone in Hr.
  - by destruct (short_kind c) as [[]|], cs, one_hyphen.
Qed.

Lemma word_alone w : (word_results w None).2 = false.
Proof.
  unfold word_results. case_match; try case_bool_decide; try apply cluster_alone.
  all: destruct (long _ _ _) as [[r b]|] eqn:Hr; [|done]; by apply long_alone in Hr.
Qed.

(** The reference on a word that is an option. *)
Lemma parse_option w R :
  is_option w = true → w ≠ lit "--" →
  let '(rs, takes) := word_results w (head R) in
  (takes = true → R ≠ []) ∧
  parse (w :: R) =
    add_option rs (taken w takes R) (parse (if takes then tail R else R)).
Proof.
  intros Hw Hne. cbn [parse]. rewrite Hw, bool_decide_false by done. cbn [negb].
  destruct (word_results w (head R)) as [rs []] eqn:Hres; [|by destruct R].
  destruct R as [|v R]; [|done]. exfalso. pose proof (word_alone w) as Hl. change None with (head (A := bytes) []) in Hl. by rewrite Hres in Hl.
Qed.

Lemma parse_dashdash R : parse (lit "--" :: R) = Parsed [] [] [] (Some R).
Proof. done. Qed.

Lemma short_kind_elem c k : short_kind c = Some k → c ∈ os.
Proof. unfold short_kind. destruct (strchr_next os c) eqn:Hc; [|done]. by apply strchr_next_elem in Hc. Qed.

Lemma missing_not_end : missing ≠ (-1)%Z.
Proof. unfold missing. by case_bool_decide. Qed.

(** ** The reference is a partition of the words *)

Definition tail_words (p : parsed) : list bytes :=
  match rest p with Some r => lit "--" :: r | None => [] end.

(** Induction over the words the way [parse] consumes them. *)
Lemma parse_ind (P : list bytes → parsed → Prop) :
  P [] (Parsed [] [] [] None) →
  (∀ w ws, md = Permute → is_option w = false →
     P ws (parse ws) → P (w :: ws) (add_operand w (parse ws))) →
  (∀ w ws, md = Posix → is_option w = false → P (w :: ws) (Parsed [] [] (w :: ws) None)) →
  (∀ w ws, md = InOrder → is_option w = false →
     P ws (parse ws) → P (w :: ws) (add_option [gives 1 (Some w)] [w] (parse ws))) →
  (∀ ws, P (lit "--" :: ws) (Parsed [] [] [] (Some ws))) →
  (∀ w ws rs takes, is_option w = true → w ≠ lit "--" →
     word_results w (head ws) = (rs, takes) →
     let ws' := if takes then tail ws else ws in
     w :: ws = taken w takes ws ++ ws' →
     P ws' (parse ws') → P (w :: ws) (add_option rs (taken w takes ws) (parse ws'))) →
  ∀ ws, P ws (parse ws).
Proof.
  intros Hnil Hpermute Hposix Hinorder Hdash Hopt ws.
  induction ws as [ws IH] using (induction_ltof1 _ (@length bytes)). unfold ltof in IH.
  destruct ws as [|w ws]; [done|]. destruct (is_option w) eqn:Hw.
  - destruct (decide (w = lit "--")) as [->|Hne]; [apply Hdash|].
    pose proof (parse_option w ws Hw Hne) as Hp.
    destruct (word_results w (head ws)) as [rs takes] eqn:Hr. destruct Hp as [Ht ->].
    apply Hopt; try done.
    + destruct takes; [|done]. destruct ws; [by destruct (Ht eq_refl)|done].
    + apply IH. destruct takes, ws; cbn; lia.
  - cbn [parse]. rewrite Hw. cbn [negb].
    assert (P ws (parse ws)) by (apply IH; cbn; lia). destruct md; auto.
Qed.

(** Every word is an option's, an operand, or behind [--], in the order given. *)
Lemma parse_partition ws :
  let p := parse ws in
  ws ≡ₚ words p ++ operands p ++ tail_words p ∧
  words p `sublist_of` ws ∧ operands p `sublist_of` ws.
Proof.
  apply (parse_ind (λ ws p, ws ≡ₚ words p ++ operands p ++ tail_words p ∧
    words p `sublist_of` ws ∧ operands p `sublist_of` ws)); unfold tail_words.
  - done.
  - cbn. intros w ws1 _ _ (Hp & Hw & Ho). split; [|split].
    + rewrite Hp at 1. cbn. apply Permutation_middle.
    + by apply sublist_cons.
    + by apply sublist_skip.
  - cbn. intros w ws1 _ _. rewrite app_nil_r. split; [done|]. split; [apply sublist_nil_l|done].
  - cbn. intros w ws1 _ _ (Hp & Hw & Ho). split; [by rewrite Hp at 1|]. split; [by apply sublist_skip|].
    by apply sublist_cons.
  - cbn. intros ws1. split; [done|]. split; apply sublist_nil_l.
  - intros w ws1 rs takes _ _ _. set (ws' := if takes then tail ws1 else ws1).
    intros Heq (Hp & Hw & Ho). rewrite Heq.
    cbn [words operands rest add_option]. split; [|split].
    + rewrite <-app_assoc. by rewrite Hp at 1.
    + by apply sublist_app.
    + by apply sublist_inserts_l.
Qed.

(** ** The bound of the loop *)

(** The bytes of the words, with the null that ends each of them. *)
Definition chars (ws : list bytes) : nat := sum_list_with (λ w, S (length w)) ws.

Lemma chars_cons w ws : chars (w :: ws) = S (length w) + chars ws.
Proof. done. Qed.

Lemma chars_app l1 l2 : chars (l1 ++ l2) = chars l1 + chars l2.
Proof. unfold chars. by rewrite sum_list_with_app. Qed.

Lemma cluster_length cs next : length (cluster cs next).1 ≤ length cs.
Proof.
  induction cs as [|c cs IH]; cbn [cluster]; [done|].
  destruct (cluster cs next) as [rs b]. cbn in IH.
  destruct (name_in_word _ _) as [[r b']|]; [cbn; lia|].
  destruct (short_kind c) as [[]|], one_hyphen; cbn; try lia; destruct cs, next; cbn; lia.
Qed.

Lemma word_results_length w next :
  is_option w = true → length (word_results w next).1 ≤ length w.
Proof.
  intros Hw. assert (length (cluster (drop 1 w) next).1 ≤ length w).
  { etrans; [apply cluster_length|]. rewrite length_drop. lia. }
  unfold word_results. case_match; try done.
  all: case_bool_decide; [|done]; destruct (default _ _), w; [done|cbn; lia].
Qed.

Lemma parse_length ws : length (results (parse ws)) ≤ chars ws.
Proof.
  apply (parse_ind (λ ws p, length (results p) ≤ chars ws)).
  - cbn. lia.
  - intros w ws1 _ _ IH. rewrite chars_cons. cbn [results add_operand]. lia.
  - cbn. lia.
  - intros w ws1 _ _ IH. rewrite chars_cons. cbn [results add_option app length]. lia.
  - cbn. lia.
  - intros w ws1 rs takes Hw _ Hr ws' Heq IH. rewrite Heq, chars_app.
    cbn [results add_option]. rewrite length_app.
    pose proof (word_results_length w (head ws1) Hw) as Hl. rewrite Hr in Hl. cbn [fst] in Hl.
    assert (length w ≤ chars (taken w takes ws1)) by (unfold taken; rewrite chars_cons; lia). lia.
Qed.

(** ** The arguments of the options *)

(** What a result can be: a letter or a long option with an argument as its
    declaration says, an operand delivered in order, or an error: without an
    argument, but for an unknown name, which leaves [ya_optarg] alone. *)
Inductive typed : reading → Prop :=
  | typed_letter c : short_kind c = Some NoArg → typed (gives (char_int c) None)
  | typed_letter_req c v : short_kind c = Some ReqArg → typed (gives (char_int c) (Some v))
  | typed_letter_opt c a : short_kind c = Some OptArg → typed (gives (char_int c) a)
  | typed_long o a : o ∈ lo →
      (has_arg o = ya_required_argument → a ≠ None) →
      (has_arg o = ya_no_argument → a = None) → typed (gives (long_value o) a)
  | typed_operand w : md = InOrder → is_option w = false → typed (gives 1 (Some w))
  | typed_unknown : typed (question, Kept)
  | typed_error : typed (gives question None)
  | typed_missing : typed (gives missing None).
#[local] Hint Constructors typed : core.

Lemma long_typed arg l next r :
  (∀ o, o ∈ l → o ∈ lo) → long arg l next = Some r → typed r.1.
Proof.
  induction l as [|o l IH]; intros Hl; cbn [long]; [done|].
  assert (long arg l next = Some r → typed r.1) as Hnext by (apply IH; intros; apply Hl; by right).
  assert (o ∈ lo) by (apply Hl; by left).
  case_bool_decide; [|done]. destruct (drop _ arg) as [|c v].
  - destruct (Z.eqb_spec (has_arg o) ya_required_argument).
    + destruct next; intros [= <-]; cbn; [|auto].
      apply typed_long; unfold ya_required_argument, ya_no_argument in *; congruence.
    + intros [= <-]. apply typed_long; unfold ya_required_argument, ya_no_argument in *; congruence.
  - case_bool_decide; [|done].
    destruct (Z.eqb_spec (has_arg o) ya_no_argument); intros [= <-]; [cbn; auto|].
    apply typed_long; unfold ya_required_argument, ya_no_argument in *; congruence.
Qed.

Lemma cluster_typed cs next : Forall typed (cluster cs next).1.
Proof.
  induction cs as [|c cs IH]; cbn [cluster]; [constructor|]. unfold name_in_word.
  destruct (cluster cs next) as [rs b]. cbn in IH.
  destruct (if one_hyphen then _ else _) as [[r b']|] eqn:Hr.
  { destruct one_hyphen; [|done]. apply long_typed in Hr; [|done]. cbn. auto. }
  destruct (short_kind c) as [[]|] eqn:Hk, one_hyphen; cbn; auto; destruct cs, next; cbn; auto.
Qed.

Lemma word_results_typed w next : Forall typed (word_results w next).1.
Proof.
  unfold word_results. case_match; try case_bool_decide; try apply cluster_typed.
  all: destruct (long _ _ _) as [[r b]|] eqn:Hr; cbn; [|auto]; apply long_typed in Hr; cbn; auto.
Qed.

Lemma parse_typed ws : Forall typed (results (parse ws)).
Proof.
  apply (parse_ind (λ _ p, Forall typed (results p))); cbn;
    [constructor|done|constructor|by auto|constructor|].
  intros w ws1 rs takes _ _ Hr _ IH. apply Forall_app. split; [|done].
  pose proof (word_results_typed w (head ws1)) as Hw. by rewrite Hr in Hw.
Qed.
End reference.
