(* ===== verification/GetoptSim.v ===== *)
(** * The functions of ya_getopt against the reference parser

    A loop that calls one of the three functions until it returns [-1] yields the
    options of the reference, and leaves [argv] with the operands behind the option
    words. Between two calls the operands stand behind the words read, or the
    words of the last option still stand behind the operands. *)

From S2P Require Import Prelude Cpp Getopt GetoptSpec GetoptRef.
Import Getopt.

(** ** The loop of a caller *)

(** A call of one of the three functions. *)
Inductive call :=
  | Short (optstring : bytes)
  | Long (optstring : bytes) (longopts : list option_t)
  | LongOnly (optstring : bytes) (longopts : list option_t).

Definition call_optstring (c : call) : bytes :=
  match c with Short os | Long os _ | LongOnly os _ => os end.
Definition call_longopts (c : call) : list option_t :=
  match c with Short _ => [] | Long _ lo | LongOnly _ lo => lo end.
Definition call_variant (c : call) : variant :=
  match c with Short _ => LettersOnly | Long _ _ => TwoHyphens | LongOnly _ _ => OneHyphen end.

Section layout.
Variable argc : Z.
Variables posix_env has_longindex : bool.

Definition make_call (c : call) : M t Z :=
  match c with
  | Short os => ya_getopt argc posix_env has_longindex os
  | Long os lo => ya_getopt_long argc posix_env has_longindex os lo
  | LongOnly os lo => ya_getopt_long_only argc posix_env has_longindex os lo
  end.

Fixpoint drain (c : call) (fuel : nat) : M t (list (Z * option bytes)) :=
  match fuel with
  | 0 => out_of_fuel
  | S fuel =>
      rv ← make_call c;
      if (rv =? -1)%Z then mret []
      else
        s ← get;
        rs ← drain c fuel;
        mret ((rv, ya_optarg s) :: rs)
  end.

(** The pointer [longopts] of [ya_getopt_internal]. *)
Definition call_table (c : call) : option (list option_t) :=
  match c with Short _ => None | Long _ lo | LongOnly _ lo => Some lo end.

Lemma make_call_internal c :
  make_call c = ya_getopt_internal argc posix_env has_longindex (call_optstring c) (call_table c)
    (one_hyphen (call_variant c)).
Proof. by destruct c. Qed.

(** ** The state between calls *)

Variable c : call.
Abbreviation optstring := (call_optstring c) (only parsing).
Implicit Types (s : t) (done ops R : list bytes).

(** What [check_gnu_extension] sets. *)
Definition posix_flag : Z := if bool_decide (at_ optstring 0 = "+"%char) || posix_env then 1 else 0.
Definition nonopt_flag : Z := if bool_decide (at_ optstring 0 = "-"%char) then 1 else 0.

(** Before the first call and after it. *)
Definition moded s : Prop :=
  posixly_correct s = (-1)%Z ∨
  posixly_correct s = posix_flag ∧ handle_nonopt_argv s = nonopt_flag.

(** [done] has been read (the program's name first), [ops] are the operands
    found so far, and [R] is to be read. *)
Record front s done ops R : Prop := {
  fr_mode : moded s;
  fr_argc : argc = Z.of_nat (length (argv s));
  fr_done : done ≠ [];
  fr_ops : Forall (λ w, operand w) ops;
  fr_next : ya_optnext s = None;
  fr_start : start s = 0%Z;
  fr_argv : argv s = done ++ ops ++ R;
  fr_ind : ya_optind s = Z.of_nat (length done) }.

(** The same, when the words [cur] just read still stand behind the operands. *)
Record behind s done cur ops R : Prop := {
  be_mode : moded s;
  be_argc : argc = Z.of_nat (length (argv s));
  be_done : done ≠ [];
  be_some : ops ≠ [];
  be_ops : Forall (λ w, operand w) ops;
  be_next : ya_optnext s = None;
  be_start : start s = Z.of_nat (length done);
  be_end : end_ s = Z.of_nat (length done + length ops);
  be_argv : argv s = done ++ ops ++ cur ++ R;
  be_ind : ya_optind s = Z.of_nat (length done + length ops + length cur) }.

Definition ready s done ops R : Prop :=
  front s done ops R ∨ ∃ d cur, done = d ++ cur ∧ behind s d cur ops R.

(** The word [w] has been chosen. *)
Record chosen s done ops (w : bytes) R : Prop := {
  ch_mode : moded s;
  ch_argc : argc = Z.of_nat (length (argv s));
  ch_done : done ≠ [];
  ch_ops : Forall (λ w, operand w) ops;
  ch_block : ops = [] ∧ start s = 0%Z ∨
    ops ≠ [] ∧ start s = Z.of_nat (length done) ∧ end_ s = Z.of_nat (length done + length ops);
  ch_argv : argv s = done ++ ops ++ w :: R;
  ch_ind : ya_optind s = Z.of_nat (length done + length ops) }.

Lemma init_front l : l ≠ [] → argc = Z.of_nat (length l) →
  front (init l) (take 1 l) [] (drop 1 l).
Proof.
  intros Hl Hargc. destruct l as [|p ws]; [done|]. split; cbn; auto. by left.
Qed.

(** The words [cur] have been read. *)
Lemma taken_ready s s' done ops w R cur R' :
  chosen s done ops w R → w :: R = cur ++ R' → moded s' → ya_optnext s' = None →
  start s' = start s → end_ s' = end_ s → argv s' = argv s →
  ya_optind s' = (ya_optind s + Z.of_nat (length cur))%Z → ready s' (done ++ cur) ops R'.
Proof.
  intros [] Hcur Hg Hn Hs He Ha Hi. destruct ch_block0 as [[-> Hst]|(Hne & Hst & Hen)].
  - left. split; try done; try congruence.
    + by destruct done.
    + rewrite Ha, ch_argv0, Hcur, <-app_assoc. done.
    + rewrite Hi, ch_ind0, length_app. cbn. lia.
  - right. exists done, cur. split; [done|]. split; try done; try congruence.
    rewrite Hi, ch_ind0. lia.
Qed.

Lemma finish_block_spec s done ops R :
  ready s done ops R →
  wp (finish_block argc)
    (λ _ s', front s' done ops R ∧ posixly_correct s' = posixly_correct s ∧
       handle_nonopt_argv s' = handle_nonopt_argv s ∧ ya_optarg s' = ya_optarg s) s.
Proof.
  unfold finish_block. intros [Hf|(d & cur & -> & [])]; wp_steps.
  - pose proof Hf as []. rewrite bool_decide_true, fr_start0 by done. done.
  - rewrite bool_decide_true, be_start0 by done.
    assert (0 < length d) by (destruct d; [done|cbn; lia]).
    destruct (Z.eqb_spec (Z.of_nat (length d)) 0); [lia|]. cbn [andb negb].
    eapply wp_mono; [apply (permute_spec argc d ops cur R); try done; lia|].
    intros _ s' ->. split; [|done]. split; cbn; auto.
    + rewrite be_argc0, be_argv0, !length_app. lia.
    + by destruct d.
    + by rewrite <-app_assoc.
    + by rewrite length_app.
Qed.

Lemma finish_block_inside s done ops w R cs :
  chosen s done ops w R → ya_optnext s = Some cs →
  wp (finish_block argc) (λ _ s', s' = s) s.
Proof. intros Ha Hn. unfold finish_block. wp_steps. rewrite Hn. done. Qed.

Lemma posix_flag_set : posix_flag ≠ (-1)%Z.
Proof. unfold posix_flag. by case_match. Qed.

Lemma prologue_spec s :
  moded s → (0 < ya_optind s)%Z →
  wp (prologue posix_env optstring)
    (λ _ s', ∃ x, s' = set_optopt x (set_mode posix_flag nonopt_flag s)) s.
Proof.
  intros Hm Hi. pose proof posix_flag_set as Hne. unfold prologue, check_gnu_extension.
  fold posix_flag nonopt_flag.
  wp_steps. destruct (ya_optopt s =? question)%Z; cbn [posixly_correct set_optopt].
  all: destruct (Z.eqb_spec (posixly_correct s) (-1)); wp_steps.
  all: cbn [ya_optind set_optopt set_mode]; rewrite (proj2 (Z.eqb_neq _ _)) by lia.
  1,3: eexists; by destruct s.
  all: destruct Hm as [?|[Hp Hh]]; [done|]; rewrite <-Hp, <-Hh.
  - exists 0%Z. by destruct s.
  - exists (ya_optopt s). by destruct s.
Qed.

(** Where the chosen word and the one after it stand. *)
Lemma chosen_words s done ops w R :
  chosen s done ops w R →
  (0 < ya_optind s)%Z ∧ argc = (ya_optind s + 1 + Z.of_nat (length R))%Z ∧
  argv s !! Z.to_nat (ya_optind s) = Some w ∧
  argv s !! Z.to_nat (ya_optind s + 1) = head R.
Proof.
  intros []. assert (0 < length done) by (destruct done; [done|cbn; lia]).
  rewrite ch_argc0, ch_argv0, ch_ind0, !length_app. cbn [length].
  rewrite (app_assoc done), !lookup_app_r by (rewrite length_app; lia). rewrite length_app.
  replace (Z.to_nat _ - _) with 0 by lia. replace (Z.to_nat _ - _) with 1 by lia.
  split_and!; [lia|lia|done|]. by destruct R.
Qed.

Lemma pick_spec s done ops R X R' :
  front s done ops R → R = X ++ R' →
  Forall (λ w, operand w) X → option_first R' → ops ++ R ≠ [] →
  (ops ++ X ≠ [] → posixly_correct s = 0%Z ∧ handle_nonopt_argv s = 0%Z) →
  wp (pick_word argc)
    (λ r s', match R' with
             | [] => r = inl (-1)%Z ∧ argv s' = argv s ∧ ya_optind s' = ya_optind s
             | w :: R'' => r = inr w ∧ chosen s' done (ops ++ X) w R'' ∧ ya_optnext s' = None ∧
                 ya_optarg s' = ya_optarg s
             end) s.
Proof.
  intros [] -> HX HR Hne Hmode. pose proof (Forall_app_2 _ _ _ fr_ops0 HX) as Hall.
  rewrite (app_assoc ops X R') in fr_argv0, Hne.
  destruct (ops ++ X) as [|a l] eqn:Hl; unfold pick_word; wp_steps.
  - destruct R' as [|w R'']; [done|]. cbn in *.
    apply (wp_argv_get _ _ w).
    + rewrite fr_argc0, fr_argv0, length_app. cbn. lia.
    + by rewrite fr_ind0, Nat2Z.id, fr_argv0, lookup_app_r, Nat.sub_diag by lia.
    + rewrite HR. wp_steps. split_and!; try done. split; try done; [by left|].
      rewrite fr_ind0. cbn. lia.
  - destruct (Hmode ltac:(done)) as [Hposix Hh]. apply Forall_cons in Hall as [Ha Hall].
    assert (argc = Z.of_nat (length done + S (length l) + length R')) as Hargc.
    { rewrite fr_argc0, fr_argv0, !length_app. cbn. lia. }
    apply (wp_argv_get _ _ a).
    { lia. }
    { by rewrite fr_ind0, Nat2Z.id, fr_argv0, lookup_app_r, Nat.sub_diag by lia. }
    rewrite Ha, Hh, Hposix. cbn [Z.eqb negb]. wp_steps.
    eapply wp_mono; [apply (scan_spec argc (done ++ [a]) l R')|]; try done.
    { cbn. rewrite fr_argv0, <-app_assoc. done. }
    { rewrite length_app, fr_ind0. cbn. lia. }
    intros i s1 [-> ->]. rewrite length_app. cbn [length].
    destruct R' as [|w R'']; cbn [length] in *.
    + rewrite (proj2 (Z.eqb_eq _ _)) by lia. wp_steps. done.
    + rewrite (proj2 (Z.eqb_neq _ _)) by lia. wp_steps. apply (wp_argv_get _ _ w).
      * lia.
      * cbn [argv set_end set_start set_optind]. rewrite Nat2Z.id, fr_argv0.
        rewrite lookup_app_r, lookup_app_r by (cbn; lia). cbn [length].
        by replace (_ - _ - _) with 0 by lia.
      * wp_steps. split_and!; try done. split; cbn; try done.
        -- by constructor.
        -- right. split_and!; [done|done|lia].
        -- lia.
Qed.

(** An operand that ends the options, or is delivered. *)
Lemma pick_operand s done w R :
  front s done [] (w :: R) → operand w → posixly_correct s ≠ 0%Z ∨ handle_nonopt_argv s ≠ 0%Z →
  wp (pick_word argc)
    (λ r s', if (handle_nonopt_argv s =? 0)%Z
       then r = inl (-1)%Z ∧ argv s' = argv s ∧ ya_optind s' = ya_optind s
       else r = inl 1%Z ∧ ya_optarg s' = Some w ∧ front s' (done ++ [w]) [] R) s.
Proof.
  intros [] Hw Hmode. unfold pick_word, incr_optind. wp_steps. cbn [app] in *.
  apply (wp_argv_get _ _ w).
  - rewrite fr_argc0, fr_argv0, length_app. cbn. lia.
  - by rewrite fr_ind0, Nat2Z.id, fr_argv0, lookup_app_r, Nat.sub_diag by lia.
  - rewrite Hw. destruct (Z.eqb_spec (handle_nonopt_argv s) 0); cbn [negb]; wp_steps.
    + rewrite (proj2 (Z.eqb_neq _ _)) by tauto. by wp_steps.
    + split_and!; try done. split; try done.
      * by destruct done.
      * cbn. by rewrite fr_argv0, <-app_assoc.
      * cbn. rewrite fr_ind0, length_app. cbn. lia.
Qed.

(** What [ya_getopt_longopts] and [ya_getopt_shortopts] leave alone. *)
Record quiet s s' : Prop := {
  q_mode : handle_nonopt_argv s' = handle_nonopt_argv s ∧ posixly_correct s' = posixly_correct s;
  q_start : start s' = start s;
  q_end : end_ s' = end_ s;
  q_argv : argv s' = argv s }.

Lemma quiet_moded s s' : quiet s s' → moded s → moded s'.
Proof. intros [[Hh Hp] _ _ _]. unfold moded. by rewrite Hh, Hp. Qed.

Lemma quiet_chosen s s' done ops w R :
  quiet s s' → ya_optind s' = ya_optind s → chosen s done ops w R → chosen s' done ops w R.
Proof.
  intros Hq Hi []. pose proof (quiet_moded _ _ Hq ch_mode0). destruct Hq. split; try congruence.
Qed.

Lemma quiet_ready s s' done ops w R cur R' :
  chosen s done ops w R → w :: R = cur ++ R' → quiet s s' → ya_optnext s' = None →
  ya_optind s' = (ya_optind s + Z.of_nat (length cur))%Z → ready s' (done ++ cur) ops R'.
Proof.
  intros Hc Hcur Hq Hn Hi. pose proof (quiet_moded _ _ Hq (ch_mode _ _ _ _ _ Hc)). destruct Hq.
  by eapply taken_ready.
Qed.

Lemma wp_prog_chosen s s' done ops w R Q :
  chosen s done ops w R → argv s' = argv s → (∀ a, Q a s') → wp (argv_get argc 0) Q s'.
Proof.
  intros Hc Ha HQ. pose proof (chosen_words _ _ _ _ _ Hc) as (Hi & Hl & _ & _).
  apply wp_prog; [lia| |done]. rewrite Ha. apply Hc.
Qed.

Lemma wp_chosen s s' done ops w R Q :
  chosen s done ops w R → argv s' = argv s → Q w s' → wp (argv_get argc (ya_optind s)) Q s'.
Proof.
  intros Hc Ha HQ. pose proof (chosen_words _ _ _ _ _ Hc) as (Hi & Hl & Hw & _).
  apply (wp_argv_get _ _ w); [lia|by rewrite Ha|done].
Qed.

Lemma wp_after_chosen s s' done ops w v R Q :
  chosen s done ops w (v :: R) → argv s' = argv s → Q v s' →
  wp (argv_get argc (ya_optind s + 1)) Q s'.
Proof.
  intros Hc Ha HQ. pose proof (chosen_words _ _ _ _ _ Hc) as (Hi & Hl & _ & Hw). cbn in *.
  apply (wp_argv_get _ _ v); [lia|by rewrite Ha|done].
Qed.

Lemma found_spec idx o v s :
  wp (found has_longindex idx o v)
    (λ rv s', rv = long_value o ∧ ya_optarg s' = v ∧ quiet s s' ∧
       ya_optnext s' = ya_optnext s ∧ ya_optind s' = (ya_optind s + 1)%Z) s.
Proof.
  unfold found, incr_optind, long_value. wp_steps. destruct has_longindex; wp_steps; by destruct s.
Qed.

(** The search for a name: one that fits, or none, and then [long_only_flag] is
    set or the word is an error. *)
Definition searched os arg lo (has_flag : bool) s w R (rf : Z * bool) s' : Prop :=
  let moved r takes :=
    (rf.1, ya_optarg s') = seen (ya_optarg s) r ∧ quiet s s' ∧ ya_optnext s' = ya_optnext s ∧
    ya_optind s' = (ya_optind s + Z.of_nat (length (taken w takes R)))%Z in
  match long os arg lo (head R) with
  | Some (r, takes) => rf.2 = false ∧ moved r takes
  | None => if has_flag then rf = (question, true) ∧ s' = s else moved (question, Kept) false
  end.

Lemma longopts_spec os arg lo idx has_flag s done ops w R :
  chosen s done ops w R →
  wp (ya_getopt_longopts argc has_longindex arg os idx lo has_flag)
    (searched os arg lo has_flag s w R) s.
Proof.
  intros Hc. pose proof (chosen_words _ _ _ _ _ Hc) as (Hi & Hl & _ & _).
  assert (∀ idx o v s0, quiet s s0 → ya_optnext s0 = ya_optnext s →
    wp (found has_longindex idx o v) (λ rv s', (rv, ya_optarg s') = (long_value o, v) ∧
      quiet s s' ∧ ya_optnext s' = ya_optnext s ∧ ya_optind s' = (ya_optind s0 + 1)%Z) s0) as Hfound.
  { intros ? o v s0 Hq Hn. eapply wp_mono; [apply found_spec|]. intros rv s' (-> & Ha & Hq' & Hn' & Hi').
    split_and!; [by rewrite Ha| |congruence|done]. destruct Hq as [[]], Hq' as [[]]. split; [split|..]; congruence. }
  unfold searched.
  revert idx. induction lo as [|o lo IH]; intros idx; cbn [ya_getopt_longopts long].
  { destruct has_flag; wp_steps; [done|]. eapply wp_prog_chosen; [done|done|intros ?]. wp_steps.
    eapply wp_chosen; [done|done|]. wp_steps. apply wp_error. intros er. unfold incr_optind. wp_steps.
    by split_and!. }
  case_bool_decide; [|apply IH]. destruct (drop (length (name o)) arg) as [|b v].
  - destruct (Z.eqb_spec (has_arg o) ya_required_argument); unfold incr_optind; wp_steps.
    + destruct R as [|v R]; cbn [ya_optind set_optind head] in *; cbn [length] in *.
      * rewrite (proj2 (Z.eqb_eq _ _)) by lia. wp_steps.
        eapply wp_prog_chosen; [done|done|intros ?]. wp_steps. apply wp_error. intros er. wp_steps.
        by split_and!.
      * rewrite (proj2 (Z.eqb_neq _ _)) by lia. wp_steps. eapply wp_after_chosen; [done|done|]. wp_steps.
        eapply wp_mono; [apply Hfound; [by split|done]|]. intros rv s' (Hr & Hq & Hn & Hi'). wp_steps.
        split_and!; try done. rewrite Hi'. cbn. lia.
    + eapply wp_mono; [apply Hfound; [by split|done]|]. intros rv s' (Hr & Hq & Hn & Hi'). by wp_steps.
  - case_bool_decide; [|apply IH]. destruct (Z.eqb_spec (has_arg o) ya_no_argument); wp_steps.
    + eapply wp_chosen; [done|done|]. unfold incr_optind. wp_steps.
      eapply wp_prog_chosen; [done|done|intros ?]. wp_steps. apply wp_error. intros er. wp_steps.
      by split_and!.
    + eapply wp_mono; [apply Hfound; [by split|done]|]. intros rv s' (Hr & Hq & Hn & Hi'). by wp_steps.
Qed.

(** ** The letters of a word *)

Section run.
Abbreviation os := (skip_mode optstring) (only parsing).
Abbreviation md := (mode_of optstring posix_env) (only parsing).
Abbreviation vr := (call_variant c) (only parsing).
Abbreviation lo := (call_longopts c) (only parsing).
(** No option is confused with the end. *)
Hypothesis chars_not_end : ∀ b, b ∈ os → char_int b ≠ (-1)%Z.
Hypothesis vals_not_end : ∀ o, o ∈ lo → long_value o ≠ (-1)%Z.

(** After the letters [rest] of [w] remain. *)
Definition inside s done ops w (rest : bytes) R : Prop :=
  match rest with
  | [] => ready s (done ++ [w]) ops R
  | _ => chosen s done ops w R ∧ ya_optnext s = Some rest
  end.

(** One letter that is not read as a name. *)
Lemma letter_spec s done ops w b rest R :
  chosen s done ops w R → ya_optnext s = Some (b :: rest) →
  name_in_word vr os lo (b :: rest) (head R) = None →
  wp (ya_getopt_shortopts argc os (one_hyphen vr))
    (λ rv s', rv ≠ (-1)%Z ∧
       match short_kind os b with
       | None => (rv, ya_optarg s') = (question, None) ∧
           inside s' done ops w (if one_hyphen vr then [] else rest) R
       | Some NoArg =>
           (rv, ya_optarg s') = (char_int b, None) ∧ inside s' done ops w rest R
       | Some _ =>
           let '(rs, takes) := cluster vr os lo (b :: rest) (head R) in
           [gives rv (ya_optarg s')] = rs ∧
           ready s' (done ++ taken w takes R) ops (if takes then tail R else R)
       end) s.
Proof.
  intros Hc Hn Hname. pose proof (chosen_words _ _ _ _ _ Hc) as (Hi & Hl & _ & _).
  pose proof (short_kind_elem os b) as Helem.
  assert (∀ s' takes, (takes = true → R ≠ []) → quiet s s' → ya_optnext s' = None →
    ya_optind s' = (ya_optind s + if takes then 2 else 1)%Z →
    ready s' (done ++ taken w takes R) ops (if takes then tail R else R)) as Hready.
  { intros s' takes Ht Hq Hn' Hi'. eapply quiet_ready; try done.
    - destruct takes; [|done]. destruct R; [by destruct (Ht eq_refl)|done].
    - rewrite Hi'. destruct takes; [|done]. destruct R; [by destruct (Ht eq_refl)|done]. }
  unfold ya_getopt_shortopts, incr_optind. wp_steps. rewrite Hn. cbn [cluster].
  rewrite Hname. unfold short_kind in *. destruct (strchr_next os b) as [x|].
  2: { wp_steps. destruct (one_hyphen vr); wp_steps.
       { eapply wp_prog_chosen; [done|done|intros ?]. wp_steps. apply wp_error. intros er. wp_steps.
         split; [done|split; [done|]]. by apply (Hready _ false). }
       eapply wp_prog_chosen; [done|done|intros ?]. wp_steps. apply wp_error. intros er. wp_steps.
       case_bool_decide; wp_steps; (split; [done|split; [done|]]).
       - subst. by apply (Hready _ false).
       - destruct rest; [done|]. split; [|done]. eapply (quiet_chosen s); [by split|done|done]. }
  pose proof (λ k H, chars_not_end b (Helem k H)) as Hend. clear Helem.
  destruct (bool_decide (at_ x 0 = ":"%char)).
  2: { specialize (Hend _ eq_refl). wp_steps. case_bool_decide; wp_steps; (split; [done|split; [done|]]).
       - subst. by apply (Hready _ false).
       - destruct rest; [done|]. split; [|done]. eapply (quiet_chosen s); [by split|done|done]. }
  specialize (Hend _ eq_refl). case_bool_decide as Hrest; wp_steps; destruct (bool_decide (at_ x 1 = ":"%char)).
  - subst. wp_steps. split; [done|]. split; [done|]. by apply (Hready _ false).
  - subst. wp_steps. destruct R as [|v R]; cbn [ya_optind set_optind set_optnext length head] in *.
    + rewrite (proj2 (Z.eqb_eq _ _)) by lia. wp_steps.
      eapply wp_prog_chosen; [done|done|intros ?]. wp_steps. apply wp_error. intros er. wp_steps.
      split; [apply missing_not_end|]. split; [done|]. by apply (Hready _ false).
    + rewrite (proj2 (Z.eqb_neq _ _)) by lia. wp_steps.
      eapply wp_after_chosen; [done|done|]. wp_steps. split; [done|]. split; [done|].
      apply (Hready _ true); [done|by split|done|]. cbn. lia.
  - destruct rest; [done|]. split; [done|]. split; [done|]. by apply (Hready _ false).
  - destruct rest; [done|]. split; [done|]. split; [done|]. by apply (Hready _ false).
Qed.
(** ** A run *)

Abbreviation getopt := (make_call c) (only parsing).
Abbreviation loop := (drain c) (only parsing).
Abbreviation letters := (short_word argc has_longindex os (call_table c) (one_hyphen vr)) (only parsing).

Lemma long_not_end arg next r : long os arg lo next = Some r → r.1.1 ≠ (-1)%Z.
Proof.
  pose proof (missing_not_end os) as Hm. induction lo as [|o l IH]; cbn [long]; [done|].
  assert (∀ o, o ∈ l → long_value o ≠ (-1)%Z) as Hl by (intros; apply vals_not_end; by right).
  assert (long_value o ≠ (-1)%Z) as Ho by (apply vals_not_end; by left).
  specialize (IH Hl). intros H. repeat case_match; by simplify_eq; auto.
Qed.

(** The words that were taken are behind the caller. *)
Lemma taken_words s s' done ops w R takes :
  chosen s done ops w R → (takes = true → R ≠ []) → quiet s s' → ya_optnext s' = None →
  ya_optind s' = (ya_optind s + Z.of_nat (length (taken w takes R)))%Z →
  ready s' (done ++ taken w takes R) ops (if takes then tail R else R).
Proof.
  intros Hc Ht Hq Hn Hi. eapply quiet_ready; try done.
  destruct takes; [|done]. destruct R; [by destruct (Ht eq_refl)|done].
Qed.

(** The rest of a loop after a call. *)
Lemma wp_drain n s (Q : list (Z * option bytes) → t → Prop) :
  wp getopt (λ rv s', if (rv =? -1)%Z then Q [] s'
    else wp (loop n) (λ rs s'', Q ((rv, ya_optarg s') :: rs) s'') s') s →
  wp (loop (S n)) Q s.
Proof.
  intros H. cbn [drain]. wp_steps. eapply wp_mono; [exact H|]. intros rv s' Hs'. cbn in *.
  destruct (rv =? -1)%Z; wp_steps; [done|]. eapply wp_mono; [exact Hs'|]. intros. by wp_steps.
Qed.

(** A call inside a word reads on in it. *)
Lemma call_inside s done ops w R cs Q :
  chosen s done ops w R → ya_optnext s = Some cs →
  (∀ s1, chosen s1 done ops w R → ya_optnext s1 = Some cs → ya_optarg s1 = ya_optarg s →
     wp letters Q s1) →
  wp getopt Q s.
Proof.
  intros Hc Hn HQ. rewrite make_call_internal. unfold ya_getopt_internal. wp_steps.
  pose proof (chosen_words _ _ _ _ _ Hc) as (Hi & Hl & _ & _).
  eapply wp_mono; [by apply prologue_spec; [apply Hc|..]|]. intros _ s1 [x ->]. wp_steps.
  set (s1 := set_optopt _ _).
  assert (chosen s1 done ops w R) as Hc1 by (destruct Hc; split; try done; by right).
  eapply wp_mono; [by eapply finish_block_inside|]. intros _ s2 ->.
  unfold parse_word. wp_steps. cbn [ya_optind s1 set_optopt set_mode ya_optnext].
  rewrite (proj2 (Z.leb_gt argc (ya_optind s))) by lia. rewrite Hn. by apply HQ.
Qed.

(** A name in the rest of a word, or its next letter. *)
Lemma letters_spec s done ops w R cs Q :
  chosen s done ops w R → ya_optnext s = Some cs →
  match name_in_word vr os lo cs (head R) with
  | Some (r, takes) => ∀ rv s', rv ≠ (-1)%Z → (rv, ya_optarg s') = seen (ya_optarg s) r →
      ready s' (done ++ taken w takes R) ops (if takes then tail R else R) → Q rv s'
  | None => wp (ya_getopt_shortopts argc os (one_hyphen vr)) Q s
  end → wp letters Q s.
Proof.
  intros Hc Hn. unfold short_word, name_in_word.
  assert (one_hyphen vr = true → call_table c = Some lo) as Htable by by destruct c.
  destruct (one_hyphen vr); intros HQ; wp_steps; rewrite Hn; wp_steps; [|done].
  rewrite Htable, Hn by done. wp_steps.
  eapply wp_mono; [by apply (longopts_spec os cs lo 0 true s done ops w R)|].
  unfold searched. intros [rv f] s' Hs. cbn [fst snd] in Hs.
  pose proof (long_not_end cs (head R)) as Hend.
  destruct (long os cs lo (head R)) as [[r takes]|] eqn:Hlong.
  - destruct Hs as (-> & Hr & Hq & Hn' & Hi). cbn [negb]. wp_steps. apply HQ.
    + injection Hr as -> _. exact (Hend _ eq_refl).
    + done.
    + eapply taken_words; try done.
      * intros -> ->. by apply long_alone in Hlong.
      * by destruct Hq.
  - destruct Hs as [[= -> ->] ->]. wp_steps. exact HQ.
Qed.

(** At the start of a word. *)
Lemma letters_start s done ops w R Q :
  chosen s done ops w R → ya_optnext s = None →
  wp letters Q (set_optnext (Some (drop 1 w)) s) → wp letters Q s.
Proof.
  intros Hc Hn HQ. unfold short_word in *. wp_steps. rewrite Hn. wp_steps.
  eapply wp_chosen; [done|done|]. exact HQ.
Qed.

(** ** The loop over one word

    [L] is what the loop delivers behind the word [w], and [fin] how it ends. *)

Section word.
Variables done ops : list bytes.
Variable w : bytes.
Variable R : list bytes.
Variable L : list reading.
Variable fin : t → Prop.

Definition continues (takes : bool) : Prop :=
  ∀ m s', length L < m → ready s' (done ++ taken w takes R) ops (if takes then tail R else R) →
  wp (loop m) (λ l s'', l = deliver (ya_optarg s') L ∧ fin s'') s'.

(** A call that returned [rv] in [s'] delivered the first of [rs], and the loop
    delivers the others; [prev] is the argument before the call. *)
Definition delivers (prev : option bytes) (n : nat) (rs : list reading) (rv : Z) s' : Prop :=
  rv ≠ (-1)%Z ∧
  wp (loop n) (λ l s'', (rv, ya_optarg s') :: l = deliver prev (rs ++ L) ∧ fin s'') s'.

(** The last result of the word. *)
Lemma delivers_last takes r prev n rv s' :
  continues takes → length (r :: L) ≤ n → rv ≠ (-1)%Z → (rv, ya_optarg s') = seen prev r →
  ready s' (done ++ taken w takes R) ops (if takes then tail R else R) → delivers prev n [r] rv s'.
Proof.
  intros HL Hlen Hne Hr Hrd. split; [done|].
  eapply wp_mono; [apply HL; [cbn in *; lia|exact Hrd]|]. intros l s'' [-> ?]. cbn [app deliver].
  by rewrite <-Hr.
Qed.

(** A result with the letters [rest] behind it. *)
Lemma delivers_next rest rs takes r prev n rv s' :
  cluster vr os lo rest (head R) = (rs, takes) →
  (∀ s n, chosen s done ops w R → ya_optnext s = Some rest → rest ≠ [] → length (rs ++ L) ≤ n →
     wp letters (delivers (ya_optarg s) n rs) s) →
  continues takes → length (r :: rs ++ L) ≤ n → rv ≠ (-1)%Z → (rv, ya_optarg s') = seen prev r →
  inside s' done ops w rest R → delivers prev n (r :: rs) rv s'.
Proof.
  intros Hcl IH HL Hlen Hne Hr Hin. split; [done|]. cbn [length app deliver] in *. rewrite <-Hr.
  cbn [snd].
  enough (wp (loop n) (λ l s'', l = deliver (ya_optarg s') (rs ++ L) ∧ fin s'') s') as Hd.
  { eapply wp_mono; [exact Hd|]. by intros l s'' [-> ?]. }
  destruct rest as [|b rest].
  - cbn in Hcl. injection Hcl as <- <-. apply HL; [cbn in *; lia|exact Hin].
  - destruct Hin as [Hc Hn]. destruct n as [|n]; [lia|]. apply wp_drain.
    eapply call_inside; [done|done|]. intros s1 Hc1 Hn1 Ha1.
    eapply wp_mono; [apply (IH s1 n); try done; lia|]. intros rv1 s2 [Hne1 H].
    rewrite Ha1 in H. by rewrite (proj2 (Z.eqb_neq _ _) Hne1).
Qed.

(** The letters of the word. *)
Lemma cluster_drain cs :
  let '(rs, takes) := cluster vr os lo cs (head R) in
  continues takes →
  ∀ s n, chosen s done ops w R → ya_optnext s = Some cs → cs ≠ [] → length (rs ++ L) ≤ n →
  wp letters (delivers (ya_optarg s) n rs) s.
Proof.
  induction cs as [|b rest IH].
  { intros _ s n _ _ H. done. }
  destruct (name_in_word vr os lo (b :: rest) (head R)) as [[r takes]|] eqn:Hname.
  { cbn [cluster]. rewrite Hname. intros HL s n Hc Hn _ Hlen. eapply letters_spec; [done|done|].
    rewrite Hname. intros rv s' Hne Hr Hrd. by eapply delivers_last. }
  assert (∀ s n rs, chosen s done ops w R → ya_optnext s = Some (b :: rest) →
    wp (ya_getopt_shortopts argc os (one_hyphen vr)) (delivers (ya_optarg s) n rs) s →
    wp letters (delivers (ya_optarg s) n rs) s) as Hshort.
  { intros s n rs Hc Hn HQ. eapply letters_spec; [done|done|]. by rewrite Hname. }
  pose proof (λ s Hc Hn, letter_spec s done ops w b rest R Hc Hn Hname) as Hletter.
  destruct (cluster vr os lo rest (head R)) as [rs0 takes0] eqn:Hcl.
  destruct (cluster vr os lo (b :: rest) (head R)) as [rs takes] eqn:Hall.
  intros HL s n Hc Hn _ Hlen. apply Hshort; [done|done|].
  eapply wp_mono; [by apply Hletter|]. intros rv s' [Hne H].
  cbn [cluster] in Hall. rewrite Hname, Hcl in Hall. clear Hname.
  destruct (short_kind os b) as [[| |]|].
  - injection Hall as <- <-. destruct H as [Hr Hin]. by eapply delivers_next; eauto.
  - destruct H as [<- Hin]. by eapply delivers_last.
  - destruct H as [<- Hin]. by eapply delivers_last.
  - destruct H as [Hr Hin].
    destruct (Bool.bool_dec (one_hyphen vr) true) as [Hv|Hv%not_true_is_false];
      rewrite Hv in Hin, Hall; injection Hall as <- <-.
    + by eapply (delivers_last false).
    + by eapply delivers_next; eauto.
Qed.

(** What [next_word] does with the word that it has chosen. *)
Abbreviation read_word w :=
  (match call_table c with
   | Some table =>
       if bool_decide (at_ w 1 = "-"%char) then
         s ← get;
         a ← argv_get argc (ya_optind s);
         '(rv, _) ← ya_getopt_longopts argc has_longindex (drop 2 a) os 0 table false;
         mret rv
       else letters
   | None => letters
   end) (only parsing).

(** A word that is the name of a long option, or of none. *)
Lemma name_drain r takes s n :
  default ((question, Kept), false) (long os (drop 2 w) lo (head R)) = (r, takes) →
  continues takes → (takes = true → R ≠ []) →
  chosen s done ops w R → ya_optnext s = None → length (r :: L) ≤ n →
  wp (s ← get;
      a ← argv_get argc (ya_optind s);
      '(rv, _) ← ya_getopt_longopts argc has_longindex (drop 2 a) os 0 lo false;
      mret rv) (delivers (ya_optarg s) n [r]) s.
Proof.
  intros Hdef HL Ht Hc Hn Hlen. pose proof (long_not_end (drop 2 w) (head R)) as Hend.
  wp_steps. eapply wp_chosen; [done|done|]. wp_steps.
  eapply wp_mono; [by apply (longopts_spec os (drop 2 w) lo 0 false s done ops w R)|].
  unfold searched. intros [rv f] s' Hs. wp_steps. cbn [fst snd] in Hs.
  assert (rv ≠ (-1)%Z ∧ (rv, ya_optarg s') = seen (ya_optarg s) r ∧ quiet s s' ∧ ya_optnext s' = ya_optnext s ∧
    ya_optind s' = (ya_optind s + Z.of_nat (length (taken w takes R)))%Z) as (Hne & Hr & Hq & Hn' & Hi).
  { destruct (long _ _ _ _) as [[r' b]|]; cbn in Hdef; injection Hdef as <- <-.
    - destruct Hs as (_ & Hr & Hs). split; [|done].
      injection Hr as -> _. exact (Hend _ eq_refl).
    - destruct Hs as [Hr Hs]. split; [|done]. by injection Hr as -> _. }
  eapply delivers_last; try done. eapply taken_words; try done. by rewrite Hn'.
Qed.

(** The call that reads a chosen word, and the loop after it. *)
Lemma word_drain :
  let '(rs, takes) := word_results vr os lo w (head R) in
  continues takes → (takes = true → R ≠ []) →
  ∀ s n, chosen s done ops w R → ya_optnext s = None → is_option w = true → length (rs ++ L) ≤ n →
  wp (read_word w) (delivers (ya_optarg s) n rs) s.
Proof.
  assert (let '(rs, takes) := cluster vr os lo (drop 1 w) (head R) in
    continues takes → (takes = true → R ≠ []) →
    ∀ s n, chosen s done ops w R → ya_optnext s = None → is_option w = true → length (rs ++ L) ≤ n →
    wp letters (delivers (ya_optarg s) n rs) s) as Hletters.
  { pose proof (cluster_drain (drop 1 w)) as Hcl.
    destruct (cluster _ _ _ _ _) as [rs takes]. intros HL _ s n Hc Hn Hw Hlen.
    eapply letters_start; [done|done|]. apply (Hcl HL (set_optnext (Some (drop 1 w)) s) n); try done.
    - destruct Hc; split; try done.
    - by destruct w as [|? [|]]. }
  assert (call_table c = None ∧ vr = LettersOnly ∨ call_table c = Some lo ∧ vr ≠ LettersOnly)
    as [[Htable Hv]|[Htable Hv]] by (destruct c; auto); rewrite Htable in *.
  { unfold word_results. by rewrite Hv in *. }
  assert (word_results vr os lo w (head R) = if bool_decide (at_ w 1 = "-"%char)
    then let '(r, b) := default ((question, Kept), false) (long os (drop 2 w) lo (head R)) in ([r], b)
    else cluster vr os lo (drop 1 w) (head R)) as -> by (unfold word_results; by destruct vr).
  case_bool_decide; [|exact Hletters].
  destruct (default _ _) as [r takes] eqn:Hdef. intros. by eapply name_drain.
Qed.
End word.

(** A call between words first brings the operands behind the words read. *)
Lemma ready_prologue x s done ops R :
  ready s done ops R → ready (set_optopt x (set_mode posix_flag nonopt_flag s)) done ops R.
Proof.
  intros [[]|(d & cur & -> & [])]; [left|right; exists d, cur; split; [done|]]; split; try done.
  all: by right.
Qed.

Lemma call_ready s done ops R Q :
  ready s done ops R →
  (∀ s2, front s2 done ops R → posixly_correct s2 = posix_flag →
     handle_nonopt_argv s2 = nonopt_flag → ya_optarg s2 = ya_optarg s →
     wp (parse_word argc has_longindex os (call_table c) (one_hyphen vr)) Q s2) →
  wp getopt Q s.
Proof.
  intros Hr HQ. rewrite make_call_internal. unfold ya_getopt_internal. wp_steps.
  assert (moded s ∧ (0 < ya_optind s)%Z) as [Hg Hi].
  { destruct Hr as [[]|(d & cur & -> & [])]; split; try done.
    - rewrite fr_ind0. destruct done; [done|cbn; lia].
    - rewrite be_ind0. destruct d; [done|cbn; lia]. }
  eapply wp_mono; [by apply prologue_spec|]. intros _ s1 [x ->]. wp_steps.
  eapply wp_mono; [by apply finish_block_spec, ready_prologue|]. intros _ s2 (Hf & Hp & Hh & Ha).
  by apply HQ.
Qed.

(** How the run ends. *)
Definition finished (p : parsed) done ops s : Prop :=
  match rest p with
  | None => argv s = done ++ words p ++ ops ++ operands p ∧
      ya_optind s = Z.of_nat (length done + length (words p))
  | Some r => argv s = done ++ words p ++ ops ++ operands p ++ lit "--" :: r ∧
      ya_optind s =
        Z.of_nat (length done + length (words p) + length ops + length (operands p) + 1)
  end.

Lemma finished_operands p X done ops s :
  finished p done (ops ++ X) s →
  finished (Parsed (results p) (words p) (X ++ operands p) (rest p)) done ops s.
Proof.
  unfold finished. cbn. rewrite !length_app. destruct (rest p); rewrite <-!app_assoc; intros [-> ->];
    (split; [done|lia]).
Qed.

Lemma finished_option p rs cur done ops s :
  finished p (done ++ cur) ops s → finished (add_option rs cur p) done ops s.
Proof.
  unfold finished. cbn. rewrite !length_app. destruct (rest p); rewrite <-!app_assoc; intros [-> ->];
    (split; [done|lia]).
Qed.

(** What [next_word] does with the word [w] that it has chosen. *)
Abbreviation read_word w :=
  (match call_table c with
   | Some table =>
       if bool_decide (at_ w 1 = "-"%char) then
         s ← get;
         a ← argv_get argc (ya_optind s);
         '(rv, _) ← ya_getopt_longopts argc has_longindex (drop 2 a) os 0 table false;
         mret rv
       else letters
   | None => letters
   end) (only parsing).

(** The flags of each mode. *)
Lemma mode_flags :
  match md with
  | Permute => posix_flag = 0%Z ∧ nonopt_flag = 0%Z
  | Posix => posix_flag = 1%Z ∧ nonopt_flag = 0%Z
  | InOrder => nonopt_flag = 1%Z
  end.
Proof.
  unfold mode_of, posix_flag, nonopt_flag. case_bool_decide; [done|].
  by destruct (bool_decide _ || posix_env).
Qed.

(** The words up to the next option, or an operand that is not moved. *)
Lemma split_mode R :
  (md ≠ Permute ∧ ∃ w R', R = w :: R' ∧ operand w) ∨
  ∃ X R', R = X ++ R' ∧ Forall (λ w, operand w) X ∧ option_first R' ∧ (X ≠ [] → md = Permute) ∧
    parse md vr os lo R = Parsed (results (parse md vr os lo R')) (words (parse md vr os lo R'))
      (X ++ operands (parse md vr os lo R')) (rest (parse md vr os lo R')).
Proof.
  assert (md = Permute ∨ md ≠ Permute) as [Hmd|Hmd] by (destruct md; auto).
  - right. destruct (split_words R) as (X & R' & -> & HX & HR). exists X, R'.
    split_and!; try done. by apply parse_operands.
  - destruct R as [|w R]; [|destruct (is_option w) eqn:Hw].
    + right. by exists [], [].
    + right. exists [], (w :: R). split_and!; try done. by destruct (parse md vr os lo (w :: R)).
    + left. eauto.
Qed.

Lemma operand_drain s done w R n :
  md ≠ Permute → front s done [] (w :: R) → operand w →
  posixly_correct s = posix_flag → handle_nonopt_argv s = nonopt_flag →
  (∀ s', length (results (parse md vr os lo R)) < n → front s' (done ++ [w]) [] R →
     wp (loop n) (λ l s'', l = deliver (ya_optarg s') (results (parse md vr os lo R)) ∧
       finished (parse md vr os lo R) (done ++ [w]) [] s'') s') →
  length (results (parse md vr os lo (w :: R))) < S n →
  wp (parse_word argc has_longindex os (call_table c) (one_hyphen vr))
    (λ rv s', let Q l s'' := l = deliver (ya_optarg s) (results (parse md vr os lo (w :: R))) ∧
         finished (parse md vr os lo (w :: R)) done [] s'' in
       if (rv =? -1)%Z then Q [] s'
       else wp (loop n) (λ rs s'', Q ((rv, ya_optarg s') :: rs) s'') s') s.
Proof.
  intros Hmd Hf Hw Hp Hh IH. pose proof Hf as []. pose proof mode_flags as Hflags.
  cbn [parse]. rewrite Hw. cbn [negb]. intros Hlen. unfold parse_word. wp_steps.
  rewrite (proj2 (Z.leb_gt argc (ya_optind s))).
  2: { rewrite fr_argc0, fr_argv0, fr_ind0, !length_app. cbn. lia. }
  rewrite fr_next0. unfold next_word. wp_steps. eapply wp_mono.
  { apply (pick_operand s done w R Hf Hw). destruct md; [done|left|right]; lia. }
  intros r s' Hr. cbn in Hr. destruct md; [done| |].
  - destruct Hflags as [_ Hn]. rewrite Hh, Hn in Hr. destruct Hr as (-> & Ha & Hi). wp_steps. split; [done|].
    unfold finished. cbn. rewrite Ha, Hi, fr_argv0, fr_ind0. split; [done|lia].
  - rewrite Hh, Hflags in Hr. destruct Hr as (-> & Ha & Hf'). wp_steps. cbn in Hlen.
    eapply wp_mono; [apply IH; [lia|done]|]. intros l s'' [-> Hfin]. split; [by rewrite Ha|].
    by apply finished_option.
Qed.

(** The call that reads the next option, and the loop after it. *)
Lemma option_drain s done ops w R n X :
  chosen s done (ops ++ X) w R → ya_optnext s = None → is_option w = true → w ≠ lit "--" →
  let p := parse md vr os lo (w :: R) in
  let fin := finished (Parsed (results p) (words p) (X ++ operands p) (rest p)) done ops in
  (∀ R', length R' ≤ length R → ∀ s' done' m, ready s' done' (ops ++ X) R' →
     length (results (parse md vr os lo R')) < m →
     wp (loop m) (λ l s'', l = deliver (ya_optarg s') (results (parse md vr os lo R')) ∧
       finished (parse md vr os lo R') done' (ops ++ X) s'') s') →
  length (results p) ≤ n →
  wp (read_word w)
    (λ rv s', if (rv =? -1)%Z then [] = deliver (ya_optarg s) (results p) ∧ fin s'
       else wp (loop n) (λ rs s'', (rv, ya_optarg s') :: rs = deliver (ya_optarg s) (results p) ∧
         fin s'') s') s.
Proof.
  intros Hc Hn Hw Hdash p fin IH. pose proof (parse_option md vr os lo w R Hw Hdash) as Hopt. subst p fin.
  destruct (word_results vr os lo w (head R)) as [rs takes] eqn:Hres. destruct Hopt as [Ht ->].
  set (R' := if takes then tail R else R) in *. cbn [results add_option]. intros Hlen.
  set (fin := finished _ done ops).
  pose proof (word_drain done (ops ++ X) w R (results (parse md vr os lo R')) fin) as Hd.
  rewrite Hres in Hd. eapply wp_mono; [refine (Hd _ Ht s n Hc Hn Hw Hlen)|].
  - intros m s4 Hm Hr4. eapply wp_mono; [apply (IH R'); [|exact Hr4|done]|].
    + unfold R'. destruct takes, R; cbn; lia.
    + intros l s5 [-> Hfin]. split; [done|]. unfold fin.
      apply finished_operands. by apply finished_option.
  - intros rv s4 [Hne H4]. rewrite (proj2 (Z.eqb_neq _ _) Hne). exact H4.
Qed.

(** The whole loop. *)
Lemma run_ready R :
  ∀ s done ops n, md = Permute ∨ ops = [] → ready s done ops R →
  length (results (parse md vr os lo R)) < n →
  wp (loop n) (λ l s', l = deliver (ya_optarg s) (results (parse md vr os lo R)) ∧
    finished (parse md vr os lo R) done ops s') s.
Proof.
  induction R as [R IH] using (induction_ltof1 _ (@length bytes)). unfold ltof in IH.
  intros s done ops n Hmode Hr Hlen. destruct n as [|n]; [lia|]. apply wp_drain.
  eapply call_ready; [done|]. intros s2 Hf Hp Hh Ha2. rewrite <-Ha2.
  destruct (split_mode R) as [(Hmd & w & R' & -> & Hw)|(X & R' & -> & HX & Hfirst & HXmd & Hparse)].
  { destruct Hmode as [?| ->]; [done|]. apply operand_drain; try done.
    intros s' Hl Hf'. apply IH; [cbn; lia|by right|by left|done]. }
  pose proof Hf as []. rewrite Hparse in *. cbn [results] in *.
  assert (∀ s', argv s' = argv s2 → ya_optind s' = ya_optind s2 → R' = [] →
    [] = deliver (ya_optarg s2) (results (parse md vr os lo R')) ∧
    finished (Parsed (results (parse md vr os lo R')) (words (parse md vr os lo R'))
      (X ++ operands (parse md vr os lo R')) (rest (parse md vr os lo R'))) done ops s') as Hend.
  { intros s' Ha Hi ->. split; [done|]. apply finished_operands. unfold finished. cbn.
    rewrite app_nil_r. rewrite Ha, Hi, fr_argv0, app_nil_r. split; [done|lia]. }
  unfold parse_word. wp_steps. destruct (Z.leb_spec argc (ya_optind s2)).
  { wp_steps. apply Hend; [done|done|]. rewrite fr_argc0, fr_argv0, !length_app in H. destruct R'; [done|].
    cbn in H. lia. }
  rewrite fr_next0. unfold next_word. wp_steps.
  eapply wp_mono; [apply (pick_spec s2 done ops (X ++ R') X R'); try done|].
  { intros Hnil. rewrite fr_argc0, fr_argv0, Hnil, app_nil_r in H. lia. }
  { intros Hne. pose proof mode_flags as Hflags. rewrite Hp, Hh.
    assert (md = Permute) as Hmd; [|by rewrite Hmd in Hflags].
    destruct Hmode as [?| ->]; [done|]. by apply HXmd. }
  intros r s3 Hpick. destruct R' as [|w R''].
  { destruct Hpick as (-> & Ha & Hi). wp_steps. by apply Hend. }
  destruct Hpick as (-> & Hc & Hn3 & Ha3). wp_steps. rewrite <-Ha3. case_bool_decide as Hdash.
  { unfold incr_optind. wp_steps. subst w. rewrite parse_dashdash. destruct Hc. unfold finished. cbn.
    rewrite app_nil_r, ch_argv0, ch_ind0, <-app_assoc, length_app. split; [done|]. split; [done|lia]. }
  apply option_drain; try done; [|lia]. intros R3 Hl s' done' m Hr'. apply IH; try done.
  - rewrite length_app. cbn. lia.
  - destruct Hmode as [?| ->]; [by left|]. destruct X; [by right|]. left. by apply HXmd.
Qed.
End run.
End layout.
