(* ===== verification/GetoptRun.v ===== *)
(** * What a caller of ya_getopt can rely on

    Any sequence of calls is safe; the usual loop over one of the three functions comes to
    its end with the options of the reference parser, each with an argument of
    the kind its declaration asks for, and with the operands behind the options,
    unless [--] stopped it. *)

From S2P Require Import Prelude Cpp Getopt GetoptSpec GetoptRef GetoptSim.
Import Getopt.

(** ** Any sequence of calls *)

Section calls.
Variable argc : Z.
Variables posix_env has_longindex : bool.

Fixpoint make_calls (cs : list call) : M t (list Z) :=
  match cs with
  | [] => mret []
  | c :: cs => rv ← make_call argc posix_env has_longindex c; rvs ← make_calls cs; mret (rv :: rvs)
  end.

(** What [c] may return. *)
Definition returned (c : call) (rv : Z) : Prop :=
  returns (skip_mode (call_optstring c)) (call_longopts c) rv.

Lemma make_call_safe c s :
  good argc s →
  wp (make_call argc posix_env has_longindex c) (λ rv s', good argc s' ∧ permuted s s' ∧ returned c rv) s.
Proof.
  intros Hs. rewrite make_call_internal. apply internal_safe; [done|by destruct c|].
  destruct c; cbn [call_table call_longopts]; intros l o [= <-]; done.
Qed.

Lemma make_calls_safe cs s :
  good argc s →
  wp (make_calls cs) (λ rvs s', permuted s s' ∧ Forall2 returned cs rvs) s.
Proof.
  revert s. induction cs as [|c cs IH]; intros s Hs; cbn [make_calls]; wp_steps.
  { split; [by split|constructor]. }
  eapply wp_mono; [by apply make_call_safe|]. intros rv s1 (Hs1 & [Hp1 Hn1] & Hr). wp_steps.
  eapply wp_mono; [by apply IH|]. intros rvs s2 ([Hp2 Hn2] & Hrs). wp_steps.
  split; [split|by constructor].
  - by rewrite Hp2.
  - by rewrite Hn2.
Qed.
End calls.

(** C25: No sequence of calls of ya_getopt, ya_getopt_long and ya_getopt_long_only on one
    argument vector, whatever the option strings, accesses argv out of bounds or dereferences a
    null pointer; each call returns a value its declaration allows, and argv stays a permutation
    with the program's name first. *)
Theorem getopt_calls_safe posix_env has_longindex prog ws cs :
  let l := prog :: ws in
  ∃ rvs s, make_calls (Z.of_nat (length l)) posix_env has_longindex cs (init l) = (Ret rvs, s) ∧
  Forall2 returned cs rvs ∧ argv s ≡ₚ l ∧ head (argv s) = Some prog.
Proof.
  intros l. apply wp_run. eapply wp_mono.
  { apply make_calls_safe, init_good; cbn; lia. }
  intros rvs s [[Hp Hn] Hr]. split; [done|]. split; [done|]. by destruct (argv s).
Qed.

(** ** The loop *)

(** The words as the declaration and the environment ask to read them. *)
Definition call_mode (c : call) (posix_env : bool) : mode := mode_of (call_optstring c) posix_env.
Definition parse_as (c : call) (posix_env : bool) : list bytes → parsed :=
  parse (call_mode c posix_env) (call_variant c) (skip_mode (call_optstring c)) (call_longopts c).

(** A declaration without an option that looks like the end. *)
Record plain (c : call) : Prop := {
  pl_chars : ∀ b, b ∈ skip_mode (call_optstring c) → char_int b ≠ (-1)%Z;
  pl_vals : ∀ o, o ∈ call_longopts c → long_value o ≠ (-1)%Z }.

(** Where a loop over the whole command line leaves [argv] and [ya_optind]. *)
Definition arranged (prog : bytes) (p : parsed) (s : t) : Prop :=
  argv s = prog :: words p ++ operands p ++ tail_words p ∧
  ya_optind s = Z.of_nat (match rest p with
                          | None => 1 + length (words p)
                          | Some _ => 2 + length (words p) + length (operands p)
                          end).

Lemma finished_arranged prog p s : finished p [prog] [] s → arranged prog p s.
Proof.
  unfold finished, arranged, tail_words. destruct (rest p); cbn; intros [-> ->].
  - split; [done|lia].
  - by rewrite app_nil_r.
Qed.

Section loop.
Variables (c : call) (posix_env has_longindex : bool).
Hypothesis declared : plain c.

Lemma loop_spec prog ws fuel :
  chars ws < fuel →
  wp (drain (Z.of_nat (S (length ws))) posix_env has_longindex c fuel)
    (λ l s, l = deliver None (results (parse_as c posix_env ws)) ∧
       arranged prog (parse_as c posix_env ws) s)
    (init (prog :: ws)).
Proof.
  intros Hfuel. destruct declared.
  pose proof (parse_length (mode_of (call_optstring c) posix_env) (call_variant c)
    (skip_mode (call_optstring c)) (call_longopts c) ws).
  eapply wp_mono.
  - apply run_ready with (R := ws) (done := [prog]) (ops := []); [done|done|by right| |lia].
    left. by apply init_front.
  - intros l s [-> Hf]. split; [done|]. by apply finished_arranged.
Qed.
End loop.

(** C12: The loop over any one of ya_getopt, ya_getopt_long and ya_getopt_long_only until -1,
    for a declaration without an option of the value -1, computes a reference parser that reads
    the words once: the same options, at every call the same ya_optarg (which an unknown long
    name leaves as the call before set it), and argv rearranged to the option words, the
    operands, and -- with what follows it, each in the order given, in the GNU, the POSIX and
    the in-order mode and for any command line. One call per byte (the nulls counted) and one
    more are enough, so the loop ends. *)
Theorem getopt_loop_parses c posix_env has_longindex prog ws fuel :
  plain c → chars ws < fuel →
  let p := parse_as c posix_env ws in
  ∃ s, drain (Z.of_nat (S (length ws))) posix_env has_longindex c fuel (init (prog :: ws)) =
    (Ret (deliver None (results p)), s) ∧
  arranged prog p s ∧
  ws ≡ₚ words p ++ operands p ++ tail_words p ∧
  words p `sublist_of` ws ∧ operands p `sublist_of` ws.
Proof.
  intros Hd Hfuel p. pose proof (loop_spec c posix_env has_longindex Hd prog ws fuel Hfuel) as Hl.
  apply wp_run in Hl as (l & s & Hrun & -> & Ha). exists s.
  split; [done|]. split; [done|]. apply parse_partition.
Qed.


(** With a [--], [ya_optind] is behind it, and so behind the operands in front of it: a caller
    that takes [argv] from [ya_optind] on loses them. *)
Theorem operands_before_dashdash_lost c posix_env has_longindex prog ws r fuel :
  plain c → chars ws < fuel →
  let p := parse_as c posix_env ws in
  rest p = Some r →
  ∃ s, drain (Z.of_nat (S (length ws))) posix_env has_longindex c fuel (init (prog :: ws)) =
    (Ret (deliver None (results p)), s) ∧
  drop (Z.to_nat (ya_optind s)) (argv s) = r ∧
  take (Z.to_nat (ya_optind s)) (argv s) = prog :: words p ++ operands p ++ [lit "--"].
Proof.
  intros Hd Hfuel p Hrest.
  pose proof (loop_spec c posix_env has_longindex Hd prog ws fuel Hfuel) as Hl. fold p in Hl.
  apply wp_run in Hl as (l & s & Hrun & -> & [Ha Hi]). exists s. split; [done|].
  rewrite Ha, Hi. unfold tail_words. rewrite Hrest, Nat2Z.id.
  change (lit "--" :: r) with ([lit "--"] ++ r). rewrite !app_assoc, app_comm_cons.
  split; [rewrite drop_app_length'|rewrite take_app_length']; try done.
  all: cbn; rewrite !length_app; cbn; lia.
Qed.
