(* ===== verification/GetoptSpell.v ===== *)
(** * Printing a command line, and parsing it back

    A command line is spelled from option occurrences, each in any of the forms
    the parser knows, with operands among them; the loop over [ya_getopt],
    [ya_getopt_long] or [ya_getopt_long_only] gives the occurrences back. *)

From S2P Require Import Prelude Cpp Getopt GetoptSpec GetoptRef GetoptSim GetoptRun.
Import Getopt.

(** An occurrence: letters without arguments in one word, a letter with its
    argument in the same or in the next word, a long option behind one hyphen or
    two, or an operand. *)
Inductive occurrence :=
  | Letters (cs : bytes)
  | Letter (c : ascii) (v : bytes) (same_word : bool)
  | Name (one : bool) (o : option_t)
  | NameArg (one : bool) (o : option_t) (v : bytes) (same_word : bool)
  | Operand (w : bytes).

Definition hyphens (one : bool) : bytes := if one then lit "-" else lit "--".

Definition option_words (x : occurrence) : list bytes :=
  match x with
  | Letters cs => [lit "-" ++ cs]
  | Letter c v true => [lit "-" ++ c :: v]
  | Letter c v false => [lit "-" ++ [c]; v]
  | Name one o => [hyphens one ++ name o]
  | NameArg one o v true => [hyphens one ++ name o ++ lit "=" ++ v]
  | NameArg one o v false => [hyphens one ++ name o; v]
  | Operand _ => []
  end.
Definition operand_words (x : occurrence) : list bytes :=
  match x with Operand w => [w] | _ => [] end.
Definition spell (x : occurrence) : list bytes := option_words x ++ operand_words x.

(** What the caller is to be told. *)
Definition meaning (x : occurrence) : list (Z * option bytes) :=
  match x with
  | Letters cs => (λ c, (char_int c, None)) <$> cs
  | Letter c v _ => [(char_int c, Some v)]
  | Name _ o => [(long_value o, None)]
  | NameArg _ o v _ => [(long_value o, Some v)]
  | Operand _ => []
  end.

(** The readings of the reference that say so. *)
Definition readings (l : list (Z * option bytes)) : list reading := (λ x, gives x.1 x.2) <$> l.

Lemma readings_app l1 l2 : readings (l1 ++ l2) = readings l1 ++ readings l2.
Proof. apply fmap_app. Qed.

Section spelling.
Variables (md : mode) (vr : variant) (os : bytes) (lo : list option_t).

(** The names of the long options tell them apart. *)
Record distinct_names : Prop := {
  dn_nodup : NoDup (name <$> lo);
  dn_equals : ∀ o, o ∈ lo → "="%char ∉ name o;
  dn_nonempty : ∀ o, o ∈ lo → name o ≠ [] }.

(** With names behind one hyphen, a letter is one only where no name fits. *)
Definition unnamed (cs : bytes) : Prop := vr = OneHyphen → ∀ o, o ∈ lo → ¬ name o `prefix_of` cs.

(** How a name may stand in front of [o]. *)
Definition named (one : bool) (o : option_t) : Prop :=
  o ∈ lo ∧ vr ≠ LettersOnly ∧ (one = true → vr = OneHyphen ∧ at_ (name o) 0 ≠ "-"%char).

(** The forms the declaration allows; only in the GNU mode does an operand stand
    among the options without being one or ending them. *)
Inductive legal : occurrence → Prop :=
  | legal_letters c cs : c ≠ "-"%char → Forall (λ c, short_kind os c = Some NoArg) (c :: cs) →
      (∀ k, unnamed (drop k (c :: cs))) → legal (Letters (c :: cs))
  | legal_same c v : c ≠ "-"%char → v ≠ [] →
      short_kind os c = Some ReqArg ∨ short_kind os c = Some OptArg →
      unnamed (c :: v) → legal (Letter c v true)
  | legal_next c v : c ≠ "-"%char → short_kind os c = Some ReqArg →
      unnamed [c] → legal (Letter c v false)
  | legal_name one o : named one o → has_arg o ≠ ya_required_argument → legal (Name one o)
  | legal_name_same one o v : named one o → has_arg o ≠ ya_no_argument → legal (NameArg one o v true)
  | legal_name_next one o v : named one o → has_arg o = ya_required_argument →
      legal (NameArg one o v false)
  | legal_operand w : md = Permute → is_option w = false → legal (Operand w).

Lemma unnamed_letters cs next : unnamed cs → name_in_word vr os lo cs next = None.
Proof.
  unfold unnamed, name_in_word. destruct vr; cbn [one_hyphen]; try done. intros Hn. specialize (Hn eq_refl).
  induction lo as [|o l IH]; cbn [long]; [done|].
  rewrite bool_decide_false by (apply Hn; by left). apply IH. intros. apply Hn. by right.
Qed.

Lemma cluster_letters cs next :
  Forall (λ c, short_kind os c = Some NoArg) cs → (∀ k, unnamed (drop k cs)) →
  cluster vr os lo cs next = (readings ((λ c, (char_int c, None)) <$> cs), false).
Proof.
  induction 1 as [|c cs Hc _ IH]; intros Hn; cbn [cluster]; [done|].
  rewrite unnamed_letters, Hc, IH; [done|exact (λ k, Hn (S k))|exact (Hn 0)].
Qed.

Lemma cluster_same c v next :
  v ≠ [] → short_kind os c = Some ReqArg ∨ short_kind os c = Some OptArg → unnamed (c :: v) →
  cluster vr os lo (c :: v) next = ([gives (char_int c) (Some v)], false).
Proof.
  intros Hv Hc Hn. cbn [cluster]. rewrite unnamed_letters by done.
  destruct v; [done|]. by destruct Hc as [-> | ->].
Qed.

Lemma cluster_next c v :
  short_kind os c = Some ReqArg → unnamed [c] →
  cluster vr os lo [c] (Some v) = ([gives (char_int c) (Some v)], true).
Proof. intros Hc Hn. cbn [cluster]. by rewrite unnamed_letters, Hc. Qed.

(** A name in front of [o] in the list does not stop the search. *)
Lemma other_name (n n1 t : bytes) :
  "="%char ∉ n → "="%char ∉ n1 → n1 ≠ n → (t = [] ∨ ∃ v, t = "="%char :: v) →
  n1 `prefix_of` n ++ t → ∃ c v, drop (length n1) (n ++ t) = c :: v ∧ c ≠ "="%char.
Proof.
  intros Hn Hn1 Hne Ht [x Hx]. rewrite Hx, drop_app_length.
  destruct (decide (length n < length n1)).
  - exfalso. destruct Ht as [-> | [v ->]].
    + apply (f_equal length) in Hx. rewrite !length_app in Hx. cbn in Hx. lia.
    + apply Hn1. apply list_elem_of_lookup_2 with (i := length n).
      assert ((n ++ "="%char :: v) !! length n = Some "="%char) as Hl by by apply list_lookup_middle.
      rewrite Hx, lookup_app_l in Hl by done. done.
  - apply app_eq_inv in Hx as [(k & Hk1 & Hk2)|(k & Hk1 & Hk2)].
    + rewrite Hk2. destruct k as [|c k].
      * by rewrite app_nil_r in Hk1.
      * eexists _, _. split; [done|]. intros ->. apply Hn. rewrite Hk1. set_solver.
    + assert (k = []) as ->.
      { apply (f_equal length) in Hk1. rewrite length_app in Hk1. destruct k; [done|cbn in *; lia]. }
      by rewrite app_nil_r in Hk1.
Qed.

Lemma long_finds l o t next :
  NoDup (name <$> l) → (∀ o, o ∈ l → "="%char ∉ name o) → o ∈ l →
  (t = [] ∨ ∃ v, t = "="%char :: v) →
  long os (name o ++ t) l next = long os (name o ++ t) [o] next.
Proof.
  intros Hnd Heq Ho Ht. induction l as [|o1 l IH]; [by apply not_elem_of_nil in Ho|].
  apply NoDup_cons in Hnd as [Hn1 Hnd]. apply elem_of_cons in Ho as [->|Ho].
  - cbn [long]. rewrite bool_decide_true, drop_app_length by by apply prefix_app_r.
    destruct Ht as [-> | [v ->]]; [done|]. by rewrite bool_decide_true.
  - assert (name o1 ≠ name o) as Hne.
    { intros Hn. apply Hn1. rewrite Hn. by apply list_elem_of_fmap_2. }
    cbn [long]. rewrite IH; [|done|intros; apply Heq; by right|done].
    case_bool_decide as Hp; [|done].
    destruct (other_name (name o) (name o1) t) as (c & v & -> & Hc); try done.
    + apply Heq. by right.
    + apply Heq. by left.
    + by rewrite bool_decide_false.
Qed.

Definition after (x : occurrence) (p : parsed) : parsed :=
  Parsed (readings (meaning x) ++ results p) (option_words x ++ words p) (operand_words x ++ operands p)
    (rest p).

(** A word read as an option. *)
Lemma parse_word_results w ws rs takes :
  is_option w = true → w ≠ lit "--" → word_results vr os lo w (head ws) = (rs, takes) →
  parse md vr os lo (w :: ws) =
    add_option rs (taken w takes ws) (parse md vr os lo (if takes then tail ws else ws)).
Proof. intros Hw Hne Hr. pose proof (parse_option md vr os lo w ws Hw Hne) as Hp. rewrite Hr in Hp. apply Hp. Qed.

Lemma letters_are_option c cs :
  c ≠ "-"%char → is_option (lit "-" ++ c :: cs) = true ∧ lit "-" ++ c :: cs ≠ lit "--" ∧
  ∀ next, word_results vr os lo (lit "-" ++ c :: cs) next = cluster vr os lo (c :: cs) next.
Proof.
  intros Hc. split; [done|]. split; [by intros [= ->]|]. intros next.
  unfold word_results. rewrite bool_decide_false by done. by destruct vr.
Qed.

Lemma name_is_option one o t next r b :
  named one o → name o ≠ [] → long os (name o ++ t) lo next = Some (r, b) →
  let w := hyphens one ++ name o ++ t in
  is_option w = true ∧ w ≠ lit "--" ∧ word_results vr os lo w next = ([r], b).
Proof.
  intros (_ & Hv & H1) Hne Hl. destruct (name o) as [|c n] eqn:Hname; [done|]. destruct one.
  - destruct (H1 eq_refl) as [Hone Hc].
    destruct (letters_are_option c (n ++ t) Hc) as (Hw & Hd & Hr). cbn zeta. split_and!; [done|done|].
    unfold hyphens. rewrite <-app_comm_cons in *. rewrite Hr. cbn [cluster]. unfold name_in_word.
    assert (one_hyphen vr = true) as -> by by rewrite Hone. by rewrite Hl.
  - split; [done|]. split; [by intros [= ->]|]. unfold word_results.
    change (drop 2 (hyphens false ++ (c :: n) ++ t)) with ((c :: n) ++ t).
    rewrite bool_decide_true, Hl by done. by destruct vr.
Qed.

Hypothesis names : distinct_names.

Lemma long_name o next :
  o ∈ lo → has_arg o ≠ ya_required_argument →
  long os (name o) lo next = Some (gives (long_value o) None, false).
Proof.
  intros Ho Ha. pose proof (long_finds lo o [] next (dn_nodup names) (dn_equals names) Ho) as Hl.
  rewrite app_nil_r in Hl. rewrite Hl by auto. cbn [long].
  rewrite bool_decide_true, drop_all by done. by rewrite (proj2 (Z.eqb_neq _ _) Ha).
Qed.

Lemma long_name_next o v :
  o ∈ lo → has_arg o = ya_required_argument →
  long os (name o) lo (Some v) = Some (gives (long_value o) (Some v), true).
Proof.
  intros Ho Ha. pose proof (long_finds lo o [] (Some v) (dn_nodup names) (dn_equals names) Ho) as Hl.
  rewrite app_nil_r in Hl. rewrite Hl by auto. cbn [long].
  rewrite bool_decide_true, drop_all by done. by rewrite Ha.
Qed.

Lemma long_name_same o v next :
  o ∈ lo → has_arg o ≠ ya_no_argument →
  long os (name o ++ lit "=" ++ v) lo next = Some (gives (long_value o) (Some v), false).
Proof.
  intros Ho Ha. rewrite (long_finds lo o (lit "=" ++ v)); try apply names; [|done|by eauto].
  cbn [long]. rewrite bool_decide_true, drop_app_length by by apply prefix_app_r.
  cbn. by rewrite (proj2 (Z.eqb_neq _ _) Ha).
Qed.

Lemma parse_spell x ws : legal x → parse md vr os lo (spell x ++ ws) = after x (parse md vr os lo ws).
Proof.
  intros Hx. pose proof (dn_nonempty names) as Hne. destruct Hx as
    [c cs Hc Hcs Hu|c v Hc Hv Hk Hu|c v Hc Hk Hu|one o Ho Ha|one o v Ho Ha|one o v Ho Ha|w Hmd Hw].
  - destruct (letters_are_option c cs Hc) as (Hw & Hd & Hr).
    refine (parse_word_results _ ws _ false Hw Hd _). by rewrite Hr, cluster_letters.
  - destruct (letters_are_option c v Hc) as (Hw & Hd & Hr).
    refine (parse_word_results _ ws _ false Hw Hd _). by rewrite Hr, cluster_same.
  - destruct (letters_are_option c [] Hc) as (Hw & Hd & Hr).
    refine (parse_word_results _ (v :: ws) _ true Hw Hd _). rewrite Hr. by apply cluster_next.
  - pose proof (proj1 Ho) as Hin. pose proof (long_name o (head ws) Hin Ha) as Hl.
    rewrite <-(app_nil_r (name o)) in Hl. apply (name_is_option one) in Hl as (Hw & Hd & Hr); [|auto..].
    rewrite app_nil_r in *. exact (parse_word_results _ ws _ false Hw Hd Hr).
  - pose proof (proj1 Ho) as Hin. pose proof (long_name_same o v (head ws) Hin Ha) as Hl.
    apply (name_is_option one) in Hl as (Hw & Hd & Hr); [|auto..].
    exact (parse_word_results _ ws _ false Hw Hd Hr).
  - pose proof (proj1 Ho) as Hin. pose proof (long_name_next o v Hin Ha) as Hl.
    rewrite <-(app_nil_r (name o)) in Hl. apply (name_is_option one) in Hl as (Hw & Hd & Hr); [|auto..].
    rewrite app_nil_r in *. exact (parse_word_results _ (v :: ws) _ true Hw Hd Hr).
  - cbn. rewrite Hw, Hmd. cbn [negb]. rewrite <-Hmd. by destruct (parse md vr os lo ws).
Qed.

(** A command line, with what follows a [--] when there is one. *)
Definition command_line (xs : list occurrence) (end_ : option (list bytes)) : list bytes :=
  (xs ≫= spell) ++ match end_ with Some r => lit "--" :: r | None => [] end.

Lemma parse_command_line xs end_ :
  Forall legal xs →
  parse md vr os lo (command_line xs end_) =
    Parsed (readings (xs ≫= meaning)) (xs ≫= option_words) (xs ≫= operand_words) end_.
Proof.
  unfold command_line. induction 1 as [|x xs Hx _ IH]; [by destruct end_|].
  cbn [mbind list_bind]. rewrite <-app_assoc, parse_spell, IH, readings_app by done. done.
Qed.
End spelling.

(** C22: What is spelled is parsed back: a command line printed from option occurrences in any
    of the legal forms (clusters of letters, arguments in the same or the next word, long names
    with or without = and behind one hyphen where the function allows it), with operands among
    them in the GNU mode and an optional -- part, makes the loop over any of the three functions
    deliver exactly the meanings of the occurrences, in order. *)
Theorem getopt_roundtrip c posix_env has_longindex prog xs end_ fuel :
  plain c → distinct_names (call_longopts c) →
  Forall (legal (call_mode c posix_env) (call_variant c) (skip_mode (call_optstring c))
    (call_longopts c)) xs →
  let ws := command_line xs end_ in
  chars ws < fuel →
  ∃ s, drain (Z.of_nat (S (length ws))) posix_env has_longindex c fuel (init (prog :: ws)) =
    (Ret (xs ≫= meaning), s) ∧
  argv s = prog :: (xs ≫= option_words) ++ (xs ≫= operand_words) ++
    match end_ with Some r => lit "--" :: r | None => [] end.
Proof.
  intros Hd Hn Hl ws Hfuel. pose proof (loop_spec c posix_env has_longindex Hd prog ws fuel Hfuel) as Hr.
  unfold ws, parse_as in Hr. rewrite parse_command_line in Hr by done. cbn [results] in Hr.
  unfold readings in Hr. rewrite deliver_gives in Hr.
  apply wp_run in Hr as (l & s & Hrun & -> & [Ha _]). by exists s.
Qed.

Module Witness.
(** [-a], [-b ARG], [-c[ARG]], [--alpha], [--alphabet ARG], [--beta[=ARG]]. *)
Definition optstring : bytes := lit "ab:c::".
Definition alpha : option_t := MkOption (lit "alpha") ya_no_argument None 97.
Definition alphabet : option_t := MkOption (lit "alphabet") ya_required_argument None 98.
Definition beta : option_t := MkOption (lit "beta") ya_optional_argument (Some 0) 7.
Definition longopts : list option_t := [alpha; alphabet; beta].

Definition long_call : call := Long optstring longopts.
Definition only_call : call := LongOnly optstring longopts.

Lemma plain_long : plain long_call.
Proof. split; apply Forall_forall; repeat constructor; discriminate. Qed.

Lemma plain_only : plain only_call.
Proof. split; apply plain_long. Qed.

Lemma names : distinct_names longopts.
Proof.
  split; [apply (bool_decide_unpack _); by vm_compute| |].
  - apply Forall_forall. repeat constructor; apply (bool_decide_unpack _); by vm_compute.
  - apply Forall_forall. repeat constructor; discriminate.
Qed.

Definition words : list occurrence :=
  [Operand (lit "x"); Letters (lit "aa"); Letter "b"%char (lit "-1") false; Operand (lit "-");
   Letter "c"%char (lit "2") true; NameArg true alphabet (lit "") true; Name true alpha;
   NameArg false alphabet (lit "3") false; NameArg true beta (lit "4") true; Name false beta].

Lemma none_named cs : forallb (λ o, negb (bool_decide (name o `prefix_of` cs))) longopts = true →
  unnamed OneHyphen longopts cs.
Proof.
  intros H _ o Ho Hp. rewrite forallb_forall in H. apply list_elem_of_In, H in Ho.
  by rewrite bool_decide_true in Ho.
Qed.

Lemma all_named one o : o ∈ longopts → named OneHyphen longopts one o.
Proof.
  intros Ho. split; [done|]. split; [done|]. intros _. split; [done|]. revert o Ho.
  apply Forall_forall. repeat constructor; discriminate.
Qed.

Lemma words_legal : Forall (legal Permute OneHyphen optstring longopts) words.
Proof.
  repeat first [apply Forall_cons; split|apply Forall_nil; exact I]; constructor;
    first [discriminate|reflexivity|left; reflexivity|right; reflexivity
          |by apply none_named|by intros [|[|[|k]]]; apply none_named
          |apply all_named; repeat constructor|repeat constructor].
Qed.

Definition delivered : list (Z * option bytes) :=
  [(97, None); (97, None); (98, Some (lit "-1")); (99, Some (lit "2")); (98, Some (lit ""));
   (97, None); (98, Some (lit "3")); (0, Some (lit "4")); (0, None)]%Z.

Lemma words_meaning : words ≫= meaning = delivered.
Proof. vm_compute. reflexivity. Qed.

Lemma getopt_roundtrip_witness :
  let ws := command_line words (Some [lit "-a"]) in
  ∃ s, drain (Z.of_nat (S (length ws))) false false only_call 100 (init (lit "prog" :: ws)) =
    (Ret delivered, s) ∧
  argv s = lit <$> ["prog"; "-aa"; "-b"; "-1"; "-c2"; "-alphabet="; "-alpha"; "--alphabet"; "3";
                    "-beta=4"; "--beta"; "x"; "-"; "--"; "-a"]%string.
Proof.
  rewrite <-words_meaning.
  apply (getopt_roundtrip only_call false false (lit "prog") words (Some [lit "-a"]) 100
           plain_only names words_legal).
  vm_compute. lia.
Defined.

Definition line : list bytes := lit <$> ["x"; "-ab"; "y"; "-z"; "-alphabet"; "w"; "--no"]%string.

(** The names behind one hyphen are letters for [ya_getopt_long]. *)
Lemma line_parsed :
  parse_as only_call false line =
    Parsed [gives 97 None; gives 98 (Some (lit "y")); gives 63 None; gives 98 (Some (lit "w")); (63, Kept)]%Z
      (lit <$> ["-ab"; "y"; "-z"; "-alphabet"; "w"; "--no"]%string) [lit "x"] None ∧
  parse_as long_call false line =
    Parsed (gives 97 None :: gives 98 (Some (lit "y")) :: gives 63 None :: gives 97 None ::
        replicate 3 (gives 63 None) ++ [gives 97 None; gives 98 (Some (lit "et")); (63, Kept)])%Z
      (lit <$> ["-ab"; "y"; "-z"; "-alphabet"; "--no"]%string) (lit <$> ["x"; "w"]%string) None.
Proof. vm_compute. split; reflexivity. Qed.

(** The unknown [--no] shows the argument of the option before it. *)
Lemma getopt_loop_parses_witness :
  ∃ s, drain (Z.of_nat (S (length line))) false false only_call 100 (init (lit "p" :: line)) =
    (Ret [(97, None); (98, Some (lit "y")); (63, None); (98, Some (lit "w")); (63, Some (lit "w"))]%Z, s) ∧
  argv s = lit <$> ["p"; "-ab"; "y"; "-z"; "-alphabet"; "w"; "--no"; "x"]%string ∧ ya_optind s = 7%Z.
Proof.
  destruct (getopt_loop_parses only_call false false (lit "p") line 100 plain_only)
    as (s & Hrun & [Ha Hi] & _).
  { vm_compute. lia. }
  rewrite (proj1 line_parsed) in Hrun, Ha, Hi. exists s. split; [exact Hrun|]. split; [exact Ha|exact Hi].
Defined.


(** The three ways with an operand. *)
Example modes :
  let run os posix_env :=
    drain 4 posix_env false (Long (lit os) longopts) 10 (init (lit <$> ["p"; "x"; "-a"; "y"]%string)) in
  (run "a" false).1 = Ret [(97, None)]%Z ∧ (run "+a" false).1 = Ret [] ∧ (run "a" true).1 = Ret [] ∧
  (run "-a" false).1 = Ret [(1, Some (lit "x")); (97, None); (1, Some (lit "y"))]%Z.
Proof. vm_compute. split_and!; reflexivity. Qed.

(** The same words for the three functions; in the last one a name is found in
    the middle of a word. *)
Example functions :
  let run c := drain 3 false false c 20 (init (lit <$> ["p"; "-aalpha"; "--alpha"]%string)) in
  (run (Short (lit "ahlp-"))).1 =
    Ret ((λ c, (char_int c, None)) <$> lit "aalpha-alpha") ∧
  (run (Long (lit "ahlp") [alpha])).1 =
    Ret (((λ c, (char_int c, None)) <$> lit "aalpha") ++ [(97, None)]%Z) ∧
  (run (LongOnly (lit "ahlp") [alpha])).1 = Ret [(97, None); (97, None); (97, None)]%Z.
Proof. vm_compute. split_and!; reflexivity. Qed.

Definition dashed : list bytes := lit <$> ["x"; "--"; "y"]%string.

Lemma dashed_parsed : parse_as long_call false dashed = Parsed [] [] [lit "x"] (Some [lit "y"]).
Proof. vm_compute. reflexivity. Qed.

Lemma operands_before_dashdash_lost_witness :
  ∃ s, drain (Z.of_nat (S (length dashed))) false false long_call 100 (init (lit "p" :: dashed)) =
    (Ret [], s) ∧
  drop (Z.to_nat (ya_optind s)) (argv s) = [lit "y"] ∧
  take (Z.to_nat (ya_optind s)) (argv s) = lit <$> ["p"; "x"; "--"]%string.
Proof.
  pose proof (operands_before_dashdash_lost long_call false false (lit "p") dashed [lit "y"] 100
    plain_long) as H. rewrite dashed_parsed in H. apply H; [vm_compute; lia|reflexivity].
Defined.
End Witness.
