(* ===== verification/LoadTest.v ===== *)
(** * loadtest/loadtest.cc: the load generator

    The options over the calls of [ya_getopt_long] (ya_getopt.h renames
    [getopt_long] to it), one attempt of a client against the echo server, and
    the report.  The clock and [rand] are parameters; the threads and the server
    process are in [LoadMain]. *)

From S2P Require Import Prelude Cpp Double Log OS Connection TCPServer Client ClientSpec Getopt.

(** ** Options *)

Inductive ClientType := CtNone | CtTCP | CtSSL.

#[export] Instance ClientType_eq_dec : EqDecision ClientType.
Proof. solve_decision. Defined.

Record Config := MkConfig {
  client_type : ClientType;
  n_attempts : Z;
  n_threads : Z;
  run_server : bool }.

Definition default_config : Config := MkConfig CtNone 1 1 false.

(** [strtoull(s, nullptr, 10)]: white space, a sign, and digits that saturate. *)
Definition ULLONG_MAX : Z := 2 ^ 64 - 1.
Definition is_space (c : ascii) : bool :=
  bool_decide (c = " "%char) || (9 <=? nat_of_ascii c) && (nat_of_ascii c <=? 13).
Fixpoint skip_spaces (s : bytes) : bytes :=
  match s with
  | c :: s' => if is_space c then skip_spaces s' else s
  | [] => []
  end.
Definition digit (c : ascii) : option Z :=
  if (48 <=? nat_of_ascii c) && (nat_of_ascii c <=? 57)
  then Some (Z.of_nat (nat_of_ascii c - 48)) else None.
Fixpoint digits (acc : Z) (s : bytes) : Z :=
  match s with
  | c :: s => match digit c with Some d => digits (acc * 10 + d) s | None => acc end
  | [] => acc
  end.
Definition strtoull (s : bytes) : Z :=
  let '(neg, s) := match skip_spaces s with
                   | c :: s => if bool_decide (c = "-"%char) then (true, s)
                               else if bool_decide (c = "+"%char) then (false, s)
                               else (false, c :: s)
                   | [] => (false, [])
                   end in
  let n := digits 0 s in
  if (ULLONG_MAX <? n)%Z then ULLONG_MAX
  else if neg then (- n) `mod` 2 ^ 64 else n.

Definition long_opts : list Getopt.option_t :=
  [Getopt.MkOption (lit "tcp") Getopt.ya_no_argument None (Getopt.char_int "t");
   Getopt.MkOption (lit "ssl") Getopt.ya_no_argument None (Getopt.char_int "s");
   Getopt.MkOption (lit "attempts") Getopt.ya_required_argument None (Getopt.char_int "a");
   Getopt.MkOption (lit "threads") Getopt.ya_required_argument None (Getopt.char_int "n");
   Getopt.MkOption (lit "run-server") Getopt.ya_required_argument None (Getopt.char_int "r");
   Getopt.MkOption (lit "help") Getopt.ya_no_argument None (Getopt.char_int "h")].

Definition optstring : bytes := lit "tsa:n:rh".

Definition EXIT_SUCCESS : Z := 0.
Definition EXIT_FAILURE : Z := 1.

(** What goes to [stderr] before an [exit(EXIT_FAILURE)]; there is no other. *)
Definition show_help : list bytes :=
  (λ l, l ++ [LF]) <$>
  [lit "Usage: neblina-load-test [--tcp|--ssl] [--attempts N] [--threads N] [--run-server]";
   lit "  -t, --tcp          Use TCP client";
   lit "  -s, --ssl          Use SSL client";
   lit "  -a, --attempts     Number of attempts (default 1)";
   lit "  -n, --threads      Number of threads  (default 1)";
   lit "  -r, --run-server   Execute server"].
Definition only_one : list bytes := [lit "Only one of --tcp or --ssl may be specified" ++ [LF]].
Definition one_required : list bytes := [lit "Error: one of --tcp or --ssl is required" ++ [LF]].

(** The [switch] on what [getopt_long] returned, with [optarg]; [inr] is what is
    printed before the program exits, and [strtoull] of a null pointer is
    undefined. *)
Definition option_step (cfg : Config) (opt : Z) (optarg : option bytes) : outcome (Config + list bytes) :=
  if (opt =? Getopt.char_int "t")%Z then
    Ret (if bool_decide (client_type cfg = CtNone)
         then inl (MkConfig CtTCP (n_attempts cfg) (n_threads cfg) (run_server cfg))
         else inr only_one)
  else if (opt =? Getopt.char_int "s")%Z then
    Ret (if bool_decide (client_type cfg = CtNone)
         then inl (MkConfig CtSSL (n_attempts cfg) (n_threads cfg) (run_server cfg))
         else inr only_one)
  else if (opt =? Getopt.char_int "a")%Z then
    match optarg with
    | Some a => Ret (inl (MkConfig (client_type cfg) (strtoull a) (n_threads cfg) (run_server cfg)))
    | None => UB
    end
  else if (opt =? Getopt.char_int "n")%Z then
    match optarg with
    | Some a => Ret (inl (MkConfig (client_type cfg) (n_attempts cfg) (strtoull a) (run_server cfg)))
    | None => UB
    end
  else if (opt =? Getopt.char_int "r")%Z then
    Ret (inl (MkConfig (client_type cfg) (n_attempts cfg) (n_threads cfg) true))
  else if (opt =? Getopt.char_int "?")%Z then Ret (inl cfg)
  else
    (* 'h' and default: [show_help] exits with a failure before the [std::exit]
       that would tell them apart *)
    Ret (inr show_help).

Section parse_args.
Variable argc : Z.
Variable posix_env : bool.

(** The lines printed, and the status of the [exit]. *)
Definition exit_with (ms : list bytes) : M Getopt.t (Config + Z) :=
  modify (λ s, foldl (λ s m, Getopt.add_error m s) s ms) ;;
  mret (inr EXIT_FAILURE).

(** [while (true)], one unit of fuel a call. *)
Fixpoint parse_loop (fuel : nat) (cfg : Config) : M Getopt.t (Config + Z) :=
  match fuel with
  | 0 => out_of_fuel
  | S fuel =>
      opt ← Getopt.ya_getopt_long argc posix_env true optstring long_opts;
      if (opt =? -1)%Z then mret (inl cfg)
      else
        s ← get;
        r ← (λ s', (option_step cfg opt (Getopt.ya_optarg s), s'));
        match r with
        | inl cfg => parse_loop fuel cfg
        | inr ms => exit_with ms
        end
  end.

(** The configuration, or the status of an [exit]. *)
Definition parse_args (fuel : nat) : M Getopt.t (Config + Z) :=
  r ← parse_loop fuel default_config;
  match r with
  | inl cfg => if bool_decide (client_type cfg = CtNone) then exit_with one_required else mret (inl cfg)
  | inr code => mret (inr code)
  end.
End parse_args.

(** ** One attempt *)

Inductive Output := Success | Timeout | Incorrect | FailedToConnect.

#[export] Instance Output_eq_dec : EqDecision Output.
Proof. solve_decision. Defined.

(** [duration] is not initialised when the connection failed. *)
Record Result := MkResult { duration : option Z; output : Output }.

(** [rand()] *)
Class Rand (K : Type) := rand : K → Z * K.

Definition alphabet : bytes :=
  lit "0123456789ABCDEFGHIJKLMNOPQRSTUVWXYZabcdefghijklmnopqrstuvwxyz".

Section attempt.
Context {C K : Type} `{!ClientOps C (world K)} `{!Clock K} `{!Rand K}.

(** [c[rand()%62]], [n] times. *)
Fixpoint random_string (n : nat) : M (world K) bytes :=
  match n with
  | 0 => mret []
  | S n =>
      r ← sys rand;
      let i := (r `rem` 62)%Z in
      if (i <? 0)%Z then undefined
      else
        rest ← random_string n;
        mret (default NUL (alphabet !! Z.to_nat i) :: rest)
  end.

(** [try { client = create_client(config); } catch (std::exception&)]: every
    exception of the program is a [std::exception]. *)
Definition try_create (create_client : M (world K) C) : M (world K) (option C) := λ w,
  match create_client w with
  | (Ret c, w') => (Ret (Some c), w')
  | (Throw _, w') => (Ret None, w')
  | (UB, w') => (UB, w')
  | (NoFuel, w') => (NoFuel, w')
  end.

(** [response == str ? Success : response.empty() ? Timeout : Incorrect] *)
Definition judge (response str : bytes) : Output :=
  if bool_decide (response = str) then Success
  else if bool_decide (response = []) then Timeout else Incorrect.

(** The body of the inner loop up to the label [skip]: the result, and the
    client, which is still there.  Nothing catches an exception of [send] or of
    [recv_spinlock]. *)
Definition attempt (fuel : nat) (create_client : M (world K) C) :
    M (world K) (Result * option C) :=
  str ← random_string 10;
  let str := str ++ [LF] in
  start ← sys now;
  client ← try_create create_client;
  match client with
  | None => mret (MkResult None FailedToConnect, None)
  | Some c =>
      client_send c str ;;
      response ← Client.recv_spinlock fuel c 11 30000;
      stop ← sys now;
      mret (MkResult (Some (stop - start)%Z) (judge (default [] response) str), Some c)
  end.

(** The end of the body, behind the critical section: the [unique_ptr] leaves its
    scope. *)
Definition drop_client (client : option C) : M (world K) unit :=
  match client with
  | Some c => client_destroy c
  | None => mret ()
  end.
End attempt.

(** ** The report *)

Record Stats := MkStats {
  success : nat;
  timeout : nat;
  incorrect : nat;
  failed_to_connect : nat;
  total_time : Z;
  best_time : Z;
  worst_time : Z }.

(** In nanoseconds; [best_time] starts at 60000 ms. *)
Definition no_stats : Stats := MkStats 0 0 0 0 0 (60000 * 1000000) 0.

Definition count (s : Stats) (r : Result) : Stats :=
  match output r with
  | Success =>
      let d := default 0%Z (duration r) in
      MkStats (S (success s)) (timeout s) (incorrect s) (failed_to_connect s)
        (total_time s + d)
        (if (d <? best_time s)%Z then d else best_time s)
        (if (worst_time s <? d)%Z then d else worst_time s)
  | Timeout => MkStats (success s) (S (timeout s)) (incorrect s) (failed_to_connect s)
                 (total_time s) (best_time s) (worst_time s)
  | Incorrect => MkStats (success s) (timeout s) (S (incorrect s)) (failed_to_connect s)
                   (total_time s) (best_time s) (worst_time s)
  | FailedToConnect => MkStats (success s) (timeout s) (incorrect s) (S (failed_to_connect s))
                         (total_time s) (best_time s) (worst_time s)
  end.

Definition report (results : list Result) : Stats := foldl count no_stats results.

(** [total_time / success], printed when [success > 0]. *)
Definition average_time (s : Stats) : Z := total_time s `quot` Z.of_nat (success s).

(** What [main] returns. *)
Definition exit_code (s : Stats) : Z :=
  if decide (0 < timeout s + incorrect s + failed_to_connect s) then EXIT_FAILURE
  else EXIT_SUCCESS.

(** The first line of the report. *)
Definition summary (results : list Result) : bytes :=
  let s := report results in
  let n (x : nat) := to_string (Z.of_nat x) in
  lit "Out of " ++ n (length results) ++ lit " requests: " ++ n (success s) ++
  lit " succeeded, " ++ n (timeout s) ++ lit " timed out, " ++ n (incorrect s) ++
  lit " returned an incorrect result, and " ++ n (failed_to_connect s) ++
  lit " failed to connect." ++ [LF].

(** The second line: [duration_cast] to microseconds cuts, and [%0.2f] prints
    the quotient by [1000.0]. *)
Definition milliseconds (ns : Z) : bytes := thousandths (ns `quot` 1000).
Definition times_line (s : Stats) : bytes :=
  lit "For the succeeded tests, average time was " ++ milliseconds (average_time s) ++
  lit " ms. Best time was " ++ milliseconds (best_time s) ++
  lit " ms, and worst time was " ++ milliseconds (worst_time s) ++ lit " ms." ++ [LF].

(** What [main] prints. *)
Definition main_output (results : list Result) : list bytes :=
  let s := report results in
  summary results :: (if decide (0 < success s) then [times_line s] else []).
