(* ===== verification/LoadTestSpec.v ===== *)
(** * What the load generator guarantees

    The report against the list of results, and an attempt against the streams
    of its connection. *)

From S2P Require Import Prelude Cpp Double Log OS Sim Connection TCPServer Client ClientSpec LoadTest.

(** ** The report *)

Definition successes (results : list Result) : list Result :=
  filter (λ r, output r = Success) results.
Definition times (results : list Result) : list Z :=
  (λ r, default 0%Z (duration r)) <$> successes results.

Definition sum_Z (l : list Z) : Z := foldr Z.add 0%Z l.

Lemma sum_Z_app l1 l2 : sum_Z (l1 ++ l2) = (sum_Z l1 + sum_Z l2)%Z.
Proof. induction l1 as [|x l1 IH]; cbn; [done|]. fold (sum_Z (l1 ++ l2)) (sum_Z l1). lia. Qed.

Lemma foldr_min_snoc b l x : foldr Z.min (Z.min x b) l = Z.min x (foldr Z.min b l).
Proof. induction l as [|y l IH]; cbn; lia. Qed.
Lemma foldr_max_snoc b l x : foldr Z.max (Z.max x b) l = Z.max x (foldr Z.max b l).
Proof. induction l as [|y l IH]; cbn; lia. Qed.

Lemma report_snoc results r : report (results ++ [r]) = count (report results) r.
Proof. unfold report. by rewrite foldl_app. Qed.

Lemma times_snoc results r :
  times (results ++ [r]) =
  times results ++ (if bool_decide (output r = Success) then [default 0%Z (duration r)] else []).
Proof.
  unfold times, successes. rewrite filter_app, fmap_app. f_equal.
  rewrite filter_cons, filter_nil. case_bool_decide; [by rewrite decide_True|by rewrite decide_False].
Qed.

(** The tallies of each kind. *)
Definition of_kind (o : Output) (results : list Result) : nat :=
  length (filter (λ r, output r = o) results).

Lemma of_kind_snoc o results r :
  of_kind o (results ++ [r]) = of_kind o results + (if decide (output r = o) then 1 else 0).
Proof.
  unfold of_kind. rewrite filter_app, length_app, filter_cons, filter_nil.
  by case_decide.
Qed.

Lemma report_tallies results :
  let s := report results in
  success s = of_kind Success results ∧ timeout s = of_kind Timeout results ∧
  incorrect s = of_kind Incorrect results ∧
  failed_to_connect s = of_kind FailedToConnect results ∧
  total_time s = sum_Z (times results).
Proof.
  induction results as [|r results IH] using rev_ind; [done|]. cbn in *.
  destruct IH as (Hs & Ht & Hi & Hf & Htot).
  rewrite report_snoc, !of_kind_snoc, times_snoc, sum_Z_app. unfold count.
  destruct (output r) eqn:Ho; cbn; rewrite ?Hs, ?Ht, ?Hi, ?Hf, ?Htot;
    repeat case_decide; try case_bool_decide; try done;
    split_and!; cbn [sum_Z foldr]; lia.
Qed.

Lemma of_kind_total results :
  of_kind Success results + of_kind Timeout results + of_kind Incorrect results +
  of_kind FailedToConnect results = length results.
Proof.
  induction results as [|r results IH] using rev_ind; [done|].
  rewrite !of_kind_snoc, length_app. cbn [length].
  destruct (output r); repeat case_decide; try done; lia.
Qed.

Lemma of_kind_all results :
  of_kind Success results = length results ↔ Forall (λ r, output r = Success) results.
Proof.
  unfold of_kind. induction results as [|r l IH]; [done|].
  rewrite filter_cons, Forall_cons. pose proof (length_filter (λ r, output r = Success) l).
  case_decide; cbn; [rewrite <-IH; intuition lia|]. split; [lia|]. by intros [? _].
Qed.

Lemma exit_code_success results :
  exit_code (report results) = EXIT_SUCCESS ↔ Forall (λ r, output r = Success) results.
Proof.
  destruct (report_tallies results) as (_ & Ht & Hi & Hf & _).
  pose proof (of_kind_total results). rewrite <-of_kind_all.
  unfold exit_code, EXIT_SUCCESS, EXIT_FAILURE. rewrite Ht, Hi, Hf. case_decide; lia.
Qed.

(** The extremes, from their initial values on. *)
Lemma report_extremes results :
  let s := report results in
  best_time s = foldr Z.min (60000 * 1000000)%Z (times results) ∧
  worst_time s = foldr Z.max 0%Z (times results).
Proof.
  induction results as [|r results IH] using rev_ind; [done|]. cbn in *.
  destruct IH as [Hb Hw]. rewrite report_snoc, times_snoc, !foldr_app. unfold count.
  destruct (output r); cbn -[Z.mul]; rewrite ?Hb, ?Hw; [|done..].
  rewrite bool_decide_true by done. cbn -[Z.mul]. rewrite foldr_min_snoc, foldr_max_snoc.
  split; [destruct (Z.ltb_spec (default 0%Z (duration r)) (foldr Z.min (60000 * 1000000)%Z (times results)))
         |destruct (Z.ltb_spec (foldr Z.max 0%Z (times results)) (default 0%Z (duration r)))]; lia.
Qed.

Lemma extremes_bound b w l :
  Forall (λ d, foldr Z.min b l ≤ d ≤ foldr Z.max w l)%Z l.
Proof.
  induction l as [|x l IH]; constructor; cbn; [lia|].
  eapply Forall_impl; [exact IH|]. cbn. lia.
Qed.

Lemma sum_bounds a b l :
  Forall (λ d, a ≤ d ≤ b)%Z l →
  (a * Z.of_nat (length l) ≤ sum_Z l ≤ b * Z.of_nat (length l))%Z.
Proof.
  induction 1 as [|x l Hx _ IH]; cbn [sum_Z foldr length]; [lia|].
  fold (sum_Z l). rewrite Nat2Z.inj_succ. lia.
Qed.

Lemma sum_nonneg l : Forall (λ d, 0 ≤ d)%Z l → (0 ≤ sum_Z l)%Z.
Proof. induction 1 as [|x l]; cbn [sum_Z foldr]; [lia|]. fold (sum_Z l). lia. Qed.

Lemma average_between results :
  Forall (λ d, 0 ≤ d)%Z (times results) → times results ≠ [] →
  (best_time (report results) ≤ average_time (report results) ≤
   worst_time (report results))%Z.
Proof.
  intros Hpos Hne. destruct (report_extremes results) as [-> ->].
  destruct (report_tallies results) as (Hs & _ & _ & _ & Ht).
  assert (success (report results) = length (times results)) as Hlen.
  { rewrite Hs. unfold of_kind, times, successes. by rewrite length_fmap. }
  unfold average_time. rewrite Hlen, Ht.
  pose proof (sum_bounds _ _ _ (extremes_bound (60000 * 1000000) 0 (times results))) as Hsum.
  assert (0 < length (times results)) by (destruct (times results); [done|cbn; lia]).
  pose proof (sum_nonneg _ Hpos).
  rewrite Z.quot_div_nonneg by lia.
  split; [apply Z.div_le_lower_bound|apply Z.div_le_upper_bound]; lia.
Qed.

(** The load generator's report counts the results of each kind, their sum is the number of
    results, the exit status is EXIT_SUCCESS exactly when all succeeded, the best time is the
    least of the successful durations and of a minute, the worst the greatest of them, and the
    average lies between the two. *)
Theorem report_sound results :
  let s := report results in
  success s = of_kind Success results ∧ timeout s = of_kind Timeout results ∧
  incorrect s = of_kind Incorrect results ∧
  failed_to_connect s = of_kind FailedToConnect results ∧
  success s + timeout s + incorrect s + failed_to_connect s = length results ∧
  (exit_code s = EXIT_SUCCESS ↔ Forall (λ r, output r = Success) results) ∧
  best_time s = foldr Z.min (60000 * 1000000)%Z (times results) ∧
  worst_time s = foldr Z.max 0%Z (times results) ∧
  (Forall (λ d, 0 ≤ d)%Z (times results) → times results ≠ [] →
   (best_time s ≤ average_time s ≤ worst_time s)%Z).
Proof.
  cbn zeta. destruct (report_extremes results) as [Hb Hw].
  pose proof (average_between results) as Hav. revert Hav Hb Hw.
  destruct (report_tallies results) as (Hs & Ht & Hi & Hf & _).
  rewrite Hs, Ht, Hi, Hf. intros. split_and!; try done; [apply of_kind_total|].
  apply exit_code_success.
Qed.

(** The average in the second line, in hundredths of a millisecond, is the mean of the
    successful durations up to the precision it is printed with: at most half a hundredth above
    it, and less than six thousandths below. *)
Theorem average_printed results :
  Forall (λ d, 0 ≤ d)%Z (times results) → times results ≠ [] →
  (sum_Z (times results) < 2 ^ 53 * 1000)%Z →
  let n := Z.of_nat (length (times results)) in
  let h := hundredths (average_time (report results) `quot` 1000) in
  (n * (10000 * h - 5000) ≤ sum_Z (times results) < n * (10000 * h + 6000))%Z.
Proof.
  intros Hpos Hne Hlt. cbn zeta. destruct (report_tallies results) as (Hs & _ & _ & _ & Ht).
  assert (success (report results) = length (times results)) as Hlen.
  { rewrite Hs. unfold of_kind, times, successes. by rewrite length_fmap. }
  unfold average_time. rewrite Hlen, Ht.
  assert (0 < length (times results)) by (destruct (times results); [done|cbn; lia]).
  pose proof (sum_nonneg _ Hpos) as Hsum. set (n := Z.of_nat (length (times results))) in *.
  set (t := sum_Z (times results)) in *.
  rewrite (Z.quot_div_nonneg t n) by lia.
  assert (0 ≤ t `div` n)%Z as Ha by (apply Z.div_pos; lia).
  rewrite Z.quot_div_nonneg by lia.
  pose proof (Z.div_mod t n ltac:(lia)). pose proof (Z.mod_pos_bound t n ltac:(lia)).
  set (a := (t `div` n)%Z) in *.
  pose proof (Z.div_mod a 1000 ltac:(lia)). pose proof (Z.mod_pos_bound a 1000 ltac:(lia)).
  assert (0 ≤ a `div` 1000 < 2 ^ 53)%Z as Hus.
  { split; [by apply Z.div_pos|]. apply Z.div_lt_upper_bound; [lia|].
    assert (a ≤ t)%Z by nia. lia. }
  pose proof (hundredths_near _ Hus). set (h := hundredths _) in *. nia.
Qed.

Module Witness.
(** Two successes, a timeout and a refused connection. *)
Definition results : list Result :=
  [MkResult (Some 3000000%Z) Success; MkResult None FailedToConnect;
   MkResult (Some 8000000%Z) Success; MkResult (Some 30000000000%Z) Timeout].

Lemma report_sound_witness :
  success (report results) = 2 ∧ exit_code (report results) = EXIT_FAILURE ∧
  best_time (report results) = 3000000%Z ∧ worst_time (report results) = 8000000%Z ∧
  (3000000 ≤ average_time (report results) ≤ 8000000)%Z.
Proof.
  destruct (report_sound results) as (_ & _ & _ & _ & _ & _ & _ & _ & H).
  do 4 (split; [vm_compute; reflexivity|]). apply H.
  - repeat constructor; discriminate.
  - discriminate.
Defined.

(** 11 ms for two: 5.50 is printed. *)
Lemma average_printed_witness :
  (2 * (10000 * 550 - 5000) ≤ 11000000 < 2 * (10000 * 550 + 6000))%Z.
Proof.
  apply (average_printed results); [repeat constructor; discriminate|discriminate|reflexivity].
Defined.

Example main_output_results : main_output results = (λ l, lit l ++ [LF]) <$>
  ["Out of 4 requests: 2 succeeded, 1 timed out, 0 returned an incorrect result, and 1 failed to connect.";
   "For the succeeded tests, average time was 5.50 ms. Best time was 3.00 ms, and worst time was 8.00 ms."]%string.
Proof. vm_compute. reflexivity. Qed.
End Witness.

(** ** One attempt *)

Section attempt.
Context {C K : Type} `{ClientSpec C K} `{!Clock K} `{!ClockLaws K} `{!Rand K}.

(** What is drawn is not a newline. *)
Lemma alphabet_no_newline i : default NUL (alphabet !! i) ≠ LF.
Proof.
  destruct (alphabet !! i) as [c|] eqn:Hc; [|done].
  assert (Forall (λ c, c ≠ LF) alphabet) as Ha.
  { apply (bool_decide_unpack _). by vm_compute. }
  exact (Forall_lookup_1 _ _ _ _ Ha Hc).
Qed.

Lemma random_string_no_newline n w s w' : random_string n w = (Ret s, w') → LF ∉ s.
Proof.
  revert w s w'. induction n as [|n IH]; intros w s w'; cbn [random_string].
  { intros [= <- _]. apply not_elem_of_nil. }
  run_call. case_match; [done|]. intros (rest & w1 & Hr & [= <- _])%bind_ret_inv.
  apply not_elem_of_cons. split; [by apply not_eq_sym, alphabet_no_newline|by eapply IH, Hr].
Qed.

Lemma random_string_length n w o w' :
  random_string n w = (o, w') →
  match o with Ret s => length s = n | UB => True | _ => False end.
Proof.
  revert w o w'. induction n as [|n IH]; intros w o w'; cbn [random_string].
  { by intros [= <- <-]. }
  run_call. case_match; [by intros [= <- <-]|]. rewrite run_bind.
  destruct (random_string n _) as [o1 w1] eqn:Hr. apply IH in Hr.
  destruct o1; [|done|by intros [= <- <-]|done]. intros [= <- <-]. cbn. by rewrite Hr.
Qed.

Lemma try_create_inv create w o w' :
  try_create (C:=C) (K:=K) create w = (Ret o, w') →
  match o with Some c => create w = (Ret c, w') | None => ∃ e, create w = (Throw e, w') end.
Proof. unfold try_create. destruct (create w) as [[c|e| |] w1]; intros [= <- <-]; eauto. Qed.

(** What [judge] says of the reply a spin came back with. *)
Lemma judge_reply response d str :
  length str = 11 →
  match response with
  | Some b => b = d ∧ length b = 11 ∧ 11 ≠ 0
  | None => length d ≤ 11 ∧ (11 ≠ 0 → length d < 11)
  end →
  judge (default [] response) str =
    if bool_decide (d = str) then Success
    else if decide (length d < 11) then Timeout else Incorrect.
Proof.
  intros Hstr Hr. unfold judge. destruct response as [b|]; cbn.
  - destruct Hr as (-> & Hl & _). case_bool_decide; [done|].
    rewrite decide_False by lia. rewrite bool_decide_false; [done|]. by intros ->.
  - destruct Hr as [_ Hl]. rewrite (bool_decide_false ([] = str)) by (by intros <-).
    rewrite bool_decide_false by (intros ->; lia). by rewrite decide_True by lia.
Qed.

Lemma attempt_run fuel (create : M (world K) C) w r client w' :
  attempt fuel create w = (Ret (r, client), w') →
  ∃ str w0 w1, random_string 10 w = (Ret str, w0) ∧ length str = 10 ∧
  w1 = World (now (kern w0)).2 (logs w0) ∧
  match output r with
  | FailedToConnect => client = None ∧ ∃ e, create w1 = (Throw e, w')
  | out => ∃ c w2 w3 d, client = Some c ∧
      create w1 = (Ret c, w2) ∧ client_send c (str ++ [LF]) w2 = (Ret (), w3) ∧
      stream_step (client_end c) d [] (wview w3) (wview w') ∧
      out = if bool_decide (d = str ++ [LF]) then Success
            else if decide (length d < 11) then Timeout else Incorrect
  end.
Proof.
  unfold attempt. intros Hr. inv_ret Hr. rename v into str.
  pose proof (random_string_length _ _ _ _ E) as Hl. cbn in Hl.
  rewrite run_bind, run_sys in Hr. set (w1 := World _ (logs s)) in Hr.
  exists str, s, w1. do 3 (split; [done|]). inv_ret Hr.
  apply try_create_inv in E0. destruct v as [c|]; [|injection Hr as <- <- <-; by split].
  inv_ret Hr. inv_ret Hr. rewrite run_bind, run_sys in Hr.
  destruct (now (kern s2)) as [t k] eqn:Ht. injection Hr as <- <- <-.
  apply recv_spinlock_streams in E2 as (d & Hs & Hd). apply now_law in Ht as (Hv & _ & _).
  cbn [output].
  rewrite (judge_reply _ d) by (done || by rewrite length_app, Hl).
  assert (wview (World k (logs s2)) = wview s2) as Hw by apply Hv.
  rewrite <-Hw in Hs. destruct v.
  destruct (if bool_decide _ then _ else _) eqn:Hj.
  1-3: exists c; eexists _, _, d; split_and!; [done|exact E0|exact E1|exact Hs|by rewrite Hj].
  repeat case_match; done.
Qed.

(** An attempt of the load generator that completes judges what came back on its connection
    after the send: Success exactly for the eleven bytes sent, Timeout for fewer than eleven
    bytes, Incorrect for eleven others, FailedToConnect when the client's constructor threw. *)
Theorem attempt_outcome fuel (create : M (world K) C) w r client w' :
  attempt fuel create w = (Ret (r, client), w') →
  ∃ str w0 w1, random_string 10 w = (Ret str, w0) ∧ length str = 10 ∧
  w1 = World (now (kern w0)).2 (logs w0) ∧
  match output r with
  | FailedToConnect => client = None ∧ ∃ e, create w1 = (Throw e, w')
  | out => ∃ c w2 w3 d, client = Some c ∧
      create w1 = (Ret c, w2) ∧ client_send c (str ++ [LF]) w2 = (Ret (), w3) ∧
      stream_step (client_end c) d [] (wview w3) (wview w') ∧
      out = if bool_decide (d = str ++ [LF]) then Success
            else if decide (length d < 11) then Timeout else Incorrect
  end.
Proof. apply attempt_run. Qed.
End attempt.
