(* ===== verification/LoadTestArgs.v ===== *)
(** * The command line of the load generator

    [parse_args] against the reference parser of the options, for every command
    line; and the command lines printed for a configuration are parsed back to
    it. *)

From stdpp Require Import pretty.
From S2P Require Import Prelude Cpp Getopt GetoptRef GetoptSim GetoptRun GetoptSpell LoadTest.
Import Getopt.

Abbreviation letter c := (char_int c%char) (only parsing).

(** ** What a list of options says *)

Abbreviation option_result := (Z * option bytes)%type (only parsing).

Definition client_of (x : option_result) : option ClientType :=
  if (x.1 =? letter "t")%Z then Some CtTCP
  else if (x.1 =? letter "s")%Z then Some CtSSL else None.
Definition clients (rs : list option_result) : list ClientType := omap client_of rs.

(** The number of the last option [c], or [d] without one. *)
Definition last_number (c : ascii) (d : Z) (rs : list option_result) : Z :=
  foldl (λ d x, if (x.1 =? char_int c)%Z then strtoull (default [] x.2) else d) d rs.

Definition has (c : ascii) (rs : list option_result) : bool :=
  existsb (λ x, (x.1 =? char_int c)%Z) rs.

(** Not [-h], and nothing the [switch] does not know. *)
Definition known (x : option_result) : bool :=
  existsb (λ c, (x.1 =? char_int c)%Z) (lit "tsanr?").

Definition read_options (rs : list option_result) : Config + Z :=
  match forallb known rs, clients rs with
  | true, [c] => inl (MkConfig c (last_number "a" 1 rs) (last_number "n" 1 rs) (has "r" rs))
  | _, _ => inr EXIT_FAILURE
  end.

(** What the program says when it refuses the options: at the first option it
    does not know, or at a second client, or at the end without one. *)
Fixpoint complaint (one : bool) (rs : list option_result) : list bytes :=
  match rs with
  | [] => one_required
  | x :: rs =>
      if negb (known x) then show_help
      else match client_of x with
           | Some _ => if one then only_one else complaint true rs
           | None => complaint one rs
           end
  end.

(** [-a] and [-n] have an argument. *)
Definition given (x : option_result) : Prop :=
  x.1 = letter "a" ∨ x.1 = letter "n" → x.2 ≠ None.

(** ** The [switch], over a list of options *)

Fixpoint parse_options (cfg : Config) (rs : list option_result) : outcome (Config + list bytes) :=
  match rs with
  | [] => Ret (inl cfg)
  | x :: rs =>
      match option_step cfg x.1 x.2 with
      | Ret (inl cfg) => parse_options cfg rs
      | o => o
      end
  end.

Lemma clients_cons x rs :
  clients (x :: rs) = option_list (client_of x) ++ clients rs.
Proof. unfold clients. cbn. by destruct (client_of x). Qed.
Lemma last_number_cons c d x rs :
  last_number c d (x :: rs) =
  last_number c (if (x.1 =? char_int c)%Z then strtoull (default [] x.2) else d) rs.
Proof. done. Qed.
Lemma has_cons c x rs : has c (x :: rs) = (x.1 =? char_int c)%Z || has c rs.
Proof. done. Qed.

Lemma unknown_option v a cfg :
  known (v, a) = false → option_step cfg v a = Ret (inr show_help).
Proof.
  unfold known, option_step. change (lit "tsanr?") with ["t"; "s"; "a"; "n"; "r"; "?"]%char.
  cbn [existsb fst]. rewrite !orb_false_iff. by intros (-> & -> & -> & -> & -> & -> & _).
Qed.

Lemma known_option v a :
  known (v, a) = true →
  v = letter "t" ∨ v = letter "s" ∨ v = letter "a" ∨ v = letter "n" ∨ v = letter "r" ∨
  v = letter "?".
Proof.
  unfold known. change (lit "tsanr?") with ["t"; "s"; "a"; "n"; "r"; "?"]%char.
  cbn [existsb fst]. rewrite !orb_true_iff, !Z.eqb_eq. naive_solver.
Qed.

Ltac letters :=
  unfold option_step, client_of;
  change (char_int "t") with 116%Z; change (char_int "s") with 115%Z;
  change (char_int "a") with 97%Z; change (char_int "n") with 110%Z;
  change (char_int "r") with 114%Z; change (char_int "?") with 63%Z;
  cbn -[parse_options forallb clients last_number has complaint show_help only_one strtoull].

Lemma parse_options_reads cfg rs :
  Forall given rs →
  parse_options cfg rs = Ret
    match forallb known rs, client_type cfg, clients rs with
    | true, CtNone, [c] | true, c, [] =>
        inl (MkConfig c (last_number "a" (n_attempts cfg) rs) (last_number "n" (n_threads cfg) rs)
              (run_server cfg || has "r" rs))
    | _, c, _ => inr (complaint (negb (bool_decide (c = CtNone))) rs)
    end.
Proof.
  intros Hrs. revert cfg. induction Hrs as [|[v a] rs Hx Hrs IH]; intros [c na nt r].
  { cbn. rewrite orb_false_r. by destruct c. }
  cbn [parse_options forallb complaint fst snd]. destruct (known (v, a)) eqn:Hk; cbn [andb negb].
  2: { by rewrite unknown_option. }
  rewrite clients_cons, !last_number_cons, has_cons. cbn [fst snd].
  apply known_option in Hk as [->|[->|[->|[->|[-> | ->]]]]].
  1,2: destruct c; letters;
    [rewrite bool_decide_true, IH by done; cbn; by destruct (forallb known rs), (clients rs)
    |rewrite bool_decide_false by done; by destruct (forallb known rs)..].
  1,2: destruct a as [a|]; [|destruct Hx; auto]; letters; by rewrite IH.
  1,2: letters; rewrite IH; cbn; by rewrite ?orb_true_r.
Qed.

(** ** The loop *)

(** The call of [parse_args]. *)
Definition load_call : call := Long optstring long_opts.

Section loop.
Variable argc : Z.
Variable posix_env : bool.

(** An [exit] with [ms] on [stderr], or a configuration. *)
Definition ended (o : Config + list bytes) (r : Config + Z) s : Prop :=
  match o with
  | inl cfg => r = inl cfg
  | inr ms => r = inr EXIT_FAILURE ∧ ms `suffix_of` errors s
  end.

Lemma exit_with_ends ms s : wp (exit_with ms) (ended (inr ms)) s.
Proof.
  unfold exit_with. wp_steps. split; [done|]. revert s.
  enough (∀ s, errors (foldl (λ s m, add_error m s) s ms) = errors s ++ ms) as He.
  { intros s. rewrite He. by exists (errors s). }
  induction ms as [|m ms IH]; intros s; cbn [foldl]; [by rewrite app_nil_r|].
  rewrite IH. cbn. by rewrite <-app_assoc.
Qed.

(** The loop of [parse_args] and that of a caller that only collects. *)
Lemma parse_loop_drain n cfg s rs s' o :
  drain argc posix_env true load_call n s = (Ret rs, s') → Forall given rs →
  parse_options cfg rs = Ret o →
  wp (parse_loop argc posix_env n cfg) (ended o) s.
Proof.
  revert cfg s rs s'. induction n as [|n IH]; intros cfg s rs s'; cbn [drain parse_loop]; [done|].
  intros Hd Hg Ho. inv_ret Hd. apply (wp_bind_ret _ _ _ _ _ _ E). clear E.
  destruct (v =? -1)%Z eqn:Hv; [injection Hd as <- <-; injection Ho as <-; by wp_steps|].
  inv_ret Hd. injection E as <- <-. inv_ret Hd. injection Hd as <- <-.
  apply Forall_cons in Hg as [Hg Hrs]. revert Ho. cbn [parse_options].
  cbn [fst snd].
  intros Ho. wp_steps. unfold wp at 1.
  destruct (option_step _ _ _) as [[cfg'|ms]| | |]; [by eapply IH| |done..].
  injection Ho as <-. apply exit_with_ends.
Qed.
End loop.

Lemma load_options_plain : plain load_call.
Proof.
  split; apply Forall_forall; repeat constructor; discriminate.
Qed.

Lemma load_names : distinct_names long_opts.
Proof.
  split; [apply (bool_decide_unpack _); by vm_compute| |].
  - apply Forall_forall. repeat constructor; apply (bool_decide_unpack _); by vm_compute.
  - apply Forall_forall. repeat constructor; discriminate.
Qed.

(** Split a membership in a list of constants. *)
Ltac each_member H :=
  repeat (apply elem_of_cons in H as [->|H]); [..|by apply not_elem_of_nil in H].

Lemma typed_given md x prev : typed md optstring long_opts x → given (seen prev x).
Proof.
  unfold given, seen, gives. intros [c Hk|c v Hk|c a Hk|o a Ho Hreq Hno|w _ _| | |]; cbn [fst snd].
  1: pose proof (short_kind_elem _ _ _ Hk) as Hc; change optstring with
       ["t"; "s"; "a"; ":"; "n"; ":"; "r"; "h"]%char in Hc; each_member Hc.
  all: try (vm_compute in Hk; discriminate).
  all: try (intros [E|E]; vm_compute in E; discriminate).
  - exfalso. pose proof (short_kind_elem _ _ _ Hk) as Hc; change optstring with
       ["t"; "s"; "a"; ":"; "n"; ":"; "r"; "h"]%char in Hc. each_member Hc; vm_compute in Hk; discriminate.
  - change long_opts with (long_opts : list option_t) in Ho. unfold long_opts in Ho. each_member Ho.
    all: try (intros [E|E]; vm_compute in E; discriminate).
    all: intros _; cbn; by apply Hreq.
Qed.

Lemma deliver_given md prev rs :
  Forall (typed md optstring long_opts) rs → Forall given (deliver prev rs).
Proof. intros Hrs. revert prev. induction Hrs; constructor; eauto using typed_given. Qed.

(** What [getopt_long] tells the load generator of a command line. *)
Definition told (posix_env : bool) (ws : list bytes) : list option_result :=
  deliver None (results (parse_as load_call posix_env ws)).

(** ** [parse_args] *)

Lemma clients_typed rs c : c ∈ clients rs → c ≠ CtNone.
Proof.
  unfold clients. rewrite list_elem_of_omap. intros (x & _ & Hx). unfold client_of in Hx.
  by repeat case_match; simplify_eq.
Qed.

(** What is printed before the program exits. *)
Definition said (rs : list option_result) (r : Config + Z) s : Prop :=
  match r with inl _ => True | inr _ => complaint false rs `suffix_of` errors s end.

Lemma complaint_none one rs : forallb known rs = true → clients rs = [] → complaint one rs = one_required.
Proof.
  induction rs as [|x rs IH]; [done|]. cbn [forallb complaint]. intros [-> Hk]%andb_true_iff.
  rewrite clients_cons. cbn [negb]. destruct (client_of x); [done|]. by apply IH.
Qed.

Lemma parse_args_run posix_env prog ws fuel :
  chars ws < fuel →
  let rs := told posix_env ws in
  wp (parse_args (Z.of_nat (S (length ws))) posix_env fuel)
    (λ r s, r = read_options rs ∧ said rs r s) (init (prog :: ws)).
Proof.
  intros Hfuel rs'.
  pose proof (loop_spec load_call posix_env true load_options_plain prog ws fuel Hfuel) as Hd.
  apply wp_run in Hd as (rs & s & Hrun & Hrs & _).
  fold (told posix_env ws) in Hrs. subst rs'. rewrite <-Hrs.
  assert (Forall given rs) as Hg.
  { rewrite Hrs. unfold told. eapply deliver_given. apply parse_typed. }
  pose proof (parse_options_reads default_config rs Hg) as Ho.
  unfold parse_args. wp_steps. eapply wp_mono; [by apply (parse_loop_drain _ _ _ _ _ _ _ _ Hrun Hg Ho)|].
  unfold read_options. cbn [client_type default_config n_attempts n_threads run_server orb].
  rewrite bool_decide_true by done. cbn [negb]. clear Ho Hrun Hrs s.
  pose proof (complaint_none false rs) as Hnone.
  destruct (forallb known rs); [|by intros r s [-> Hm]; wp_steps].
  destruct (clients rs) as [|c [|]] eqn:Hc.
  - intros r s ->. cbn [client_type]. rewrite bool_decide_true by done.
    eapply wp_mono; [apply exit_with_ends|]. intros r s' [-> Hm]. split; [done|]. cbn. by rewrite Hnone.
  - intros r s ->. cbn [client_type]. rewrite bool_decide_false; [by wp_steps|].
    intros ->. by apply (clients_typed rs CtNone); [rewrite Hc; left|].
  - intros r s [-> Hm]. by wp_steps.
Qed.


(** The options are accepted only with exactly one of [-t] and [-s] among them, which is the
    kind of the client; every exit is a failure, also that of [-h]. *)
Theorem parse_args_client posix_env prog ws fuel r :
  chars ws < fuel →
  (parse_args (Z.of_nat (S (length ws))) posix_env fuel (init (prog :: ws))).1 = Ret r →
  match r with
  | inl cfg => clients (told posix_env ws) = [client_type cfg]
  | inr code => code = EXIT_FAILURE
  end.
Proof.
  intros Hfuel. pose proof (parse_args_run posix_env prog ws fuel Hfuel) as Hr.
  apply wp_run in Hr as (r' & s & -> & -> & _). intros [= <-]. unfold read_options.
  set (rs := told _ _). by destruct (forallb known rs), (clients rs) as [|c [|]].
Qed.

(** ** Numbers *)

Lemma digit_pretty x : (x < 10)%N → digit (pretty_N_char x) = Some (Z.of_N x).
Proof.
  intros Hx. assert (∀ n, n < 10 → digit (pretty_N_char (N.of_nat n)) = Some (Z.of_nat n)) as Hall.
  { intros n Hn. do 10 (destruct n as [|n]; [reflexivity|]). lia. }
  specialize (Hall (N.to_nat x)). rewrite N2Nat.id in Hall. rewrite Hall by lia. f_equal. lia.
Qed.

Lemma lit_cons c s : lit (String c s) = c :: lit s.
Proof. done. Qed.

(** What the digits of [x] do in front of [s]. *)
Lemma digits_pretty x s : digits 0 (lit (pretty_N_go x s)) = digits (Z.of_N x) (lit s).
Proof.
  revert s. induction (N.lt_wf_0 x) as [x _ IH]. intros s.
  destruct (decide (0 < x)%N); [|by replace x with 0%N by lia].
  rewrite pretty_N_go_step, IH by (done || apply N.div_lt; lia).
  rewrite lit_cons. cbn [digits]. rewrite digit_pretty by (apply N.mod_lt; lia).
  f_equal. pose proof (N.div_mod x 10). lia.
Qed.

Lemma pretty_head x s :
  (0 < x)%N → ∃ c s', lit (pretty_N_go x s) = c :: s' ∧ digit c ≠ None.
Proof.
  revert s. induction (N.lt_wf_0 x) as [x _ IH]. intros s Hx. rewrite pretty_N_go_step by done.
  destruct (decide (0 < x `div` 10)%N).
  - apply IH; [apply N.div_lt; lia|done].
  - assert (x `div` 10 = 0)%N as -> by (by apply N.le_0_r, N.nlt_ge). eexists _, _. split; [apply lit_cons|].
    by rewrite digit_pretty by (apply N.mod_lt; lia).
Qed.

Lemma digit_plain c :
  digit c ≠ None → is_space c = false ∧ c ≠ "-"%char ∧ c ≠ "+"%char.
Proof.
  unfold digit. destruct ((48 <=? nat_of_ascii c) && (nat_of_ascii c <=? 57)) eqn:E; [|done].
  apply andb_true_iff in E as [H1%Nat.leb_le H2%Nat.leb_le]. intros _. unfold is_space.
  assert (∀ d, nat_of_ascii d < 48 → c ≠ d) as Hne by (intros d ? ->; lia).
  split_and!; [|by apply Hne; vm_compute; lia..].
  rewrite bool_decide_false by (apply Hne; vm_compute; lia). cbn.
  apply andb_false_iff. right. apply Nat.leb_gt. lia.
Qed.

(** [strtoull] reads back what [std::to_string] prints. *)
Lemma strtoull_to_string n : (0 ≤ n ≤ ULLONG_MAX)%Z → strtoull (to_string n) = n.
Proof.
  intros Hn. assert (∃ c s, to_string n = c :: s ∧ digit c ≠ None ∧ digits 0 (to_string n) = n)
    as (c & s & Hs & Hc & Hd).
  { destruct n as [|p|p]; [by eexists _, _| |lia]. change (to_string _) with (lit (pretty_N_go (N.pos p) "")).
    destruct (pretty_head (N.pos p) "") as (c & s & Hs & Hc); [lia|].
    exists c, s. split_and!; [done|done|]. by rewrite digits_pretty. }
  destruct (digit_plain c Hc) as (Hsp & Hm & Hp). unfold strtoull. rewrite Hs in *.
  cbn [skip_spaces]. rewrite Hsp, (bool_decide_false _ Hm), (bool_decide_false _ Hp), Hd.
  by rewrite (proj2 (Z.ltb_ge _ _)) by lia.
Qed.

(** ** Printing a configuration *)

(** A letter or a long name, with an argument in the same or the next word. *)
Inductive style := Brief (same_word : bool) | Full (same_word : bool).

(** The long option of a letter. *)
Definition long_of (c : ascii) : option_t :=
  default (MkOption [] 0 None 0) (find (λ o, (val o =? char_int c)%Z) long_opts).

Definition print_flag (st : style) (c : ascii) : occurrence :=
  match st with Brief _ => Letters [c] | Full _ => Name false (long_of c) end.
Definition print_argument (st : style) (c : ascii) (v : bytes) : occurrence :=
  match st with Brief b => Letter c v b | Full b => NameArg false (long_of c) v b end.

Record styles := Styles {
  st_client : style;
  st_attempts : style;
  st_threads : style;
  st_server : style;
  (** the argument [--run-server] asks for *)
  server_word : bytes }.

Definition print_server (st : styles) : occurrence :=
  match st_server st with
  | Brief _ => Letters ["r"%char]
  | Full b => NameArg false (long_of "r") (server_word st) b
  end.

Definition print_config (st : styles) (cfg : Config) : list occurrence :=
  [print_flag (st_client st) (if bool_decide (client_type cfg = CtTCP) then "t" else "s")%char;
   print_argument (st_attempts st) "a" (to_string (n_attempts cfg));
   print_argument (st_threads st) "n" (to_string (n_threads cfg))] ++
  (if run_server cfg then [print_server st] else []).

Definition options_of (xs : list occurrence) : list occurrence :=
  filter (λ x, operand_words x = []) xs.

Lemma meaning_options xs : xs ≫= meaning = options_of xs ≫= meaning.
Proof.
  unfold options_of. induction xs as [|x xs IH]; [done|]. rewrite filter_cons. cbn.
  rewrite IH. case_decide; [done|]. by destruct x.
Qed.

Lemma to_string_nonempty n : (0 ≤ n ≤ ULLONG_MAX)%Z → to_string n ≠ [].
Proof. intros Hn He. apply strtoull_to_string in Hn. rewrite He in Hn. by subst n. Qed.

Lemma long_of_elem c : c ∈ lit "tsanrh" → long_of c ∈ long_opts ∧ long_value (long_of c) = char_int c.
Proof.
  change (lit "tsanrh") with ["t"; "s"; "a"; "n"; "r"; "h"]%char. intros Hc. each_member Hc.
  all: split; [vm_compute|reflexivity].
  all: repeat first [apply list_elem_of_here|apply list_elem_of_further].
Qed.

Lemma long_of_named c : c ∈ lit "tsanrh" → named TwoHyphens long_opts false (long_of c).
Proof. intros Hc. split; [by apply long_of_elem|done]. Qed.

Lemma two_unnamed cs : unnamed TwoHyphens long_opts cs.
Proof. discriminate. Qed.
#[local] Hint Resolve two_unnamed : core.

Lemma print_flag_ok md st c :
  c ∈ lit "ts" → legal md TwoHyphens optstring long_opts (print_flag st c) ∧
  meaning (print_flag st c) = [(char_int c, None)].
Proof.
  change (lit "ts") with ["t"; "s"]%char. intros Hc. each_member Hc; destruct st; cbn.
  all: split; [|reflexivity]; constructor; try discriminate; auto;
    try (by apply long_of_named; apply (bool_decide_unpack _); vm_compute).
  all: by repeat constructor.
Qed.

Lemma print_argument_ok md st c v :
  c ∈ lit "an" → v ≠ [] → legal md TwoHyphens optstring long_opts (print_argument st c v) ∧
  meaning (print_argument st c v) = [(char_int c, Some v)].
Proof.
  change (lit "an") with ["a"; "n"]%char. intros Hc Hv. each_member Hc; destruct st as [[]|[]]; cbn.
  all: split; [|reflexivity]; constructor; try discriminate; try done; auto.
  all: by apply long_of_named; apply (bool_decide_unpack _); vm_compute.
Qed.

Lemma print_server_ok md st :
  legal md TwoHyphens optstring long_opts (print_server st) ∧
  ∃ v, meaning (print_server st) = [(char_int "r", v)].
Proof.
  unfold print_server. destruct (st_server st) as [|[]]; (split; [|by eexists]).
  all: constructor; try discriminate; try done; auto;
    try (by apply long_of_named; apply (bool_decide_unpack _); vm_compute).
  all: by repeat constructor.
Qed.

Lemma print_config_ok md st cfg :
  client_type cfg ≠ CtNone → (0 ≤ n_attempts cfg ≤ ULLONG_MAX)%Z →
  (0 ≤ n_threads cfg ≤ ULLONG_MAX)%Z →
  Forall (legal md TwoHyphens optstring long_opts) (print_config st cfg) ∧
  read_options (print_config st cfg ≫= meaning) = inl cfg.
Proof.
  intros Ht Ha Hn. unfold print_config.
  set (c := (if bool_decide _ then _ else _) : ascii).
  assert (c ∈ lit "ts") as Hc by (unfold c; case_bool_decide; apply (bool_decide_unpack _); by vm_compute).
  destruct (print_flag_ok md (st_client st) c Hc) as [Hl1 Hm1].
  destruct (print_argument_ok md (st_attempts st) "a" (to_string (n_attempts cfg))) as [Hl2 Hm2];
    [apply (bool_decide_unpack _); by vm_compute|by apply to_string_nonempty|].
  destruct (print_argument_ok md (st_threads st) "n" (to_string (n_threads cfg))) as [Hl3 Hm3];
    [apply (bool_decide_unpack _); by vm_compute|by apply to_string_nonempty|].
  destruct (print_server_ok md st) as (Hl4 & v & Hm4). split.
  { repeat (constructor; [done|]). destruct (run_server cfg); by repeat constructor. }
  cbn [mbind list_bind app]. rewrite Hm1, Hm2, Hm3.
  apply strtoull_to_string in Ha, Hn. revert Ha Hn.
  destruct cfg as [[| |] a n []]; [done|done|..]; cbn [run_server]; cbn [mbind list_bind app]; rewrite ?Hm4.
  all: cbn [n_attempts n_threads]; intros Ha Hn; lazy -[to_string strtoull]; by rewrite Ha, Hn.
Qed.

(** C33: Every configuration of the load generator with a client type, printed in any form of
    its options (--run-server with the argument its declaration asks for) with operands anywhere
    among them (unless POSIXLY_CORRECT is set), is parsed back by parse_args to itself, for all
    numbers below 2^64. *)
Theorem config_roundtrip posix_env st cfg xs end_ prog fuel :
  client_type cfg ≠ CtNone → (0 ≤ n_attempts cfg ≤ ULLONG_MAX)%Z →
  (0 ≤ n_threads cfg ≤ ULLONG_MAX)%Z →
  options_of xs = print_config st cfg →
  Forall (λ w, posix_env = false ∧ is_option w = false) (xs ≫= operand_words) →
  let ws := command_line xs end_ in
  chars ws < fuel →
  ∃ s, parse_args (Z.of_nat (S (length ws))) posix_env fuel (init (prog :: ws)) = (Ret (inl cfg), s).
Proof.
  intros Ht Ha Hn Hxs Hops ws Hfuel. destruct (print_config_ok (mode_of optstring posix_env) st cfg Ht Ha Hn) as [Hl Hr].
  assert (Forall (legal (mode_of optstring posix_env) TwoHyphens optstring long_opts) xs) as Hlegal.
  { rewrite <-Hxs in Hl. clear -Hl Hops. unfold options_of in Hl.
    induction xs as [|x xs IH]; [constructor|]. rewrite filter_cons in Hl. cbn in Hops.
    apply Forall_app in Hops as [Hx Hops]. destruct x as [| | | |w]; cbn in *.
    5: { apply Forall_cons in Hx as [[-> ?] _]. constructor; [by constructor|auto]. }
    all: apply Forall_cons in Hl as [? Hl]; constructor; auto. }
  assert (told posix_env ws = xs ≫= meaning) as Htold.
  { unfold told, parse_as, ws. rewrite parse_command_line by (done || apply load_names).
    apply deliver_gives. }
  pose proof (parse_args_run posix_env prog ws fuel Hfuel) as Hp. cbn zeta in Hp.
  rewrite Htold, meaning_options, Hxs, Hr in Hp.
  apply wp_run in Hp as (r & s & Hrun & -> & _). by exists s.
Qed.

(** A colon of [optstring] is taken for an option: [-:] is one without an
    argument. *)
Example colon_is_an_option : short_kind optstring ":" = Some NoArg ∧
  (parse_args 3 false 10 (init (lit <$> ["prog"; "-t"; "-:"]%string))).1 = Ret (inr EXIT_FAILURE).
Proof. vm_compute. split; reflexivity. Qed.
