(* ===== verification/LoadMain.v ===== *)
(** * The main of loadtest/loadtest.cc: the server process and the threads

    [run_server] and [kill_server] over the calls of POSIX, and [main] from the
    configuration on as a step relation: the main thread spawns and joins the
    others, which attempt their requests and append the results under the mutex,
    one access at a time.  An attempt runs in whatever world the other threads
    and the server have made: the steps do not fix it. *)

From S2P Require Import Prelude Cpp Log OS OpenSSL Connection TCPServer Client ClientSpec LoadTest.

(** ** The clients *)

Section create_client.
Context {K : Type} `{Kernel K} `{!OpenSSL K} `{Platform}.

(** [std::unique_ptr<Client>]: the virtual calls go to the object's class. *)
#[export] Instance client_ops fuel : ClientOps (TCPClient.t + SSLClient.t) (world K) := {|
  client_send c := match c with inl c => TCPClient.send fuel c | inr c => SSLClient.send fuel c end;
  client_recv c := match c with inl c => TCPClient.recv c | inr c => SSLClient.recv c end;
  client_destroy c := match c with inl c => TCPClient.destroy c | inr c => SSLClient.destroy c end;
|}.

(** Beside the world, the static context of [SSLClient]. *)
Definition create_client (fuel : nat) (cfg : Config) :
    M (Z * world K) (TCPClient.t + SSLClient.t) :=
  if bool_decide (client_type cfg = CtTCP)
  then c ← on_snd (TCPClient.make (lit "127.0.0.1") 23456); mret (inl c)
  else c ← SSLClient.make fuel (lit "127.0.0.1") 23457; mret (inr c).

(** The same, from the static context [ctx]. *)
Definition create_client_with (ctx : Z) (fuel : nat) (cfg : Config) :
    M (world K) (TCPClient.t + SSLClient.t) := λ w,
  let '(o, (_, w')) := create_client fuel cfg (ctx, w) in (o, w').
End create_client.

(** ** The server process *)

(** [execlp] is [None] when the image was replaced; it returns only to fail. *)
Class Process (K : Type) := {
  sys_fork : K → Z * K;
  sys_execlp : bytes → list bytes → K → option Z * K;
  sys_kill : Z → Z → K → Z * K;
  sys_waitpid : Z → K → (Z * Z) * K;
  sys_sleep_for : Z → K → () * K;
}.

Definition SIGTERM : Z := 15.

(** What comes out of [run_server]: the parent with the number [fork] gave it,
    or the child, whose image is the server's or which exits. *)
Inductive forked := Parent (pid : Z) | ServerImage | ChildExit (status : Z).

Section process.
Context {K : Type} `{!Process K}.

(** The [argv] of the server. *)
Definition server_argv (type : ClientType) : list bytes :=
  [lit "./neblina-load-test-server"; if bool_decide (type = CtTCP) then lit "-t" else lit "-s"].

Definition run_server (type : ClientType) : M (world K) forked :=
  pid ← sys sys_fork;
  if (pid =? 0)%Z then
    r ← sys (sys_execlp (lit "./neblina-load-test-server") (server_argv type));
    mret (match r with None => ServerImage | Some _ => ChildExit 127 end)
  else
    sys (sys_sleep_for 300) ;;
    mret (Parent pid).

Definition kill_server (pid : Z) : M (world K) unit :=
  _ ← sys (sys_kill pid SIGTERM);
  _ ← sys (sys_waitpid pid);
  mret ().
End process.

(** The same on Windows. *)
Module Win32.
Record PROCESS_INFORMATION := MkProcess { hProcess : Z; hThread : Z; dwProcessId : Z }.

Class ProcessWin32 (K : Type) := {
  CreateProcessA : bytes → K → (Z * PROCESS_INFORMATION) * K;
  GenerateConsoleCtrlEvent : Z → Z → K → Z * K;
  WaitForSingleObject : Z → Z → K → Z * K;
  TerminateProcess : Z → Z → K → Z * K;
  CloseHandle : Z → K → Z * K;
}.

Definition CTRL_BREAK_EVENT : Z := 1.
Definition WAIT_OBJECT_0 : Z := 0.
Definition INFINITE : Z := 4294967295.

Section process.
Context {K : Type} `{!Process K} `{!ProcessWin32 K}.

Definition run_server (type : ClientType) : M (world K) PROCESS_INFORMATION :=
  let cmd := lit "./neblina-load-test-server " ++
             (if bool_decide (type = CtTCP) then lit "-t" else lit "-s") in
  created ← sys (CreateProcessA cmd);
  if (created.1 =? 0)%Z then raise (runtime_error (lit "Failed to start server"))
  else
    sys (sys_sleep_for 300) ;;
    mret created.2.

(** The label [cleanup]. *)
Definition cleanup (h : PROCESS_INFORMATION) : M (world K) unit :=
  _ ← sys (CloseHandle (hProcess h));
  _ ← sys (CloseHandle (hThread h));
  mret ().

Definition kill_server (h : PROCESS_INFORMATION) : M (world K) unit :=
  sent ← sys (GenerateConsoleCtrlEvent CTRL_BREAK_EVENT (dwProcessId h));
  exited ← (if negb (sent =? 0)%Z then
              r ← sys (WaitForSingleObject (hProcess h) 3000);
              mret (r =? WAIT_OBJECT_0)%Z
            else mret false);
  if (exited : bool) then cleanup h
  else
    _ ← sys (TerminateProcess (hProcess h) 1);
    _ ← sys (WaitForSingleObject (hProcess h) INFINITE);
    cleanup h.
End process.
End Win32.

(** ** The threads *)

(** A thread of the pool with [j] attempts behind it: at the test of its loop,
    waiting for the mutex with a result, in the critical section, or behind it at
    the end of the body.  From the attempt to that end it owns the client. *)
Inductive thread (C : Type) :=
  | AtLoop (j : nat)
  | Waiting (j : nat) (r : Result) (client : option C)
  | Holding (j : nat) (r : Result) (client : option C)
  | Leaving (j : nat) (client : option C)
  | Finished.
#[global] Arguments AtLoop {C}.
#[global] Arguments Waiting {C}.
#[global] Arguments Holding {C}.
#[global] Arguments Leaving {C}.
#[global] Arguments Finished {C}.

(** The main thread: before [run_server], in the loop that spawns or the one
    that joins, after the report, behind [kill_server], and gone; [Terminated]
    is [std::terminate]. *)
Inductive phase :=
  | Starting
  | Spawning (i : Z)
  | Joining (i : Z)
  | Reported (code : Z)
  | Killed (code : Z)
  | Returned (code : Z)
  | Terminated.

(** [signalled] lists the arguments of [kill_server]. *)
Record state (C : Type) := State {
  main_at : phase;
  pool : list (thread C);
  mutex : option nat;
  results : list Result;
  server_pid : option Z;
  signalled : list Z }.
#[global] Arguments State {C}.
#[global] Arguments main_at {C}.
#[global] Arguments pool {C}.
#[global] Arguments mutex {C}.
#[global] Arguments results {C}.
#[global] Arguments server_pid {C}.
#[global] Arguments signalled {C}.

Definition start {C} : state C := State Starting [] None [] None [].

(** The program has not ended. *)
Definition live (p : phase) : bool :=
  match p with Returned _ | Terminated => false | _ => true end.

Section main.
Context {C K : Type} `{!ClientOps C (world K)} `{!Clock K} `{!Rand K} `{!Process K}.
Variable config : Config.
Variable fuel : nat.
Variable create : M (world K) C.

(** The main thread. *)
Inductive main_step : state C → state C → Prop :=
  | s_no_server ts m rs p k :
      LoadTest.run_server config = false →
      main_step (State Starting ts m rs p k) (State (Spawning 0) ts m rs p k)
  | s_server w w' pid ts m rs p k :
      LoadTest.run_server config = true →
      run_server (client_type config) w = (Ret (Parent pid), w') →
      main_step (State Starting ts m rs p k) (State (Spawning 0) ts m rs (Some pid) k)
  | s_spawn i ts m rs p k :
      (i < n_threads config)%Z →
      main_step (State (Spawning i) ts m rs p k) (State (Spawning (i + 1)) (ts ++ [AtLoop 0]) m rs p k)
  | s_spawned i ts m rs p k :
      (n_threads config ≤ i)%Z →
      main_step (State (Spawning i) ts m rs p k) (State (Joining 0) ts m rs p k)
  | s_join i ts m rs p k :
      (i < n_threads config)%Z → ts !! Z.to_nat i = Some Finished →
      main_step (State (Joining i) ts m rs p k) (State (Joining (i + 1)) ts m rs p k)
  | s_report i ts m rs p k :
      (n_threads config ≤ i)%Z →
      main_step (State (Joining i) ts m rs p k)
        (State (Reported (exit_code (report rs))) ts m rs p k)
  | s_kill w w' pid code ts m rs k :
      LoadTest.run_server config = true → kill_server pid w = (Ret (), w') →
      main_step (State (Reported code) ts m rs (Some pid) k)
        (State (Killed code) ts m rs (Some pid) (k ++ [pid]))
  | s_no_kill code ts m rs p k :
      LoadTest.run_server config = false →
      main_step (State (Reported code) ts m rs p k) (State (Killed code) ts m rs p k)
  | s_return code ts m rs p k :
      main_step (State (Killed code) ts m rs p k) (State (Returned code) ts m rs p k).

(** Thread [i]. *)
Inductive thread_step : state C → state C → Prop :=
  | t_attempt i j w r c w' at_ ts m rs p k :
      live at_ = true → ts !! i = Some (AtLoop j) → (Z.of_nat j < n_attempts config)%Z →
      attempt fuel create w = (Ret (r, c), w') →
      thread_step (State at_ ts m rs p k) (State at_ (<[i := Waiting j r c]> ts) m rs p k)
  | t_throw i j w e w' at_ ts m rs p k :
      live at_ = true → ts !! i = Some (AtLoop j) → (Z.of_nat j < n_attempts config)%Z →
      attempt fuel create w = (Throw e, w') →
      thread_step (State at_ ts m rs p k) (State Terminated ts m rs p k)
  | t_lock i j r c at_ ts rs p k :
      live at_ = true → ts !! i = Some (Waiting j r c) →
      thread_step (State at_ ts None rs p k) (State at_ (<[i := Holding j r c]> ts) (Some i) rs p k)
  | t_append i j r c at_ ts m rs p k :
      live at_ = true → ts !! i = Some (Holding j r c) →
      thread_step (State at_ ts m rs p k)
        (State at_ (<[i := Leaving j c]> ts) None (rs ++ [r]) p k)
  | t_drop i j c w w' at_ ts m rs p k :
      live at_ = true → ts !! i = Some (Leaving j c) → drop_client c w = (Ret (), w') →
      thread_step (State at_ ts m rs p k) (State at_ (<[i := AtLoop (S j)]> ts) m rs p k)
  | t_finish i j at_ ts m rs p k :
      live at_ = true → ts !! i = Some (AtLoop j) → (n_attempts config ≤ Z.of_nat j)%Z →
      thread_step (State at_ ts m rs p k) (State at_ (<[i := Finished]> ts) m rs p k).

Definition step (s s' : state C) : Prop := main_step s s' ∨ thread_step s s'.
End main.
