(* ===== verification/LoadMainSpec.v ===== *)
(** * What the load generator's main guarantees

    In every interleaving of the threads: the results at the report are as many
    as were asked for, the server is signalled exactly when it was started and
    only after the last thread, every run is bounded, and none gets stuck. *)

From S2P Require Import Prelude Cpp Log OS Connection TCPServer Client ClientSpec LoadTest.
From S2P Require Import Apps LoadTestSpec LoadMain.

Lemma sum_list_with_insert {A} (f : A → nat) (l : list A) i x y :
  l !! i = Some x → sum_list_with f (<[i:=y]> l) + f x = sum_list_with f l + f y.
Proof.
  revert i. induction l as [|z l IH]; intros [|i]; cbn; [done|done|intros [= ->]; lia|].
  intros Hi%IH. rewrite <-!Nat.add_assoc. by f_equal.
Qed.

Lemma insert_snoc_lookup {A} (l : list A) x i y :
  (l ++ [x]) !! i = Some y → l !! i = Some y ∨ (i = length l ∧ y = x).
Proof.
  intros Hi. destruct (decide (i < length l)).
  - rewrite lookup_app_l in Hi by done. auto.
  - rewrite lookup_app_r in Hi by lia. right.
    apply list_lookup_singleton_Some in Hi as [? ->]. split; [lia|done].
Qed.

Section main.
Context {C K : Type} `{!ClientOps C (world K)} `{!Clock K} `{!Rand K} `{!Process K}.
Variable config : Config.
Variable fuel : nat.
Variable create : M (world K) C.

Abbreviation main_step := (main_step (K:=K) config).
Abbreviation thread_step := (thread_step config fuel create).
Abbreviation step := (step config fuel create).
Abbreviation N := (Z.to_nat (n_threads config)).
Abbreviation A := (Z.to_nat (n_attempts config)).

(** Both are a [size_t]. *)
Hypothesis threads_nonneg : (0 ≤ n_threads config)%Z.
Hypothesis attempts_nonneg : (0 ≤ n_attempts config)%Z.

(** A result some attempt ends in. *)
Definition possible (r : Result) : Prop := ∃ w c w', attempt fuel create w = (Ret (r, c), w').

(** The results a thread has appended. *)
Definition appended (t : thread C) : nat :=
  match t with
  | AtLoop j | Waiting j _ _ | Holding j _ _ => j
  | Leaving j _ => S j
  | Finished => A
  end.

Definition thread_ok (t : thread C) : Prop :=
  match t with
  | AtLoop j => j ≤ A
  | Waiting j r _ | Holding j r _ => j < A ∧ possible r
  | Leaving j _ => j < A
  | Finished => True
  end.

Definition phase_ok (p : phase) (ts : list (thread C)) (rs : list Result) : Prop :=
  match p with
  | Starting => ts = []
  | Spawning i => (0 ≤ i ≤ n_threads config)%Z ∧ length ts = Z.to_nat i
  | Joining i => (0 ≤ i ≤ n_threads config)%Z ∧ length ts = N ∧
      ∀ n, n < Z.to_nat i → ts !! n = Some Finished
  | Reported code | Killed code | Returned code =>
      ts = replicate N Finished ∧ code = exit_code (report rs)
  | Terminated => True
  end.

Definition server_ok (p : phase) (pid : option Z) (k : list Z) : Prop :=
  match p with
  | Starting => pid = None ∧ k = []
  | Terminated => k = []
  | Spawning _ | Joining _ | Reported _ => (LoadTest.run_server config = true ↔ is_Some pid) ∧ k = []
  | Killed _ | Returned _ =>
      (LoadTest.run_server config = true ↔ is_Some pid) ∧ k = option_list pid
  end.

Record inv (s : state C) : Prop := {
  i_phase : phase_ok (main_at s) (pool s) (results s);
  i_threads : ∀ i t, pool s !! i = Some t → thread_ok t;
  i_owner : ∀ i, mutex s = Some i ↔ ∃ j r c, pool s !! i = Some (Holding j r c);
  i_count : length (results s) = sum_list_with appended (pool s);
  i_results : Forall possible (results s);
  i_server : server_ok (main_at s) (server_pid s) (signalled s) }.

Lemma inv_start : inv start.
Proof.
  split; cbn; try done.
  - intros i. split; [done|]. intros (j & r & c & Hi). by rewrite lookup_nil in Hi.
Qed.

(** Where a thread is about to move, the main thread has not reported. *)
Lemma live_phase_update p ts rs rs' i t t' :
  phase_ok p ts rs → live p = true → ts !! i = Some t → t ≠ Finished →
  phase_ok p (<[i:=t']> ts) rs'.
Proof.
  intros Hp Hl Hi Hne.
  assert (∀ n, ts = replicate n Finished → False) as Hall.
  { intros n ->. apply lookup_replicate in Hi as [-> _]. done. }
  destruct p as [|k|k|c|c|c|]; cbn in *; try done; try (destruct Hp; naive_solver).
  - by subst ts.
  - by rewrite length_insert.
  - destruct Hp as (Hk & Hlen & Hf). rewrite length_insert. split_and!; try done; try lia.
    intros n Hn. destruct (decide (i = n)) as [->|]; [|rewrite list_lookup_insert_ne by done; auto].
    rewrite Hf in Hi by done. congruence.
Qed.

(** A step of thread [i] from [t] to [t']. *)
Lemma thread_update s i t t' m' rs' :
  inv s → live (main_at s) = true → pool s !! i = Some t → t ≠ Finished → thread_ok t' →
  (∀ n, m' = Some n ↔ ∃ j r c, <[i:=t']> (pool s) !! n = Some (Holding j r c)) →
  length rs' + appended t = length (results s) + appended t' → Forall possible rs' →
  inv (State (main_at s) (<[i:=t']> (pool s)) m' rs' (server_pid s) (signalled s)).
Proof.
  intros [] Hl Hi Hne Ht' Hm Hc Hrs. split; cbn; try done.
  - by eapply live_phase_update.
  - intros n x Hn. apply list_lookup_insert_Some in Hn as [(<- & <- & _)|[_ Hn]]; eauto.
  - pose proof (sum_list_with_insert appended _ _ _ t' Hi). lia.
Qed.

Lemma owner_unchanged (ts : list (thread C)) (m : option nat) (i : nat) (t t' : thread C) :
  (∀ n, m = Some n ↔ ∃ j r c, ts !! n = Some (Holding j r c)) →
  ts !! i = Some t → (∀ j r c, t ≠ Holding j r c) → (∀ j r c, t' ≠ Holding j r c) →
  ∀ n, m = Some n ↔ ∃ j r c, <[i:=t']> ts !! n = Some (Holding j r c).
Proof.
  intros Hm Hi Ht Ht' n. rewrite Hm. destruct (decide (i = n)) as [->|].
  - rewrite list_lookup_insert_eq by by eapply lookup_lt_Some. rewrite Hi. naive_solver.
  - by rewrite list_lookup_insert_ne.
Qed.

Lemma inv_main_step s s' : inv s → main_step s s' → inv s'.
Proof.
  intros [] Hstep. destruct Hstep as [ts m rs p k Hr|w w' pid ts m rs p k Hr Hw
    |i ts m rs p k Hi|i ts m rs p k Hi|i ts m rs p k Hi Hf|i ts m rs p k Hi
    |w w' pid code ts m rs k Hr Hw|code ts m rs p k Hr|code ts m rs p k]; cbn in *.
  - destruct i_server0 as [-> ->]. subst ts. split; cbn; try done.
    split; [|done]. rewrite Hr. split; [done|]. by intros [].
  - destruct i_server0 as [_ ->]. subst ts. split; cbn; try done.
  - split; cbn; try done.
    + rewrite length_app. cbn. lia.
    + intros n t Hn. apply insert_snoc_lookup in Hn as [Hn|[_ ->]]; [eauto|cbn; lia].
    + intros n. rewrite i_owner0. split; intros (j & r & c & Hn); exists j, r, c.
      * by apply lookup_app_l_Some.
      * by apply insert_snoc_lookup in Hn as [Hn|[_ Hn]].
    + rewrite i_count0, sum_list_with_app. cbn. lia.
  - split; cbn; try done. split; [lia|]. split; [|lia]. destruct i_phase0 as [? ->]. lia.
  - split; cbn; try done. destruct i_phase0 as (? & ? & Hall). split; [lia|]. split; [done|].
    intros n Hn. destruct (decide (n = Z.to_nat i)) as [->|]; [done|]. apply Hall. lia.
  - split; cbn; try done. destruct i_phase0 as (? & Hlen & Hall). split; [|done].
    apply list_eq. intros n. destruct (decide (n < N)).
    + rewrite Hall, lookup_replicate_2 by lia. done.
    + rewrite !lookup_ge_None_2; [done|rewrite length_replicate; lia|lia].
  - destruct i_server0 as [Hp ->]. split; cbn; try done.
  - destruct i_server0 as [Hp ->]. split; cbn; try done. split; [done|].
    destruct p; [|done]. rewrite Hr in Hp. by discriminate (proj2 Hp).
  - split; cbn; done.
Qed.

Lemma inv_thread_step s s' : inv s → thread_step s s' → inv s'.
Proof.
  intros Hs Hstep. pose proof Hs as [].
  destruct Hstep as [i j w r c w' at_ ts m rs p k Hl Hi Hj Ha|i j w e w' at_ ts m rs p k Hl Hi Hj Ha
    |i j r c at_ ts rs p k Hl Hi|i j r c at_ ts m rs p k Hl Hi|i j c w w' at_ ts m rs p k Hl Hi Hd
    |i j at_ ts m rs p k Hl Hi Hj]; cbn in *.
  - apply (thread_update _ i (AtLoop j) (Waiting j r c) m rs Hs); try done; cbn.
    + split; [lia|]. by exists w, c, w'.
    + by eapply owner_unchanged.
  - split; cbn; try done. destruct at_; cbn in *; try done; try apply i_server0.
    all: destruct i_phase0 as [-> _]; by apply lookup_replicate in Hi as [[=] _].
  - apply (thread_update _ i (Waiting j r c) (Holding j r c) (Some i) rs Hs); try done; cbn.
    + exact (i_threads0 i _ Hi).
    + intros n. destruct (decide (i = n)) as [->|].
      * rewrite list_lookup_insert_eq by by eapply lookup_lt_Some. naive_solver.
      * rewrite list_lookup_insert_ne by done. rewrite <-i_owner0. naive_solver.
  - destruct (i_threads0 i _ Hi) as [Hj Hr].
    apply (thread_update _ i (Holding j r c) (Leaving j c) None (rs ++ [r]) Hs); try done; cbn.
    + intros n. destruct (decide (i = n)) as [->|].
      * rewrite list_lookup_insert_eq by by eapply lookup_lt_Some. naive_solver.
      * rewrite list_lookup_insert_ne by done. rewrite <-i_owner0.
        assert (m = Some i) as -> by (apply i_owner0; eauto). naive_solver.
    + rewrite length_app. cbn. lia.
    + apply Forall_app. by repeat constructor.
  - pose proof (i_threads0 i _ Hi) as Hj. cbn in Hj.
    apply (thread_update _ i (Leaving j c) (AtLoop (S j)) m rs Hs); try done; cbn.
    by eapply owner_unchanged.
  - pose proof (i_threads0 i _ Hi) as Hj'. cbn in Hj'.
    apply (thread_update _ i (AtLoop j) Finished m rs Hs); try done; cbn; [|lia].
    by eapply owner_unchanged.
Qed.

Lemma inv_steps s : rtc step start s → inv s.
Proof.
  intros H. remember start as s0. assert (inv s0) as Hi by (subst; apply inv_start). clear Heqs0.
  induction H as [|s1 s2 s3 [H|H]]; [done|eauto using inv_main_step|eauto using inv_thread_step].
Qed.

(** ** Every run is bounded *)

(** The steps a thread has left, and those of the main thread with the threads
    it has not spawned. *)
Definition thread_left (t : thread C) : nat :=
  match t with
  | AtLoop j => 4 * (A - j) + 1
  | Waiting j _ _ => 4 * (A - j)
  | Holding j _ _ => 4 * (A - j) - 1
  | Leaving j _ => 4 * (A - j) - 2
  | Finished => 0
  end.

Definition phase_left (p : phase) : nat :=
  match p with
  | Starting => N * (4 * A + 3) + 6
  | Spawning i => (N - Z.to_nat i) * (4 * A + 2) + N + 5
  | Joining i => (N - Z.to_nat i) + 4
  | Reported _ => 3
  | Killed _ => 2
  | Returned _ | Terminated => 0
  end.

Definition left (s : state C) : nat :=
  phase_left (main_at s) + sum_list_with thread_left (pool s).

Lemma main_step_decreases s s' : inv s → main_step s s' → left s' < left s.
Proof.
  intros [Hp _ _ _ _ _] Hstep. unfold left. destruct Hstep; cbn [main_at pool phase_left] in *;
    cbn in Hp; rewrite ?sum_list_with_app; cbn [sum_list_with thread_left]; try lia.
  replace (N - Z.to_nat i) with (S (N - Z.to_nat (i + 1))) by lia. nia.
Qed.

Lemma thread_step_decreases s s' : inv s → thread_step s s' → left s' < left s.
Proof.
  intros [_ Ht _ _ _ _] Hstep.
  assert (∀ i t t', pool s !! i = Some t → thread_left t' < thread_left t →
    sum_list_with thread_left (<[i:=t']> (pool s)) < sum_list_with thread_left (pool s)) as Hsum.
  { intros i t t' Hi Hl. pose proof (sum_list_with_insert thread_left _ _ _ t' Hi). lia. }
  unfold left. destruct Hstep as [i j w r c w' p ts m rs pid k Hl Hi Hj Ha|i j w e w' p ts m rs pid k Hl Hi Hj Ha
    |i j r c p ts rs pid k Hl Hi|i j r c p ts m rs pid k Hl Hi|i j c w w' p ts m rs pid k Hl Hi Hd
    |i j p ts m rs pid k Hl Hi Hj]; cbn [main_at pool] in *.
  2: { assert (0 < phase_left p) by (destruct p; try discriminate; cbn [phase_left]; nia). cbn. lia. }
  all: apply Nat.add_lt_mono_l; apply (Hsum _ _ _ Hi); specialize (Ht _ _ Hi); cbn in *;
    try destruct Ht as [? _]; lia.
Qed.

Lemma step_decreases s s' : inv s → step s s' → inv s' ∧ left s' < left s.
Proof.
  intros Hs [H|H].
  - eauto using inv_main_step, main_step_decreases.
  - eauto using inv_thread_step, thread_step_decreases.
Qed.

(** ** No live state is stuck *)

Lemma kill_server_returns pid w : ∃ w', kill_server (K:=K) pid w = (Ret (), w').
Proof.
  unfold kill_server. rewrite run_bind, run_sys. destruct (sys_kill _ _ _) as [x k].
  rewrite run_bind, run_sys. destruct (sys_waitpid _ _) as [y k']. eauto.
Qed.

Definition attempt_ends : Prop :=
  ∃ w, match (attempt fuel create w).1 with Ret _ | Throw _ => True | _ => False end.
(** The destructor of a client can return. *)
Definition clients_close : Prop :=
  ∀ c : C, ∃ w w', client_destroy c w = (Ret (), w').
Definition server_starts : Prop :=
  LoadTest.run_server config = true →
  ∃ (w : world K) pid w', run_server (client_type config) w = (Ret (Parent pid), w').

(** A thread that has not finished can move, or waits for one that can. *)
Lemma thread_progress s i t :
  inv s → attempt_ends → clients_close → live (main_at s) = true → pool s !! i = Some t → t ≠ Finished →
  ∃ s', thread_step s s'.
Proof.
  intros [_ Ht Ho _ _ _] (w & Ha) Hclose Hl Hi Hne. destruct s as [p ts m rs pid k].
  cbn [main_at pool mutex] in *. destruct t as [j|j r c|j r c|j c|]; [| | | |done].
  - destruct (decide (Z.of_nat j < n_attempts config)%Z).
    + destruct (attempt fuel create w) as [[[r c]|e| |] w'] eqn:E; [| |done|done];
        eexists; [by eapply t_attempt|by eapply t_throw].
    + eexists. eapply t_finish; [done|done|lia].
  - destruct m as [n|]; [|eexists; by eapply t_lock].
    destruct (proj1 (Ho n) eq_refl) as (j' & r' & c' & Hn). eexists. by eapply t_append.
  - eexists. by eapply t_append.
  - destruct c as [c|]; [|eexists; by eapply t_drop with (w := w)].
    destruct (Hclose c) as (w1 & w2 & Hd). eexists. by eapply t_drop with (w := w1).
Qed.

Lemma progress s :
  inv s → attempt_ends → clients_close → server_starts → live (main_at s) = true → ∃ s', step s s'.
Proof.
  intros Hs Ha Hclose Hserver Hl. pose proof Hs as [Hp _ _ _ _ Hsv].
  destruct s as [[|i|i|code|code|code|] ts m rs pid k]; cbn in *; try done.
  - destruct (LoadTest.run_server config) eqn:Hr.
    + destruct (Hserver Hr) as (w & n & w' & Hw). eexists. left. by eapply s_server.
    + eexists. left. by apply s_no_server.
  - destruct (Z.ltb_spec i (n_threads config)); eexists; left; [by apply s_spawn|by apply s_spawned].
  - destruct (Z.ltb_spec i (n_threads config)); [|eexists; left; by apply s_report].
    assert (Z.to_nat i < length ts) as Hlt by lia. apply lookup_lt_is_Some in Hlt as [t Ht].
    assert (t = Finished ∨ t ≠ Finished) as [-> |Hne] by (destruct t; auto).
    + eexists. left. by apply s_join.
    + edestruct thread_progress as [s' H']; [exact Hs|done|done|done|exact Ht|done|]. exists s'. by right.
  - destruct Hsv as [Hiff _]. destruct (LoadTest.run_server config) eqn:Hr.
    + destruct (proj1 Hiff eq_refl) as [n ->]. destruct (Hserver Hr) as (w & _).
      destruct (kill_server_returns n w) as [w' Hw].
      eexists. left. by eapply s_kill.
    + eexists. left. by apply s_no_kill.
  - eexists. left. by apply s_return.
Qed.
End main.

(** ** The theorems *)

Section theorems.
Context {C K : Type} `{!ClientOps C (world K)} `{!Clock K} `{!Rand K} `{!Process K}.
Variable config : Config.
Variable fuel : nat.
Variable create : M (world K) C.
(** Both are a [size_t]. *)
Hypothesis threads_nonneg : (0 ≤ n_threads config)%Z.
Hypothesis attempts_nonneg : (0 ≤ n_attempts config)%Z.

Abbreviation step := (step config fuel create).

Lemma reachable s : rtc step start s → inv config fuel create s.
Proof. by apply inv_steps. Qed.

Lemma sum_replicate {X} (f : X → nat) n x : sum_list_with f (replicate n x) = n * f x.
Proof. induction n; cbn; [done|]. lia. Qed.

(** C15: In every interleaving of the load generator's threads that returns, the report has
    exactly n_threads times n_attempts results, each the result of an attempt; the exit status
    is EXIT_SUCCESS exactly when all succeeded; and the server process is signalled once,
    exactly when it was started, which means that run_server was called (a fork that fails
    counts as started: LoadMainSpec.fork_failure_unnoticed). *)
Theorem main_results s code :
  rtc step start s → main_at s = Returned code →
  Z.of_nat (length (results s)) = (n_threads config * n_attempts config)%Z ∧
  Forall (λ r, ∃ w c w', attempt fuel create w = (Ret (r, c), w')) (results s) ∧
  code = exit_code (report (results s)) ∧
  (code = EXIT_SUCCESS ↔ Forall (λ r, output r = Success) (results s)) ∧
  (LoadTest.run_server config = true ↔ is_Some (server_pid s)) ∧
  signalled s = option_list (server_pid s).
Proof.
  intros Hs Hcode. destruct (reachable s Hs) as [Hp _ _ Hc Hr Hsv]. rewrite Hcode in Hp, Hsv.
  destruct Hp as [Hpool ->]. destruct Hsv as [Hiff Hk].
  rewrite Hpool, sum_replicate in Hc. cbn in Hc.
  split; [nia|]. split; [exact Hr|]. split; [done|]. split; [apply exit_code_success|]. done.
Qed.

(** C27: Every run of the load generator's main has at most n_threads * (4 * n_attempts + 3) + 6
    steps, and no reachable state before its end is stuck: as long as an attempt can end, the
    destructor of a client can return and the server can be forked, main comes to its return or
    to std::terminate. *)
Theorem main_terminates :
  attempt_ends fuel create → clients_close (C:=C) (K:=K) → server_starts config →
  (∀ n s, nsteps step n start s →
     n ≤ Z.to_nat (n_threads config) * (4 * Z.to_nat (n_attempts config) + 3) + 6) ∧
  (∀ s, rtc step start s → live (main_at s) = true → ∃ s', step s s').
Proof.
  intros Ha Hclose Hserver. split; [|intros s Hs Hl; eapply progress; eauto using reachable].
  assert (∀ n s s', inv config fuel create s → nsteps step n s s' → n ≤ left config s) as Hn.
  { intros n s s' Hi H. revert Hi. induction H as [|n s1 s2 s3 Hstep _ IH]; intros Hi; [lia|].
    apply step_decreases in Hstep as [Hi' Hl]; [|done..]. specialize (IH Hi'). lia. }
  intros n s H. apply Hn in H; [|apply inv_start]. unfold left in H. cbn in H. lia.
Qed.

(** C36: In every reachable state at most one thread of the load generator is in the critical
    section, and when the report reads the results all threads have finished and the mutex is
    free. *)
Theorem results_unshared s :
  rtc step start s →
  (∀ i j, match pool s !! i, pool s !! j with
          | Some (Holding _ _ _), Some (Holding _ _ _) => i = j
          | _, _ => True
          end) ∧
  (∀ code, main_at s = Reported code →
     pool s = replicate (Z.to_nat (n_threads config)) Finished ∧ mutex s = None).
Proof.
  intros Hs. destruct (reachable s Hs) as [Hp _ Ho _ _ _]. split.
  - intros i j. destruct (pool s !! i) as [[| |k r c| |]|] eqn:Hi; try done.
    destruct (pool s !! j) as [[| |k' r' c'| |]|] eqn:Hj; try done.
    assert (mutex s = Some i) by (apply Ho; eauto).
    assert (mutex s = Some j) by (apply Ho; eauto). congruence.
  - intros code Hc. rewrite Hc in Hp. destruct Hp as [Hpool _]. split; [done|].
    destruct (mutex s) as [i|]; [|done]. destruct (proj1 (Ho i) eq_refl) as (j & r & c & Hi).
    rewrite Hpool in Hi. by apply lookup_replicate in Hi as [[=] _].
Qed.

(** C40: An exception of send or recv_spinlock in an attempt ends the program at once: no
    report, no further step, and the server process that was started is not signalled. *)
Theorem exception_orphans_server s i j w e w' :
  rtc step start s → pool s !! i = Some (AtLoop j) → (Z.of_nat j < n_attempts config)%Z →
  live (main_at s) = true → attempt fuel create w = (Throw e, w') →
  ∃ s', step s s' ∧ main_at s' = Terminated ∧ server_pid s' = server_pid s ∧ signalled s' = [] ∧
    ∀ s'', ¬ step s' s''.
Proof.
  intros Hs Hi Hj Hl Ha. pose proof (reachable s Hs) as Hinv.
  exists (State Terminated (pool s) (mutex s) (results s) (server_pid s) (signalled s)).
  assert (step s (State Terminated (pool s) (mutex s) (results s) (server_pid s) (signalled s)))
    as Hstep by (right; destruct s; by eapply t_throw).
  split; [exact Hstep|]. split; [done|]. split; [done|]. split.
  - apply step_decreases in Hstep as [[] _]; done.
  - intros s'' [H|H]; by inversion H.
Qed.

(** A [fork] that fails is not noticed: the number [-1] is later the argument of [kill], which
    signals every process of the user. *)
Theorem fork_failure_unnoticed type k k' l :
  sys_fork k = ((-1)%Z, k') →
  ∃ w', LoadMain.run_server type (World k l) = (Ret (Parent (-1)), w').
Proof.
  intros Hf. unfold LoadMain.run_server. rewrite run_bind, run_sys. cbn [kern logs]. rewrite Hf.
  cbn. destruct (sys_sleep_for 300 k') as [[] k2] eqn:E. exists (World k2 l).
  rewrite run_bind, run_sys. cbn [kern logs]. by rewrite E.
Qed.
End theorems.

(** The server's process reads its arguments as the client's kind asks. *)
Theorem server_argv_understood type :
  parse_argv (server_argv type) = Some (if bool_decide (type = CtTCP) then Tcp else Ssl).
Proof. by destruct type. Qed.

Section windows.
Context {K : Type} `{!Process K} `{!Win32.ProcessWin32 K}.
Import Win32.

(** On Windows [kill_server] ends by closing both handles, of a process that exited within three
    seconds or was terminated and waited for. *)
Theorem win32_kill_server_closes h (w : world K) :
  ∃ k sent, (GenerateConsoleCtrlEvent CTRL_BREAK_EVENT (dwProcessId h) (kern w)).1 = sent ∧
  kill_server h w =
    (Ret (), World (CloseHandle (hThread h) (CloseHandle (hProcess h) k).2).2 (logs w)) ∧
  ((∃ k0, WaitForSingleObject (hProcess h) 3000 k0 = (WAIT_OBJECT_0, k) ∧ sent ≠ 0%Z) ∨
   ∃ k0, k = (WaitForSingleObject (hProcess h) INFINITE (TerminateProcess (hProcess h) 1 k0).2).2).
Proof.
  unfold kill_server. rewrite run_bind, run_sys.
  destruct (GenerateConsoleCtrlEvent _ _ _) as [sent k0]. cbn [fst snd].
  assert (∀ k, (_ ← sys (TerminateProcess (hProcess h) 1);
                _ ← sys (WaitForSingleObject (hProcess h) INFINITE); cleanup h) (World k (logs w)) =
    (Ret (), World (CloseHandle (hThread h) (CloseHandle (hProcess h)
       (WaitForSingleObject (hProcess h) INFINITE (TerminateProcess (hProcess h) 1 k).2).2).2).2
       (logs w))) as Hforce.
  { intros k. unfold cleanup. by run_calls. }
  rewrite run_bind. destruct (Z.eqb_spec sent 0) as [->|Hs]; cbn [negb mret M_ret].
  - rewrite Hforce. eexists _, _. split; [done|]. split; [done|]. right. eauto.
  - rewrite run_bind, run_sys. cbn [kern logs].
    destruct (WaitForSingleObject (hProcess h) 3000 k0) as [r k1] eqn:Hw. cbn [fst snd mret M_ret].
    destruct (Z.eqb_spec r WAIT_OBJECT_0) as [->|Hr].
    + exists k1, sent. split; [done|]. split; [unfold cleanup; by run_calls|]. left. eauto.
    + rewrite Hforce. eexists _, _. split; [done|]. split; [done|]. right. eauto.
Qed.
End windows.
