(* ===== verification/ClientLife.v ===== *)
(** * The life of a client: its descriptor

    A client owns one descriptor from its constructor to its destructor.  The
    load generator's attempt is proved against that promise, and both clients
    and [create_client] keep it. *)

From S2P Require Import Prelude Cpp Log OS OpenSSL Sim Connection TCPServer TCPServerSpec.
From S2P Require Import Client ClientSpec LoadTest LoadTestSpec LoadMain.

(** The open descriptors are unchanged. *)
Definition same_open {K} `{KernelLaws K} (w w' : world K) : Prop :=
  v_open (wview w') = v_open (wview w).

#[export] Instance same_open_preorder {K} `{KernelLaws K} : PreOrder same_open.
Proof. unfold same_open. split; repeat intro; congruence. Qed.

Class ClientLife (C K : Type) `{KernelLaws K} `{!ClientOps C (world K)} := {
  client_socket : C → SOCKET;
  client_send_open c d : preserves same_open (client_send c d);
  client_recv_open c n : preserves same_open (client_recv c n);
  client_destroy_closes c w : ∃ w', client_destroy c w = (Ret (), w') ∧
    v_open (wview w') = v_open (wview w) ∖ {[client_socket c]};
}.

(** A constructor: a fresh descriptor, or an exception and at most one left. *)
Definition creates {C K} `{ClientLife C K} (create : M (world K) C) : Prop :=
  ∀ w o w', create w = (o, w') →
  match o with
  | Ret c => opens_one (wview w) (wview w') (client_socket c)
  | Throw _ => v_open (wview w') = v_open (wview w) ∨ ∃ fd, opens_one (wview w) (wview w') fd
  | UB | NoFuel => True
  end.

(** ** Calls that open and close nothing *)

Section open.
Context {K : Type} `{KernelLaws K}.

Lemma open_view {A} (m : M (world K) A) : preserves same_view m → preserves same_open m.
Proof. intros Hm w. specialize (Hm w). unfold same_open, same_view in *. by rewrite Hm. Qed.

Lemma open_sys {A} (f : K → A * K) :
  (∀ k, v_open (kview (f k).2) = v_open (kview k)) → preserves same_open (sys f).
Proof. intros Hf w. rewrite run_sys. apply Hf. Qed.

Lemma open_recv fd n : preserves same_open (sys (sys_recv fd n)).
Proof.
  apply open_sys. intros k. destruct (sys_recv fd n k) as [[r d] k'] eqn:Hr. cbn [snd].
  by apply recv_law in Hr as [[_ ->]|(_ & _ & ->)].
Qed.

Lemma open_send fd d : preserves same_open (sys (sys_send fd d)).
Proof.
  apply open_sys. intros k. destruct (sys_send fd d k) as [r k'] eqn:Hr. cbn [snd].
  by apply send_law in Hr as [[_ ->]|[_ ->]].
Qed.

Lemma open_send_loop send data fuel pos :
  preserves same_open (sys send) → preserves same_open (send_loop (K:=K) send data fuel pos).
Proof.
  intros Hs. revert pos. induction fuel as [|fuel IH]; intros pos; cbn [send_loop]; preserves_walk.
  apply open_view, preserves_view_throw_errno.
Qed.

Lemma open_recv_tail `{Platform} r buf : preserves same_open (recv_tail (K:=K) r buf).
Proof.
  apply open_view. unfold recv_tail, get_errno. preserves_walk.
Qed.

Lemma open_close fd w :
  ∃ w', (sys (sys_close fd) ;; mret ()) w = (Ret (), w') ∧
    v_open (wview w') = v_open (wview w) ∖ {[fd]}.
Proof.
  rewrite run_bind, run_sys. eexists. split; [done|]. unfold wview. cbn. by rewrite close_law.
Qed.

(** Opened and closed again. *)
Lemma opened_closed v v' fd : opens_one v v' fd → v_open v' ∖ {[fd]} = v_open v.
Proof. intros [Hf ->]. clear -Hf. set_solver. Qed.
End open.

(** ** The clients *)

Section tcp.
Context {K : Type} `{KernelLaws K} `{Platform}.

#[export] Instance tcp_life fuel : @ClientLife TCPClient.t K _ _ (TCPClient.ops fuel).
Proof.
  refine {| client_socket := TCPClient.fd_ |}.
  - intros c d. apply open_send_loop, open_send.
  - intros c n. change (client_recv c n) with (TCPClient.recv c n). unfold TCPClient.recv.
    refine (preserves_bind _ _ _ _ _); [apply open_recv|]. intros [r d]. apply open_recv_tail.
  - intros c w. apply open_close.
Defined.

Lemma tcp_creates fuel host port :
  creates (H1:=tcp_life fuel) (TCPClient.make host port).
Proof.
  intros w o w'. unfold TCPClient.make. rewrite run_bind.
  destruct (TCPClient.open_connection host port w) as [o1 w1] eqn:Hc.
  apply open_connection_open in Hc. by destruct o1; intros [= <- <-].
Qed.
End tcp.

Section ssl.
Context {K : Type} `{OpenSSLLaws K} `{Platform}.

Lemma open_SSL_read ssl n : preserves same_open (sys (SSL_read ssl n)).
Proof.
  apply open_sys. intros k. destruct (SSL_read ssl n k) as [[r d] k'] eqn:Hr. cbn [snd].
  by apply SSL_read_law in Hr as [(_ & _ & ->)|(_ & _ & ->)].
Qed.

Lemma open_SSL_write ssl d n : preserves same_open (sys (SSL_write ssl d n)).
Proof.
  apply open_sys. intros k. destruct (SSL_write ssl d n k) as [r k'] eqn:Hr. cbn [snd].
  by apply SSL_write_law in Hr as [(_ & ->)|(_ & _ & ->)].
Qed.

Lemma open_SSL_new ctx : preserves same_open (sys (SSL_new ctx)).
Proof.
  apply open_sys. intros k. by destruct (SSL_new_law ctx k) as (ssl & _ & [[_ ->]|[_ ->]]).
Qed.

#[export] Instance ssl_life fuel : @ClientLife SSLClient.t K _ _ (SSLClient.ops fuel).
Proof.
  refine {| client_socket c := TCPClient.fd_ (SSLClient.base c) |}.
  - intros c d. apply open_send_loop, open_SSL_write.
  - intros c n. change (client_recv c n) with (SSLClient.recv c n). unfold SSLClient.recv.
    refine (preserves_bind _ _ _ _ _); [apply open_SSL_read|]. intros [r d]. apply open_recv_tail.
  - intros c w. change (client_destroy c) with (SSLClient.destroy c). unfold SSLClient.destroy.
    rewrite run_bind. unfold when. destruct (negb _); [|apply open_close].
    rewrite run_sys. pose proof (SSL_free_law (SSLClient.ssl_ c) (kern w)) as Hf.
    destruct (SSL_free _ _) as [[] k]. cbn [fst snd] in *.
    destruct (open_close (TCPClient.fd_ (SSLClient.base c)) (World k (logs w))) as (w' & Hw & Ho).
    exists w'. split; [exact Hw|]. rewrite Ho. unfold wview at 1. cbn [kern]. by rewrite Hf.
Defined.

(** Beside the static context. *)
Definition same_open_snd (x y : Z * world K) : Prop := same_open x.2 y.2.

#[export] Instance same_open_snd_preorder : PreOrder same_open_snd.
Proof. unfold same_open_snd. split; repeat intro; [done|by etrans]. Qed.

Lemma open_on_snd {A} (m : M (world K) A) :
  preserves same_open m → preserves same_open_snd (on_snd m).
Proof.
  intros Hm [c w]. unfold on_snd, zoom, same_open_snd. specialize (Hm w). cbn. by destruct (m w).
Qed.

Lemma open_on_fst {A} (m : M Z A) : preserves same_open_snd (on_fst m).
Proof. intros [c w]. unfold on_fst, zoom, same_open_snd. cbn. by destruct (m c). Qed.

Lemma open_connect_loop fuel ssl : preserves same_open (SSLClient.connect_loop (K:=K) fuel ssl).
Proof.
  induction fuel as [|fuel IH]; cbn [SSLClient.connect_loop]; [preserves_walk|].
  refine (preserves_bind _ _ _ _ _); [apply open_view; preserves_walk|]. intros r.
  destruct (r <? 0)%Z; [|preserves_walk]. refine (preserves_bind _ _ _ _ _).
  - apply open_view. preserves_walk.
  - intros e. by destruct (e =? _)%Z; [|apply preserves_ret; apply _].
Qed.

Lemma open_initialize_ctx : preserves same_open_snd (SSLClient.initialize_ctx (K:=K)).
Proof.
  unfold SSLClient.initialize_ctx. preserves_walk; try apply open_on_fst.
  all: apply open_on_snd, open_view; preserves_walk.
Qed.

(** The body of the constructor, behind the base class. *)
Definition ssl_body (fuel : nat) (host : bytes) (base : TCPClient.t) : M (Z * world K) SSLClient.t :=
  SSLClient.initialize_ctx ;;
  ctx ← gets fst;
  ssl ← on_snd (sys (SSL_new ctx));
  _ ← on_snd (sys (SSL_set_tlsext_host_name ssl (c_str host)));
  _ ← on_snd (sys (SSL_set_fd ssl (TCPClient.fd_ base)));
  on_snd (SSLClient.connect_loop fuel ssl) ;;
  mret (SSLClient.Make base ssl).

Lemma open_ssl_body fuel host base : preserves same_open_snd (ssl_body fuel host base).
Proof.
  unfold ssl_body. preserves_walk.
  - apply open_initialize_ctx.
  - apply open_on_snd, open_SSL_new.
  - apply open_on_snd, open_view. preserves_walk.
  - apply open_on_snd, open_view. preserves_walk.
  - apply open_on_snd, open_connect_loop.
Qed.

Lemma ssl_body_base fuel host base x c x' :
  ssl_body fuel host base x = (Ret c, x') → SSLClient.base c = base.
Proof.
  unfold ssl_body. intros Hm. do 6 (apply bind_ret_inv in Hm as (? & ? & _ & Hm)).
  by injection Hm as <- _.
Qed.

Lemma ssl_creates fuel host port ctx w o x :
  SSLClient.make fuel host port (ctx, w) = (o, x) →
  match o with
  | Ret c => opens_one (wview w) (wview x.2) (TCPClient.fd_ (SSLClient.base c))
  | Throw _ => v_open (wview x.2) = v_open (wview w) ∨ ∃ fd, opens_one (wview w) (wview x.2) fd
  | UB | NoFuel => True
  end.
Proof.
  unfold SSLClient.make. rewrite run_bind. unfold on_snd at 1, zoom at 1. cbn [fst snd].
  pose proof (tcp_creates 0 host port w) as Htcp.
  destruct (TCPClient.make host port w) as [o1 w1]. specialize (Htcp o1 w1 eq_refl).
  destruct o1 as [base|e| |]; [|by intros [= <- <-]..]. fold (ssl_body fuel host base).
  unfold unwinding. pose proof (open_ssl_body fuel host base (ctx, w1)) as Hopen.
  destruct (ssl_body fuel host base (ctx, w1)) as [o2 [ctx2 w2]] eqn:Hb.
  unfold same_open_snd, same_open in Hopen. cbn in Hopen.
  assert (opens_one (wview w) (wview w2) (TCPClient.fd_ base)) as Hone.
  { destruct Htcp as [Hf Ho]. split; [done|]. by rewrite Hopen. }
  destruct o2 as [c|e| |]; [| |by intros [= <- <-]..].
  - intros [= <- <-]. apply ssl_body_base in Hb as ->. done.
  - destruct (open_close (TCPClient.fd_ base) w2) as (w3 & Hw3 & Ho3).
    rewrite run_bind. unfold on_snd, zoom. cbn [fst snd]. unfold TCPClient.destroy. rewrite Hw3.
    intros [= <- <-]. left. cbn. rewrite Ho3. by apply opened_closed.
Qed.

(** [std::unique_ptr<Client>] *)
#[export] Instance client_life fuel : @ClientLife (TCPClient.t + SSLClient.t) K _ _ (client_ops fuel).
Proof.
  refine {| client_socket c := match c with
                               | inl c => TCPClient.fd_ c
                               | inr c => TCPClient.fd_ (SSLClient.base c)
                               end |}.
  - intros [c|c] d; [apply (client_send_open (ClientLife:=tcp_life fuel) c)
                    |apply (client_send_open (ClientLife:=ssl_life fuel) c)].
  - intros [c|c] n; [apply (client_recv_open (ClientLife:=tcp_life fuel) c)
                    |apply (client_recv_open (ClientLife:=ssl_life fuel) c)].
  - intros [c|c] w; [apply (client_destroy_closes (ClientLife:=tcp_life fuel) c)
                    |apply (client_destroy_closes (ClientLife:=ssl_life fuel) c)].
Defined.

Lemma create_client_creates ctx fuel cfg :
  creates (H1:=client_life fuel) (create_client_with ctx fuel cfg).
Proof.
  intros w o w'. unfold create_client_with, create_client. case_bool_decide.
  - rewrite run_bind. unfold on_snd, zoom. cbn [fst snd].
    pose proof (tcp_creates 0 (lit "127.0.0.1") 23456 w) as Htcp.
    destruct (TCPClient.make _ _ w) as [o1 w1]. specialize (Htcp o1 w1 eq_refl).
    by destruct o1; intros [= <- <-].
  - rewrite run_bind. destruct (SSLClient.make _ _ _ _) as [o1 [c w1]] eqn:Hs.
    apply ssl_creates in Hs. by destruct o1; intros [= <- <-].
Qed.
End ssl.

(** ** An attempt of the load generator *)

Section attempt.
Context {C K : Type} `{ClientLife C K} `{!Clock K} `{!Rand K}.
Hypothesis now_view : ∀ k, kview (now k).2 = kview k.
Hypothesis rand_view : ∀ k, kview (rand k).2 = kview k.

Lemma open_random_string n : preserves same_open (random_string (K:=K) n).
Proof.
  induction n as [|n IH]; cbn [random_string]; [preserves_walk|].
  refine (preserves_bind _ _ _ _ _); [apply open_view, preserves_view_sys, rand_view|].
  intros r. cbn zeta. case_match; [apply preserves_undefined; apply _|].
  refine (preserves_bind _ _ _ _ _); [done|]. intros. apply preserves_ret; apply _.
Qed.

Lemma open_now : preserves same_open (sys (K:=K) now).
Proof. apply open_view, preserves_view_sys, now_view. Qed.

Lemma open_spin fuel (c : C) n deadline buffer :
  preserves same_open (Client.spin fuel c n deadline buffer).
Proof.
  revert buffer. induction fuel as [|fuel IH]; intros buffer; cbn [Client.spin]; [preserves_walk|].
  refine (preserves_bind _ _ _ _ _); [apply open_now|]. intros t.
  destruct (t <? deadline)%Z; [|preserves_walk].
  refine (preserves_bind _ _ _ _ _); [apply client_recv_open|]. intros r. cbn zeta.
  case_bool_decide; [done|]. case_decide; [preserves_walk|done].
Qed.

(** What an attempt does between the two ends of the client's life. *)
Definition exchange (fuel : nat) (c : C) (str : bytes) (start : Z) :
    M (world K) (Result * option C) :=
  client_send c str ;;
  response ← Client.recv_spinlock fuel c 11 30000;
  stop ← sys now;
  mret (MkResult (Some (stop - start)%Z) (judge (default [] response) str), Some c).

Lemma open_exchange fuel c str start : preserves same_open (exchange fuel c str start).
Proof.
  unfold exchange. refine (preserves_bind _ _ _ _ _); [apply client_send_open|]. intros _.
  refine (preserves_bind _ _ _ _ _).
  { unfold Client.recv_spinlock. refine (preserves_bind _ _ _ _ _); [apply open_now|].
    intros t. apply open_spin. }
  intros r. refine (preserves_bind _ _ _ _ _); [apply open_now|]. intros. apply preserves_ret; apply _.
Qed.

Lemma exchange_output fuel c str start w r client w' :
  exchange fuel c str start w = (Ret (r, client), w') →
  output r ≠ FailedToConnect ∧ client = Some c.
Proof.
  unfold exchange. intros Hm. do 3 (apply bind_ret_inv in Hm as (? & ? & _ & Hm)).
  injection Hm as <- <- _. split; [|done]. cbn. unfold judge. by repeat case_bool_decide.
Qed.

(** Up to the label [skip]: the client, once it is made, is there. *)
Lemma attempt_open fuel (create : M (world K) C) w o w' :
  creates create → attempt fuel create w = (o, w') →
  match o with
  | Ret (r, Some c) => output r ≠ FailedToConnect ∧ opens_one (wview w) (wview w') (client_socket c)
  | Ret (r, None) => output r = FailedToConnect ∧
      (v_open (wview w') = v_open (wview w) ∨ ∃ fd, opens_one (wview w) (wview w') fd)
  | Throw _ => ∃ fd, opens_one (wview w) (wview w') fd
  | UB | NoFuel => True
  end.
Proof.
  intros Hcreate. unfold attempt. rewrite run_bind.
  pose proof (open_random_string 10 w) as Hw1.
  destruct (random_string 10 w) as [o1 w1] eqn:Hrand. apply random_string_length in Hrand.
  unfold same_open in Hw1. cbn [snd] in Hw1. destruct o1 as [str| | |]; [|done|by intros [= <- <-]|done].
  cbn zeta. rewrite run_bind. pose proof (open_now w1) as Hw2. rewrite run_sys in Hw2 |- *.
  set (w2 := World _ _) in *. unfold same_open in Hw2. cbn [snd] in Hw2. set (t := (now _).1).
  rewrite run_bind. unfold try_create. pose proof (Hcreate w2) as Hc.
  destruct (create w2) as [oc w3]. specialize (Hc oc w3 eq_refl). unfold opens_one in *.
  rewrite Hw2, Hw1 in Hc. destruct oc as [c|e| |]; [|by intros [= <- <-]|by intros [= <- <-]..].
  intros Ha. change (exchange fuel c (str ++ [LF]) t w3 = (o, w')) in Ha. revert Ha.
  pose proof (open_exchange fuel c (str ++ [LF]) t w3) as Hex. unfold same_open in Hex.
  destruct (exchange _ _ _ _ w3) as [o1 w4] eqn:He. cbn [snd] in Hex. rewrite <-Hex in Hc.
  intros [= <- <-]. destruct o1 as [[r client]|e| |]; [|by exists (client_socket c)|done..].
  by apply exchange_output in He as [Hout ->].
Qed.

(** The end of the body, in whatever world it finds. *)
Lemma drop_client_closes (c : C) w w1 w2 :
  opens_one (wview w) (wview w1) (client_socket c) →
  ∃ w3, drop_client (Some c) w2 = (Ret (), w3) ∧
    v_open (wview w3) = v_open (wview w2) ∖ {[client_socket c]} ∧
    (v_open (wview w2) = v_open (wview w1) → v_open (wview w3) = v_open (wview w)).
Proof.
  intros Hone. destruct (client_destroy_closes c w2) as (w3 & Hd & Ho). exists w3.
  split; [exact Hd|]. split; [exact Ho|]. intros Heq. rewrite Ho, Heq. by apply opened_closed.
Qed.
End attempt.

(** C20: An attempt of the load generator that completes, over TCP or TLS, owns one client: at
    the label skip one descriptor is open that was not before, and the destruction of the client
    at the end of the loop body returns and closes it and no other, whatever world it finds;
    with the descriptors unchanged in between, what was open before the attempt is open after
    it. Only a constructor that throws may leave one socket open, and then the result is
    FailedToConnect and there is no client. (An exception of send or receive does not complete
    the attempt: LoadMainSpec.exception_orphans_server.) *)
Theorem attempt_closes_client {K} `{OpenSSLLaws K} `{Platform} `{!Clock K} `{!Rand K}
    ctx fuel cfg w r client w1 :
  (∀ k, kview (now k).2 = kview k) → (∀ k, kview (rand k).2 = kview k) →
  attempt (C:=TCPClient.t + SSLClient.t) (ClientOps0:=client_ops fuel) fuel
    (create_client_with ctx fuel cfg) w = (Ret (r, client), w1) →
  (output r = FailedToConnect ∧ client = None ∧
     (v_open (wview w1) = v_open (wview w) ∨ ∃ fd, opens_one (wview w) (wview w1) fd)) ∨
  (output r ≠ FailedToConnect ∧ ∃ fd, opens_one (wview w) (wview w1) fd ∧
     ∀ w2, ∃ w3, drop_client (ClientOps0:=client_ops fuel) client w2 = (Ret (), w3) ∧
       v_open (wview w3) = v_open (wview w2) ∖ {[fd]} ∧
       (v_open (wview w2) = v_open (wview w1) → v_open (wview w3) = v_open (wview w))).
Proof.
  intros Hnow Hrand Ha.
  apply (attempt_open (H1:=client_life fuel) Hnow Hrand) in Ha; [|apply create_client_creates].
  destruct client as [c|]; [|by left; destruct Ha]. right. destruct Ha as [Hout Hone].
  split; [exact Hout|]. exists (client_socket (ClientLife:=client_life fuel) c). split; [exact Hone|].
  intros w2. by apply (drop_client_closes (H1:=client_life fuel) c w).
Qed.

(** The constructor of SSLClient hands over one fresh descriptor, or throws: what it throws
    itself, behind its base class, leaves nothing open. *)
Theorem ssl_client_owns_fd {K} `{OpenSSLLaws K} `{Platform} fuel host port ctx w o x :
  SSLClient.make fuel host port (ctx, w) = (o, x) →
  match o with
  | Ret c => opens_one (wview w) (wview x.2) (TCPClient.fd_ (SSLClient.base c))
  | Throw _ => v_open (wview x.2) = v_open (wview w) ∨ ∃ fd, opens_one (wview w) (wview x.2) fd
  | UB | NoFuel => True
  end.
Proof. apply ssl_creates. Qed.
