(* ===== verification/EndToEnd.v ===== *)
(** * The load generator against its server

    A client's attempt and the server that answers it, each over its own kernel,
    joined by the network: what one end has received is a beginning of what the
    other end has sent.  First a single session by itself, then the whole server
    with its other clients, its threads and its workers. *)

From S2P Require Import Prelude Cpp Log OS Sim Connection TCPConnection Session LineSession.
From S2P Require Import LineSessionSpec TCPServer Client ClientSpec Apps LoadTest LoadTestSpec.
From S2P Require Import Threads ThreadsSpec Poller PollerSpec Server ServerSpec Network PollerNet.
From S2P Require Import Delivery Conversation EchoServers.

(** A client that puts a buffer on the wire whole. *)
Class ClientWhole (C K : Type) `{ClientSpec C K} :=
  client_send_whole c d w w' :
    client_send c d w = (Ret (), w') →
    stream_step (client_end c) [] d (wview w) (wview w').

#[export] Instance tcp_client_whole {K} `{KernelLaws K} `{Platform} `{!WholeKernel K} fuel :
  @ClientWhole TCPClient.t K _ _ (TCPClient.ops fuel) (tcp_client_spec fuel).
Proof.
  intros [fd] d w w' Hs.
  exact (conn_send_whole (ConnectionWhole:=TCPConnection.connection_whole fuel)
           (TCPConnection.Make fd) d w w' Hs).
Qed.

(** ** The server's end *)

Section server.
Context {C K : Type} `{ConnectionWhole C K}.

(** Some calls of the handler on a session of the load-test server. *)
Definition served (k fuel : nat) (c : C) (w : world K) (s : LineSession.t C ()) (w' : world K) : Prop :=
  k * RECV_BUF_SZ < fuel ∧ v_received (conn_end c) (wview w) = [] ∧
  v_sent (conn_end c) (wview w) = [] ∧
  for_each (seq 0 k) (λ _, LineSession.iteration LoadTestProtocol.process fuel)
    (LoadTestProtocol.create_session c, w) = (Ret (), (s, w')).

(** What it has received is what it has sent, and the buffer. *)
Lemma served_echoes k fuel c w s w' :
  served k fuel c w s w' →
  v_received (conn_end c) (wview w') =
  v_sent (conn_end c) (wview w') ++ LineSession.buffer_ s.
Proof.
  intros (Hfuel & Hin & Hout & Hit).
  eapply (iterations_answered (λ d, d)) in Hit as ((ls & Hr & Hs) & b & ->); [|done..]. cbn in *.
  by rewrite Hr, Hs.
Qed.
End server.

(** ** Both ends *)

Section client.
Context {C1 K1 : Type} `{ClientWhole C1 K1} `{!Clock K1} `{!ClockLaws K1} `{!Rand K1}.

(** What an attempt over a connection sends, receives and makes of it. *)
Definition exchanged (create : M (world K1) C1) (w : world K1) (request reply : bytes) (r : Result)
    (w' : world K1) : Prop :=
  ∃ c str w0 w2, random_string 10 w = (Ret str, w0) ∧ request = str ++ [LF] ∧
    length str = 10 ∧ (LF ∉ str) ∧ create (World (now (kern w0)).2 (logs w0)) = (Ret c, w2) ∧
    stream_step (client_end c) reply request (wview w2) (wview w') ∧
    output r = if bool_decide (reply = request) then Success
               else if decide (length reply < 11) then Timeout else Incorrect.

Lemma attempt_exchanged fuel create w r client w' :
  attempt fuel create w = (Ret (r, client), w') → output r ≠ FailedToConnect →
  ∃ request reply, exchanged create w request reply r w'.
Proof.
  intros Hr Hne. apply attempt_run in Hr as (str & w0 & w1 & Hstr & Hlen & -> & Hout).
  assert (∃ c w2 w3 d, client = Some c ∧ create (World (now (kern w0)).2 (logs w0)) = (Ret c, w2) ∧
    client_send c (str ++ [LF]) w2 = (Ret (), w3) ∧
    stream_step (client_end c) d [] (wview w3) (wview w') ∧
    output r = if bool_decide (d = str ++ [LF]) then Success
               else if decide (length d < 11) then Timeout else Incorrect)
    as (c & w2 & w3 & d & _ & Hc & Hs & Hd & Hj) by (destruct (output r); done).
  apply client_send_whole in Hs. pose proof (stream_step_trans _ _ _ _ _ _ _ _ Hs Hd) as Hboth.
  rewrite app_nil_r in Hboth. pose proof (random_string_no_newline _ _ _ _ Hstr).
  exists (str ++ [LF]), d, c, str, w0, w2. done.
Qed.

(** A beginning of the request is never incorrect. *)
Lemma reply_prefix create w request reply r w' :
  exchanged create w request reply r w' → reply `prefix_of` request →
  output r = if bool_decide (reply = request) then Success else Timeout.
Proof.
  intros (c & str & w0 & w2 & _ & -> & Hlen & _ & _ & _ & ->) [t Ht].
  case_bool_decide as Hne; [done|]. rewrite decide_True; [done|].
  destruct t as [|x t]; [by rewrite app_nil_r in Ht|].
  apply (f_equal length) in Ht. rewrite !length_app, Hlen in Ht. cbn in Ht. lia.
Qed.
End client.

(** *** A session by itself *)

Section session.
Context {C1 K1 : Type} `{ClientWhole C1 K1} `{!Clock K1} `{!ClockLaws K1} `{!Rand K1}.
Context {C2 K2 : Type} `{ConnectionWhole C2 K2}.

(** The load generator's attempt against the session that serves it, joined by a network that
    delivers beginnings of what was sent: whatever the server has done so far, the result is
    Success for the whole request echoed and Timeout for less, never Incorrect; and once
    everything sent has arrived and the server has nothing left to answer it is Success. *)
Theorem attempt_against_session fuel (create : M (world K1) C1) w r client w' :
  attempt fuel create w = (Ret (r, client), w') → output r ≠ FailedToConnect →
  ∃ request reply, exchanged create w request reply r w' ∧
    ∀ k fuel' (c' : C2) v s v', served k fuel' c' v s v' →
      v_received (conn_end c') (wview v') `prefix_of` request →
      reply `prefix_of` v_sent (conn_end c') (wview v') →
      output r = (if bool_decide (reply = request) then Success else Timeout) ∧
      (v_received (conn_end c') (wview v') = request → LineSession.buffer_ s = [] →
       reply = v_sent (conn_end c') (wview v') → output r = Success).
Proof.
  intros Hr Hne. destruct (attempt_exchanged _ _ _ _ _ _ Hr Hne) as (request & reply & Hex).
  exists request, reply. split; [done|]. intros k fuel' c' v s v' Hserved Hnet1 Hnet2.
  apply served_echoes in Hserved. assert (reply `prefix_of` request) as Hpre.
  { etrans; [exact Hnet2|]. etrans; [|exact Hnet1]. rewrite Hserved. by apply prefix_app_r. }
  rewrite (reply_prefix _ _ _ _ _ _ Hex Hpre). split; [done|].
  intros Hall Hbuf ->. rewrite bool_decide_true; [done|]. by rewrite <-Hall, Hserved, Hbuf, app_nil_r.
Qed.
End session.

(** *** The whole server *)

Section running.
Context {C1 K1 : Type} `{ClientWhole C1 K1} `{!Clock K1} `{!ClockLaws K1} `{!Rand K1}.
Context {P K : Type} `{NetworkLaws K} `{!WholeKernel K} `{Platform}
  `{!PollerOps P (world K)} `{!PollerSpec P K} `{!PollerNet P}.
Context (send_fuel line_fuel : nat).

#[local] Existing Instances conns conns_spec conns_whole conns_close conns_net tcp_server_ops.
#[local] Existing Instance load_protocol.
#[local] Instance run_conns : ConnectionOps TCPConnection.t (world K) := conns send_fuel.
#[local] Instance run_server_spec : ServerSpec TCPConnection.t K := tcp_server_spec send_fuel.
#[local] Instance run_lines : SessionOps (LineSession.t TCPConnection.t ()) (world K) :=
  load_lines send_fuel line_fuel.
#[local] Instance run_lines_spec : SessionSpec (LineSession.t TCPConnection.t ()) K :=
  load_lines_spec send_fuel line_fuel.
#[local] Instance run_protocol_spec :
  ProtocolSpec TCPConnection.t (LineSession.t TCPConnection.t ()) (world K) :=
  load_protocol_spec send_fuel line_fuel.

(** C11: The load generator's attempt over TCP against its server, joined by a network that
    delivers beginnings of what was sent, provided that the kernels of both ends take every send
    whole (a partial write on either side repeats bytes:
    TransportSpec.tcp_partial_write_duplicates) and the server has a poller that meets its
    contract (epoll, kqueue) and a positive number of threads: in any state the server gets to,
    whatever its other clients send and whoever hangs up, the result is Success for the whole
    request echoed and Timeout for less, never Incorrect; and once all of the request has
    arrived and the server is at rest, with epoll after a run in which no descriptor ever had
    more than 16 KiB unread, an attempt that got everything the server sent is a Success. *)
Theorem attempt_against_server fuel (create : M (world K1) C1) w r client w' :
  attempt fuel create w = (Ret (r, client), w') → output r ≠ FailedToConnect →
  ∃ request reply, exchanged create w request reply r w' ∧
    (∀ l tc v (x : Machine.config P (LineSession.t TCPConnection.t ()) (world K)) c,
       reaches l tc v x → c ∈ clients (Machine.srv x) →
       v_received (inl c) (wview (Machine.wd x)) `prefix_of` request →
       reply `prefix_of` v_sent (inl c) (wview (Machine.wd x)) →
       output r = if bool_decide (reply = request) then Success else Timeout) ∧
    (∀ l tc v (x : Machine.config P (LineSession.t TCPConnection.t ()) (world K)) c ls s1 v1,
       rests l tc v x c ls s1 v1 → arrived c (Machine.wd x) ++ arrivals c ls = request →
       reply = v_sent (inl c) (wview v1) → output r = Success).
Proof.
  intros Hr Hne. destruct (attempt_exchanged _ _ _ _ _ _ Hr Hne) as (request & reply & Hex).
  exists request, reply. split; [done|]. split.
  - intros l tc v x c Hx Hc Hnet1 Hnet2. apply (reply_prefix _ _ _ _ _ _ Hex).
    destruct (proj1 (client_session _ _) Hc) as [ses Hses].
    etrans; [exact Hnet2|]. etrans; [|exact Hnet1].
    rewrite (load_prefix _ _ _ _ _ _ _ _ Hx Hses). by apply prefix_app_r.
  - intros l tc v x c ls s1 v1 Hrest Harr Hrep.
    assert (reply = request) as ->.
    { destruct Hex as (? & str & ? & ? & _ & -> & Hlen & Hlf & _). rewrite Hrep, <-Harr.
      refine (requests_at_rest _ _ 10 _ _ _ _ _ _ _ _ [str] Hrest _ _).
      - by rewrite Harr; cbn; rewrite app_nil_r.
      - by repeat constructor. }
    rewrite (reply_prefix _ _ _ _ _ _ Hex) by done. by rewrite bool_decide_true.
Qed.
End running.
