(* ===== verification/Scenarios.v ===== *)
(** * Runs of the programs in the scripted environment

    The echo server of main.cc serving one client from the connection to the
    hang-up, by evaluation; and the theorems on the server, the programs and the
    clients applied to such runs. *)

From S2P Require Import Prelude Cpp Log OS OpenSSL Sim Connection TCPConnection SSLConnection.
From S2P Require Import Session LineSession LineSessionSpec Threads ThreadsSpec Poller SimPoll.
From S2P Require Import PollerSpec Server ServerSpec TCPServer TCPServerSpec Client ClientSpec.
From S2P Require Import Apps Init LoadTest LoadTestSpec.
Import Server Machine.

#[local] Instance platform : Platform := posix.
#[local] Existing Instances PollerLinux.ops Linux.poller TCPServer.ops.
#[local] Instance tcp : ConnectionOps TCPConnection.t (world sim) := TCPConnection.ops (K:=sim) 100.
#[local] Instance tcp_spec : ConnectionSpec TCPConnection.t sim := TCPConnection.connection (K:=sim) 100.
#[local] Instance tcp_closes : ConnectionCloses TCPConnection.t sim :=
  TCPConnection.connection_closes (K:=sim) 100.
#[local] Instance protocol : ProtocolOps TCPConnection.t (LineSession.t TCPConnection.t ()) :=
  EchoProtocol.create_session.
#[local] Instance sessions : SessionOps (LineSession.t TCPConnection.t ()) (world sim) :=
  LineSession.ops (W:=world sim) EchoProtocol.process 100.
#[local] Instance sessions_spec : SessionSpec (LineSession.t TCPConnection.t ()) sim :=
  LineSession.session (K:=sim) EchoProtocol.process 100.
#[local] Instance protocol_spec :
  ProtocolSpec TCPConnection.t (LineSession.t TCPConnection.t ()) (world sim) := λ c, eq_refl.

(** An environment with one client waiting on the listener 3; the server's epoll
    instance will be 4 and the client 5. *)
Definition env (ready : list (list (SOCKET * Z))) : world sim :=
  sim_world (Sim 0 (View (list_to_set [0; 1; 2]%Z) ∅ ∅ ∅)
    (<[inl 5%Z := [lit "hi" ++ crlf ++ lit "x"; lit "y" ++ crlf]]> ∅) [] 1
    [AddrInfo 0 AF_INET SOCK_STREAM 0 (lit "addr")] [] ∅ [] 1 ready 0).

(** The client connects, sends twice and hangs up. *)
Definition visit : list (list (SOCKET * Z)) :=
  [[(3, EPOLLIN)]; [(5, EPOLLIN)]; [(5, EPOLLIN)]; [(5, EPOLLRDHUP)]]%Z.

Example main_serves_visit :
  let '(o, w) := main (P:=PollerLinux.t) 100 100 [false; false; false; true] (env visit) in
  o = Ret () ∧ v_sent (inl 5%Z) (wview w) = lit "|hi|" ++ crlf ++ lit "|xy|" ++ crlf ∧
  v_open (wview w) = list_to_set [0; 1; 2]%Z.
Proof. vm_compute. split_and!; reflexivity. Qed.

(** The load test's server with eight workers is stopped while a request of the
    client 5 is queued: if worker 5 comes to its last body before it is joined,
    the request is answered; if not, it is lost; if it comes too late, its
    behaviour is undefined. *)
Definition at_the_end (last : ending) : outcome unit * world sim :=
  loadtest_tcp_server (P:=PollerLinux.t) 100 100
    (λ i, if decide (i = 5) then last else Joins []) [false; true] (env visit).

Example workers_are_joined :
  (let '(o, w) := at_the_end (Joins [0]) in
   o = Ret () ∧ v_sent (inl 5%Z) (wview w) = lit "hi" ++ crlf ∧
   v_open (wview w) = list_to_set [0; 1; 2]%Z) ∧
  (let '(o, w) := at_the_end (Joins []) in
   o = Ret () ∧ v_sent (inl 5%Z) (wview w) = [] ∧ v_open (wview w) = list_to_set [0; 1; 2]%Z) ∧
  (at_the_end Races).1 = UB.
Proof. vm_compute. split_and!; reflexivity. Qed.

(** ** The server's loop *)

Abbreviation echo_server := (Server.t PollerLinux.t (LineSession.t TCPConnection.t ())) (only parsing).

(** The world with the listener 3, the server made on it, the server after the
    client's connection, and after the whole visit. *)
Definition listening : world sim := (TCPServer.create_listener 23456 false (env visit)).2.

Definition returned (x : outcome echo_server) : echo_server :=
  match x with
  | Ret s => s
  | _ => Server.Make 0 (PollerLinux.Make 0 0) (ThreadManager.Make []) false
  end.

Definition s0 : echo_server := returned (make 3%Z (inl Threads_Single) listening).1.
Definition w0 : world sim := (make (P:=PollerLinux.t) (Se:=LineSession.t TCPConnection.t ()) 3%Z (inl Threads_Single) listening).2.
Definition s1 : echo_server := (iterate (s0, w0)).2.1.
Definition w1 : world sim := (iterate (s0, w0)).2.2.
Definition s2 : echo_server := (on_poller (poller_wait default_timeout) (s1, w1)).2.1.
Definition w2 : world sim := (on_poller (poller_wait default_timeout) (s1, w1)).2.2.
Definition s9 : echo_server := (run [false; false; false; true] (s0, w0)).2.1.
Definition w9 : world sim := (run [false; false; false; true] (s0, w0)).2.2.

Lemma made : make 3%Z (inl Threads_Single) listening = (Ret s0, w0).
Proof. vm_compute. reflexivity. Qed.
Lemma served_one : iterate (s0, w0) = (Ret (), (s1, w1)).
Proof. vm_compute. reflexivity. Qed.
Lemma ran : run [false; false; false; true] (s0, w0) = (Ret (), (s9, w9)).
Proof. vm_compute. reflexivity. Qed.
Lemma polled :
  on_poller (poller_wait default_timeout) (s1, w1) =
  (Ret [MkEvent ClientDataReady 5], (s2, w2)).
Proof. vm_compute. reflexivity. Qed.
Lemma single_is_positive n : @inl Threads Z Threads_Single = inr n → (0 < n)%Z.
Proof. done. Qed.
Lemma listener_open : (3%Z : Z) ∈ v_open (wview listening).
Proof. apply (bool_decide_unpack _). vm_compute. exact I. Qed.

Lemma to_second_batch :
  ∃ ls, steps (Config s0 w0 AtTest) ls (Config s2 w2 (Handling [MkEvent ClientDataReady 5])).
Proof.
  destruct (iterate_steps _ _ _ _ served_one) as [evs Hi].
  eexists. econstructor; [apply s_test|]. eapply steps_app; [exact Hi|].
  econstructor; [apply s_end|]. econstructor; [apply s_test|].
  econstructor; [apply s_wait, polled|]. constructor.
Qed.

Lemma server_invariant_witness :
  ∃ ls, steps (Config s0 w0 AtTest) ls (Config s9 w9 Returned) ∧
    inv ({[poller_fd (poller_ s0)]} ∪ v_open (wview listening)) s9 w9 [].
Proof.
  destruct (run_steps _ _ _ _ _ ran) as (ls & Hls & _). exists ls. split; [exact Hls|].
  exact (server_invariant 3%Z (inl Threads_Single) listening s0 w0 ls (Config s9 w9 Returned)
           single_is_positive listener_open made Hls).
Defined.

Lemma events_find_sessions_witness :
  ∃ x, all_sessions (thread_manager_ s2) !! 5%Z = Some x ∧ session_fd x = 5%Z.
Proof.
  destruct to_second_batch as [ls Hls].
  exact (events_find_sessions 3%Z (inl Threads_Single) listening s0 w0 ls s2 w2
           (MkEvent ClientDataReady 5) [] single_is_positive listener_open made Hls
           (ltac:(discriminate))).
Defined.

Lemma run_is_a_run_witness :
  ∃ ls, steps (Config s0 w0 AtTest) ls (Config s9 w9 Returned) ∧ running_ s9 = false.
Proof. exact (run_is_a_run [false; false; false; true] s0 w0 s9 w9 ran). Defined.

Lemma run_until_stopped_witness :
  ∃ n rest, [false; false; false; true] = replicate n false ++ true :: rest.
Proof.
  apply (run_until_stopped [false; false; false; true] s0 w0 s9 w9); [|exact ran].
  vm_compute. reflexivity.
Defined.

(** A stop that comes while a batch is handled. *)
Lemma stop_bounds_server_witness :
  ∃ ls, steps (Config (set_running false s1) w1 (Handling [])) ls
          (Config (set_running false s1) w1 Returned) ∧
    waits ls ≤ 1 ∧ (Handling [] ≠ AtWait → waits ls = 0 ∧ server_steps ls ≤ 2).
Proof.
  exists [LEnd; LTest].
  assert (steps (Config (set_running false s1) w1 (Handling [])) [LEnd; LTest]
            (Config (set_running false s1) w1 Returned)) as Hs.
  { econstructor; [apply s_end|]. econstructor; [apply (s_test (set_running false s1) w1)|].
    constructor. }
  split; [exact Hs|].
  exact (stop_bounds_server (Config (set_running false s1) w1 (Handling [])) [LEnd; LTest]
           (Config (set_running false s1) w1 Returned) eq_refl Hs).
Defined.

Lemma destroy_closes_all_witness :
  ∃ w, destroy Apps.no_workers close_socket s9 w9 = (Ret (), w) ∧ v_open (wview w) =
    ({[poller_fd (poller_ s0)]} ∪ v_open (wview listening)) ∖ {[fd_ s9; poller_fd (poller_ s9)]}.
Proof.
  destruct (destroy Apps.no_workers close_socket s9 w9) as [o w] eqn:Hd. exists w.
  assert (o = Ret ()) as -> by (by vm_compute in Hd; injection Hd as <- _). split; [reflexivity|].
  apply (destroy_closes_all ({[poller_fd (poller_ s0)]} ∪ v_open (wview listening))
    Apps.no_workers s9 w9 [] (Ret ()) w); [|exact Hd].
  destruct (run_steps _ _ _ _ _ ran) as (ls & Hls & _).
  exact (steps_inv _ _ _ _ Hls (make_inv _ _ _ _ _ single_is_positive listener_open made)).
Defined.

(** The whole program. *)
Definition main_closes_world : world sim :=
  (main (P:=PollerLinux.t) 100 100 [false; false; false; true] (env visit)).2.

Lemma programs_close_everything_witness :
  v_open (wview main_closes_world) = v_open (wview (env visit)).
Proof.
  apply (programs_close_everything (P:=PollerLinux.t) (K:=sim) 100 100 (lit "cert") (lit "key")
           [false; false; false; true] (env visit) main_closes_world).
  left. vm_compute. reflexivity.
Defined.

(** The TLS echo server with a client that speaks on its second visit; OpenSSL's
    next object is 1. *)
Definition ssl_env (errors : list bytes) : world sim :=
  sim_world (Sim 0 (View (list_to_set [0; 1; 2]%Z) ∅ ∅ ∅) (<[inr 1%Z := [lit "hi" ++ [LF]]]> ∅) [] 1
    [AddrInfo 0 AF_INET SOCK_STREAM 0 (lit "addr")] [] ∅ errors 1 visit 0).

Example echossl_serves_visit :
  let '(o, w) := echossl_main (P:=PollerLinux.t) 100 100 (lit "cert") (lit "key")
                   [false; false; false; true] (ssl_env []) in
  o = Ret () ∧ v_sent (inr 1%Z) (wview w) = lit "|hi|" ++ crlf ∧
  v_open (wview w) = list_to_set [0; 1; 2]%Z.
Proof. vm_compute. split_and!; reflexivity. Qed.

(** A private key that does not match: the listener and the poller are closed again. *)
Lemma ssl_server_make_owns_fd_witness :
  let make := SSLServer.make (P:=PollerLinux.t) (Se:=LineSession.t SSLConnection.t ())
    (SessionOps0:=LineSession.ops (W:=world sim)
       (ConnectionOps0:=SSLConnection.ops (K:=sim) 100) EchoSSLProtocol.process 100)
    no_workers 23457 false (inl Threads_Single) (lit "cert") (lit "key") in
  ∃ e w', make (ssl_env [lit "key mismatch"]) = (Throw e, w') ∧
    v_open (wview w') = v_open (wview (ssl_env [lit "key mismatch"])).
Proof.
  intros make. destruct (make (ssl_env [lit "key mismatch"])) as [o w'] eqn:Hm.
  destruct (TCPServer.make (P:=PollerLinux.t) (Se:=LineSession.t SSLConnection.t ())
              23457 false (inl Threads_Single) (ssl_env [lit "key mismatch"]))
    as [ot w1] eqn:Ht.
  assert (∃ s, ot = Ret s) as [s ->].
  { vm_compute in Ht. injection Ht as <- _. eexists. reflexivity. }
  assert (∃ e, o = Throw e) as [e ->].
  { vm_compute in Hm. injection Hm as <- _. eexists. reflexivity. }
  exists e, w'. split; [reflexivity|].
  exact (ssl_server_make_owns_fd 100
    (SessionSpec0:=LineSession.session (K:=sim) (ConnectionOps0:=SSLConnection.ops 100)
       (H1:=SSLConnection.connection 100) (ConnectionCloses0:=SSLConnection.connection_closes 100)
       EchoSSLProtocol.process 100)
    (ProtocolOps0:=EchoSSLProtocol.create_session)
    (ProtocolSpec0:=λ c, eq_refl) no_workers 23457 false (inl Threads_Single) (lit "cert") (lit "key")
    (ssl_env [lit "key mismatch"]) s w1 (Throw e) w' ltac:(discriminate) ltac:(discriminate) Ht Hm).
Defined.

(** A poll that reports the listener when no client is left in the backlog. *)
Definition nobody : world sim :=
  World (sim_backlog 0 (sim_ready [[(3%Z, EPOLLIN)]] (kern w0))) (logs w0).

Lemma exception_ends_run_witness :
  ∃ x s3 w3, run [false; false] (s0, nobody) = (Throw x, (s3, w3)).
Proof.
  destruct (on_poller (poller_wait default_timeout) (s0, nobody)) as [o [sa wa]] eqn:Hw.
  destruct (handle (MkEvent NewClient 3) (sa, wa)) as [oh [sb wb]] eqn:Hh.
  assert (o = Ret [MkEvent NewClient 3]) as ->.
  { vm_compute in Hw. by injection Hw as <- _ _. }
  destruct oh as [[]|x| |].
  2: { exists x, sb, wb.
       refine (exception_ends_run s0 nobody sa wa [] (MkEvent NewClient 3) [] sa wa sb wb x
                 false [false] _ Hw eq_refl Hh). vm_compute. reflexivity. }
  all: exfalso; vm_compute in Hw; injection Hw as <- <-; vm_compute in Hh; discriminate.
Defined.

(** ** The protocols *)

#[local] Instance whole_tcp : ConnectionOps TCPConnection.t (world whole_sim) :=
  TCPConnection.ops (K:=whole_sim) 100.
#[local] Instance whole_tcp_spec : ConnectionSpec TCPConnection.t whole_sim :=
  TCPConnection.connection (K:=whole_sim) 100.
#[local] Instance whole_tcp_whole : ConnectionWhole TCPConnection.t whole_sim :=
  TCPConnection.connection_whole (K:=whole_sim) 100.

Definition said (d : bytes) : world whole_sim :=
  whole_world (sim_start [5%Z] [(inl 5%Z, [d])] []).

Lemma main_echoes_line_witness :
  ∃ w', v_sent (inl 5%Z) (wview w') = lit "|hello|" ++ crlf.
Proof.
  destruct (conn_recv (TCPConnection.Make 5) (said (lit "hello" ++ crlf))) as [o1 w1'] eqn:Hr.
  destruct (LineSession.iteration EchoProtocol.process 10
     (EchoProtocol.create_session (TCPConnection.Make 5), said (lit "hello" ++ crlf)))
     as [o [s' w']] eqn:Hi.
  assert (o1 = Ret (lit "hello" ++ crlf)) as -> by (by vm_compute in Hr; injection Hr as <- _).
  assert (o = Ret ()) as -> by (by vm_compute in Hi; injection Hi as <- _ _).
  exists w'.
  pose proof (main_echoes_line (K:=whole_sim) (TCPConnection.Make 5) 10 (lit "hello")
    (said (lit "hello" ++ crlf)) w1' s' w' (ltac:(lia)) eq_refl Hr Hi) as [_ Hs].
  pose proof (ss_sent _ _ _ _ _ Hs) as Hsent. exact Hsent.
Defined.

Lemma loadtest_echoes_request_witness :
  ∃ w', v_sent (inl 5%Z) (wview w') = lit "0123456789" ++ [LF].
Proof.
  destruct (conn_recv (TCPConnection.Make 5) (said (lit "0123456789" ++ [LF]))) as [o1 w1'] eqn:Hr.
  destruct (LineSession.iteration LoadTestProtocol.process 10
     (LoadTestProtocol.create_session (TCPConnection.Make 5), said (lit "0123456789" ++ [LF])))
     as [o [s' w']] eqn:Hi.
  assert (o1 = Ret (lit "0123456789" ++ [LF])) as -> by (by vm_compute in Hr; injection Hr as <- _).
  assert (o = Ret ()) as -> by (by vm_compute in Hi; injection Hi as <- _ _).
  exists w'.
  pose proof (loadtest_echoes_request (K:=whole_sim) (TCPConnection.Make 5) 10 (lit "0123456789")
    (said (lit "0123456789" ++ [LF])) w1' s' w' (ltac:(lia)) eq_refl Hr Hi) as [_ Hs].
  pose proof (ss_sent _ _ _ _ _ Hs) as Hsent. exact Hsent.
Defined.

(** ** The clients *)

(** The scripted clock: a unit per reading, and a tick every two of them, so
    that two readings in a row can be equal. *)
#[local] Instance sim_steady : Clock sim :=
  λ k, (((s_clock k + 1) / 2)%Z, sim_clock (s_clock k + 1) k).
#[local] Instance sim_steady_laws : ClockLaws sim.
Proof.
  refine {| time := λ k, (s_clock k / 2)%Z |}.
  intros k t k' [= <- <-]. cbn. split_and!; [done|done|]. apply Z.div_le_mono; lia.
Defined.
#[local] Instance sim_ticks : ClockTicks sim.
Proof.
  refine {| elapsed := s_clock; reading := λ e, (e / 2)%Z; tick := 2 |}.
  - done.
  - done.
  - intros e1 e2 He. apply Z.div_le_mono; lia.
  - intros e. change (e + 2)%Z with (e + 1 * 2)%Z. by rewrite Z.div_add.
  - intros k t k' [= <- <-]. cbn. lia.
  - intros fd n k. cbn. unfold sim_read. repeat case_match; cbn; lia.
Defined.
#[local] Instance client_ops : ClientOps TCPClient.t (world sim) := TCPClient.ops (K:=sim) 100.
#[local] Instance client_spec : ClientSpec TCPClient.t sim := tcp_client_spec (K:=sim) 100.
#[local] Instance client_timed : ClientTimed TCPClient.t sim.
Proof.
  intros c n w. change (client_recv c n) with (TCPClient.recv (K:=sim) c n). unfold TCPClient.recv.
  pose proof (recv_elapsed (TCPClient.fd_ c) n (kern w)) as Ht.
  rewrite !run_bind, !run_sys. cbn [fst snd].
  destruct (sys_recv (TCPClient.fd_ c) n (kern w)) as [[r data] k]. cbn [fst snd] in *.
  unfold recv_tail. cbn [is_win32 platform posix andb].
  destruct (r <? 0)%Z; [|by destruct (r =? 0)%Z].
  rewrite !run_bind. unfold get_errno, gets. cbn. by destruct (_ =? EAGAIN)%Z.
Qed.

(** A reply that comes in two pieces. *)
Definition reply : world sim := sim_world (sim_start [5%Z] [(inl 5%Z, [lit "hel"; lit "lo"])] []).

Lemma recv_spinlock_exact_witness :
  ∃ w', Client.recv_spinlock 1000 (TCPClient.Make 5) 5 1 reply = (Ret (Some (lit "hello")), w') ∧
    ∃ d, stream_step (inl 5%Z) d [] (wview reply) (wview w') ∧
      lit "hello" = d ∧ length (lit "hello") = 5 ∧ 5 ≠ 0.
Proof.
  destruct (Client.recv_spinlock 1000 (TCPClient.Make 5) 5 1 reply) as [o w'] eqn:Hr.
  exists w'. assert (o = Ret (Some (lit "hello"))) as -> by (by vm_compute in Hr; injection Hr as <- _).
  split; [reflexivity|].
  exact (recv_spinlock_exact 1000 (TCPClient.Make 5) 5 1 reply _ w' Hr).
Defined.

Lemma recv_spinlock_terminates_witness :
  (Client.recv_spinlock (1000 * 2000) (TCPClient.Make 5) 7 1 reply).1 ≠ NoFuel.
Proof.
  apply (recv_spinlock_terminates (1000 * 2000) (TCPClient.Make 5) 7 1 reply).
  - rewrite Nat2Z.inj_mul. reflexivity.
  - apply Nat.mul_pos_pos; apply Nat.lt_0_succ.
Defined.

Lemma recv_spinlock_no_time_witness :
  ∃ w', Client.recv_spinlock 10 (TCPClient.Make 5) 5 0 reply = (Ret None, w') ∧
    wview w' = wview reply.
Proof. apply (recv_spinlock_no_time 10 (TCPClient.Make 5) 5 0 reply); lia. Defined.

(** Too little comes for the future: it is fulfilled with nothing.  The clock of
    this world stands just before its deadline. *)
Lemma recv_future_all_or_nothing_witness :
  ∃ w' d, Client.recv_future 10 (TCPClient.Make 5) 0 reply = (Ret [], w') ∧
    stream_step (inl 5%Z) d [] (wview reply) (wview w') ∧
    ([] = d ∧ length (A:=ascii) [] = Client.BUF_SZ ∨ [] = (@nil ascii) ∧ length d < Client.BUF_SZ).
Proof.
  destruct (Client.recv_future 10 (TCPClient.Make 5) 0 reply) as [o w'] eqn:Hr.
  assert (o = Ret []) as -> by (by vm_compute in Hr; injection Hr as <- _).
  destruct (recv_future_all_or_nothing 10 (TCPClient.Make 5) 0 reply [] w' Hr) as (d & Hs & Ho).
  exists w', d. split; [reflexivity|]. split; [exact Hs|exact Ho].
Defined.

(** Two addresses, the first refused. *)
Definition two_addresses : world sim :=
  sim_world (Sim 0 (View (list_to_set [0; 1; 2]%Z) ∅ ∅ ∅) ∅ [] 0
    [AddrInfo 0 AF_INET SOCK_STREAM 0 (lit "a"); AddrInfo 0 AF_INET SOCK_STREAM 0 (lit "b")]
    [(-1)%Z] ∅ [] 1 [] 0).

Lemma open_connection_owns_fd_witness :
  ∃ fd w', TCPClient.open_connection (lit "localhost") 23456 two_addresses = (Ret fd, w') ∧
    opens_one (wview two_addresses) (wview w') fd.
Proof.
  destruct (TCPClient.open_connection (lit "localhost") 23456 two_addresses) as [o w'] eqn:Hr.
  pose proof (open_connection_owns_fd (lit "localhost") 23456 two_addresses o w' Hr) as Ho.
  destruct o as [fd| | |]; [exists fd, w'; split; [reflexivity|exact Ho]|..].
  all: exfalso; vm_compute in Hr; discriminate.
Defined.

(** ** The load generator *)

(** The string drawn is ten zeros. *)
#[local] Instance sim_rand : Rand sim := λ k, (0%Z, k).

Definition answers (reply : list bytes) : world sim :=
  sim_world (sim_start [5%Z] [(inl 5%Z, reply)] []).

Lemma attempt_outcome_witness :
  ∃ r w', attempt 1000 (mret (TCPClient.Make 5)) (answers [lit "00000"; lit "00000" ++ [LF]]) =
      (Ret (r, Some (TCPClient.Make 5)), w') ∧
    output r = Success ∧ ∃ str w1 w3 d, random_string 10 (answers [lit "00000"; lit "00000" ++ [LF]]) = (Ret str, w1) ∧
    stream_step (inl 5%Z) d [] (wview w3) (wview w') ∧ d = str ++ [LF].
Proof.
  destruct (attempt 1000 (mret (TCPClient.Make 5)) (answers [lit "00000"; lit "00000" ++ [LF]]))
    as [o w'] eqn:Hr.
  assert (∃ r, o = Ret (r, Some (TCPClient.Make 5)) ∧ output r = Success) as (r & -> & Ho).
  { vm_compute in Hr. injection Hr as <- _. eexists. split; reflexivity. }
  exists r, w'. split; [reflexivity|]. split; [exact Ho|].
  destruct (attempt_outcome 1000 (mret (TCPClient.Make 5)) (answers _) r _ w' Hr)
    as (str & w0 & w1 & Hs & _ & _ & Hm). rewrite Ho in Hm.
  destruct Hm as (c & w2 & w3 & d & [= <-] & _ & _ & Hd & Hj).
  exists str, w0, w3, d. split; [exact Hs|]. split; [exact Hd|].
  revert Hj. case_bool_decide as Heq; [intros _; exact Heq|]. case_decide; discriminate.
Defined.

(** A limit of 1024 is raised. *)
#[local] Instance sim_limits : Limits sim := {|
  getrlimit k := ((1024, 4096)%Z, k); setrlimit _ k := ((-1)%Z, sim_fail 1 k);
  OPENSSL_init_ssl k := (1%Z, k); WSAStartup k := (0%Z, k); WSACleanup k := (0%Z, k) |}.

Example init_complains :
  let '(o, w) := Init.make (answers []) in
  o = Ret () ∧ length (written (logs w)) = 1 ∧ service_name (logs w) = lit "(undefined)".
Proof. vm_compute. split_and!; reflexivity. Qed.

(** ** The listener and the handshake *)

Lemma create_listener_owns_fd_witness :
  ∃ fd w', TCPServer.create_listener 23456 false two_addresses = (Ret fd, w') ∧
    opens_one (wview two_addresses) (wview w') fd.
Proof.
  destruct (TCPServer.create_listener 23456 false two_addresses) as [o w'] eqn:Hr.
  pose proof (create_listener_owns_fd 23456 false two_addresses o w' Hr) as Ho.
  destruct o as [fd| | |]; [exists fd, w'; split; [reflexivity|exact Ho]|..].
  all: exfalso; vm_compute in Hr; discriminate.
Defined.

(** A client that does not speak TLS. *)
Definition no_tls : world sim :=
  sim_world (sim_errors [lit "wrong version number"] (sim_start [5%Z] [] [])).

Lemma ssl_make_owns_fd_witness :
  ∃ e w', SSLConnection.make 5 1 no_tls = (Throw e, w') ∧ closes 5 (wview no_tls) (wview w').
Proof.
  destruct (SSLConnection.make 5 1 no_tls) as [o w'] eqn:Hr.
  pose proof (ssl_make_owns_fd 5 1 no_tls o w' Hr) as Ho.
  destruct o as [c|e| |]; [|exists e, w'; split; [reflexivity|exact Ho]|..].
  all: exfalso; vm_compute in Hr; discriminate.
Defined.

Lemma mark_as_nonblocking_witness :
  ∃ k2, socket_mark_as_nonblocking 5 (sim_world (sim_flags {[5%Z := 2%Z]} (sim_start [5%Z] [] []))) =
    (Ret (), World k2 sim_log) ∧ s_flags k2 !! 5%Z = Some 2050%Z.
Proof.
  set (k := sim_flags {[5%Z := 2%Z]} (sim_start [5%Z] [] [])).
  destruct (sys_fcntl_setfl 5 (Z.lor 2 O_NONBLOCK) k) as [r k2] eqn:Hs.
  exists k2. assert (r = 0%Z ∧ s_flags k2 !! 5%Z = Some 2050%Z) as [-> Hf].
  { vm_compute in Hs. injection Hs as <- <-. split; vm_compute; reflexivity. }
  split; [|exact Hf].
  exact (proj1 (mark_as_nonblocking 5 (sim_world k) 2 k 0 k2 eq_refl eq_refl
                  (ltac:(discriminate)) Hs)).
Defined.

(** ** The pollers *)

(** The listener, a client with data and one that hung up. *)
Definition busy : world sim :=
  World (sim_ready [[(3, EPOLLIN); (6, EPOLLIN); (7, Z.lor EPOLLIN EPOLLRDHUP)]]%Z
           (sim_view (View (list_to_set [3; 4; 6; 7]%Z) ∅ ∅
              (list_to_set [(4, 3); (4, 6); (4, 7)]%Z)) (kern w0))) (logs w0).

Lemma linux_wait_events_witness :
  let p := PollerLinux.Make 3 4 in
  ∃ w', PollerLinux.wait 50 p busy =
      (Ret [MkEvent NewClient 3; MkEvent ClientDataReady 6; MkEvent ClientDisconnected 7], w') ∧
    watched 4 (wview w') = watched 4 (wview busy) ∖ {[7%Z]}.
Proof.
  intros p. destruct (PollerLinux.wait 50 p busy) as [o w'] eqn:Hw. exists w'.
  assert (o = Ret [MkEvent NewClient 3; MkEvent ClientDataReady 6; MkEvent ClientDisconnected 7]) as ->
    by (by vm_compute in Hw; injection Hw as <- _).
  split; [reflexivity|].
  destruct (epoll_wait 4 EVENT_BUFFER_SZ (to_int 50) (kern busy)) as [[n entries] k] eqn:He.
  assert (n = 3%Z) as -> by (by vm_compute in He; injection He as <- _ _).
  destruct (Linux.linux_wait_events 50 p busy 3 entries k _ w' He (ltac:(lia)) Hw)
    as (_ & _ & Hwatch).
  etrans; [exact Hwatch|]. reflexivity.
Defined.

Definition busy_kqueue : world sim :=
  World (sim_ready [[(3, 0); (6, 0); (7, EV_EOF)]]%Z (kern busy)) (logs w0).

Lemma bsd_wait_events_witness :
  let p := PollerBsd.Make 3 4 in
  ∃ w', PollerBsd.wait 50 p busy_kqueue =
      (Ret [MkEvent NewClient 3; MkEvent ClientDataReady 6; MkEvent ClientDisconnected 7], w') ∧
    watched 4 (wview w') = watched 4 (wview busy_kqueue) ∖ {[7%Z]}.
Proof.
  intros p. destruct (PollerBsd.wait 50 p busy_kqueue) as [o w'] eqn:Hw. exists w'.
  assert (o = Ret [MkEvent NewClient 3; MkEvent ClientDataReady 6; MkEvent ClientDisconnected 7]) as ->
    by (by vm_compute in Hw; injection Hw as <- _).
  split; [reflexivity|].
  destruct (kevent_wait 4 EVENT_BUFFER_SZ (PollerBsd.timespec 50) (kern busy_kqueue))
    as [[n entries] k] eqn:He.
  assert (n = 3%Z) as -> by (by vm_compute in He; injection He as <- _ _).
  destruct (Bsd.bsd_wait_events 50 p busy_kqueue 3 entries k _ w' He (ltac:(lia)) Hw)
    as (_ & _ & Hwatch).
  etrans; [exact Hwatch|]. reflexivity.
Defined.

Lemma pollers_differ_on_hangup_witness :
  Linux.classify (PollerLinux.Make 3 4) (5%Z, 8193%Z) = [MkEvent ClientDisconnected 5] ∧
  Bsd.classify (PollerBsd.Make 3 4) (5%Z, EV_EOF) = [MkEvent ClientDisconnected 5] ∧
  PollerWin32.client_events (PollFd 5 POLLRDNORM (Z.lor POLLRDNORM POLLHUP)) =
    [MkEvent ClientDataReady 5; MkEvent ClientDisconnected 5].
Proof.
  apply (pollers_differ_on_hangup 5 8193 EV_EOF 3 4); [discriminate|split; lia|reflexivity..].
Defined.

(** A client that hung up is polled again. *)
Lemma win32_never_forgets_witness :
  let p := PollerWin32.Make 3 [PollFd 3 POLLRDNORM 0; PollFd 5 POLLRDNORM 0] in
  let w := sim_world (sim_ready [[(5%Z, POLLHUP)]] (sim_start [3%Z; 5%Z] [] [])) in
  ∃ p' w', PollerWin32.wait 50 (p, w) = (Ret [MkEvent ClientDisconnected 5], (p', w')) ∧
    pfd <$> PollerWin32.fds p' = [3; 5]%Z.
Proof.
  intros p w. destruct (PollerWin32.wait 50 (p, w)) as [o [p' w']] eqn:Hw. exists p', w'.
  assert (o = Ret [MkEvent ClientDisconnected 5]) as ->
    by (by vm_compute in Hw; injection Hw as <- _ _).
  split; [reflexivity|].
  apply (Win32.win32_never_forgets 50 p w (Ret [MkEvent ClientDisconnected 5]) p' w'); [|exact Hw].
  intros l t k. cbn. case_match; cbn; apply length_fmap.
Defined.
