(* ===== verification/LoadScenarios.v ===== *)
(** * Runs of the load generator in the scripted environment

    Two threads that interleave, a connection that is reset, and command lines,
    with the theorems on the load generator applied to them. *)

From S2P Require Import Prelude Cpp Log OS OpenSSL Sim Connection TCPConnection TCPServer.
From S2P Require Import TCPServerSpec Client ClientSpec.
From S2P Require Import Getopt GetoptRun GetoptSpell.
From S2P Require Import LoadTest LoadTestSpec LoadTestArgs LoadMain LoadMainSpec ClientLife.
From S2P Require Import Session LineSession LineSessionSpec Apps EndToEnd.

#[local] Instance platform : Platform := posix.
#[local] Instance client_ops : ClientOps TCPClient.t (world sim) := TCPClient.ops (K:=sim) 100.
#[local] Instance sim_time : Clock sim := λ k, (s_clock k, sim_clock (s_clock k + 1000000000) k).
(** The string drawn is ten zeros. *)
#[local] Instance sim_rand : Rand sim := λ k, (0%Z, k).

Definition answers (reply : list bytes) : world sim :=
  sim_world (sim_start [5%Z] [(inl 5%Z, reply)] []).

(** Two threads with one attempt each, and the server process 77. *)
#[local] Instance sim_process : Process sim := {|
  sys_fork k := (77%Z, k); sys_execlp _ _ k := (Some 2%Z, k);
  sys_kill _ _ k := (0%Z, k); sys_waitpid p k := ((p, 0%Z), k); sys_sleep_for _ k := ((), k) |}.

Definition two_threads : LoadTest.Config := MkConfig CtTCP 1 2 true.
Definition client : M (world sim) TCPClient.t := mret (TCPClient.Make 5).
Definition answering : world sim := answers [lit "00000"; lit "00000" ++ [LF]].
Definition good : Result := MkResult (Some 0%Z) Success.

Lemma answered :
  ∃ d w', attempt 1000 client answering =
    (Ret (MkResult (Some d) Success, Some (TCPClient.Make 5)), w').
Proof.
  destruct (attempt 1000 client answering) as [o w'] eqn:Hr.
  vm_compute in Hr. injection Hr as <- _. eexists _, w'. reflexivity.
Qed.

(** A connection that is reset while the request is sent. *)
Definition resetting : world sim := sim_world (sim_start [5%Z] [] [(-104)%Z]).

Lemma reset : ∃ e w', attempt 1000 client resetting = (Throw e, w').
Proof.
  destruct (attempt 1000 client resetting) as [o w'] eqn:Hr.
  vm_compute in Hr. injection Hr as <- _. eexists _, w'. reflexivity.
Qed.

Abbreviation step := (step (K:=sim) two_threads 1000 client).

Lemma close_returns (c : TCPClient.t) (w : world sim) : ∃ w', client_destroy c w = (Ret (), w').
Proof.
  destruct (client_destroy_closes (ClientLife:=tcp_life (K:=sim) 100) c w) as (w' & Hd & _). by exists w'.
Qed.

(** The second thread finishes its attempt first, and takes the mutex first. *)
Lemma two_threads_return :
  ∃ d, rtc step start
    (State (Returned 0) [Finished; Finished] None
       [MkResult (Some d) Success; MkResult (Some d) Success] (Some 77%Z) [77%Z]).
Proof.
  destruct answered as (d & w & Ha). exists d. unfold start.
  eapply rtc_l; [left; by apply (s_server _ answering answering 77)|].
  eapply rtc_l; [left; by apply s_spawn|].
  eapply rtc_l; [left; by apply s_spawn|].
  eapply rtc_l; [left; by apply s_spawned|].
  eapply rtc_l; [right; by eapply t_attempt with (i := 0) (w := answering)|].
  eapply rtc_l; [right; by eapply t_attempt with (i := 1) (w := answering)|].
  eapply rtc_l; [right; by eapply t_lock with (i := 1)|].
  eapply rtc_l; [right; by eapply t_append with (i := 1)|].
  destruct (close_returns (TCPClient.Make 5) answering) as [w0 Hd].
  eapply rtc_l; [right; by eapply t_lock with (i := 0)|].
  eapply rtc_l; [right; by eapply t_append with (i := 0)|].
  eapply rtc_l; [right; by eapply t_drop with (i := 1)|].
  eapply rtc_l; [right; by eapply t_drop with (i := 0)|].
  eapply rtc_l; [right; by eapply t_finish with (i := 0)|].
  eapply rtc_l; [left; by apply s_join|].
  eapply rtc_l; [right; by eapply t_finish with (i := 1)|].
  eapply rtc_l; [left; by apply s_join|].
  eapply rtc_l; [left; by apply s_report|].
  eapply rtc_l; [left; by apply (s_kill _ answering answering 77)|].
  eapply rtc_l; [left; by apply s_return|]. apply rtc_refl.
Qed.

Lemma threads_nonneg : (0 ≤ n_threads two_threads)%Z.
Proof. done. Qed.
Lemma attempts_nonneg : (0 ≤ n_attempts two_threads)%Z.
Proof. done. Qed.

Lemma main_results_witness :
  ∃ s, rtc step start s ∧ Z.of_nat (length (results s)) = 2%Z ∧ signalled s = [77%Z].
Proof.
  destruct two_threads_return as [d Hs]. eexists. split; [exact Hs|].
  destruct (main_results two_threads 1000 client threads_nonneg attempts_nonneg
    _ 0%Z Hs eq_refl) as (Hn & _ & _ & _ & _ & Hk).
  split; [exact Hn|exact Hk].
Defined.

Lemma server_forked : server_starts (K:=sim) two_threads.
Proof. intros _. by exists answering, 77%Z, answering. Qed.

Lemma client_ends : attempt_ends 1000 client.
Proof. exists answering. destruct answered as (d & w' & ->). exact I. Qed.

Lemma main_terminates_witness :
  (∀ n s, nsteps step n start s → n ≤ 20) ∧
  (∀ s, rtc step start s → live (main_at s) = true → ∃ s', step s s').
Proof.
  assert (Z.to_nat (n_threads two_threads) * (4 * Z.to_nat (n_attempts two_threads) + 3) + 6 = 20)
    as <- by reflexivity.
  apply main_terminates; [exact threads_nonneg|exact client_ends| |exact server_forked].
  intros c. exists answering. apply close_returns.
Defined.

(** One thread is spawned and about to attempt. *)
Definition one_spawned : state TCPClient.t :=
  State (Spawning 1) [AtLoop 0] None [] (Some 77%Z) [].

Lemma to_one_spawned : rtc step start one_spawned.
Proof.
  eapply rtc_l; [left; by apply (s_server _ answering answering 77)|].
  eapply rtc_l; [left; by apply s_spawn|]. apply rtc_refl.
Qed.

Lemma exception_orphans_server_witness :
  ∃ s', step one_spawned s' ∧ main_at s' = Terminated ∧ server_pid s' = Some 77%Z ∧
    signalled s' = [].
Proof.
  destruct reset as (e & w' & Ha).
  destruct (exception_orphans_server two_threads 1000 client threads_nonneg
    one_spawned 0 0 resetting e w' to_one_spawned eq_refl eq_refl eq_refl Ha)
    as (s' & Hs & Ht & Hp & Hk & _).
  exists s'. split; [exact Hs|]. split; [exact Ht|]. split; [exact Hp|exact Hk].
Defined.

Lemma results_unshared_witness :
  ∃ s, rtc step start s ∧
    (∀ i j, match pool s !! i, pool s !! j with
            | Some (Holding _ _ _), Some (Holding _ _ _) => i = j
            | _, _ => True
            end).
Proof.
  exists one_spawned. split; [exact to_one_spawned|].
  exact (proj1 (results_unshared two_threads 1000 client threads_nonneg
    one_spawned to_one_spawned)).
Defined.

(** ** A whole attempt, from the socket to its closing *)

(** The server's address accepts, and the socket will be 3. *)
Definition echoing : world sim :=
  sim_world (Sim 0 (View (list_to_set [0; 1; 2]%Z) ∅ ∅ ∅)
    (<[inl 3%Z := [lit "0000000000" ++ [LF]]]> ∅) [] 0
    [AddrInfo 0 AF_INET SOCK_STREAM 0 (lit "a")] [] ∅ [] 1 [] 0).

Lemma now_keeps (k : sim) : kview (now k).2 = kview k.
Proof. reflexivity. Qed.
Lemma rand_keeps (k : sim) : kview (rand k).2 = kview k.
Proof. reflexivity. Qed.

Lemma attempt_closes_client_witness :
  ∃ r c w1 w2, attempt (ClientOps0:=LoadMain.client_ops (K:=sim) 100) 100
            (create_client_with 0 100 two_threads) echoing = (Ret (r, c), w1) ∧
    output r = Success ∧ drop_client (ClientOps0:=LoadMain.client_ops (K:=sim) 100) c w1 = (Ret (), w2) ∧
    v_open (wview w2) = v_open (wview echoing).
Proof.
  destruct (attempt (ClientOps0:=LoadMain.client_ops (K:=sim) 100) 100
              (create_client_with 0 100 two_threads) echoing) as [o w1] eqn:Hr.
  assert (∃ r c, o = Ret (r, c) ∧ output r = Success) as (r & c & -> & Hs).
  { vm_compute in Hr. injection Hr as <- _. eexists _, _. split; reflexivity. }
  destruct (attempt_closes_client (K:=sim) 0 100 two_threads echoing r c w1 now_keeps
              rand_keeps Hr) as [[Hf _]|[_ (fd & _ & Hdrop)]]; [rewrite Hs in Hf; discriminate Hf|].
  destruct (Hdrop w1) as (w2 & Hd & _ & Ho). exists r, c, w1, w2.
  split; [reflexivity|]. split; [exact Hs|]. split; [exact Hd|exact (Ho eq_refl)].
Defined.

(** ** The client and the server *)

#[local] Instance whole_client : ClientOps TCPClient.t (world whole_sim) := TCPClient.ops (K:=whole_sim) 100.
#[local] Instance whole_client_spec : ClientSpec TCPClient.t whole_sim := tcp_client_spec (K:=whole_sim) 100.
#[local] Instance whole_client_whole : ClientWhole TCPClient.t whole_sim := tcp_client_whole (K:=whole_sim) 100.
#[local] Instance whole_conn : ConnectionOps TCPConnection.t (world whole_sim) := TCPConnection.ops (K:=whole_sim) 100.
#[local] Instance whole_conn_spec : ConnectionSpec TCPConnection.t whole_sim :=
  TCPConnection.connection (K:=whole_sim) 100.
#[local] Instance whole_conn_whole : ConnectionWhole TCPConnection.t whole_sim :=
  TCPConnection.connection_whole (K:=whole_sim) 100.
#[local] Instance whole_time : Clock whole_sim := λ k, ((s_clock k + 1)%Z, sim_clock (s_clock k + 1) k).
#[local] Instance whole_time_laws : ClockLaws whole_sim.
Proof.
  refine {| time := s_clock |}.
  intros k t k' [= <- <-]. cbn. split_and!; [done|done|lia].
Defined.
#[local] Instance whole_rand : Rand whole_sim := λ k, (0%Z, k).

Definition zeros : bytes := lit "0000000000".

(** The client's connection is 5, the server's 6; the reply comes in two parts. *)
Definition client_side : world whole_sim :=
  whole_world (sim_start [5%Z] [(inl 5%Z, [lit "000"; lit "0000000" ++ [LF]])] []).
Definition server_side : world whole_sim :=
  whole_world (sim_start [6%Z] [(inl 6%Z, [zeros ++ [LF]])] []).

Lemma server_served :
  ∃ s v, served 1 (20 * 1000) (TCPConnection.Make 6) server_side s v ∧
    v_received (inl 6%Z) (wview v) = zeros ++ [LF] ∧ v_sent (inl 6%Z) (wview v) = zeros ++ [LF] ∧
    LineSession.buffer_ s = [].
Proof.
  destruct (iterations (K:=whole_sim) (λ d, d) (20 * 1000) 1
    (LoadTestProtocol.create_session (TCPConnection.Make 6), server_side)) as [o [s v]] eqn:Hit.
  assert (o = Ret () ∧ v_received (inl 6%Z) (wview v) = zeros ++ [LF] ∧
    v_sent (inl 6%Z) (wview v) = zeros ++ [LF] ∧ LineSession.buffer_ s = []) as (-> & Hr & Hs & Hb).
  { vm_compute in Hit. injection Hit as <- <- <-. vm_compute. repeat split; reflexivity. }
  exists s, v. split; [|done]. split; [apply Nat.ltb_lt; vm_compute; reflexivity|].
  split; [vm_compute; reflexivity|]. split; [vm_compute; reflexivity|exact Hit].
Qed.

(** What the client sees of the exchange. *)
Lemma client_exchange r client w' request reply :
  attempt 1000 (mret (TCPClient.Make 5)) client_side = (Ret (r, client), w') →
  exchanged (mret (TCPClient.Make 5)) client_side request reply r w' →
  request = zeros ++ [LF] ∧ reply = zeros ++ [LF].
Proof.
  intros Hr (c & str & w0 & w2 & Hstr & -> & _ & _ & Hc & Hst & _).
  assert (v_received (inl 5%Z) (wview w') = zeros ++ [LF]) as Hin.
  { vm_compute in Hr. injection Hr as _ _ <-. vm_compute. reflexivity. }
  assert (str = zeros ∧ v_received (inl 5%Z) (kview (K:=whole_sim) (now (kern w0)).2) = []) as [-> Hempty].
  { vm_compute in Hstr. injection Hstr as <- <-. split; reflexivity. }
  split; [done|]. injection Hc as <- <-.
  assert (v_received (inl 5%Z) (wview (K:=whole_sim) w') =
    v_received (inl 5%Z) (kview (K:=whole_sim) (now (kern w0)).2) ++ reply) as Hrec
    by exact (ss_received _ _ _ _ _ Hst).
  rewrite Hin, Hempty in Hrec. exact (eq_sym Hrec).
Qed.

Lemma client_attempt :
  ∃ r client w', attempt 1000 (mret (TCPClient.Make 5)) client_side = (Ret (r, client), w') ∧
    output r ≠ FailedToConnect.
Proof.
  destruct (attempt 1000 (mret (TCPClient.Make 5)) client_side) as [o w'] eqn:Hr.
  assert (∃ r client, o = Ret (r, client) ∧ bool_decide (output r = FailedToConnect) = false)
    as (r & client & -> & Hne).
  { vm_compute in Hr. injection Hr as <- _. eexists _, _. split; reflexivity. }
  exists r, client, w'. split; [done|]. by apply bool_decide_eq_false in Hne.
Qed.

Lemma attempt_against_session_witness :
  ∃ r client w', attempt 1000 (mret (TCPClient.Make 5)) client_side = (Ret (r, client), w') ∧
    output r = Success.
Proof.
  destruct client_attempt as (r & client & w' & Hr & Hne). exists r, client, w'. split; [exact Hr|].
  destruct (attempt_against_session (K2:=whole_sim) (C2:=TCPConnection.t) 1000
    (mret (TCPClient.Make 5)) client_side r client w' Hr Hne) as (request & reply & Hex & Hall).
  destruct (client_exchange _ _ _ _ _ Hr Hex) as [-> ->].
  destruct server_served as (s & v & Hv & Hvr & Hvs & Hb).
  destruct (Hall 1 (20 * 1000) (TCPConnection.Make 6) server_side s v Hv) as [_ Hsucc].
  - change (conn_end _) with (inl 6%Z : endpoint). by rewrite Hvr.
  - change (conn_end _) with (inl 6%Z : endpoint). by rewrite Hvs.
  - exact (Hsucc Hvr Hb (eq_sym Hvs)).
Defined.

(** ** Command lines *)




Definition printed : Config := MkConfig CtSSL ULLONG_MAX 0 true.
Definition mixed : styles := Styles (Full true) (Brief true) (Full false) (Full true) (lit "yes").

(** [--ssl x -a18446744073709551615 --threads 0 --run-server=yes - -- -t] *)
Definition occurrences : list occurrence :=
  match print_config mixed printed with
  | c :: l => c :: Operand (lit "x") :: l ++ [Operand (lit "-")]
  | [] => []
  end.

Lemma config_roundtrip_witness :
  let ws := command_line occurrences (Some [lit "-t"]) in
  ws = lit <$> ["--ssl"; "x"; "-a18446744073709551615"; "--threads"; "0"; "--run-server=yes"; "-";
                "--"; "-t"]%string ∧
  ∃ s, parse_args (Z.of_nat (S (length ws))) false 100 (Getopt.init (lit "prog" :: ws)) =
    (Ret (inl printed), s).
Proof.
  split; [vm_compute; reflexivity|].
  apply (config_roundtrip false mixed printed occurrences (Some [lit "-t"]) (lit "prog") 100).
  - discriminate.
  - vm_compute. split; discriminate.
  - vm_compute. split; discriminate.
  - vm_compute. reflexivity.
  - vm_compute. repeat constructor.
  - vm_compute. lia.
Defined.

(** [--run-server] takes the next word: its help asks for [--run-server --tcp]. *)
Example run_server_swallows :
  (parse_args 3 false 100 (Getopt.init (lit <$> ["prog"; "--run-server"; "--tcp"]%string))).1 =
    Ret (inr EXIT_FAILURE) ∧
  (parse_args 3 false 100 (Getopt.init (lit <$> ["prog"; "--tcp"; "-r"]%string))).1 =
    Ret (inl (MkConfig CtTCP 1 1 true)).
Proof. vm_compute. split; reflexivity. Qed.

(** With [POSIXLY_CORRECT] set an operand in front hides the options. *)
Example posix_hides_options :
  let line := Getopt.init (lit <$> ["prog"; "x"; "--tcp"]%string) in
  (parse_args 3 false 100 line).1 = Ret (inl (MkConfig CtTCP 1 1 false)) ∧
  (parse_args 3 true 100 line).1 = Ret (inr EXIT_FAILURE).
Proof. vm_compute. split; reflexivity. Qed.
