(* ===== verification/DeliveryScenarios.v ===== *)
(** * The delivery theorems at work

    The echo server of the tests over the network of [SimNet]: a client whose
    line fits the buffer is read completely, one that sends a byte more than the
    buffer holds is left with it. *)

From S2P Require Import Prelude Cpp Log OS Sim Connection TCPConnection Session Threads ThreadsSpec.
From S2P Require Import Poller PollerSpec Server ServerSpec TCPServer TCPServerSpec Apps.
From S2P Require Import Network PollerNet Delivery Idle SimNet.
Import Server Machine System.

#[local] Instance platform : Platform := posix.
#[local] Existing Instances PollerLinux.ops Linux.poller.
#[local] Instance tcp : ConnectionOps TCPConnection.t (world wire) := TCPConnection.ops 10.
#[local] Instance tcp_spec : ConnectionSpec TCPConnection.t wire := TCPConnection.connection 10.
#[local] Instance tcp_closes : ConnectionCloses TCPConnection.t wire := TCPConnection.connection_closes 10.
#[local] Instance tcp_wire : ConnectionNet TCPConnection.t := tcp_net 10.
#[local] Instance sessions : SessionOps (Session.t TCPConnection.t ()) (world wire) :=
  Session.ops TestProtocol.process.
#[local] Instance sessions_spec : SessionSpec (Session.t TCPConnection.t ()) wire :=
  Session.session TestProtocol.process.
#[local] Instance sessions_net : SessionNet (Session.t TCPConnection.t ()) :=
  session_net TestProtocol.process.
#[local] Instance server_ops : ServerOps TCPConnection.t (world wire) := TCPServer.ops.
#[local] Instance server_spec : ServerSpec TCPConnection.t wire := tcp_server 10.
#[local] Instance server_net : ServerNet TCPConnection.t := tcp_server_net.
#[local] Instance protocol : ProtocolOps TCPConnection.t (Session.t TCPConnection.t ()) :=
  TestProtocol.create_session.
#[local] Instance protocol_spec :
  ProtocolSpec TCPConnection.t (Session.t TCPConnection.t ()) (world wire).
Proof. by intros conn. Defined.

(** *** States of a server of the sessions [Se] *)
Section scenario.
Context {Se : Type} `{!SessionOps Se (world wire)} `{!ProtocolOps TCPConnection.t Se}.
Abbreviation server_state := (Server.t PollerLinux.t Se * world wire)%type.

(** A listener, and a connection on which [d] has arrived. *)
Definition listening (d : bytes) : world wire :=
  World (Wire 0 (View (list_to_set [0; 1; 2; 3]%Z) ∅ ∅ ∅) ∅ ∅ ∅ [d]) sim_log.

Definition made (tc : ThreadCount) (d : bytes) : server_state :=
  match make 3%Z tc (listening d) with
  | (Ret s, w) => (s, w)
  | (_, w) => (Server.Make 0 (PollerLinux.Make 0 0) (ThreadManager.Make []) false, w)
  end.
(** A poll, and the handling of an event. *)
Definition polled (x : server_state) : server_state := (on_poller (poller_wait default_timeout) x).2.
Definition handled (e : Event) (x : server_state) : server_state := (handle e x).2.

Lemma wire_fits (x : server_state) p :
  bool_decide (map_Forall (λ _ u, length u ≤ RECV_BUF_SZ) (w_unread (kern x.2))) = true →
  fits (Config x.1 x.2 p).
Proof.
  intros Hb%bool_decide_eq_true. right. intros fd. cbn. unfold wire_unread, lookup_total, map_lookup_total.
  destruct (w_unread (kern x.2) !! fd) as [u|] eqn:Hu; [by apply (Hb fd)|cbn; lia].
Qed.
End scenario.

Definition accept_event : Event := MkEvent NewClient 3.
Definition data_event : Event := MkEvent ClientDataReady 5.

Abbreviation state := (Server.t PollerLinux.t (Session.t TCPConnection.t ()) * world wire)%type.
Abbreviation configuration := (config PollerLinux.t (Session.t TCPConnection.t ()) (world wire)).

(** ** A line that fits *)

Definition line : bytes := lit "hello" ++ crlf.
Definition y0 : state := made (inl Threads_Single) line.
Definition y1 : state := polled y0.
Definition y2 : state := handled accept_event y1.
Definition y3 : state := polled y2.
Definition y4 : state := handled data_event y3.

Lemma line_runs :
  make 3%Z (inl Threads_Single) (listening line) = (Ret y0.1, y0.2) ∧
  on_poller (poller_wait default_timeout) y0 = (Ret [accept_event], y1) ∧
  handle accept_event y1 = (Ret (), y2) ∧
  on_poller (poller_wait default_timeout) y2 = (Ret [data_event], y3) ∧
  handle data_event y3 = (Ret (), y4).
Proof. vm_compute. split_and!; reflexivity. Qed.

Definition line_labels : list label :=
  (System.Inner <$> [LTest; LWait; LEvent accept_event; LEnd]) ++
  (System.Inner <$> [LTest; LWait; LEvent data_event; LEnd]) ++ [System.Inner LTest].

Lemma line_steps : System.steps fits (at_test y0) line_labels (at_wait y4).
Proof.
  destruct line_runs as (_ & Hw0 & Hh1 & Hw2 & Hh3).
  apply system_steps_app with (c2 := at_test y2); [|apply system_steps_app with (c2 := at_test y4)].
  - eapply system_iteration; [exact Hw0|exact Hh1|reflexivity|..]; apply wire_fits; by vm_compute.
  - eapply system_iteration; [exact Hw2|exact Hh3|reflexivity|..]; apply wire_fits; by vm_compute.
  - econstructor; [apply wire_fits; by vm_compute|constructor; apply (s_test y4.1 y4.2)|constructor].
Qed.

Lemma nothing_left_unread_witness :
  ∃ ls, System.steps fits (Config y0.1 y0.2 AtTest) ls (at_wait y4) ∧
    clients y4.1 = {[5%Z]} ∧ unread (wnet y4.2) 5 = [] ∧
    v_received (inl 5%Z) (wview y4.2) = line ∧ v_sent (inl 5%Z) (wview y4.2) = line.
Proof.
  destruct line_runs as (Hmake & _). pose proof line_steps as Hs.
  eexists. split; [exact Hs|].
  assert (clients y4.1 = {[5%Z]}) as Hc by (vm_compute; reflexivity). split; [done|].
  split; [|vm_compute; split; reflexivity].
  refine (nothing_left_unread 3%Z (inl Threads_Single) (listening line) y0.1 y0.2 _ y4.1 y4.2
    _ _ Hmake Hs _ _ 5%Z _).
  - done.
  - apply (bool_decide_unpack _). by vm_compute.
  - eexists. vm_compute. reflexivity.
  - vm_compute. repeat constructor.
  - rewrite Hc. by apply elem_of_singleton.
Defined.

(** One acceptance, one event. *)
Lemma no_idle_work_witness :
  sum_list (causes_of <$> line_labels) = 1 ∧
  sum_list (events_of <$> line_labels) + upcoming (at_wait y4) ≤ 1.
Proof.
  destruct line_runs as (Hmake & _). split; [reflexivity|].
  refine (no_idle_work 3%Z (inl Threads_Single) (listening line) y0.1 y0.2 fits line_labels (at_wait y4)
    _ _ Hmake line_steps).
  - done.
  - apply (bool_decide_unpack _). by vm_compute.
Defined.

(** ** A line of one byte more than the buffer holds *)

Definition burst : bytes := replicate (S RECV_BUF_SZ) "x"%char.
Definition z0 : state := made (inl Threads_Single) burst.
Definition z1 : state := polled z0.
Definition z2 : state := handled accept_event z1.
Definition z3 : state := polled z2.
Definition z4 : state := handled data_event z3.
Definition z5 : state := polled z4.

Definition any : configuration → Prop := λ _, True.

Lemma burst_runs :
  make 3%Z (inl Threads_Single) (listening burst) = (Ret z0.1, z0.2) ∧
  on_poller (poller_wait default_timeout) z0 = (Ret [accept_event], z1) ∧
  handle accept_event z1 = (Ret (), z2) ∧
  on_poller (poller_wait default_timeout) z2 = (Ret [data_event], z3) ∧
  handle data_event z3 = (Ret (), z4) ∧
  on_poller (poller_wait default_timeout) z4 = (Ret [], z5).
Proof. vm_compute. split_and!; reflexivity. Qed.

(** The server is left waiting, with the last byte unread. *)
Lemma burst_never_read_witness :
  ∃ x', System.steps any (handling [] z4) (System.Inner <$> [LEnd; LTest; LWait; LEnd; LTest]) x' ∧
    5%Z ∈ clients (srv x') ∧
    drop RECV_BUF_SZ burst `suffix_of` unread (wnet (wd x')) 5 ∧ unread (wnet (wd x')) 5 ≠ [].
Proof.
  destruct burst_runs as (Hmake & Hw0 & Hh1 & Hw2 & Hh3 & Hw4).
  assert (unread (wnet z3.2) 5 = burst) as Hu by (vm_compute; reflexivity).
  assert (running_ z2.1 = true ∧ running_ z4.1 = true ∧ running_ z5.1 = true) as (Hr2 & Hr4 & Hr5)
    by (vm_compute; split_and!; reflexivity).
  exists (at_wait z5).
  assert (System.steps any (handling [] z4) (System.Inner <$> [LEnd; LTest; LWait; LEnd; LTest])
    (at_wait z5)) as Hs'.
  { eapply steps_step; [exact I|apply end_step|].
    eapply steps_step; [exact I|exact (test_step _ Hr4)|].
    eapply steps_step; [exact I|exact (wait_step _ _ _ Hw4)|].
    eapply steps_step; [exact I|apply end_step|].
    eapply steps_step; [exact I|exact (test_step _ Hr5)|constructor]. }
  split; [exact Hs'|]. rewrite <-Hu.
  assert (System.steps any (at_test z0) ((System.Inner <$> [LTest; LWait; LEvent accept_event; LEnd]) ++
    (System.Inner <$> [LTest; LWait])) (handling [data_event] z3)) as Hs0.
  { apply system_steps_app with (c2 := at_test z2).
    - refine (system_iteration _ _ _ _ _ Hw0 Hh1 _ I I I I). vm_compute. reflexivity.
    - eapply steps_step; [exact I|exact (test_step _ Hr2)|].
      eapply steps_step; [exact I|exact (wait_step _ _ _ Hw2)|constructor]. }
  refine (burst_never_read 3%Z (inl Threads_Single) (listening burst) z0.1 z0.2 any _
    (handling [data_event] z3) (LEvent data_event) (handling [] z4) 5%Z _ (at_wait z5)
    _ _ Hmake Hs0 _ _ _ _ _ _ _ Hs' _).
  - done.
  - apply (bool_decide_unpack _). by vm_compute.
  - exact (event_step _ [] _ _ Hh3).
  - apply (bool_decide_unpack _). by vm_compute.
  - split; apply (bool_decide_unpack _); by vm_compute.
  - by intros e [= <-].
  - by apply not_elem_of_nil.
  - assert (Forall (λ x, queued x = []) (ThreadManager.threads_ (thread_manager_ z4.1))) as Hq
      by (vm_compute; repeat constructor).
    intros (y & Hy & Hc). rewrite Forall_forall in Hq. rewrite (Hq y Hy) in Hc. by apply elem_of_nil in Hc.
  - change (RECV_BUF_SZ < length (unread (wnet z3.2) 5)). rewrite Hu. unfold burst. rewrite length_replicate. lia.
  - intros d Hd. cbn in Hd. by repeat (apply elem_of_cons in Hd as [?|Hd]; [done|]); apply elem_of_nil in Hd.
Defined.
