(* ===== verification/LineScenarios.v ===== *)
(** * A conversation of lines

    The echo server of main.cc over the network of [SimNet]: a line arrives in
    two pieces, and is answered when it is complete. *)

From S2P Require Import Prelude Cpp Log OS Sim Connection TCPConnection Session LineSession LineCuts.
From S2P Require Import Threads ThreadsSpec Poller PollerSpec Server ServerSpec TCPServer.
From S2P Require Import TCPServerSpec Apps Network PollerNet Delivery Conversation SimNet.
From S2P Require Import EchoServers DeliveryScenarios.
From S2P Require LoadTest EndToEnd LoadScenarios.
Import Server Machine System.

#[local] Existing Instances DeliveryScenarios.platform PollerLinux.ops Linux.poller.
#[local] Existing Instances conns conns_spec conns_whole conns_close conns_net tcp_server_ops tcp_server_spec.
#[local] Instance wire_whole : WholeKernel wire.
Proof. split. intros fd d k r k' [= <- <-]. by right. Defined.

Abbreviation session := (LineSession.t TCPConnection.t ()).
Abbreviation line_state := (Server.t PollerLinux.t session * world wire)%type.

#[local] Instance wire_conns : ConnectionOps TCPConnection.t (world wire) := conns 10.
#[local] Instance wire_server_spec : ServerSpec TCPConnection.t wire := tcp_server_spec 10.

(** ** Two pieces *)

(** Equations of states, compared by the virtual machine without their normal
    forms. *)
Ltac evaluate :=
  cbn beta;
  lazymatch goal with
  | |- _ ∧ _ => split; evaluate
  | |- Forall _ [] => constructor
  | |- Forall _ (_ :: _) => constructor; evaluate
  | |- Forall _ _ => apply (bool_decide_unpack _); vm_cast_no_check I
  | |- _ = ?b => vm_cast_no_check (@eq_refl _ b)
  end.

Section pieces.
Variables (process : bytes → M () bytes) (sep : bytes) (incl : bool) (first rest : bytes).

#[local] Instance wire_lines : SessionOps session (world wire) := lines process 10 1000.
#[local] Instance wire_lines_spec : SessionSpec session wire := lines_spec process 10 1000.
#[local] Instance wire_protocol : ProtocolOps TCPConnection.t session := line_protocol sep incl ().
#[local] Instance wire_protocol_spec : ProtocolSpec TCPConnection.t session (world wire) :=
  line_protocol_spec (K:=wire) process sep incl () 10 1000.

(** The world of [x] after [d] has arrived at the client. *)
Definition receives (d : bytes) (x : line_state) : line_state :=
  (x.1, World (wire_arrive 5 d (kern x.2)) (logs x.2)).

(** A client is accepted with [first], then [rest] arrives. *)
Definition l0 : line_state := made (inl Threads_Single) first.
Definition l1 : line_state := polled l0.
Definition l2 : line_state := handled accept_event l1.
Definition l3 : line_state := polled l2.
Definition l4 : line_state := handled data_event l3.
Definition l5 : line_state := receives rest l4.
Definition l6 : line_state := polled l5.
Definition l7 : line_state := handled data_event l6.

Definition small (x : line_state) : bool :=
  bool_decide (map_Forall (λ _ u, length u ≤ RECV_BUF_SZ) (w_unread (kern x.2))).

(** What the evaluation of the states has to show. *)
Definition goes_well : Prop :=
  make 3%Z (inl Threads_Single) (listening first) = (Ret l0.1, l0.2) ∧
  on_poller (poller_wait default_timeout) l0 = (Ret [accept_event], l1) ∧
  handle accept_event l1 = (Ret (), l2) ∧
  on_poller (poller_wait default_timeout) l2 = (Ret [data_event], l3) ∧
  handle data_event l3 = (Ret (), l4) ∧
  on_poller (poller_wait default_timeout) l5 = (Ret [data_event], l6) ∧
  handle data_event l6 = (Ret (), l7) ∧
  Forall (λ x, small x = true ∧ running_ x.1 = true) [l0; l1; l2; l3; l4; l5; l6; l7] ∧
  (epoll_wait (PollerLinux.epoll_fd (poller_ l7.1)) EVENT_BUFFER_SZ
     (to_int default_timeout) (kern l7.2)).1 = (0%Z, []) ∧
  Forall (λ x, queued x = []) (ThreadManager.threads_ (thread_manager_ l7.1)) ∧
  bool_decide (5%Z ∈ clients l4.1) = true.

Definition before : list label :=
  (Inner <$> [LTest; LWait; LEvent accept_event; LEnd]) ++
  (Inner <$> [LTest; LWait; LEvent data_event; LEnd]).
Definition after : list label :=
  Arrives 5 rest :: (Inner <$> [LTest; LWait; LEvent data_event; LEnd]) ++ [Inner LTest].

Lemma arrives_step d x : System.step (at_test x) (Arrives 5 d) (at_test (receives d x)).
Proof. destruct x. apply sys_arrives; [done|apply wire_arrive_net]. Qed.

Lemma pieces_steps :
  goes_well →
  System.steps fits (at_test l0) before (at_test l4) ∧
  System.steps fits (at_test l4) after (at_wait l7).
Proof.
  intros (_ & Hw0 & Hh1 & Hw2 & Hh3 & Hw5 & Hh6 & Hf & _).
  assert (∀ i x p, [l0; l1; l2; l3; l4; l5; l6; l7] !! i = Some x → fits (Config x.1 x.2 p)) as Hfit.
  { intros i x p Hx. apply wire_fits. by apply (Forall_lookup_1 _ _ _ _ Hf Hx). }
  assert (∀ i x, [l0; l1; l2; l3; l4; l5; l6; l7] !! i = Some x → running_ x.1 = true) as Hrun.
  { intros i x Hx. by apply (Forall_lookup_1 _ _ _ _ Hf Hx). }
  split.
  - apply system_steps_app with (c2 := at_test l2).
    + eapply system_iteration; [exact Hw0|exact Hh1|by apply (Hrun 0)|by apply (Hfit 0)..|by apply (Hfit 1)|by apply (Hfit 2)].
    + eapply system_iteration; [exact Hw2|exact Hh3|by apply (Hrun 2)|by apply (Hfit 2)..|by apply (Hfit 3)|by apply (Hfit 4)].
  - eapply steps_step; [by apply (Hfit 4)|exact (arrives_step rest l4)|].
    apply system_steps_app with (c2 := at_test l7).
    + eapply system_iteration; [exact Hw5|exact Hh6|by apply (Hrun 5)|by apply (Hfit 5)..|by apply (Hfit 6)|by apply (Hfit 7)].
    + eapply steps_step; [by apply (Hfit 7)|apply test_step; by apply (Hrun 7)|constructor].
Qed.

Lemma pieces_rest :
  goes_well → rests 3 (inl Threads_Single) (listening first) (at_test l4) 5 after l7.1 l7.2.
Proof.
  intros Hg. destruct (pieces_steps Hg) as [Hs Hs'].
  destruct Hg as (Hmake & _ & _ & _ & _ & _ & _ & _ & Ht & Hq & Hc). split.
  - done.
  - apply (bool_decide_unpack _). by vm_compute.
  - exists l0.1, l0.2, before. split; [exact Hmake|exact Hs].
  - by apply bool_decide_eq_true in Hc.
  - exact Hs'.
  - repeat constructor; intros []; done.
  - destruct (epoll_wait _ _ _ _) as [r k] eqn:He. cbn in Ht. subst r. by exists k.
  - exact Hq.
Qed.
End pieces.

(** ** The echo server of main.cc *)

Abbreviation echo := EchoProtocol.process.
Definition hel : bytes := lit "hel".
Definition rest_of_lines : bytes := lit "lo" ++ crlf ++ lit "world!" ++ crlf ++ lit "x".
Definition both_answers : bytes := lit "|hello|" ++ crlf ++ lit "|world!|" ++ crlf.

Lemma echo_goes_well : goes_well echo crlf false hel rest_of_lines.
Proof. unfold goes_well. evaluate. Qed.

(** The beginning of a line has been received and waits in the buffer. *)
Lemma sessions_serve_witness :
  ∃ ses, all_sessions (thread_manager_ (l4 echo crlf false hel).1) !! 5%Z = Some ses ∧
    LineSession.buffer_ ses = hel ∧ conversation echo crlf false () ses (hel, []).
Proof.
  pose proof echo_goes_well as Hg. destruct (pieces_steps _ _ _ _ _ Hg) as [Hs _].
  destruct Hg as (Hmake & _). assert (crlf ≠ []) as Hsep by done.
  pose proof (line_contract (C:=TCPConnection.t) (K:=wire) (ConnectionWhole0:=conns_whole 10)
    echo crlf false () Hsep 1000 : SessionContract (SessionOps0:=wire_lines echo) session
      (conversation echo crlf false ())) as Hcon.
  assert (stream 5 (wview (l4 echo crlf false hel).2) = (hel, [])) as Hst by (vm_compute; reflexivity).
  eexists. split; [vm_compute; reflexivity|]. split; [vm_compute; reflexivity|]. rewrite <-Hst.
  refine (sessions_serve (C:=TCPConnection.t) (SessionOps0:=wire_lines echo)
    (ProtocolOps0:=wire_protocol crlf false) (ProtocolSpec0:=wire_protocol_spec echo crlf false)
    (SessionSpec0:=wire_lines_spec echo) (conversation echo crlf false ())
    (conversation_new echo crlf false () Hsep)
    3%Z (inl Threads_Single) (listening hel) (at_test (l4 echo crlf false hel)) 5%Z _ _ _).
  - split_and!.
    + intros n Hn. discriminate Hn.
    + apply (bool_decide_unpack _). by vm_compute.
    + eexists _, _, _. split; [exact Hmake|]. by eapply system_steps_any.
  - vm_compute. reflexivity.
Defined.

Lemma lines_answered_witness :
  ∃ lines buffer p,
    hel ++ rest_of_lines = LineSession.unlines crlf lines ++ buffer ∧
    LineSession.answer echo (line_of crlf false) lines [] () = (Ret both_answers, p, []) ∧
    cuts crlf 0 lines ∧ string_find buffer crlf (last_length 0 lines) = None.
Proof.
  assert (v_sent (inl 5%Z) (wview (l7 echo crlf false hel rest_of_lines).2) = both_answers) as <-
    by (vm_compute; reflexivity).
  assert (arrived 5 (l4 echo crlf false hel).2 = hel) as <- by (vm_compute; reflexivity).
  refine (lines_answered echo crlf false () 10 1000 _ _ _ _ _ _ _ _ _ (pieces_rest _ _ _ _ _ echo_goes_well)).
  done.
Defined.

Lemma ordered_lines_answered_witness :
  ∃ p, LineSession.answer echo (line_of crlf false) [lit "hello"; lit "world!"] [] () =
    (Ret both_answers, p, []).
Proof.
  assert (v_sent (inl 5%Z) (wview (l7 echo crlf false hel rest_of_lines).2) = both_answers) as <-
    by (vm_compute; reflexivity).
  assert (arrived 5 (l4 echo crlf false hel).2 = hel) as Harr by (vm_compute; reflexivity).
  refine (ordered_lines_answered echo crlf false () 10 1000 _ _ _ _ _ _ _ _ _ (lit "x") _
    (pieces_rest _ _ _ _ _ echo_goes_well) _ _ _ _).
  - done.
  - cbn [wd at_test]. rewrite Harr. reflexivity.
  - repeat constructor; (eapply whole_line_fresh; [reflexivity|]);
      apply (bool_decide_unpack _); by vm_compute.
  - by vm_compute.
  - vm_compute. repeat constructor.
Defined.

(** ** The server of the load test *)

Definition request1 : bytes := lit "0123456789".
Definition request2 : bytes := lit "ABCDEFGHIJ".
Definition arrives1 : bytes := lit "01234".
Definition arrives2 : bytes := lit "56789" ++ [LF] ++ request2 ++ [LF].

Lemma load_goes_well : goes_well LoadTestProtocol.process [LF] true arrives1 arrives2.
Proof. unfold goes_well. evaluate. Qed.

Lemma load_server_echoes_witness :
  v_sent (inl 5%Z) (wview (l7 LoadTestProtocol.process [LF] true arrives1 arrives2).2) =
    arrives1 ++ arrives2.
Proof.
  assert (arrived 5 (l4 LoadTestProtocol.process [LF] true arrives1).2 = arrives1) as Harr
    by (vm_compute; reflexivity).
  rewrite <-Harr at 2.
  refine (load_server_echoes 10 1000 10 _ _ _ _ _ _ _ _ [request1; request2]
    (pieces_rest _ _ _ _ _ load_goes_well) _ _).
  - cbn [wd at_test]. rewrite Harr. reflexivity.
  - repeat constructor; apply (bool_decide_unpack _); by vm_compute.
Defined.

(** ** The load generator against the server of the load test *)

#[local] Existing Instances LoadScenarios.whole_client LoadScenarios.whole_client_spec
  LoadScenarios.whole_client_whole LoadScenarios.whole_time LoadScenarios.whole_time_laws
  LoadScenarios.whole_rand.

Definition zeros1 : bytes := lit "0000".
Definition zeros2 : bytes := lit "000000" ++ [LF].

Lemma zeros_go_well : goes_well LoadTestProtocol.process [LF] true zeros1 zeros2.
Proof. unfold goes_well. evaluate. Qed.

Lemma attempt_against_server_witness :
  ∃ r client w', LoadTest.attempt 1000 (mret (Client.TCPClient.Make 5)) LoadScenarios.client_side =
      (Ret (r, client), w') ∧ LoadTest.output r = LoadTest.Success.
Proof.
  destruct LoadScenarios.client_attempt as (r & client & w' & Hr & Hne). exists r, client, w'. split; [exact Hr|].
  destruct (EndToEnd.attempt_against_server (K1:=whole_sim) (K:=wire) (P:=PollerLinux.t) 10 1000 1000 (mret (Client.TCPClient.Make 5))
    LoadScenarios.client_side r client w' Hr Hne) as (request & reply & Hex & _ & Hall).
  destruct (LoadScenarios.client_exchange _ _ _ _ _ Hr Hex) as [-> ->].
  assert (arrived 5 (l4 LoadTestProtocol.process [LF] true zeros1).2 = zeros1) as Harr
    by (vm_compute; reflexivity).
  refine (Hall _ _ _ _ _ _ _ _ (pieces_rest _ _ _ _ _ zeros_go_well) _ _).
  - cbn [wd at_test]. rewrite Harr. reflexivity.
  - vm_compute. reflexivity.
Defined.
